(* ===== verification/_CoqProject ===== *)
-Q . S2P
Prelude.v
RustString.v
AgentId.v
AgentTypeId.v
Regex.v
Json.v
ProtocolVersion.v
RemoteConfig.v
Callbacks.v
YamlConfig.v
Variables.v
Templates.v
Secrets.v
OciTypes.v
Registry.v
RemoteConfigParser.v
ConfigRepo.v
FileStore.v
HostFs.v
PackageManager.v
Filesystem.v
InstanceId.v
OnHostCleaner.v
GarbageCollector.v
K8sStore.v
DynamicConfig.v
AgentControlStore.v
Backoff.v
SelfUpdate.v
Health.v
OnHostProcess.v
SubAgent.v
Validators.v
OnHostSupervisor.v
RuntimeConfig.v
Assembler.v
K8sObjects.v
K8sHealth.v
K8sCheckers.v
K8sSupervisor.v
K8sUpdater.v
OnHostHealth.v
EffectiveConfig.v
AgentControl.v
Status.v
