(* ===== verification/Prelude.v ===== *)
(** * A verification of New Relic Agent Control

    Agent Control is a daemon that runs and configures other agents (its sub-agents).  It
    talks to a backend over the OpAMP protocol: remote configurations arrive, for itself (the
    list of sub-agents and their types) and for each sub-agent (their values); it stores them,
    applies them, and reports for each one whether it is applying, applied or failed.  On a
    host a sub-agent is a set of processes, restarted when they exit; in Kubernetes it is a set
    of objects.

    Paths below are relative to [src/agent-control/src].  A file of this development is named
    after what it models and opens with the list of the source files it translates; a
    definition has the name of the function it translates where that is free.

    ** The parts and where they are modelled

    Messages and Agent Control itself:
    - OpAMP messages ([opamp/remote_config.rs], [opamp/callbacks.rs]): [RemoteConfig] has the
      configuration, its hash and state; [Callbacks] the handling of a server message, which
      publishes the events the other parts consume.
    - What is accepted ([opamp/remote_config/validators]): [Validators], the deny rules and the
      signatures, over the patterns of [Regex].
    - Agent Control ([agent_control.rs], [agent_control/error.rs], [sub_agent/collection.rs]):
      [AgentControl], with the event loop, the application of a remote configuration to the set
      of sub-agents, and the state reported and stored for it.
    - Its configuration ([agent_control/config.rs]): [DynamicConfig]; and where it is stored
      ([agent_control/config_repository/store.rs]): [AgentControlStore].
    - Its updates: on a host [SelfUpdate] ([agent_control/version_updater/on_host.rs], the
      [self-replacer] crate), in Kubernetes [K8sUpdater] ([version_updater/k8s.rs]).
    - What it shows and reports: [Status] ([agent_control/http_server]), [EffectiveConfig]
      ([opamp/effective_config], [opamp/attributes.rs]).
    - What it removes when a sub-agent leaves ([agent_control/resource_cleaner]):
      [OnHostCleaner] and [GarbageCollector].

    Sub-agents:
    - A sub-agent ([sub_agent.rs], [sub_agent/event_handler/on_health.rs],
      [opamp/operations.rs]): [SubAgent], with its event loop, the handling of a remote
      configuration and the life of its supervisor.
    - From the configuration to what runs: [RemoteConfigParser] and [YamlConfig] read the values
      ([sub_agent/remote_config_parser.rs], [values/yaml_config.rs]), [Registry] finds the agent
      type ([agent_type/registry]), [Variables] gives its variables their values
      ([agent_type/variable]), [Secrets] loads the secrets ([secrets_provider]), [Templates]
      replaces the placeholders ([agent_type/templates.rs]), [RuntimeConfig] renders the deployment
      ([agent_type/runtime_config]) and [Assembler] composes them
      ([sub_agent/effective_agents_assembler.rs], [agent_type/render.rs]).
    - On a host: [OnHostSupervisor] starts, replaces and stops the threads
      ([sub_agent/on_host/supervisor.rs]), [OnHostProcess] is the thread of one process,
      [Filesystem] writes the files of the agent type and [PackageManager] installs its packages,
      both on the disk of [HostFs]; [OciTypes] are the references of packages; [OnHostHealth] is
      the health ([checkers/health/on_host]).
    - In Kubernetes: [K8sObjects] builds and applies the objects ([k8s/dynamic_object.rs],
      [sub_agent/k8s/supervisor.rs]), [K8sSupervisor] has the threads of the supervisor,
      [K8sHealth] and [K8sCheckers] read the health, the version and the entity of the agent
      from the cluster ([checkers/health/k8s], [checkers/version], [checkers/guid]).

    Stores and tools:
    - Stored values ([values.rs], [values/config.rs], [values/config_repository.rs],
      [data_store.rs]): [ConfigRepo], against the interface [DataStore], which [FileStore] on a
      host ([on_host/file_store.rs]) and [K8sStore] in Kubernetes ([k8s/configmap_store.rs])
      implement.  [InstanceId] ([opamp/instance_id]) keeps the identifiers of instances in them.
    - Delays, restarts and gates ([utils/retry.rs], [utils/backoff_gate.rs],
      [sub_agent/on_host/command/restart_policy.rs]): [Backoff].
    - Health values and the thread of a checker ([checkers/health]): [Health].
    - Identifiers ([agent_control/agent_id.rs], [agent_type/agent_type_id.rs],
      [agent_type/protocol_version.rs]): [AgentId], [AgentTypeId], [ProtocolVersion].
    - [RustString] and [Json] have the string functions of the standard library and the
      document values the code uses.  This file has results, stateful code, the rules to reason
      about it, and the merge of maps.

    Remote configurations flow from [Callbacks] to [AgentControl] or [SubAgent].  [SubAgent] uses
    [RemoteConfigParser] with the [Validators], a [ConfigRepository] and the [Assembler], and
    drives a supervisor, [OnHostSupervisor] or [K8sSupervisor].  [AgentControl] creates and
    removes sub-agents, cleans up after them and asks for updates of itself.

    ** How the code is modelled

    - A fallible function returns [result]; [let?] is the question mark operator.
    - Stateful code is a function of type [M S A]; [let*] sequences it and [let*?] also returns
      early on an error.
    - The state of a component is a record, the world, with a log of the effects performed
      (messages sent, threads started and stopped).
    - What the rest of the system answers (a supervisor that does not start, a client that
      fails) is an environment, a function of the log, so that two calls may differ.  Disks,
      stores and clusters are data; a list of faults says which calls on them fail, and a call
      that fails may have done a part of its work.
    - The events a loop receives, and what a thread observes, are lists, and loops recurse on
      them.
    - A panic is a value: [None], [AcPanic] or [ThreadPanic].
    - A text is its UTF-8 bytes.  Error texts of libraries are parameters or faults.
    - The iteration order of a hash map is the class [HashOrder]; the theorems hold for any.
    - Libraries are classes with the behaviour the code relies on: [SemVer], [Yaml],
      [DynamicSerde], [JsonErrors], [RegexLib], [PackageTools], [ApiServer], [PatchServer],
      [KubeText], [HealthSources], [Outside] and others, each with its laws in a class of its
      own where a theorem needs them.
    - [DataStore], [ConfigRepository] and [InstanceIDStorer] are interfaces of the code with their
      laws.  [FileStore] and [K8sStore] prove those of the first and the last, [ConfigRepo] those
      of the second from the first, and the theorems on agents use only the laws.
    - [MemStore], [plain_semver], [names_yaml] and the [example_] definitions are concrete
      instances, on which the theorems with hypotheses are applied.

    ** What the theorems show

    - Sub-agents: every outcome of a remote configuration, with the state stored and reported
      for it; at most one supervisor runs at a time, a stop request stops it, a configuration
      already settled is not applied again, and one left applying at a restart is settled.
    - Agent Control: which sub-agents are stopped, recreated and started by a configuration;
      what is answered and stored.  When the repository, the client, the builders and the
      cleaners work and no configuration is empty, the sub-agents that run after any events
      are those of the current configuration, and nothing runs after the loop ends.
    - Configurations: only signed configurations are accepted, the deny rules match exactly what
      they say; what a repository returns after each operation, on the stores of hosts and of
      clusters, whatever fails in them; the effective configuration that is reported.
    - Assembling: which value each variable has, that templates are replaced in one pass, that
      secrets are loaded exactly when a configuration names them, and that what an agent type
      renders stays below the directory of its sub-agent.
    - Hosts: the files of a sub-agent are those it declares after a write that works, nothing
      is written or deleted outside its directory; which packages stay installed; the iteration
      that sees a stop request ends a process thread, restarts are bounded, and a supervisor owns
      its threads.  An update of Agent Control keeps a whole binary in place at every moment on
      Unix and installs only what passed the dry run.
    - Clusters: one round of the supervisor puts the objects of a sub-agent in place and the next
      writes nothing; the garbage collector removes exactly what belongs to sub-agents that left
      or changed type; applying a configuration replaces the threads; an agent is healthy
      exactly when the resources its checks select are.
    - Status, instance identifiers, delays, health values, identifiers and versions: exact
      behaviour, bounds and round trips.
    - Flaws, each as a theorem on the code as it is: for example a return to the local
      configuration of Agent Control is never acknowledged; a configuration applied in part can
      lose track of a running sub-agent; an override escapes the deny rules; a failure to stage a
      binary on Windows leaves none; a configuration of a running sub-agent in Kubernetes is not
      checked for supported types; an update of the chart that is taken back before a restart
      stays in the cluster.

    ** Bounds and fuel

    Counters and durations have the width of the code ([u32_max], [u64_max],
    [DURATION_MAX]).  Where a debug build panics on overflow and a release build wraps, the
    flag [checks] selects the build.  Floating point delays are computed with the rounding of
    binary32; [default_linear_delays_exact] evaluates the first four thousand retries.

    Recursion is on data, except where the code waits in a loop for a process.  There the fuel is
    the number of polls the timeout allows: 3001 for the hook of a package ([hook_wait_ends]) and
    11 for the dry run of a binary ([dry_run_decides]), and the theorems say that the wait ends by
    then.  A few functions on texts have the length of the text as fuel, of which every step
    takes at least one character.

    ** What is not modelled

    - Logs, traces and metrics, which do not affect the behaviour.
    - Third-party libraries: OpAMP client, YAML and JSON readers, Kubernetes, HTTP and OCI clients,
      cryptography, the watchers of the cluster.
    - Code that only wires these libraries: the download of agent types, the verification of OCI
      artifacts, the construction of OpAMP and HTTP clients, the retrieval of credentials, the
      detection of resources.  It has no decisions of its own beyond calls of code that is not
      here; where a modelled part calls it, it is an answer of the environment.
    - Permissions of files, symbolic links and the Windows API.
    - Threads and channels: they are the events, observations and effects of the models.
    - Separate programs (command line tools, configuration migration) and program start. *)

From stdpp Require Import base option list gmap strings sorting.

#[global] Set Default Proof Using "Type".

(** ** Rust's [Result] *)

Inductive result (A E : Type) : Type :=
| Ok (a : A)
| Err (e : E).
Arguments Ok {A E} a.
Arguments Err {A E} e.

#[export] Instance result_eq_dec {A E} `{!EqDecision A, !EqDecision E} :
  EqDecision (result A E).
Proof. solve_decision. Defined.

(** [Result::is_ok] *)
#[export] Instance Ok_inj {A E} : Inj (=) (=) (@Ok A E).
Proof. by intros a b [= ->]. Qed.

Definition is_ok {A E} (r : result A E) : bool :=
  match r with Ok _ => true | Err _ => false end.

(** [Result::ok] *)
Definition ok {A E} (r : result A E) : option A :=
  match r with Ok a => Some a | Err _ => None end.

(** [Result::map] *)
Definition map_ok {A B E} (f : A -> B) (r : result A E) : result B E :=
  match r with Ok a => Ok (f a) | Err e => Err e end.

(** [Result::map_err] *)
Definition map_err {A E F} (f : E -> F) (r : result A E) : result A F :=
  match r with Ok a => Ok a | Err e => Err (f e) end.

(** [Result::and_then] *)
Definition and_then {A B E} (r : result A E) (f : A -> result B E) : result B E :=
  match r with Ok a => f a | Err e => Err e end.

(** [Option::ok_or] *)
Definition ok_or {A E} (o : option A) (e : E) : result A E :=
  match o with Some a => Ok a | None => Err e end.

(** ** Effects

    Stateful code is a function that passes its state explicitly.  The state is
    returned on every path, so what an operation did before an early return is
    kept, as it is in the source. *)

Definition M (S A : Type) : Type := S -> A * S.

Definition ret {S A} (a : A) : M S A := fun s => (a, s).

Definition bind {S A B} (m : M S A) (k : A -> M S B) : M S B :=
  fun s => let '(a, s') := m s in k a s'.

(** Sequencing through the [?] operator: an [Err] is returned at once. *)
Definition bind_try {S A B E} (m : M S (result A E)) (k : A -> M S (result B E)) :
  M S (result B E) :=
  fun s => match m s with
           | (Ok a, s') => k a s'
           | (Err e, s') => (Err e, s')
           end.

Declare Scope rust_scope.
Delimit Scope rust_scope with rust.

Notation "'let*' x := m 'in' k" := (bind m (fun x => k))
  (at level 10, x name, m at level 200, k at level 200) : rust_scope.
Notation "'let*?' x := m 'in' k" := (bind_try m (fun x => k))
  (at level 10, x name, m at level 200, k at level 200) : rust_scope.

(** Pure sequencing through [?]. *)
Notation "'let?' x := r 'in' k" := (and_then r (fun x => k))
  (at level 10, x name, r at level 200, k at level 200) : rust_scope.

#[global] Open Scope rust_scope.

(** A run is determined by its result and its state. *)
Lemma run_result {S A} (m : M S A) s a : (m s).1 = a -> m s = (a, (m s).2).
Proof. intros <-. apply surjective_pairing. Qed.

(** The error of a step is mapped by [map_err] before [?]. *)
Definition map_err_m {S A E F} (f : E -> F) (m : M S (result A E)) : M S (result A F) :=
  fun s => let '(r, s') := m s in (map_err f r, s').

(** A [for] loop whose body cannot leave it. *)
Fixpoint for_each {S A} (l : list A) (body : A -> M S unit) : M S unit :=
  match l with
  | [] => ret tt
  | a :: l => let* _ := body a in for_each l body
  end.

(** A [for] loop whose body may return early through [?]. *)
Fixpoint try_for_each {S A E} (l : list A) (body : A -> M S (result unit E)) :
  M S (result unit E) :=
  match l with
  | [] => ret (Ok tt)
  | a :: l => let*? _ := body a in try_for_each l body
  end.

(** [Iterator::try_fold] on [Result]. *)
Fixpoint try_fold {A B E} (f : B -> A -> result B E) (b : B) (l : list A) : result B E :=
  match l with
  | [] => Ok b
  | a :: l => let? b' := f b a in try_fold f b' l
  end.

(** [Iterator::map] collected into a [Result]: the first error ends it. *)
Definition try_map {A B E} (f : A -> result B E) : list A -> result (list B) E :=
  fix go l :=
    match l with
    | [] => Ok []
    | a :: l => let? b := f a in let? bs := go l in Ok (b :: bs)
    end.

Lemma try_map_ok {A B E} (f : A -> result B E) l l' :
  try_map f l = Ok l' <-> Forall2 (fun a b => f a = Ok b) l l'.
Proof.
  revert l'. induction l as [|a l IH]; intros l'; simpl.
  - split; [intros [= <-]; constructor|by intros ->%Forall2_nil_inv_l].
  - unfold and_then. split.
    + destruct (f a) as [b|] eqn:Hb; simpl; [|done]. destruct (try_map f l) as [bs|] eqn:Hl; simpl; [|done].
      intros [= <-]. constructor; [done|by apply IH].
    + intros (b & bs & Hb & Hl%IH & ->)%Forall2_cons_inv_l. by rewrite Hb, Hl.
Qed.

(** ** [HashMap] iteration

    A [HashMap] is a [gmap].  The order in which it is iterated is not specified
    by the language, so it is an argument of the definitions that iterate one:
    any enumeration of the entries. *)

Class HashOrder : Type := {
  entries : forall {K V} `{Countable K}, gmap K V -> list (K * V);
  entries_perm : forall {K V} `{Countable K} (m : gmap K V), entries m ≡ₚ map_to_list m;
}.

(** One such order, used to evaluate the definitions. *)
#[export] Instance canonical_order : HashOrder | 100 := {|
  entries := fun _ _ _ _ m => map_to_list m;
  entries_perm := fun _ _ _ _ m => reflexivity _;
|}.

Section HashOrderFacts.
Context `{HO : HashOrder} {K V : Type} `{Countable K}.
Implicit Types m : gmap K V.

Lemma elem_of_entries m k v : (k, v) ∈ entries m <-> m !! k = Some v.
Proof. rewrite entries_perm. apply elem_of_map_to_list. Qed.

Lemma NoDup_fst_entries m : NoDup (entries m).*1.
Proof. rewrite entries_perm. apply NoDup_fst_map_to_list. Qed.

Lemma entries_empty : entries (∅ : gmap K V) = [].
Proof. apply Permutation_nil_r. rewrite entries_perm. by rewrite map_to_list_empty. Qed.

Lemma elem_of_entries_fst m k : k ∈ (entries m).*1 <-> is_Some (m !! k).
Proof.
  rewrite list_elem_of_fmap. split.
  - intros ([k' v] & -> & Hin%elem_of_entries). by exists v.
  - intros [v Hv]. exists (k, v). split; [done|]. by apply elem_of_entries.
Qed.

Lemma Forall_entries (P : K -> V -> Prop) m :
  Forall (fun kv => P kv.1 kv.2) (entries m) <-> map_Forall P m.
Proof.
  rewrite Forall_forall, map_Forall_lookup. setoid_rewrite <-elem_of_entries. split.
  - intros H' k v Hin. by apply (H' (k, v)).
  - intros H' [k v] Hin. by apply H'.
Qed.

Lemma list_to_map_entries m : list_to_map (entries m) = m.
Proof.
  rewrite <-(list_to_map_to_list m) at 2.
  apply list_to_map_proper; [apply NoDup_fst_entries|apply entries_perm].
Qed.

(** Inserting entries one after the other: a key they do not have keeps its value, one they have
    once gets theirs. *)
Lemma fold_insert_ne (l : list (K * V)) m k :
  k ∉ l.*1 -> fold_left (fun acc kv => <[kv.1 := kv.2]> acc) l m !! k = m !! k.
Proof.
  revert m. induction l as [|[k' v] l IH]; intros m; [done|]. intros [Hne Hl]%not_elem_of_cons. simpl in *.
  rewrite IH by done. by apply lookup_insert_ne.
Qed.

Lemma fold_insert_lookup (l : list (K * V)) m k v :
  (k, v) ∈ l -> (forall v', (k, v') ∈ l -> v' = v) ->
  fold_left (fun acc kv => <[kv.1 := kv.2]> acc) l m !! k = Some v.
Proof.
  revert m. induction l as [|[k' v0] l IH]; intros m Hin Hu; [by apply not_elem_of_nil in Hin|]. simpl.
  destruct (decide (k ∈ l.*1)) as [Hl|Hl].
  - apply list_elem_of_fmap in Hl as ([? v'] & -> & Hv). assert (v' = v) as -> by (apply Hu; by right).
    apply IH; [done|]. intros v' Hv'. apply Hu. by right.
  - rewrite fold_insert_ne by done. apply elem_of_cons in Hin as [[= -> ->]|Hin]; [by apply lookup_insert_eq|].
    destruct Hl. apply list_elem_of_fmap. by exists (k, v).
Qed.
End HashOrderFacts.

(** ** Automation *)

Create HintDb rust.

(** Unfolds the effect combinators. *)
Ltac unfold_effects :=
  unfold bind, bind_try, map_err_m, ret, and_then, map_err, map_ok, ok_or, ok in *.

(** Splits every branch of the code under consideration. *)
Ltac split_branches :=
  repeat (simpl in *; simplify_eq; case_match); simpl in *; simplify_eq.

(** ** Reasoning about stateful code

    [hoare P m Q]: from a state in [P], [m] returns and ends in [Q]. *)

Definition hoare {S A} (P : S -> Prop) (m : M S A) (Q : A -> S -> Prop) : Prop :=
  forall s, P s -> Q (m s).1 (m s).2.

Section Hoare.
Context {S : Type}.

Lemma hoare_ret {A} (P : S -> Prop) (Q : A -> S -> Prop) a :
  (forall s, P s -> Q a s) -> hoare P (ret a) Q.
Proof. intros H s Hs. by apply H. Qed.

Lemma hoare_bind {A B} P (m : M S A) (k : A -> M S B) Q X :
  hoare P m Q -> (forall a, hoare (Q a) (k a) X) -> hoare P (bind m k) X.
Proof.
  intros Hm Hk s Hs. unfold bind. specialize (Hm s Hs). destruct (m s) as [a s'].
  by apply Hk.
Qed.

Lemma hoare_bind_try {A B E} P (m : M S (result A E)) (k : A -> M S (result B E)) Q X :
  hoare P m Q -> (forall a, hoare (Q (Ok a)) (k a) X) ->
  (forall e s, Q (Err e) s -> X (Err e) s) -> hoare P (bind_try m k) X.
Proof.
  intros Hm Hk He s Hs. unfold bind_try. specialize (Hm s Hs). destruct (m s) as [[a|e] s'].
  - by apply Hk.
  - by apply He.
Qed.

Lemma hoare_map_err {A E F} P (f : E -> F) (m : M S (result A E)) Q :
  hoare P m (fun r => Q (map_err f r)) -> hoare P (map_err_m f m) Q.
Proof. intros Hm s Hs. unfold map_err_m. specialize (Hm s Hs). by destruct (m s). Qed.

Lemma hoare_weaken {A} (P P' : S -> Prop) (m : M S A) (Q Q' : A -> S -> Prop) :
  hoare P' m Q' -> (forall s, P s -> P' s) -> (forall a s, Q' a s -> Q a s) -> hoare P m Q.
Proof. intros Hm HP HQ s Hs. by apply HQ, Hm, HP. Qed.

Lemma hoare_exist {A X} (P : X -> S -> Prop) (m : M S A) Q :
  (forall x, hoare (P x) m Q) -> hoare (fun s => exists x, P x s) m Q.
Proof. intros Hm s [x Hs]. by apply (Hm x). Qed.

Lemma hoare_pure {A} (phi : Prop) (P : S -> Prop) (m : M S A) Q :
  (phi -> hoare P m Q) -> hoare (fun s => P s /\ phi) m Q.
Proof. intros Hm s [Hs Hphi]. by apply Hm. Qed.

Lemma hoare_run {A} P (m : M S A) Q s a s' :
  hoare P m Q -> P s -> m s = (a, s') -> Q a s'.
Proof. intros Hm Hs Heq. specialize (Hm s Hs). by rewrite Heq in Hm. Qed.

Lemma hoare_for_each {A} (P : S -> Prop) (l : list A) body :
  (forall a, a ∈ l -> hoare P (body a) (fun _ => P)) -> hoare P (for_each l body) (fun _ => P).
Proof.
  induction l as [|a l IH]; intros Hb; simpl; [by apply hoare_ret|].
  eapply hoare_bind; [apply Hb; by left|]. intros ?. apply IH. intros a' Hin. apply Hb. by right.
Qed.

End Hoare.

Create HintDb hoare.

(** Walks through the code, with the triples of the steps taken from the database. *)
Ltac hoare_step :=
  match goal with
  | |- hoare _ (bind _ _) _ => eapply hoare_bind; [solve [eauto with hoare]|intros ?; cbn beta]
  | |- hoare _ (bind_try _ _) _ =>
      eapply hoare_bind_try; [solve [eauto with hoare]|intros ?; cbn beta|intros ? ?; cbn beta]
  | |- hoare _ (ret _) _ => apply hoare_ret; intros ? ?; cbn beta in *
  | |- hoare _ (match ?x with _ => _ end) _ => destruct x eqn:?; cbn beta iota
  | |- hoare _ _ _ => solve [eauto with hoare]
  end.
Ltac hoare_auto := repeat hoare_step.

(** ** Generic lemmas *)

Lemma try_fold_app {A B E} (f : B -> A -> result B E) b l1 l2 :
  try_fold f b (l1 ++ l2) = and_then (try_fold f b l1) (fun b' => try_fold f b' l2).
Proof.
  revert b. induction l1 as [|a l1 IH]; intros b; simpl; [done|].
  destruct (f b a); simpl; [apply IH|done].
Qed.

(** An invariant of a successful fold. *)
Lemma try_fold_ind {A B E} (f : B -> A -> result B E) (P : list A -> B -> Prop) b l r :
  P [] b ->
  (forall done b a b', P done b -> f b a = Ok b' -> P (done ++ [a]) b') ->
  try_fold f b l = Ok r ->
  P l r.
Proof.
  intros H0 HS. change l with ([] ++ l) at 2. revert H0. generalize (@nil A).
  revert b. induction l as [|a l IH]; intros b done Hb; simpl.
  - intros [= ->]. by rewrite app_nil_r.
  - destruct (f b a) as [b'|e] eqn:Hf; simpl; [|done]. intros Hr.
    rewrite cons_middle, app_assoc. eapply IH; [|done]. by eapply HS.
Qed.

(** ** Merging maps

    A fold whose step decodes a named item into a map and adds it to the accumulator,
    refusing common keys.  It succeeds exactly when every item can be decoded and no key is
    in two of them, and it gives the union. *)

Section Merge.
Context {X K V : Type} `{Countable K}.
Variable dec : string * X -> option (gmap K V).

Definition merge_ok (acc : gmap K V) (l : list (string * X)) : Prop :=
  (forall x, x ∈ l -> exists y, dec x = Some y /\ acc ##ₘ y) /\
  (forall x1 x2 y1 y2, x1 ∈ l -> x2 ∈ l -> x1.1 <> x2.1 ->
     dec x1 = Some y1 -> dec x2 = Some y2 -> y1 ##ₘ y2).

Definition merge_union (acc : gmap K V) (l : list (string * X)) (r : gmap K V) : Prop :=
  forall k v, r !! k = Some v <->
    acc !! k = Some v \/ exists x y, x ∈ l /\ dec x = Some y /\ y !! k = Some v.

Lemma merge_ok_cons acc x l y :
  NoDup (x :: l).*1 -> dec x = Some y -> acc ##ₘ y ->
  merge_ok (acc ∪ y) l <-> merge_ok acc (x :: l).
Proof.
  intros Hnd Hy Hdisj. apply NoDup_cons in Hnd as [Hx Hnd].
  assert (forall x', x' ∈ l -> x.1 <> x'.1) as Hne.
  { intros x' Hin Heq. apply Hx. rewrite Heq. by apply list_elem_of_fmap_2. }
  split.
  - intros [H1 H2]. split.
    + intros x' [->|Hin]%elem_of_cons; [by eauto|].
      destruct (H1 x' Hin) as (y' & Hy' & [? ?]%map_disjoint_union_l). by eauto.
    + intros x1 x2 y1 y2 [->|Hin1]%elem_of_cons [->|Hin2]%elem_of_cons Hk Hy1 Hy2.
      * done.
      * destruct (H1 x2 Hin2) as (y' & Hy' & [? ?]%map_disjoint_union_l).
        assert (y1 = y /\ y2 = y') as [-> ->] by (split; congruence). done.
      * destruct (H1 x1 Hin1) as (y' & Hy' & [? ?]%map_disjoint_union_l).
        assert (y1 = y' /\ y2 = y) as [-> ->] by (split; congruence). done.
      * by eauto.
  - intros [H1 H2]. split.
    + intros x' Hin. destruct (H1 x') as (y' & Hy' & Hacc); [by right|].
      exists y'. split; [done|]. apply map_disjoint_union_l. split; [done|].
      apply (H2 x x'); [by left|by right|by apply Hne|done..].
    + intros x1 x2 y1 y2 ??. apply H2; by right.
Qed.

Lemma merge_union_cons acc x l y r :
  dec x = Some y -> acc ##ₘ y -> merge_union (acc ∪ y) l r <-> merge_union acc (x :: l) r.
Proof.
  intros Hy Hdisj. unfold merge_union.
  assert (forall k v,
    ((acc ∪ y) !! k = Some v \/
     exists x' y', x' ∈ l /\ dec x' = Some y' /\ y' !! k = Some v) <->
    (acc !! k = Some v \/
     exists x' y', x' ∈ x :: l /\ dec x' = Some y' /\ y' !! k = Some v))
    as Heq; [|by setoid_rewrite Heq].
  intros k v. rewrite lookup_union_Some by done. setoid_rewrite elem_of_cons.
  split; [naive_solver|]. intros [?|(x' & y' & [->|Hin] & Hy' & Hk)]; [by eauto| |by eauto 6].
  left; right. congruence.
Qed.

Context {E : Type}.
Variable f : gmap K V -> string * X -> result (gmap K V) E.
Hypothesis f_ok : forall acc x r,
  f acc x = Ok r <-> exists y, dec x = Some y /\ acc ##ₘ y /\ r = acc ∪ y.

Lemma merge_fold_ok l acc r :
  NoDup l.*1 -> try_fold f acc l = Ok r <-> merge_ok acc l /\ merge_union acc l r.
Proof using f_ok.
  revert acc. induction l as [|x l IH]; intros acc Hnd; simpl.
  - split.
    + intros [= ->]. split; [split; set_solver|]. intros k v.
      split; [by left|]. intros [?|(? & ? & Hin & _)]; [done|by apply elem_of_nil in Hin].
    + intros [_ Hu]. f_equal. apply map_eq. intros k.
      apply option_eq. intros v. rewrite (Hu k v). split; [by left|].
      intros [?|(? & ? & Hin & _)]; [done|by apply elem_of_nil in Hin].
  - pose proof Hnd as [_ Hnd']%NoDup_cons. destruct (f acc x) as [m|e] eqn:Hm; simpl.
    + apply f_ok in Hm as (y & Hy & Hdisj & ->). rewrite IH by done.
      by rewrite (merge_ok_cons acc x l y), (merge_union_cons acc x l y).
    + split; [done|]. intros [[H1 _] _]. destruct (H1 x) as (y & Hy & Hd); [by left|].
      assert (f acc x = Ok (acc ∪ y)) by (apply f_ok; by eauto). congruence.
Qed.

End Merge.
