(* ===== verification/RustString.v ===== *)
(** * The string operations the code uses

    A Rust string is its UTF-8 bytes, a [string].  The operations are those of
    [str], [char] and the integer parsers of the standard library.  A predicate
    on ASCII characters holds of no byte of a multi-byte character, so the
    character predicates of the source are predicates on bytes here. *)

From Stdlib Require Import Ascii String.
From stdpp Require Import base option list strings numbers.
From S2P Require Import Prelude.


#[local] Arguments String.append !s1 s2 : simpl nomatch.

(** ** Characters *)

Definition code (c : ascii) : N := N_of_ascii c.

Definition in_range (lo hi : N) (c : ascii) : bool :=
  (lo <=? code c)%N && (code c <=? hi)%N.

(** [char::is_ascii_digit], [is_ascii_lowercase], [is_ascii_uppercase] *)
Definition is_ascii_digit : ascii -> bool := in_range 48 57.
Definition is_ascii_lowercase : ascii -> bool := in_range 97 122.
Definition is_ascii_uppercase : ascii -> bool := in_range 65 90.

(** [char::is_ascii_alphabetic], [is_ascii_alphanumeric] *)
Definition is_ascii_alphabetic (c : ascii) : bool :=
  is_ascii_lowercase c || is_ascii_uppercase c.
Definition is_ascii_alphanumeric (c : ascii) : bool :=
  is_ascii_alphabetic c || is_ascii_digit c.

(** [u8::to_ascii_lowercase] *)
Definition to_ascii_lowercase_char (c : ascii) : ascii :=
  if is_ascii_uppercase c then ascii_of_N (code c + 32) else c.

(** ** Strings *)

Fixpoint str_all (p : ascii -> bool) (s : string) : bool :=
  match s with
  | EmptyString => true
  | String c s => p c && str_all p s
  end.

(** [str::starts_with] and [ends_with] with a predicate *)
Definition starts_with_char (p : ascii -> bool) (s : string) : bool :=
  match s with EmptyString => false | String c _ => p c end.

Fixpoint ends_with_char (p : ascii -> bool) (s : string) : bool :=
  match s with
  | EmptyString => false
  | String c EmptyString => p c
  | String _ s => ends_with_char p s
  end.

(** [str::starts_with] with a string, prefix first *)
Definition starts_with (pre s : string) : bool := String.prefix pre s.

(** [str::to_ascii_lowercase], [str::eq_ignore_ascii_case] *)
Fixpoint to_ascii_lowercase (s : string) : string :=
  match s with
  | EmptyString => EmptyString
  | String c s => String (to_ascii_lowercase_char c) (to_ascii_lowercase s)
  end.

Definition eq_ignore_ascii_case (a b : string) : bool :=
  String.eqb (to_ascii_lowercase a) (to_ascii_lowercase b).

(** [str::is_empty] *)
Definition str_is_empty (s : string) : bool :=
  match s with EmptyString => true | String _ _ => false end.

(** [str::split_once] at a character: the text before and after its first
    occurrence. *)
Fixpoint split_once (sep : ascii) (s : string) : option (string * string) :=
  match s with
  | EmptyString => None
  | String c s =>
      if Ascii.eqb c sep then Some (EmptyString, s)
      else match split_once sep s with
           | Some (a, b) => Some (String c a, b)
           | None => None
           end
  end.

(** [str::split] at a character: the pieces between its occurrences, at least
    one. *)
Fixpoint split (sep : ascii) (s : string) : list string :=
  match s with
  | EmptyString => [EmptyString]
  | String c s =>
      if Ascii.eqb c sep then EmptyString :: split sep s
      else match split sep s with
           | p :: ps => String c p :: ps
           | [] => [String c EmptyString]
           end
  end.

(** The bytes of the first character of a string: its leading byte tells how
    many there are. *)
Definition utf8_width (c : ascii) : nat :=
  if (code c <? 128)%N then 1
  else if (code c <? 224)%N then 2
  else if (code c <? 240)%N then 3 else 4.

Definition first_char (s : string) : string :=
  match s with
  | EmptyString => EmptyString
  | String c _ => String.substring 0 (utf8_width c) s
  end.

(** [str::chars().find]: the first character that satisfies a predicate on its
    leading byte. *)
Fixpoint find_char (p : ascii -> bool) (s : string) : option string :=
  match s with
  | EmptyString => None
  | String c s' => if p c then Some (first_char s) else find_char p s'
  end.

(** [char::is_whitespace] on the ASCII characters *)
Definition is_whitespace (c : ascii) : bool := in_range 9 13 c || Ascii.eqb c " ".

(** [str::trim_start_matches] and [trim_end_matches] with a predicate, [str::trim] *)
Fixpoint trim_start (p : ascii -> bool) (s : string) : string :=
  match s with
  | EmptyString => EmptyString
  | String c s' => if p c then trim_start p s' else s
  end.

Fixpoint trim_end (p : ascii -> bool) (s : string) : string :=
  match s with
  | EmptyString => EmptyString
  | String c s =>
      match trim_end p s with
      | EmptyString => if p c then EmptyString else String c EmptyString
      | t => String c t
      end
  end.

Definition trim (s : string) : string := trim_end is_whitespace (trim_start is_whitespace s).

(** [str::strip_prefix], prefix first *)
Fixpoint strip_prefix (pre s : string) : option string :=
  match pre, s with
  | EmptyString, _ => Some s
  | String a pre, String c s => if Ascii.eqb a c then strip_prefix pre s else None
  | _, EmptyString => None
  end.

(** [str::trim_start_matches] with a string that is not empty; each step removes a character *)
Fixpoint trim_start_str_fuel (fuel : nat) (pre s : string) : string :=
  match fuel with
  | 0 => s
  | S fuel =>
      match strip_prefix pre s with
      | Some s' => trim_start_str_fuel fuel pre s'
      | None => s
      end
  end.

Definition trim_start_str (pre s : string) : string := trim_start_str_fuel (String.length s) pre s.

(** [str::replace] of a pattern that is not empty: its occurrences from left to right that do
    not overlap; [skip] counts the characters left of one that was replaced. *)
Fixpoint replace_from (from to s : string) (skip : nat) : string :=
  match s with
  | EmptyString => EmptyString
  | String c s' =>
      match skip with
      | S skip => replace_from from to s' skip
      | 0 =>
          if starts_with from s then to +:+ replace_from from to s' (String.length from - 1)
          else String c (replace_from from to s' 0)
      end
  end.

Definition replace (s from to : string) : string := replace_from from to s 0.

(** [str::repeat] *)
Fixpoint repeat_str (s : string) (n : nat) : string :=
  match n with 0 => EmptyString | S n => s +:+ repeat_str s n end.

(** ** Decimal numbers *)

Definition digit (n : N) : ascii := ascii_of_N (48 + n).
Definition digit_value (c : ascii) : N := (code c - 48)%N.

(** [Display] of an unsigned integer.  The fuel is the number of binary digits,
    which is at least that of decimal digits. *)
Fixpoint show_digits (fuel : nat) (n : N) (acc : string) : string :=
  match fuel with
  | 0 => acc
  | S fuel =>
      let acc := String (digit (n mod 10)) acc in
      if (n <? 10)%N then acc else show_digits fuel (n / 10) acc
  end.

Definition show_N (n : N) : string := show_digits (S (N.size_nat n)) n EmptyString.

(** [u64::from_str] and its like: an optional [+], then at least one decimal
    digit; [None] when the value does not fit below [bound]. *)
Fixpoint parse_digits (bound acc : N) (s : string) : option N :=
  match s with
  | EmptyString => Some acc
  | String c s =>
      if is_ascii_digit c then
        let acc := (acc * 10 + digit_value c)%N in
        if (acc <? bound)%N then parse_digits bound acc s else None
      else None
  end.

Definition parse_unsigned (bound : N) (s : string) : option N :=
  let s := match s with
           | String c s' => if Ascii.eqb c "+" then s' else s
           | EmptyString => s
           end in
  match s with
  | EmptyString => None
  | _ => parse_digits bound 0 s
  end.

Definition u8_bound : N := 256.
Definition u32_bound : N := 4294967296.
Definition u64_bound : N := 18446744073709551616.

(** ** Lemmas *)

Lemma str_app_assoc (a b c : string) : (a +:+ b) +:+ c = a +:+ (b +:+ c).
Proof. induction a as [|x a IH]; simpl; [done|]. by rewrite IH. Qed.

Lemma str_app_nil_r (a : string) : a +:+ "" = a.
Proof. induction a as [|x a IH]; simpl; [done|]. by rewrite IH. Qed.

Lemma str_length_app (a b : string) :
  String.length (a +:+ b) = String.length a + String.length b.
Proof. induction a as [|x a IH]; simpl; [done|]. by rewrite IH. Qed.

Lemma str_all_app p a b : str_all p (a +:+ b) = str_all p a && str_all p b.
Proof. induction a as [|x a IH]; simpl; [done|]. by rewrite IH, andb_assoc. Qed.

Lemma str_all_impl (p q : ascii -> bool) s :
  (forall c, p c = true -> q c = true) -> str_all p s = true -> str_all q s = true.
Proof.
  intros Hpq. induction s as [|c s IH]; simpl; [done|].
  rewrite !andb_true_iff. intros [Hc Hs]. split; auto.
Qed.

(** A string is its first piece when it is cut at a separator the piece does not
    have. *)
Lemma split_once_app sep a b :
  str_all (fun c => negb (Ascii.eqb c sep)) a = true ->
  split_once sep (a +:+ String sep b) = Some (a, b).
Proof.
  induction a as [|x a IH]; simpl.
  - by rewrite Ascii.eqb_refl.
  - rewrite andb_true_iff, negb_true_iff. intros [-> Ha]. by rewrite IH.
Qed.

Lemma split_once_spec sep s a b :
  split_once sep s = Some (a, b) -> s = a +:+ String sep b.
Proof.
  revert a b. induction s as [|x s IH]; intros a b; simpl; [done|].
  destruct (Ascii.eqb_spec x sep) as [->|Hne].
  - by intros [= <- <-].
  - destruct (split_once sep s) as [[a' b']|]; [|done].
    intros [= <- <-]. simpl. by rewrite (IH a' b').
Qed.

Lemma split_no_sep sep a :
  str_all (fun c => negb (Ascii.eqb c sep)) a = true -> split sep a = [a].
Proof.
  induction a as [|x a IH]; simpl; [done|].
  rewrite andb_true_iff, negb_true_iff. intros [-> Ha]. by rewrite IH.
Qed.

Lemma split_app sep a b :
  str_all (fun c => negb (Ascii.eqb c sep)) a = true ->
  split sep (a +:+ String sep b) = a :: split sep b.
Proof.
  induction a as [|x a IH]; simpl.
  - by rewrite Ascii.eqb_refl.
  - rewrite andb_true_iff, negb_true_iff. intros [-> Ha]. by rewrite IH.
Qed.

Lemma code_digit n : (n < 10)%N -> code (digit n) = (48 + n)%N.
Proof. intros Hn. unfold code, digit. apply N_ascii_embedding. lia. Qed.

Lemma is_ascii_digit_digit n : (n < 10)%N -> is_ascii_digit (digit n) = true.
Proof.
  intros Hn. unfold is_ascii_digit, in_range. rewrite (code_digit n Hn).
  apply andb_true_iff. split; apply N.leb_le; lia.
Qed.

Lemma digit_value_digit n : (n < 10)%N -> digit_value (digit n) = n.
Proof. intros Hn. unfold digit_value. rewrite (code_digit n Hn). lia. Qed.

Lemma starts_with_app a b : starts_with a (a +:+ b) = true.
Proof.
  unfold starts_with. induction a as [|x a IH]; simpl; [by destruct b|].
  by destruct (ascii_dec x x).
Qed.

Lemma show_digits_all fuel n acc :
  str_all is_ascii_digit acc = true -> str_all is_ascii_digit (show_digits fuel n acc) = true.
Proof.
  revert n acc. induction fuel as [|fuel IH]; intros n acc Hacc; simpl; [done|].
  assert (Hd : is_ascii_digit (digit (n mod 10)) = true).
  { apply is_ascii_digit_digit, N.mod_lt. lia. }
  destruct (n <? 10)%N; simpl; [by rewrite Hd|]. apply IH. simpl. by rewrite Hd.
Qed.

Lemma show_N_digits n : str_all is_ascii_digit (show_N n) = true.
Proof. by apply show_digits_all. Qed.

Lemma show_digits_cons fuel n c acc :
  exists c' s, show_digits fuel n (String c acc) = String c' s.
Proof.
  revert n c acc. induction fuel as [|fuel IH]; intros n c acc; simpl; [eauto|].
  destruct (n <? 10)%N; [eauto|]. apply IH.
Qed.

Lemma show_N_cons n : exists c s, show_N n = String c s /\ is_ascii_digit c = true.
Proof.
  assert (exists c s, show_N n = String c s) as (c & s & Hs).
  { unfold show_N. simpl. destruct (n <? 10)%N; [eauto|]. apply show_digits_cons. }
  exists c, s. split; [done|].
  pose proof (show_N_digits n) as Hd. rewrite Hs in Hd. simpl in Hd.
  by apply andb_true_iff in Hd as [-> _].
Qed.

Lemma parse_show_digits bound fuel n acc :
  (n < bound)%N -> (n < 10 ^ N.of_nat fuel)%N -> fuel <> 0 ->
  parse_digits bound 0 (show_digits fuel n acc) = parse_digits bound n acc.
Proof.
  revert n acc. induction fuel as [|fuel IH]; intros n acc Hb Hf H0; [done|]. simpl.
  assert (Hm : (n mod 10 < 10)%N) by (apply N.mod_lt; lia).
  pose proof (N.div_mod n 10 ltac:(lia)) as Hdm.
  destruct (N.ltb_spec n 10) as [Hlt|Hge].
  - simpl. rewrite is_ascii_digit_digit, digit_value_digit by done.
    rewrite (N.mod_small n 10), N.mul_0_l, N.add_0_l by done.
    by rewrite (proj2 (N.ltb_lt n bound)).
  - rewrite IH; simpl.
    + rewrite is_ascii_digit_digit, digit_value_digit by done.
      replace (n / 10 * 10 + n mod 10)%N with n by lia.
      by rewrite (proj2 (N.ltb_lt n bound)).
    + apply N.Div0.div_lt_upper_bound; lia.
    + rewrite Nat2N.inj_succ, N.pow_succ_r' in Hf. apply N.Div0.div_lt_upper_bound; lia.
    + intros ->. simpl in Hf. lia.
Qed.

Lemma N_size_lt_pow n : (n < 10 ^ N.of_nat (S (N.size_nat n)))%N.
Proof.
  assert (Hs : (n < 2 ^ N.size n)%N) by apply N.size_gt.
  assert (N.of_nat (N.size_nat n) = N.size n) as He.
  { clear Hs. destruct n as [|p]; [done|]. cbn [N.size N.size_nat].
    induction p as [p IH|p IH|]; cbn [Pos.size_nat Pos.size];
      rewrite ?Nat2N.inj_succ, ?IH; reflexivity. }
  rewrite Nat2N.inj_succ, He.
  eapply N.lt_le_trans; [exact Hs|].
  etransitivity; [apply N.pow_le_mono_l with (b := 10%N); lia|].
  apply N.pow_le_mono_r; lia.
Qed.

(** Printing then parsing an unsigned integer that fits is the identity. *)
Lemma parse_show_N bound n : (n < bound)%N -> parse_unsigned bound (show_N n) = Some n.
Proof.
  intros Hb. unfold parse_unsigned.
  destruct (show_N_cons n) as (c & s & Hs & Hc).
  assert (Hplus : Ascii.eqb c "+" = false).
  { destruct (Ascii.eqb_spec c "+") as [->|]; [|done]. by vm_compute in Hc. }
  assert (Hp : parse_digits bound 0 (show_N n) = Some n).
  { unfold show_N. rewrite parse_show_digits; auto using N_size_lt_pow. }
  rewrite Hs in Hp |- *. by rewrite Hplus.
Qed.

(** What is parsed fits. *)
Lemma parse_digits_bound bound acc s n :
  (acc < bound)%N -> parse_digits bound acc s = Some n -> (n < bound)%N.
Proof.
  revert acc. induction s as [|c s IH]; intros acc Hacc; simpl; [by intros [= <-]|].
  destruct (is_ascii_digit c); [|done].
  destruct (N.ltb_spec (acc * 10 + digit_value c) bound); [|done]. by apply IH.
Qed.

(** Removing a prefix and putting it back. *)
Lemma strip_prefix_app a b : strip_prefix a (a +:+ b) = Some b.
Proof. induction a as [|x a IH]; simpl; [done|]. by rewrite Ascii.eqb_refl. Qed.

Lemma strip_prefix_spec a s b : strip_prefix a s = Some b <-> s = a +:+ b.
Proof.
  split; [|intros ->; apply strip_prefix_app].
  revert s. induction a as [|x a IH]; intros s; simpl; [by intros [= ->]|].
  destruct s as [|c s]; [done|]. destruct (Ascii.eqb_spec x c) as [->|]; [|done]. by intros ->%IH.
Qed.

Lemma starts_with_strip a s : starts_with a s = true <-> is_Some (strip_prefix a s).
Proof.
  unfold starts_with. revert s. induction a as [|x a IH]; intros s; [by split; [eexists|destruct s]|].
  destruct s as [|c s]; [by split; [|intros []]|]. cbn [String.prefix strip_prefix].
  destruct (ascii_dec x c) as [->|Hne]; [rewrite Ascii.eqb_refl; apply IH|].
  destruct (Ascii.eqb_spec x c); [done|]. by split; [|intros []].
Qed.

Lemma starts_with_spec a s : starts_with a s = true <-> exists b, s = a +:+ b.
Proof.
  rewrite starts_with_strip. split.
  - intros [b Hb%strip_prefix_spec]. by exists b.
  - intros [b ->]. rewrite strip_prefix_app. by eexists.
Qed.

(** Skipped characters are not looked at. *)
Lemma replace_from_skip from to a s :
  replace_from from to (a +:+ s) (String.length a) = replace_from from to s 0.
Proof. induction a as [|x a IH]; simpl; [by destruct s|]. done. Qed.

Lemma replace_from_hit c from to s :
  replace_from (String c from) to (String c from +:+ s) 0 =
  to +:+ replace_from (String c from) to s 0.
Proof.
  change (String c from +:+ s) with (String c (from +:+ s)). cbn [replace_from].
  change (String c (from +:+ s)) with (String c from +:+ s). rewrite starts_with_app.
  replace (String.length (String c from) - 1) with (String.length from) by (simpl; lia).
  by rewrite replace_from_skip.
Qed.

(** Where the first character of the pattern does not occur, nothing is replaced. *)
Lemma replace_from_plain c from to a s :
  str_all (fun x => negb (Ascii.eqb x c)) a = true ->
  replace_from (String c from) to (a +:+ s) 0 = a +:+ replace_from (String c from) to s 0.
Proof.
  induction a as [|x a IH]; [done|]. cbn [str_all]. rewrite andb_true_iff, negb_true_iff.
  intros [Hx Ha]. change (String x a +:+ s) with (String x (a +:+ s)). cbn [replace_from].
  destruct (starts_with (String c from) (String x (a +:+ s))) eqn:E.
  - apply starts_with_spec in E as [b [= -> _]]. by rewrite Ascii.eqb_refl in Hx.
  - rewrite IH by done. done.
Qed.

Lemma str_app_inj_l (a b c : string) : a +:+ b = a +:+ c -> b = c.
Proof. induction a as [|x a IH]; simpl; [done|]. intros [= ?]. auto. Qed.

Lemma str_app_inj_r (a b c : string) : a +:+ c = b +:+ c -> a = b.
Proof.
  intros E. assert (String.length a = String.length b) as Hl
    by (apply (f_equal String.length) in E; rewrite !str_length_app in E; lia).
  revert b E Hl. induction a as [|x a IH]; intros [|y b]; simpl; intros E Hl; try done.
  injection E as -> E. f_equal. apply IH; [done|lia].
Qed.

(** Two strings that end at their first terminator, one the beginning of what the other
    begins, are equal. *)
Lemma until_unique t a b r r' :
  str_all (fun x => negb (Ascii.eqb x t)) a = true -> str_all (fun x => negb (Ascii.eqb x t)) b = true ->
  a +:+ String t r = b +:+ String t r' -> a = b /\ r = r'.
Proof.
  revert b. induction a as [|x a IH]; intros [|y b]; simpl; rewrite ?andb_true_iff, ?negb_true_iff.
  - by intros _ _ [= ->].
  - intros _ [Hy _] [= <- _]. by rewrite Ascii.eqb_refl in Hy.
  - intros [Hx _] _ [= -> _]. by rewrite Ascii.eqb_refl in Hx.
  - intros [_ Ha] [_ Hb] [= -> E]. destruct (IH b Ha Hb E) as [-> ->]. done.
Qed.
