(* ===== verification/AgentId.v ===== *)
(** * Agent identifiers

    Models [agent_control/agent_id.rs]: [AgentID], [SubAgentID], their parsing
    and printing.  The identifier names directories and Kubernetes objects, so
    what matters is that it is a safe label and that the name of Agent Control
    itself is never taken. *)

From Stdlib Require Import Ascii String.
From stdpp Require Import base option list strings gmap.
From S2P Require Import Prelude RustString.


(** ** Data *)

(** [defaults.rs]: [AGENT_CONTROL_ID], [RESERVED_AGENT_IDS] *)
Definition AGENT_CONTROL_ID : string := "agent-control".
Definition RESERVED_AGENT_IDS : list string := [AGENT_CONTROL_ID].

Definition AGENT_ID_MAX_LENGTH : nat := 32.

Inductive AgentID : Type :=
| AgentControl
| SubAgent (id : string).

Inductive AgentIDError : Type :=
| InvalidFormat
| Reserved (id : string).

#[export] Instance AgentID_eq_dec : EqDecision AgentID.
Proof. solve_decision. Defined.

#[export] Instance AgentID_countable : Countable AgentID.
Proof.
  apply (inj_countable'
    (fun id => match id with AgentControl => None | SubAgent s => Some s end)
    (fun o => match o with None => AgentControl | Some s => SubAgent s end)).
  by intros [].
Defined.

(** ** Operations *)

(** [AgentID::as_str], also the [Display] of an identifier *)
Definition as_str (id : AgentID) : string :=
  match id with
  | AgentControl => AGENT_CONTROL_ID
  | SubAgent id => id
  end.

Definition agent_id_str_validation (s : string) : bool :=
  (String.length s <=? AGENT_ID_MAX_LENGTH)
  && starts_with_char is_ascii_alphabetic s
  && ends_with_char is_ascii_alphanumeric s
  && str_all (fun c => Ascii.eqb c "-" || is_ascii_digit c || is_ascii_lowercase c) s.

Definition agent_id_not_reserved_and_valid (s : string) : result unit AgentIDError :=
  if existsb (fun id => eq_ignore_ascii_case s id) RESERVED_AGENT_IDS
  then Err (Reserved s)
  else if agent_id_str_validation s then Ok tt
  else Err InvalidFormat.

(** [TryFrom<String> for AgentID] *)
Definition try_from (input : string) : result AgentID AgentIDError :=
  let? _ := agent_id_not_reserved_and_valid input in
  Ok (SubAgent input).

(** ** Specification *)

(** A character an identifier may have. *)
Definition label_char (c : ascii) : Prop :=
  c = "-"%char \/ is_ascii_digit c = true \/ is_ascii_lowercase c = true.

(** The names the documentation describes: 32 characters at most, of lowercase
    letters, digits and dashes, starting with a letter and not ending with a
    dash. *)
Definition label (s : string) : Prop :=
  String.length s <= 32
  /\ (exists c s', s = String c s' /\ is_ascii_lowercase c = true)
  /\ (exists s' c, s = s' +:+ String c "" /\ c <> "-"%char)
  /\ str_all (fun c => Ascii.eqb c "-" || is_ascii_digit c || is_ascii_lowercase c) s = true.

(** An identifier the program can hold: Agent Control's own or a parsed one. *)
Definition wf_agent_id (id : AgentID) : Prop :=
  match id with
  | AgentControl => True
  | SubAgent s => try_from s = Ok (SubAgent s)
  end.

(** ** Lemmas *)

Section Lemmas.
#[local] Arguments String.append !s1 s2 : simpl nomatch.

Lemma lowercase_not_uppercase c : is_ascii_lowercase c = true -> is_ascii_uppercase c = false.
Proof.
  unfold is_ascii_lowercase, is_ascii_uppercase, in_range.
  rewrite andb_true_iff, andb_false_iff, !N.leb_le, !N.leb_gt. lia.
Qed.

Lemma digit_not_uppercase c : is_ascii_digit c = true -> is_ascii_uppercase c = false.
Proof.
  unfold is_ascii_digit, is_ascii_uppercase, in_range.
  rewrite andb_true_iff, andb_false_iff, !N.leb_le, !N.leb_gt. lia.
Qed.

Lemma label_char_b c :
  Ascii.eqb c "-" || is_ascii_digit c || is_ascii_lowercase c = true <-> label_char c.
Proof. unfold label_char. rewrite !orb_true_iff, Ascii.eqb_eq. tauto. Qed.

Lemma label_char_lower c : label_char c -> to_ascii_lowercase_char c = c.
Proof.
  unfold to_ascii_lowercase_char. intros [->|[H|H]]; [done|..].
  - by rewrite digit_not_uppercase.
  - by rewrite lowercase_not_uppercase.
Qed.

Lemma label_lower s :
  str_all (fun c => Ascii.eqb c "-" || is_ascii_digit c || is_ascii_lowercase c) s = true ->
  to_ascii_lowercase s = s.
Proof.
  induction s as [|c s IH]; [done|]. cbn [str_all to_ascii_lowercase].
  rewrite andb_true_iff, label_char_b. intros [Hc Hs].
  by rewrite label_char_lower, IH.
Qed.

Lemma ends_with_char_spec p s :
  ends_with_char p s = true <-> exists s' c, s = s' +:+ String c "" /\ p c = true.
Proof.
  induction s as [|c s IH].
  { split; [done|]. intros (s' & c & Heq & _). by destruct s'. }
  destruct s as [|c' s].
  - simpl. split.
    + intros Hp. by exists "", c.
    + intros (s' & d & Heq & Hp). destruct s' as [|x s']; simplify_eq/=; [done|].
      by destruct s'.
  - change (ends_with_char p (String c (String c' s))) with (ends_with_char p (String c' s)).
    rewrite IH. split.
    + intros (s' & d & -> & Hp). exists (String c s'), d. split; [reflexivity|done].
    + intros (s' & d & Heq & Hp). destruct s' as [|x s']; simplify_eq/=. by exists s', d.
Qed.

Lemma str_all_last p s c : str_all p (s +:+ String c "") = true -> p c = true.
Proof. rewrite str_all_app, andb_true_iff. simpl. rewrite andb_true_r. tauto. Qed.

(** The checks of the code are the documented rules. *)
Lemma agent_id_str_validation_label s : agent_id_str_validation s = true <-> label s.
Proof.
  unfold agent_id_str_validation, label, AGENT_ID_MAX_LENGTH.
  rewrite !andb_true_iff, Nat.leb_le, ends_with_char_spec.
  split.
  - intros [[[Hl Hs] (s' & c & Heq & Hc)] Ha]. split_and!; [done|..|done].
    + destruct s as [|d s]; [done|]. exists d, s. split; [done|]. simpl in Hs, Ha.
      apply andb_true_iff in Ha as [Ha _]. apply label_char_b in Ha.
      unfold is_ascii_alphabetic in Hs. rewrite orb_true_iff in Hs.
      destruct Hs as [?|Hu]; [done|].
      destruct Ha as [->|[Hd|?]]; [done|..|done].
      by rewrite (digit_not_uppercase d) in Hu.
    + exists s', c. split; [done|]. by intros ->.
  - intros (Hl & (d & s1 & -> & Hd) & (s' & c & Heq & Hc) & Ha).
    split_and!; [done|..|done].
    + simpl. unfold is_ascii_alphabetic. by rewrite Hd.
    + exists s', c. split; [done|]. rewrite Heq in Ha.
      apply str_all_last, label_char_b in Ha.
      unfold is_ascii_alphanumeric, is_ascii_alphabetic.
      destruct Ha as [?|[->| ->]]; [done|by rewrite orb_true_r|done].
Qed.

Lemma try_from_ok s id :
  try_from s = Ok id <-> id = SubAgent s /\ label s /\ s <> AGENT_CONTROL_ID.
Proof.
  unfold try_from, agent_id_not_reserved_and_valid. simpl. rewrite orb_false_r.
  rewrite <- agent_id_str_validation_label.
  destruct (agent_id_str_validation s) eqn:Hv.
  - assert (Hlow : to_ascii_lowercase s = s).
    { apply label_lower. by apply agent_id_str_validation_label in Hv as (_ & _ & _ & ?). }
    unfold eq_ignore_ascii_case. rewrite Hlow.
    change (to_ascii_lowercase AGENT_CONTROL_ID) with AGENT_CONTROL_ID.
    destruct (String.eqb_spec s AGENT_CONTROL_ID) as [Heq|Hne]; simpl.
    + split; [done|]. by intros (_ & _ & ?).
    + split; [by intros [= <-]|]. by intros (-> & _).
  - split; [|by intros (_ & ? & _)]. by destruct (eq_ignore_ascii_case _ _).
Qed.

Lemma label_no_char s c :
  label s -> ~ label_char c -> str_all (fun x => negb (Ascii.eqb x c)) s = true.
Proof.
  intros (_ & _ & _ & Ha) Hc. eapply str_all_impl; [|exact Ha].
  intros x Hx%label_char_b. apply negb_true_iff, Ascii.eqb_neq. by intros ->.
Qed.
End Lemmas.

(** ** Properties *)

(** Parsing an identifier accepts exactly the documented labels other than
    Agent Control's own name, keeps the text as it is, and names the reason of a
    refusal: [Reserved] for Agent Control's name in any letter case, and
    [InvalidFormat] for any other text that is not a label. *)
Theorem agent_id_try_from_spec (s : string) :
  match try_from s with
  | Ok id => id = SubAgent s /\ label s /\ s <> AGENT_CONTROL_ID
  | Err (Reserved r) => r = s /\ to_ascii_lowercase s = AGENT_CONTROL_ID
  | Err InvalidFormat => ~ label s /\ to_ascii_lowercase s <> AGENT_CONTROL_ID
  end.
Proof.
  destruct (try_from s) as [id|e] eqn:Ht; [by apply try_from_ok|].
  unfold try_from, agent_id_not_reserved_and_valid, eq_ignore_ascii_case in Ht.
  cbn [existsb RESERVED_AGENT_IDS] in Ht. rewrite orb_false_r in Ht.
  change (to_ascii_lowercase AGENT_CONTROL_ID) with AGENT_CONTROL_ID in Ht.
  destruct (String.eqb_spec (to_ascii_lowercase s) AGENT_CONTROL_ID) as [Heq|Hne];
    [injection Ht as <-; by split|].
  destruct (agent_id_str_validation s) eqn:Hv; simplify_eq/=.
  split; [|done]. rewrite <- agent_id_str_validation_label. by rewrite Hv.
Qed.

Lemma as_str_inj (a b : AgentID) :
  wf_agent_id a -> wf_agent_id b -> as_str a = as_str b -> a = b.
Proof.
  intros Ha Hb. destruct a as [|a], b as [|b]; simpl in *; [done|..|by intros ->].
  - intros <-. apply try_from_ok in Hb as (_ & _ & Hne). by destruct Hne.
  - intros ->. apply try_from_ok in Ha as (_ & _ & Hne). by destruct Hne.
Qed.

(** The names of the identifiers the program holds are unique, so that two
    agents never share a directory or a Kubernetes object, and each is a single
    path component: it has no separator, dot, colon or white space. *)
Theorem agent_id_names_unique_and_safe (a b : AgentID) :
  wf_agent_id a -> wf_agent_id b ->
  (as_str a = as_str b -> a = b)
  /\ Forall (fun c => str_all (fun x => negb (Ascii.eqb x c)) (as_str a) = true)
       ["/"; "\"; "."; ":"; " "; "000"]%char.
Proof.
  intros Ha Hb. split.
  - by apply as_str_inj.
  - destruct a as [|a]; simpl in *; [by repeat constructor|].
    apply try_from_ok in Ha as (_ & Hl & _).
    repeat constructor; (apply label_no_char; [done|]); by intros [?|[?|?]].
Qed.

Lemma agent_id_names_unique_and_safe_witness :
  as_str (SubAgent "nr-infra") = as_str (SubAgent "nr-infra") /\
  (as_str (SubAgent "nr-infra") = as_str AgentControl -> SubAgent "nr-infra" = AgentControl).
Proof.
  split; [reflexivity|].
  refine (proj1 (agent_id_names_unique_and_safe (SubAgent "nr-infra") AgentControl _ _)).
  - vm_compute. reflexivity.
  - exact I.
Defined.
