(* ===== verification/AgentTypeId.v ===== *)
(** * Agent type identifiers

    Models [agent_type/agent_type_id.rs]: the fully qualified name
    [<namespace>/<name>:<version>] of an agent type, its validation rules, its
    parsing and printing.  The version itself is parsed by the [semver] crate,
    an argument here. *)

From Stdlib Require Import Ascii String.
From stdpp Require Import base option list strings.
From S2P Require Import Prelude RustString.

(** ** The [semver] crate *)

(** What the code relies on: a version is printed as the text it was parsed from
    (a semver version has one textual form). *)
Class SemVer : Type := {
  Version : Type;
  version_eq_dec :: EqDecision Version;
  version_parse : string -> result Version string;
  version_show : Version -> string;
  version_show_parse : forall s v, version_parse s = Ok v -> version_show v = s;
}.

(** ** Data *)

Definition NAME_NAMESPACE_MAX_LENGTH : nat := 64.
Definition VERSION_MAX_LENGTH : nat := 14.

Inductive NameFormatError : Type :=
| Empty
| TooLong (length max : nat)
| InvalidStart
| InvalidEnd
| InvalidCharacter (c : string).

Inductive AgentTypeIDError : Type :=
| InvalidNamespace (e : NameFormatError)
| InvalidName (e : NameFormatError)
| InvalidVersion (e : string)
| ForbiddenSemVer
| VersionTooLong (length max : nat).

Section AgentTypeID.
Context `{SV : SemVer}.

Record AgentTypeID : Type := {
  name : string;
  namespace : string;
  version : Version;
}.

#[export] Instance AgentTypeID_eq_dec : EqDecision AgentTypeID.
Proof. solve_decision. Defined.

(** ** Operations *)

Definition parse_version (s : string) : result Version AgentTypeIDError :=
  if negb (str_all (fun c => is_ascii_digit c || Ascii.eqb c ".") s)
  then Err ForbiddenSemVer
  else if VERSION_MAX_LENGTH <? String.length s
  then Err (VersionTooLong (String.length s) VERSION_MAX_LENGTH)
  else map_err InvalidVersion (version_parse s).

(** A character a name or a namespace may have. *)
Definition name_char (c : ascii) : bool :=
  Ascii.eqb c "_" || Ascii.eqb c "." || is_ascii_digit c || is_ascii_lowercase c.

Definition validate_format (s : string) : result unit NameFormatError :=
  if str_is_empty s then Err Empty
  else if NAME_NAMESPACE_MAX_LENGTH <? String.length s
  then Err (TooLong (String.length s) NAME_NAMESPACE_MAX_LENGTH)
  else if negb (starts_with_char is_ascii_alphabetic s) then Err InvalidStart
  else if negb (ends_with_char is_ascii_alphanumeric s) then Err InvalidEnd
  else match find_char (fun c => negb (name_char c)) s with
       | Some invalid => Err (InvalidCharacter invalid)
       | None => Ok tt
       end.

Definition from_parts (name namespace version : string) : result AgentTypeID AgentTypeIDError :=
  let? _ := map_err InvalidNamespace (validate_format namespace) in
  let? _ := map_err InvalidName (validate_format name) in
  let? version := parse_version version in
  Ok {| name := name; namespace := namespace; version := version |}.

(** [Display for AgentTypeID] *)
Definition to_string (id : AgentTypeID) : string :=
  namespace id +:+ "/" +:+ name id +:+ ":" +:+ version_show (version id).

(** [Option::unwrap_or_default] on a pair of strings *)
Definition unwrap_or_default (o : option (string * string)) : string * string :=
  match o with Some p => p | None => ("", "") end.

(** [TryFrom<&str> for AgentTypeID] *)
Definition try_from (value : string) : result AgentTypeID AgentTypeIDError :=
  let '(namespace, rest) := unwrap_or_default (split_once "/" value) in
  let '(name, version) := unwrap_or_default (split_once ":" rest) in
  from_parts name namespace version.

(** [Deserialize for AgentTypeID] from a document's fields *)
Definition deserialize (name namespace version : option string) :
  result AgentTypeID AgentTypeIDError :=
  from_parts (default "" name) (default "" namespace) (default "" version).
End AgentTypeID.
Arguments AgentTypeID {SV}.

(** ** Specification *)

(** The rules for a name or a namespace: not empty, at most 64 characters of
    lowercase letters, digits, dots and underscores, starting with a letter and
    ending with a letter or a digit. *)
Definition name_format (s : string) : Prop :=
  s <> ""
  /\ String.length s <= 64
  /\ starts_with_char is_ascii_alphabetic s = true
  /\ ends_with_char is_ascii_alphanumeric s = true
  /\ str_all name_char s = true.

(** An identifier the program can hold: one that [from_parts] made. *)
Definition wf_agent_type_id `{SemVer} (id : AgentTypeID) : Prop :=
  exists v, from_parts (name id) (namespace id) v = Ok id.

(** ** Lemmas *)

Section Lemmas.
Context `{SV : SemVer}.
#[local] Arguments String.append !s1 s2 : simpl nomatch.

Lemma find_char_none p s : find_char p s = None <-> str_all (fun c => negb (p c)) s = true.
Proof.
  induction s as [|c s IH]; [done|]. cbn [find_char str_all].
  destruct (p c); simpl; [done|]. exact IH.
Qed.

Lemma validate_format_ok s : validate_format s = Ok tt <-> name_format s.
Proof.
  unfold validate_format, name_format, NAME_NAMESPACE_MAX_LENGTH.
  destruct s as [|c s]; [simpl; naive_solver|]. cbn [str_is_empty].
  destruct (Nat.ltb_spec 64 (String.length (String c s))) as [Hl|Hl].
  { split; [done|]. intros (_ & ? & _). lia. }
  destruct (starts_with_char is_ascii_alphabetic (String c s)); [|naive_solver].
  destruct (ends_with_char is_ascii_alphanumeric (String c s)); [|naive_solver].
  cbn [negb]. destruct (find_char _ _) eqn:Hf.
  - split; [done|]. intros (_ & _ & _ & _ & Ha).
    assert (Hn : find_char (fun c0 => negb (name_char c0)) (String c s) = None); [|congruence].
    apply find_char_none. eapply str_all_impl; [|exact Ha]. intros x ->. done.
  - split; [|done]. intros _. split_and!; [done|done|done|done|].
    apply find_char_none in Hf. eapply str_all_impl; [|exact Hf].
    intros x. simpl. destruct (name_char x); simpl; auto.
Qed.

Lemma name_char_not c d :
  name_char c = true -> name_char d = false -> negb (Ascii.eqb c d) = true.
Proof. intros Hc Hd. apply negb_true_iff, Ascii.eqb_neq. intros ->. congruence. Qed.

Lemma from_parts_ok n ns v id :
  from_parts n ns v = Ok id <->
  name_format ns /\ name_format n /\
  exists w, parse_version v = Ok w /\ id = {| name := n; namespace := ns; version := w |}.
Proof.
  unfold from_parts. rewrite <- !validate_format_ok.
  destruct (validate_format ns) as [[]|]; simpl; [|naive_solver].
  destruct (validate_format n) as [[]|]; simpl; [|naive_solver].
  destruct (parse_version v) as [w|]; simpl; naive_solver.
Qed.

Lemma parse_version_ok v w :
  parse_version v = Ok w -> version_show w = v /\ String.length v <= 14.
Proof.
  unfold parse_version, VERSION_MAX_LENGTH.
  destruct (negb _); [done|].
  destruct (Nat.ltb_spec 14 (String.length v)); [done|].
  destruct (version_parse v) eqn:Hp; [|done]. intros [= <-].
  split; [by apply version_show_parse|lia].
Qed.

Lemma name_format_no_char s d :
  name_format s -> name_char d = false -> str_all (fun c => negb (Ascii.eqb c d)) s = true.
Proof.
  intros (_ & _ & _ & _ & Ha) Hd. eapply str_all_impl; [|exact Ha].
  intros c Hc. by apply name_char_not.
Qed.

(** The text of well-formed parts is cut back into them. *)
Lemma try_from_parts n ns v :
  name_format ns -> name_format n ->
  try_from (ns +:+ "/" +:+ n +:+ ":" +:+ v) = from_parts n ns v.
Proof.
  intros Hns Hn. unfold try_from.
  change ("/" +:+ n +:+ ":" +:+ v) with (String "/" (n +:+ ":" +:+ v)).
  rewrite split_once_app by by apply name_format_no_char. simpl.
  change (":" +:+ v) with (String ":" v).
  by rewrite split_once_app by by apply name_format_no_char.
Qed.

(** The print of accepted parts. *)
Lemma from_parts_print n ns v id :
  from_parts n ns v = Ok id -> to_string id = ns +:+ "/" +:+ n +:+ ":" +:+ v.
Proof.
  intros (Hns & Hn & w & Hv & ->)%from_parts_ok.
  apply parse_version_ok in Hv as [Hw _]. unfold to_string. simpl. by rewrite Hw.
Qed.
End Lemmas.

(** A concrete [semver] for evaluation: a version is its text, three numbers
    without leading zeros. *)
Definition plain_number (s : string) : bool :=
  match s, parse_digits u64_bound 0 s with
  | EmptyString, _ => false
  | String c (String _ _), Some _ => negb (Ascii.eqb c "0")
  | _, o => bool_decide (is_Some o)
  end.

Definition plain_parse (s : string) : result string string :=
  match split "." s with
  | [a; b; c] => if plain_number a && plain_number b && plain_number c then Ok s
                 else Err "invalid number"
  | _ => Err "unexpected end of input"
  end.

Lemma plain_parse_ok s v : plain_parse s = Ok v -> v = s.
Proof.
  unfold plain_parse. destruct (split "." s) as [|a [|b [|c [|]]]]; try done.
  destruct (plain_number a && plain_number b && plain_number c); [|done].
  by intros [= ->].
Qed.

#[export] Instance plain_semver : SemVer | 100 := {|
  Version := string;
  version_parse := plain_parse;
  version_show := fun v => v;
  version_show_parse := plain_parse_ok;
|}.

(** ** Properties *)

(** An agent type identifier is printed and parsed back unchanged: what
    [from_parts] accepted is the result of parsing its fully qualified name, and
    a name that parses is the print of its identifier.  The name is at most 144
    characters long, so that a tag or label built from it stays in bounds. *)
Theorem agent_type_id_roundtrip `{SV : SemVer} (n ns v : string) (id : AgentTypeID) :
  from_parts n ns v = Ok id ->
  try_from (to_string id) = Ok id
  /\ to_string id = ns +:+ "/" +:+ n +:+ ":" +:+ v
  /\ String.length (to_string id) <= 144.
Proof.
  intros Hfp. pose proof Hfp as (Hns & Hn & w & Hv & _)%from_parts_ok.
  apply parse_version_ok in Hv as [_ Hlen].
  rewrite (from_parts_print n ns v id Hfp).
  split_and!; [by rewrite try_from_parts|done|].
  destruct Hns as (_ & Hlns & _), Hn as (_ & Hln & _).
  rewrite !str_length_app. simpl. lia.
Qed.

Definition example_id : AgentTypeID :=
  {| name := "com.newrelic.infrastructure"; namespace := "newrelic"; version := "0.1.0" |}.

Lemma agent_type_id_roundtrip_witness :
  to_string example_id = "newrelic/com.newrelic.infrastructure:0.1.0"
  /\ try_from (to_string example_id) = Ok example_id.
Proof.
  split; [vm_compute; reflexivity|].
  refine (proj1 (agent_type_id_roundtrip "com.newrelic.infrastructure" "newrelic" "0.1.0"
    example_id _)).
  reflexivity.
Defined.

(** Parsing a fully qualified name is injective and refuses any text that is
    not exactly a valid namespace, name and version: a parsed identifier prints
    to the text it came from. *)
Theorem agent_type_id_parse_exact `{SV : SemVer} (s : string) (id : AgentTypeID) :
  try_from s = Ok id -> to_string id = s /\ wf_agent_type_id id.
Proof.
  unfold try_from.
  destruct (split_once "/" s) as [[ns rest]|] eqn:H1; cbn [unwrap_or_default]; [|by cbn].
  destruct (split_once ":" rest) as [[n v]|] eqn:H2; cbn [unwrap_or_default].
  - intros Hfp. apply split_once_spec in H1 as ->, H2 as ->.
    split; [by apply from_parts_print|].
    apply from_parts_ok in Hfp as (Hns & Hn & w & Hv & ->). exists v.
    apply from_parts_ok. eauto.
  - intros (_ & Hn & _)%from_parts_ok. by destruct Hn.
Qed.

Lemma agent_type_id_parse_exact_witness :
  to_string example_id = "newrelic/com.newrelic.infrastructure:0.1.0"
  /\ wf_agent_type_id example_id.
Proof.
  apply (agent_type_id_parse_exact "newrelic/com.newrelic.infrastructure:0.1.0" example_id).
  reflexivity.
Defined.
