(* ===== verification/Regex.v ===== *)
(** * Regular expressions

    The source matches text with the [regex] crate.  This file has the operators its patterns
    use, what it means for a text to match, and the documented order in which the crate prefers
    matches: leftmost first, and at one position the first alternative and the longest
    repetition.  The crate itself is the interface [RegexLib], whose law says that it finds
    the preferred matches; [preferred_lib] is an implementation of it. *)

From Stdlib Require Import Ascii String.
From stdpp Require Import base option list strings numbers.
From S2P Require Import Prelude RustString.

#[local] Arguments String.append !s1 s2 : simpl nomatch.

(** ** Patterns *)

Inductive regex : Type :=
| Eps
| Cls (p : ascii -> bool)
| Seq (a b : regex)
| Alt (a b : regex)
| Star (a : regex).

Definition Chr (c : ascii) : regex := Cls (Ascii.eqb c).
Definition Plus (a : regex) : regex := Seq a (Star a).

Fixpoint Lit (s : string) : regex :=
  match s with EmptyString => Eps | String c s => Seq (Chr c) (Lit s) end.

Inductive matches : regex -> string -> Prop :=
| matches_eps : matches Eps ""
| matches_cls p c : p c = true -> matches (Cls p) (String c "")
| matches_seq a b s t : matches a s -> matches b t -> matches (Seq a b) (s +:+ t)
| matches_alt_l a b s : matches a s -> matches (Alt a b) s
| matches_alt_r a b s : matches b s -> matches (Alt a b) s
| matches_star_nil a : matches (Star a) ""
| matches_star_cons a s t : matches a s -> matches (Star a) t -> matches (Star a) (s +:+ t).

(** ** The preferred matches *)

Fixpoint star_rests (f : string -> list string) (fuel : nat) (s : string) : list string :=
  match fuel with
  | 0 => [s]
  | S fuel =>
      flat_map (fun s' => if String.length s' <? String.length s then star_rests f fuel s' else [])
        (f s) ++ [s]
  end.

(** What is left of a text after each match at its start, the preferred one first. *)
Fixpoint rests (r : regex) (s : string) : list string :=
  match r with
  | Eps => [s]
  | Cls p => match s with EmptyString => [] | String c s => if p c then [s] else [] end
  | Seq a b => flat_map (rests b) (rests a s)
  | Alt a b => rests a s ++ rests b s
  | Star a => star_rests (rests a) (String.length s) s
  end.

Fixpoint take_str (n : nat) (s : string) : string :=
  match n, s with S n, String c s => String c (take_str n s) | _, _ => "" end.

(** The preferred match at the start of a text. *)
Definition match_at (r : regex) (s : string) : option string :=
  (fun rest => take_str (String.length s - String.length rest) s) <$> head (rests r s).

(** A text cut into the matches of a pattern that is never empty and the characters between
    them; [skip] counts the characters left of a match. *)
Fixpoint scan (r : regex) (s : string) (skip : nat) : list (ascii + string) :=
  match s with
  | EmptyString => []
  | String c s' =>
      match skip with
      | S skip => scan r s' skip
      | 0 =>
          match match_at r s with
          | Some m => inr m :: scan r s' (String.length m - 1)
          | None => inl c :: scan r s' 0
          end
      end
  end.

Definition piece_match (p : ascii + string) : option string :=
  match p with inl _ => None | inr m => Some m end.

Fixpoint nullable (r : regex) : bool :=
  match r with
  | Eps | Star _ => true
  | Cls _ => false
  | Seq a b => nullable a && nullable b
  | Alt a b => nullable a || nullable b
  end.

(** ** The interface of the crate

    [find_iter] is [Regex::find_iter], [full_match] is [is_match] of the pattern between [^]
    and [$]. *)
Class RegexLib : Type := {
  find_iter : regex -> string -> list string;
  full_match : regex -> string -> bool;
}.

Class RegexLaws `{RegexLib} : Prop := {
  find_iter_spec r s : nullable r = false -> find_iter r s = omap piece_match (scan r s 0);
  full_match_spec r s : full_match r s = true <-> matches r s;
}.

(** ** Lemmas *)

Lemma star_rests_sound a f fuel s s' :
  (forall t t', t' ∈ f t -> exists m, t = m +:+ t' /\ matches a m) ->
  s' ∈ star_rests f fuel s -> exists m, s = m +:+ s' /\ matches (Star a) m.
Proof.
  intros Hf. revert s. induction fuel as [|fuel IH]; intros s; simpl.
  - intros ->%list_elem_of_singleton. exists "". split; [done|constructor].
  - intros [Hin| ->%list_elem_of_singleton]%elem_of_app; [|exists ""; split; [done|constructor]].
    apply list_elem_of_In, in_flat_map in Hin as (t & Ht%list_elem_of_In & Hin).
    destruct (String.length t <? String.length s); [|done].
    apply list_elem_of_In in Hin. apply IH in Hin as (m2 & -> & Hm2).
    apply Hf in Ht as (m1 & -> & Hm1). exists (m1 +:+ m2). split; [by rewrite str_app_assoc|].
    by constructor.
Qed.

Lemma rests_sound r s s' : s' ∈ rests r s -> exists m, s = m +:+ s' /\ matches r m.
Proof.
  revert s s'. induction r as [|p|a IHa b IHb|a IHa b IHb|a IHa]; intros s s'; simpl.
  - intros ->%list_elem_of_singleton. exists "". split; [done|constructor].
  - destruct s as [|c s]; [by intros ?%elem_of_nil|]. destruct (p c) eqn:E; [|by intros ?%elem_of_nil].
    intros ->%list_elem_of_singleton. exists (String c ""). split; [done|by constructor].
  - intros (t & Ht%list_elem_of_In & Hin%list_elem_of_In)%list_elem_of_In%in_flat_map.
    apply IHa in Ht as (m1 & -> & H1). apply IHb in Hin as (m2 & -> & H2).
    exists (m1 +:+ m2). split; [by rewrite str_app_assoc|by constructor].
  - intros [(m & -> & Hm)%IHa|(m & -> & Hm)%IHb]%elem_of_app; exists m; split; try done;
      [by apply matches_alt_l|by apply matches_alt_r].
  - by apply star_rests_sound.
Qed.

Lemma star_rests_complete a f fuel m s :
  (forall n t, matches a n -> t ∈ f (n +:+ t)) ->
  matches (Star a) m -> String.length m <= fuel -> s ∈ star_rests f fuel (m +:+ s).
Proof.
  intros Hf Hm. remember (Star a) as r eqn:Hr. revert fuel.
  induction Hm as [| | | | |a'|a' m1 m2 H1 _ H2 IH]; intros fuel Hlen; simplify_eq.
  - simpl. destruct fuel; simpl; [by apply list_elem_of_singleton|].
    apply elem_of_app. right. by apply list_elem_of_singleton.
  - destruct m1 as [|c m1]; [by apply IH|]. destruct fuel as [|fuel]; [simpl in Hlen; lia|].
    rewrite str_app_assoc. cbn [star_rests]. apply elem_of_app. left.
    apply list_elem_of_In, in_flat_map. exists (m2 +:+ s).
    split; [apply list_elem_of_In; by apply Hf|].
    rewrite (proj2 (Nat.ltb_lt _ _)) by (rewrite (str_length_app (String c m1)); simpl; lia).
    apply list_elem_of_In, IH; [done|]. rewrite str_length_app in Hlen. simpl in Hlen. lia.
Qed.

Lemma rests_complete r m s : matches r m -> s ∈ rests r (m +:+ s).
Proof.
  revert m s. induction r as [|p|a IHa b IHb|a IHa b IHb|a IHa]; intros m s Hm; simpl.
  - inversion Hm; subst. by apply list_elem_of_singleton.
  - inversion Hm as [|p' c Hc| | | | |]; subst. simpl. rewrite Hc. by apply list_elem_of_singleton.
  - inversion Hm as [| |a' b' m1 m2 H1 H2| | | |]; subst. rewrite str_app_assoc.
    apply list_elem_of_In, in_flat_map. exists (m2 +:+ s). split; apply list_elem_of_In; auto.
  - apply elem_of_app. inversion Hm; subst; auto.
  - apply (star_rests_complete a); [auto|done|]. rewrite str_length_app. lia.
Qed.

Lemma take_str_app m s : take_str (String.length (m +:+ s) - String.length s) (m +:+ s) = m.
Proof.
  rewrite str_length_app, Nat.add_sub. induction m as [|c m IH]; simpl; [by destruct s|]. by rewrite IH.
Qed.

Lemma match_at_Some r s m : match_at r s = Some m -> matches r m /\ exists t, s = m +:+ t.
Proof.
  unfold match_at. destruct (rests r s) as [|t l] eqn:E; [done|]. intros [= <-].
  assert (t ∈ rests r s) as Ht by (rewrite E; by left).
  apply rests_sound in Ht as (m & -> & Hm). rewrite take_str_app. split; [done|by exists t].
Qed.

Lemma match_at_None r s : match_at r s = None -> forall m t, s = m +:+ t -> ~ matches r m.
Proof.
  unfold match_at. destruct (rests r s) as [|t l] eqn:E; [|done].
  intros _ m t -> Hm%(rests_complete _ _ t). rewrite E in Hm. by apply elem_of_nil in Hm.
Qed.

Lemma matches_nullable r : matches r "" -> nullable r = true.
Proof.
  remember "" as s eqn:Hs. intros Hm. induction Hm as [| |a b s t _ IHs _ IHt| | | |]; simplify_eq/=; try done.
  - destruct s, t; simplify_eq/=. by rewrite IHs, IHt.
  - by rewrite IHHm.
  - rewrite IHHm by done. by rewrite orb_true_r.
Qed.

Lemma scan_skip r m s : scan r (m +:+ s) (String.length m) = scan r s 0.
Proof. induction m as [|c m IH]; simpl; [by destruct s|done]. Qed.

(** The pieces of a text, one by one. *)
Lemma scan_step r s :
  nullable r = false ->
  (s = "" /\ scan r s 0 = []) \/
  (exists m t, m <> "" /\ matches r m /\ s = m +:+ t /\ scan r s 0 = inr m :: scan r t 0) \/
  (exists c t, s = String c t /\ (forall m u, s = m +:+ u -> ~ matches r m) /\
     scan r s 0 = inl c :: scan r t 0).
Proof.
  intros Hn. destruct s as [|c s]; [by left|]. right. simpl.
  destruct (match_at r (String c s)) as [m|] eqn:E.
  - apply match_at_Some in E as (Hm & t & E). left. exists m, t.
    destruct m as [|c' m]; [apply matches_nullable in Hm; congruence|].
    simpl in E. injection E as -> ->. split_and!; [done..|].
    replace (String.length (String c' m) - 1) with (String.length m) by (simpl; lia).
    by rewrite scan_skip.
  - right. exists c, s. split_and!; [done|by apply match_at_None|done].
Qed.

Definition piece_text (p : ascii + string) : string :=
  match p with inl c => String c "" | inr m => m end.

Fixpoint concat_str (l : list string) : string :=
  match l with [] => "" | s :: l => s +:+ concat_str l end.

Lemma scan_text r s : nullable r = false -> concat_str (piece_text <$> scan r s 0) = s.
Proof.
  intros Hn. remember (String.length s) as n eqn:Hlen. revert s Hlen.
  induction (lt_wf n) as [n _ IH]. intros s ->.
  destruct (scan_step r s Hn) as [[-> ->]|[(m & t & Hm & _ & -> & ->)|(c & t & -> & _ & ->)]]; [done|..].
  - simpl. f_equal. eapply IH; [|done]. rewrite str_length_app. destruct m; [done|]. simpl. lia.
  - simpl. f_equal. eapply IH; [|done]. simpl. lia.
Qed.

Lemma scan_matches r s m : nullable r = false -> inr m ∈ scan r s 0 -> matches r m.
Proof.
  intros Hn. remember (String.length s) as n eqn:Hlen. revert s Hlen.
  induction (lt_wf n) as [n _ IH]. intros s ->.
  destruct (scan_step r s Hn) as [[-> ->]|[(m' & t & Hne & Hm & -> & ->)|(c & t & -> & _ & ->)]].
  - by intros ?%elem_of_nil.
  - intros [[= ->]|Hin]%elem_of_cons; [done|]. eapply IH; [|done|done].
    rewrite str_length_app. destruct m'; [done|]. simpl. lia.
  - intros [[=]|Hin]%elem_of_cons. eapply IH; [|done|done]. simpl. lia.
Qed.

(** ** An implementation of the interface *)

#[export] Instance preferred_lib : RegexLib | 100 := {|
  find_iter := fun r s => omap piece_match (scan r s 0);
  full_match := fun r s => bool_decide ("" ∈ rests r s);
|}.

#[export] Instance preferred_laws : RegexLaws | 100.
Proof.
  split; [done|]. intros r s. unfold full_match, preferred_lib. rewrite bool_decide_eq_true. split.
  - intros (m & -> & Hm)%rests_sound. by rewrite str_app_nil_r.
  - intros Hm%(rests_complete _ _ ""). by rewrite str_app_nil_r in Hm.
Qed.
