(* ===== verification/Json.v ===== *)
(** * JSON values

    The data of [serde_json::Value], which the code uses for every YAML or JSON
    document it reads.  A number is its text.  An object is the list of its
    entries in the order they are iterated. *)

From stdpp Require Import base option list strings gmap.
From S2P Require Import Prelude.

Inductive value : Type :=
| Null
| Bool (b : bool)
| Number (n : string)
| Str (s : string)
| Array (l : list value)
| Object (fields : list (string * value)).

(** Induction that reaches the values inside arrays and objects. *)
Fixpoint value_ind_nested (P : value -> Prop)
    (HNull : P Null) (HBool : forall b, P (Bool b)) (HNumber : forall n, P (Number n))
    (HStr : forall s, P (Str s))
    (HArray : forall l, Forall P l -> P (Array l))
    (HObject : forall fields, Forall (fun kv => P kv.2) fields -> P (Object fields))
    (v : value) : P v :=
  match v with
  | Null => HNull
  | Bool b => HBool b
  | Number n => HNumber n
  | Str s => HStr s
  | Array l =>
      HArray l ((fix go l : Forall P l :=
        match l with
        | [] => Forall_nil_2 P
        | v :: l => Forall_cons_2 P v l
            (value_ind_nested P HNull HBool HNumber HStr HArray HObject v) (go l)
        end) l)
  | Object fields =>
      HObject fields ((fix go l : Forall (fun kv => P kv.2) l :=
        match l with
        | [] => Forall_nil_2 _
        | kv :: l => Forall_cons_2 _ kv l
            (value_ind_nested P HNull HBool HNumber HStr HArray HObject kv.2) (go l)
        end) fields)
  end.

(** The entry of an association list for a key. *)
Fixpoint assoc {A} (k : string) (l : list (string * A)) : option A :=
  match l with
  | [] => None
  | (k', a) :: l => if String.eqb k k' then Some a else assoc k l
  end.

(** [Value::get] with a string index *)
Definition get (k : string) (v : value) : option value :=
  match v with
  | Object fields => assoc k fields
  | _ => None
  end.

(** ** Values are countable *)

Fixpoint value_to_tree (v : value) : gen_tree (string + bool) :=
  match v with
  | Null => GenNode 0 []
  | Bool b => GenNode 1 [GenLeaf (inr b)]
  | Number n => GenNode 2 [GenLeaf (inl n)]
  | Str s => GenNode 3 [GenLeaf (inl s)]
  | Array l => GenNode 4 (map value_to_tree l)
  | Object fields => GenNode 5 (map (fun kv => GenNode 6 [GenLeaf (inl kv.1); value_to_tree kv.2]) fields)
  end.

Fixpoint value_of_tree (t : gen_tree (string + bool)) : value :=
  match t with
  | GenNode 1 [GenLeaf (inr b)] => Bool b
  | GenNode 2 [GenLeaf (inl n)] => Number n
  | GenNode 3 [GenLeaf (inl s)] => Str s
  | GenNode 4 l => Array (map value_of_tree l)
  | GenNode 5 l =>
      Object (map (fun t =>
        match t with
        | GenNode 6 [GenLeaf (inl k); t] => (k, value_of_tree t)
        | _ => (EmptyString, Null)
        end) l)
  | _ => Null
  end.

Lemma value_of_to_tree v : value_of_tree (value_to_tree v) = v.
Proof.
  induction v as [|b|n|s|l IH|fields IH] using value_ind_nested; simpl; try done; f_equal;
    rewrite map_map; induction IH as [|x l Hx _ IHl]; simpl; try done.
  - by rewrite Hx, IHl.
  - destruct x as [k w]; simpl in *. by rewrite Hx, IHl.
Qed.

#[export] Instance value_eq_dec : EqDecision value.
Proof.
  intros v w. destruct (decide (value_to_tree v = value_to_tree w)) as [E|E].
  - left. by rewrite <-(value_of_to_tree v), E, value_of_to_tree.
  - right. by intros ->.
Defined.

#[export] Instance value_countable : Countable value :=
  inj_countable' value_to_tree value_of_tree value_of_to_tree.
