(* ===== verification/ProtocolVersion.v ===== *)
(** * The agent type protocol version

    Models [agent_type/protocol_version.rs]: the [MAJOR.MINOR] version of the
    agent type schema, checked before a document is read.  The supported version
    is written by the build script from [Cargo.toml], so it is an argument. *)

From Stdlib Require Import Ascii String.
From stdpp Require Import base option list strings numbers.
From S2P Require Import Prelude RustString Json.

(** ** Data *)

(** [PartialOrd] is derived: by [major], then by [minor]. *)
Record ProtocolVersion : Type := { major : N; minor : N }.

Inductive ProtocolVersionError : Type :=
| Missing
| InvalidFormat (raw : string)
| Incompatible (target supported : ProtocolVersion).

Definition version_gt (a b : ProtocolVersion) : bool :=
  (major b <? major a)%N || ((major a =? major b)%N && (minor b <? minor a)%N).

(** Both parts are 64-bit. *)
Definition wf_version (v : ProtocolVersion) : Prop :=
  (major v < u64_bound)%N /\ (minor v < u64_bound)%N.

(** ** Operations *)

(** [Display for ProtocolVersion] *)
Definition to_string (v : ProtocolVersion) : string :=
  show_N (major v) +:+ "." +:+ show_N (minor v).

(** [Display for ProtocolVersionError] *)
Definition show_error (e : ProtocolVersionError) : string :=
  match e with
  | Missing => "missing required field protocol_version"
  | InvalidFormat raw =>
      "invalid protocol_version " +:+ String "034" (raw +:+ String "034" ": expected a quoted MAJOR.MINOR string")
  | Incompatible target supported =>
      "unsupported protocol_version " +:+ to_string target +:+
      ": newer than supported (this agent control supports up to " +:+ to_string supported +:+ ")"
  end.

(** [FromStr for ProtocolVersion] *)
Definition from_str (s : string) : result ProtocolVersion ProtocolVersionError :=
  match split "." s with
  | [major; minor] =>
      let? major := ok_or (parse_unsigned u64_bound major) (InvalidFormat s) in
      let? minor := ok_or (parse_unsigned u64_bound minor) (InvalidFormat s) in
      Ok {| major := major; minor := minor |}
  | _ => Err (InvalidFormat s)
  end.

Definition check_compatibility (target supported : ProtocolVersion) :
  result unit ProtocolVersionError :=
  if version_gt target supported then Err (Incompatible target supported) else Ok tt.

Section Validate.
(** The generated constant and [Display for serde_json::Value]. *)
Variable SUPPORTED_PROTOCOL_VERSION : ProtocolVersion.
Variable json_show : value -> string.

Definition is_supported (v : ProtocolVersion) : result unit ProtocolVersionError :=
  check_compatibility v SUPPORTED_PROTOCOL_VERSION.

Definition validate (document : value) : result unit ProtocolVersionError :=
  let? version :=
    match get "protocol_version" document with
    | None => Err Missing
    | Some (Str raw) => from_str raw
    | Some other => Err (InvalidFormat (json_show other))
    end in
  is_supported version.
End Validate.

(** ** Specification *)

(** The lexicographic order on versions. *)
Definition version_le (a b : ProtocolVersion) : Prop :=
  (major a < major b)%N \/ (major a = major b /\ (minor a <= minor b)%N).

(** ** Lemmas *)

Lemma version_gt_false a b : version_gt a b = false <-> version_le a b.
Proof.
  unfold version_gt, version_le.
  rewrite orb_false_iff, andb_false_iff, N.ltb_ge, N.eqb_neq, N.ltb_ge. lia.
Qed.

Lemma show_N_no_dot n : str_all (fun c => negb (Ascii.eqb c ".")) (show_N n) = true.
Proof.
  eapply str_all_impl; [|apply show_N_digits].
  intros c Hc. apply negb_true_iff, Ascii.eqb_neq. intros ->. by vm_compute in Hc.
Qed.

Lemma from_str_show v : wf_version v -> from_str (to_string v) = Ok v.
Proof.
  intros [Hmaj Hmin]. unfold from_str, to_string.
  change ("." +:+ show_N (minor v)) with (String "." (show_N (minor v))).
  rewrite split_app, split_no_sep by apply show_N_no_dot.
  rewrite !parse_show_N by done. by destruct v.
Qed.

Lemma parse_unsigned_bound bound s n :
  (0 < bound)%N -> parse_unsigned bound s = Some n -> (n < bound)%N.
Proof.
  intros Hb. unfold parse_unsigned.
  set (t := match s with EmptyString => s | String c s' => if Ascii.eqb c "+" then s' else s end).
  destruct t; [done|]. by apply parse_digits_bound.
Qed.

Lemma from_str_wf s v : from_str s = Ok v -> wf_version v.
Proof.
  unfold from_str. destruct (split "." s) as [|a [|b [|]]]; try done.
  destruct (parse_unsigned u64_bound a) eqn:Ha; [|done].
  destruct (parse_unsigned u64_bound b) eqn:Hb; [|done].
  intros [= <-]. split; simpl; eapply parse_unsigned_bound; by eauto.
Qed.

(** ** Properties *)

(** A document passes the protocol check exactly when its [protocol_version]
    is a string that reads as a version not newer than the supported one, and a
    refusal says which rule failed; in particular the print of any 64-bit
    version up to the supported one passes and of any newer one is refused as
    incompatible. *)
Theorem protocol_version_validate_spec
    (supported v : ProtocolVersion) (json_show : value -> string) (fields : list (string * value)) :
  wf_version v ->
  assoc "protocol_version" fields = Some (Str (to_string v)) ->
  (version_le v supported -> validate supported json_show (Object fields) = Ok tt)
  /\ (~ version_le v supported ->
      validate supported json_show (Object fields) = Err (Incompatible v supported)).
Proof.
  intros Hwf Hget. unfold validate. simpl. rewrite Hget, (from_str_show v Hwf). simpl.
  unfold is_supported, check_compatibility. rewrite <- version_gt_false.
  by destruct (version_gt v supported).
Qed.

Lemma protocol_version_validate_spec_witness :
  validate {| major := 1; minor := 0 |} (fun _ => "")
    (Object [("protocol_version", Str (to_string {| major := 0; minor := 9 |}))]) = Ok tt
  /\ validate {| major := 1; minor := 0 |} (fun _ => "")
    (Object [("protocol_version", Str (to_string {| major := 1; minor := 7 |}))])
     = Err (Incompatible {| major := 1; minor := 7 |} {| major := 1; minor := 0 |}).
Proof.
  split.
  - refine (proj1 (protocol_version_validate_spec _ {| major := 0; minor := 9 |} _ _ _ _) _);
      [split; reflexivity|reflexivity|left; reflexivity].
  - refine (proj2 (protocol_version_validate_spec _ {| major := 1; minor := 7 |} _ _ _ _) _);
      [split; reflexivity|reflexivity|].
    rewrite <- version_gt_false. discriminate.
Defined.

(** A document that passes has a version, of two 64-bit numbers, not newer
    than the supported one; what is missing, not a string or not a version is
    refused with its own error. *)
Theorem protocol_version_validate_sound
    (supported : ProtocolVersion) (json_show : value -> string) (document : value) :
  match validate supported json_show document with
  | Ok _ => exists raw v, get "protocol_version" document = Some (Str raw)
              /\ from_str raw = Ok v /\ wf_version v /\ version_le v supported
  | Err Missing => get "protocol_version" document = None
  | Err (InvalidFormat raw) =>
      (get "protocol_version" document = Some (Str raw) /\ from_str raw = Err (InvalidFormat raw))
      \/ exists other, get "protocol_version" document = Some other /\ raw = json_show other
  | Err (Incompatible v s) =>
      s = supported /\ ~ version_le v supported /\
      exists raw, get "protocol_version" document = Some (Str raw) /\ from_str raw = Ok v
  end.
Proof.
  unfold validate, is_supported, check_compatibility.
  destruct (get "protocol_version" document) as [[]|]; simpl; eauto.
  destruct (from_str s) as [v|e] eqn:Hf; simpl.
  - destruct (version_gt v supported) eqn:Hgt.
    + split_and!; [done| |by eauto]. rewrite <- version_gt_false. by rewrite Hgt.
    + exists s, v. split_and!; eauto using from_str_wf. by apply version_gt_false.
  - assert (e = InvalidFormat s) as ->; [|by eauto].
    revert Hf. unfold from_str.
    destruct (split "." s) as [|a [|b [|]]]; try (by intros [= <-]).
    destruct (parse_unsigned u64_bound a); [|by intros [= <-]].
    destruct (parse_unsigned u64_bound b); [done|by intros [= <-]].
Qed.
