(* ===== verification/RemoteConfig.v ===== *)
(** * Remote configurations

    Models [opamp/remote_config.rs], [opamp/remote_config/hash.rs],
    [opamp/remote_config/report.rs] and [opamp/remote_config/signature.rs]: the
    configuration a fleet sends through OpAMP, its state and hash, its signatures,
    and the status reported back. *)

From Stdlib Require Import Ascii String.
From stdpp Require Import base option list strings gmap.
From S2P Require Import Prelude RustString AgentId.

(** ** State and hash ([hash.rs]) *)

Inductive ConfigState : Type :=
| Applying
| Applied
| Failed (error_message : string).

#[export] Instance ConfigState_eq_dec : EqDecision ConfigState.
Proof. solve_decision. Defined.

(** The hash is the text the server sent. *)
Definition Hash : Type := string.

Definition is_applied (s : ConfigState) : bool := bool_decide (s = Applied).
Definition is_applying (s : ConfigState) : bool := bool_decide (s = Applying).
Definition is_failed (s : ConfigState) : bool :=
  match s with Failed _ => true | _ => false end.
Definition error_message (s : ConfigState) : option string :=
  match s with Failed msg => Some msg | _ => None end.

(** ** Reported status ([report.rs]) *)

(** [opamp::proto::RemoteConfigStatuses] *)
Inductive RemoteConfigStatuses : Type := StatusApplying | StatusApplied | StatusFailed.

Record RemoteConfigStatus : Type := {
  last_remote_config_hash : string;
  status : RemoteConfigStatuses;
  status_error_message : string;
}.

(** [From<ConfigState> for RemoteConfigStatuses] *)
Definition statuses_from (s : ConfigState) : RemoteConfigStatuses :=
  match s with
  | Applying => StatusApplying
  | Applied => StatusApplied
  | Failed _ => StatusFailed
  end.

(** The message [report_state] sends. *)
Definition report_status (state : ConfigState) (hash : Hash) : RemoteConfigStatus := {|
  last_remote_config_hash := hash;
  status := statuses_from state;
  status_error_message := default "" (error_message state);
|}.

(** ** Signatures ([signature.rs]) *)

Definition SIGNATURE_CUSTOM_CAPABILITY : string := "com.newrelic.security.configSignature".
Definition SIGNATURE_CUSTOM_MESSAGE_TYPE : string := "newrelicRemoteConfigSignature".

(** [signature/public_key.rs] *)
Inductive SigningAlgorithm : Type := ED25519.

Record SignatureFields (A : Type) : Type := {
  signature_text : string;
  key_id : string;
  signing_algorithm : A;
}.
Arguments signature_text {A} _.
Arguments key_id {A} _.
Arguments signing_algorithm {A} _.

Definition RawSignatureData : Type := SignatureFields string.
Definition SignatureData : Type := SignatureFields SigningAlgorithm.

Inductive SignatureError : Type :=
| InvalidCapability
| InvalidType
| InvalidData (e : string).

(** [Display for SignatureError] *)
Definition show_signature_error (e : SignatureError) : string :=
  match e with
  | InvalidCapability => "invalid config signature capability"
  | InvalidType => "invalid config signature type"
  | InvalidData e => "invalid config signature data: " +:+ e
  end.

(** [str::to_uppercase], on the characters that matter: no character outside
    ASCII has an uppercase among the letters of [ED25519]. *)
Definition to_ascii_uppercase_char (c : ascii) : ascii :=
  if is_ascii_lowercase c then ascii_of_N (code c - 32) else c.

Fixpoint to_uppercase (s : string) : string :=
  match s with
  | EmptyString => EmptyString
  | String c s => String (to_ascii_uppercase_char c) (to_uppercase s)
  end.

(** [TryFrom<&str> for SigningAlgorithm], its error as text *)
Definition signing_algorithm_try_from (s : string) : result SigningAlgorithm string :=
  if String.eqb (to_uppercase s) "ED25519" then Ok ED25519
  else Err ("unsupported algorithm: " +:+ s).

(** [TryFrom<RawSignatureData> for SignatureData] *)
Definition signature_data_try_from (s : RawSignatureData) : result SignatureData SignatureError :=
  let? alg := map_err InvalidData (signing_algorithm_try_from (signing_algorithm s)) in
  Ok {| signature_text := signature_text s; key_id := key_id s; signing_algorithm := alg |}.

(** The loop of [parse_first_valid] from position [i], with the errors so far. *)
Fixpoint parse_first_valid_from (i : N) (errors_accumulator : string)
    (signature_list : list RawSignatureData) : result SignatureData SignatureError :=
  match signature_list with
  | [] => Err (InvalidData errors_accumulator)
  | raw_signature :: signature_list =>
      match signature_data_try_from raw_signature with
      | Ok valid_signature => Ok valid_signature
      | Err err =>
          parse_first_valid_from (i + 1)
            (errors_accumulator +:+ "Cannot process the signature data in position "
              +:+ show_N i +:+ ": " +:+ show_signature_error err +:+ String "010" "")
            signature_list
      end
  end.

Definition parse_first_valid : list RawSignatureData -> result SignatureData SignatureError :=
  parse_first_valid_from 0 "".

(** The entries [Deserialize for Signatures] keeps, in the order the raw map is
    iterated; the error is the text given to [Error::custom]. *)
Fixpoint signatures_from_raw (acc : gmap string SignatureData)
    (raw : list (string * list RawSignatureData)) : result (gmap string SignatureData) string :=
  match raw with
  | [] => Ok acc
  | (id, signature_list) :: raw =>
      let? valid := map_err
        (fun e => "there is no valid signature data for " +:+ id +:+ ": " +:+ show_signature_error e)
        (parse_first_valid signature_list) in
      signatures_from_raw (<[id := valid]> acc) raw
  end.

Record CustomMessage : Type := {
  capability : string;
  message_type : string;
  data : string;
}.

Section Signatures.
Context `{HO : HashOrder}.

(** [serde_json::from_slice] on the raw map, and how it prints an error raised
    by the deserialized type. *)
Variable json_raw_signatures : string -> result (gmap string (list RawSignatureData)) string.
Variable json_custom_error : string -> string.

(** [TryFrom<&CustomMessage> for Signatures] *)
Definition signatures_try_from (m : CustomMessage) :
  result (gmap string SignatureData) SignatureError :=
  if negb (String.eqb (capability m) SIGNATURE_CUSTOM_CAPABILITY) then Err InvalidCapability
  else if negb (String.eqb (message_type m) SIGNATURE_CUSTOM_MESSAGE_TYPE) then Err InvalidType
  else
    map_err InvalidData
      (let? raw := json_raw_signatures (data m) in
       map_err json_custom_error (signatures_from_raw ∅ (entries raw))).
End Signatures.

(** ** The configuration ([remote_config.rs]) *)

Definition AGENT_CONFIG_PREFIX : string := "agentConfig".
Definition AGENT_CONFIG_OVERRIDE_PREFIX : string := "override.agentConfig".

Record OpampRemoteConfig : Type := {
  agent_id : AgentID;
  hash : Hash;
  state : ConfigState;
  signatures : option (gmap string SignatureData);
  config_map : gmap string string;
}.

Inductive OpampRemoteConfigError : Type :=
| UTF8 (e : string)
| InvalidConfig (hash err : string).

(** [Display for OpampRemoteConfigError] *)
Definition show_remote_config_error (e : OpampRemoteConfigError) : string :=
  match e with
  | UTF8 e => "invalid UTF-8 sequence: " +:+ e
  | InvalidConfig hash err => "invalid config for hash '" +:+ hash +:+ "': " +:+ err
  end.

(** [OpampRemoteConfig::new] *)
Definition new_remote_config (agent_id : AgentID) (hash : Hash) (state : ConfigState)
    (config_map : gmap string string) : OpampRemoteConfig := {|
  agent_id := agent_id; hash := hash; state := state;
  signatures := None; config_map := config_map;
|}.

Definition with_signature (c : OpampRemoteConfig) (s : gmap string SignatureData) :
  OpampRemoteConfig := {|
  agent_id := agent_id c; hash := hash c; state := state c;
  signatures := Some s; config_map := config_map c;
|}.

(** [OpampRemoteConfig::signature] *)
Definition signature (c : OpampRemoteConfig) (config_name : string) :
  result SignatureData OpampRemoteConfigError :=
  match signatures c with
  | None => Err (InvalidConfig (hash c) "missing signatures")
  | Some signatures =>
      ok_or (signatures !! config_name)
        (InvalidConfig (hash c) ("missing signature for config: " +:+ config_name))
  end.

Section Iteration.
Context `{HO : HashOrder}.

Definition configs_iter (c : OpampRemoteConfig) : list (string * string) :=
  entries (config_map c).

Definition agent_configs_iter (c : OpampRemoteConfig) : list (string * string) :=
  List.filter (fun kv => starts_with AGENT_CONFIG_PREFIX kv.1) (configs_iter c).

Definition is_agent_configs_empty (c : OpampRemoteConfig) : bool :=
  negb (existsb
    (fun kv => starts_with AGENT_CONFIG_PREFIX kv.1 && negb (str_is_empty kv.2))
    (entries (config_map c))).

(** The values whose key has the override prefix. *)
Definition override_configs (c : OpampRemoteConfig) : list string :=
  (List.filter (fun kv => starts_with AGENT_CONFIG_OVERRIDE_PREFIX kv.1) (configs_iter c)).*2.

Definition agent_config_override (c : OpampRemoteConfig) :
  result (option string) OpampRemoteConfigError :=
  match override_configs c with
  | [] => Ok None
  | [override_config] => Ok (Some override_config)
  | _ => Err (InvalidConfig (hash c)
           ("multiple configurations with '" +:+ AGENT_CONFIG_OVERRIDE_PREFIX +:+ "' prefix"))
  end.
End Iteration.

(** ** UTF-8 ([String::from_utf8]) *)

Definition cont (c : ascii) : bool := in_range 128 191 c.

Fixpoint utf8_valid (s : string) : bool :=
  match s with
  | EmptyString => true
  | String a s1 =>
      if in_range 0 127 a then utf8_valid s1
      else match s1 with
      | EmptyString => false
      | String b s2 =>
          if in_range 194 223 a then cont b && utf8_valid s2
          else match s2 with
          | EmptyString => false
          | String c s3 =>
              let second_ok3 :=
                (in_range 224 224 a && in_range 160 191 b)
                || (in_range 225 236 a && cont b)
                || (in_range 237 237 a && in_range 128 159 b)
                || (in_range 238 239 a && cont b) in
              if second_ok3 then cont c && utf8_valid s3
              else match s3 with
              | EmptyString => false
              | String d s4 =>
                  let second_ok4 :=
                    (in_range 240 240 a && in_range 144 191 b)
                    || (in_range 241 243 a && cont b)
                    || (in_range 244 244 a && in_range 128 143 b) in
                  second_ok4 && cont c && cont d && utf8_valid s4
              end
          end
      end
  end.

Section FromProto.
Context `{HO : HashOrder}.

(** [Display for FromUtf8Error] *)
Variable utf8_error : string -> string.

Definition from_utf8 (body : string) : result string string :=
  if utf8_valid body then Ok body else Err (utf8_error body).

(** [TryFrom<AgentConfigMap> for ConfigurationMap]: the bodies of the files of
    the message *)
Definition configuration_map_try_from (files : gmap string string) :
  result (gmap string string) OpampRemoteConfigError :=
  try_fold
    (fun (acc : gmap string string) kv =>
       let? body := map_err UTF8 (from_utf8 kv.2) in Ok (<[kv.1 := body]> acc))
    ∅ (entries files).
End FromProto.

(** ** Facts *)

Section FromProtoFacts.
Context `{HO : HashOrder} (utf8_error : string -> string).

(** The fold of [configuration_map_try_from] over any list without repeated keys. *)
Lemma configuration_map_fold_ok acc (l : list (string * string)) m :
  NoDup l.*1 ->
  try_fold (fun (acc : gmap string string) kv =>
      let? body := map_err UTF8 (from_utf8 utf8_error kv.2) in Ok (<[kv.1 := body]> acc)) acc l
    = Ok m <->
  Forall (fun kv => utf8_valid kv.2 = true) l /\ m = list_to_map l ∪ acc.
Proof.
  revert acc. induction l as [|[k b] l IH]; intros acc Hnd; simpl.
  - rewrite (left_id_L ∅ (∪)). split; [intros [= ->]|intros [_ ->]]; done.
  - apply NoDup_cons in Hnd as [Hk Hnd]. unfold from_utf8. rewrite Forall_cons; simpl.
    destruct (utf8_valid b); simpl; [|split; [done|by intros [[]]]].
    rewrite IH by done. rewrite <-insert_union_r, insert_union_l; [naive_solver|].
    by apply not_elem_of_list_to_map_1.
Qed.

(** A message is accepted exactly when every body is valid UTF-8, and then the
    map holds the bodies unchanged, whatever the iteration order. *)
Lemma configuration_map_try_from_ok files m :
  configuration_map_try_from utf8_error files = Ok m <->
  m = files /\ map_Forall (fun _ b => utf8_valid b = true) files.
Proof.
  unfold configuration_map_try_from.
  rewrite configuration_map_fold_ok by apply NoDup_fst_entries.
  rewrite (right_id_L ∅ (∪)), list_to_map_entries.
  rewrite (Forall_entries (fun _ b => utf8_valid b = true)). naive_solver.
Qed.
End FromProtoFacts.

Section SignatureFacts.
(** The signature chosen for a configuration is the first whose algorithm is
    supported. *)
Lemma parse_first_valid_from_ok i acc l s :
  parse_first_valid_from i acc l = Ok s <->
  exists pre raw post, l = pre ++ raw :: post /\
    Forall (fun r => is_ok (signature_data_try_from r) = false) pre /\
    signature_data_try_from raw = Ok s.
Proof.
  revert i acc. induction l as [|raw l IH]; intros i acc; cbn [parse_first_valid_from].
  - split; [done|]. by intros ([] & ? & ? & ? & _).
  - destruct (signature_data_try_from raw) as [s'|e] eqn:Hraw.
    + split.
      * intros [= ->]. by exists [], raw, l.
      * intros ([|r pre] & raw' & post & [= <- ->] & Hpre & Hs); [congruence|].
        apply Forall_cons in Hpre as [Hr _]. by rewrite Hraw in Hr.
    + rewrite IH. split.
      * intros (pre & raw' & post & -> & Hpre & Hs). exists (raw :: pre), raw', post.
        split_and!; try done. constructor; [by rewrite Hraw|done].
      * intros ([|r pre] & raw' & post & [= <- ->] & Hpre & Hs); [congruence|].
        apply Forall_cons in Hpre as [_ Hpre]. by exists pre, raw', post.
Qed.
End SignatureFacts.
