(* ===== verification/Callbacks.v ===== *)
(** * OpAMP callbacks

    Models [opamp/callbacks.rs]: what an agent's OpAMP client publishes on its
    event channel for every message of the server. *)

From Stdlib Require Import Ascii String.
From stdpp Require Import base option list strings gmap.
From S2P Require Import Prelude RustString AgentId RemoteConfig.

(** ** Data *)

(** [opamp::proto::AgentRemoteConfig]: the bodies of the configuration files, and
    the hash as bytes *)
Record AgentRemoteConfig : Type := {
  config : option (gmap string string);
  config_hash : string;
}.

(** [opamp_client::operation::callbacks::MessageData], the fields that are read *)
Record MessageData : Type := {
  remote_config : option AgentRemoteConfig;
  custom_message : option CustomMessage;
}.

(** [opamp_client::error::ConnectionError], as far as it is inspected: the code
    and reason of an unsuccessful HTTP response, or the text of another error *)
Inductive ConnectionError : Type :=
| UnsuccessfulResponse (code : N) (reason : string)
| OtherConnectionError (text : string).

(** [event.rs] *)
Inductive OpAMPEvent : Type :=
| RemoteConfigReceived (c : OpampRemoteConfig)
| Connected
| ConnectFailed (code : option N) (reason : string).

(** The sending half of the event channel: the events sent so far, oldest first,
    and whether the consumer is gone. *)
Record EventPublisher : Type := {
  sent : list OpAMPEvent;
  disconnected : bool;
}.

Inductive AgentCallbacksError : Type :=
| PublishEventError
| EffectiveConfigError (e : string).

(** ** Operations *)

(** [EventPublisher::publish] *)
Definition publish (e : OpAMPEvent) : M EventPublisher (result unit AgentCallbacksError) :=
  fun p =>
    if disconnected p then (Err PublishEventError, p)
    else (Ok tt, {| sent := sent p ++ [e]; disconnected := false |}).

Lemma signatures_from_raw_ok acc raw :
  is_ok (signatures_from_raw acc raw) = true <->
  Forall (fun kv => is_ok (parse_first_valid kv.2) = true) raw.
Proof.
  revert acc. induction raw as [|[id l] raw IH]; intros acc; simpl.
  - split; [constructor|done].
  - rewrite Forall_cons; simpl. destruct (parse_first_valid l); simpl; [rewrite IH|]; naive_solver.
Qed.

Section Callbacks.
Context `{HO : HashOrder}.
Variable utf8_error : string -> string.
Variable json_raw_signatures : string -> result (gmap string (list RawSignatureData)) string.
Variable json_custom_error : string -> string.
Variable self_agent_id : AgentID.

(** The hash of the message, and the state after reading it. *)
Definition read_hash (m : AgentRemoteConfig) (st : ConfigState) : Hash * ConfigState :=
  match from_utf8 utf8_error (config_hash m) with
  | Ok hash => (hash, st)
  | Err err => ("", Failed ("Invalid hash: " +:+ err))
  end.

(** The configuration map of the message, and the state after reading it. *)
Definition read_config_map (m : AgentRemoteConfig) (st : ConfigState) :
  gmap string string * ConfigState :=
  match config m with
  | Some msg_config_map =>
      match configuration_map_try_from utf8_error msg_config_map with
      | Ok config_map => (config_map, st)
      | Err err =>
          (∅, Failed ("Invalid remote config format: " +:+ show_remote_config_error err))
      end
  | None => (∅, Failed "Config missing")
  end.

(** The signatures of the message, and the state after reading them. *)
Definition read_signatures (c : option CustomMessage) (st : ConfigState) :
  option (gmap string SignatureData) * ConfigState :=
  match c with
  | None => (None, st)
  | Some custom_message =>
      match signatures_try_from json_raw_signatures json_custom_error custom_message with
      | Ok s => (Some s, st)
      | Err (InvalidData err) =>
          (None, Failed ("Invalid remote config signature format: " +:+ err))
      | Err _ => (None, st)
      end
  end.

(** The remote configuration assembled by [process_remote_config] *)
Definition assemble_remote_config (m : AgentRemoteConfig) (c : option CustomMessage) :
  OpampRemoteConfig :=
  let '(hash, st) := read_hash m Applying in
  let '(config_map, st) := read_config_map m st in
  let '(maybe_config_signature, st) := read_signatures c st in
  let remote_config := new_remote_config self_agent_id hash st config_map in
  match maybe_config_signature with
  | Some config_signature => with_signature remote_config config_signature
  | None => remote_config
  end.

Definition process_remote_config (m : AgentRemoteConfig) (c : option CustomMessage) :
  M EventPublisher (result unit AgentCallbacksError) :=
  publish (RemoteConfigReceived (assemble_remote_config m c)).

Definition on_message (m : MessageData) : M EventPublisher unit :=
  match remote_config m with
  | Some msg_remote_config =>
      let* _ := process_remote_config msg_remote_config (custom_message m) in ret tt
  | None => ret tt
  end.

Definition on_connect : M EventPublisher unit :=
  let* _ := publish Connected in ret tt.

Definition on_connect_failed (err : ConnectionError) : M EventPublisher unit :=
  let '(code, reason) :=
    match err with
    | UnsuccessfulResponse code reason => (Some code, reason)
    | OtherConnectionError text => (None, text)
    end in
  let* _ := publish (ConnectFailed code reason) in ret tt.

(** ** What a well-formed message is *)

(** A custom message that does not carry signatures, or carries readable ones. *)
Definition signature_acceptable (c : option CustomMessage) : Prop :=
  match c with
  | None => True
  | Some m =>
      capability m = SIGNATURE_CUSTOM_CAPABILITY ->
      message_type m = SIGNATURE_CUSTOM_MESSAGE_TYPE ->
      exists raw, json_raw_signatures (data m) = Ok raw /\
        map_Forall (fun _ l => is_ok (parse_first_valid l) = true) raw
  end.

Definition well_formed (m : AgentRemoteConfig) (c : option CustomMessage) : Prop :=
  utf8_valid (config_hash m) = true /\
  (exists files, config m = Some files /\
     map_Forall (fun _ b => utf8_valid b = true) files) /\
  signature_acceptable c.

(** ** Facts *)

Lemma read_signatures_state c st :
  is_failed st = false ->
  (is_failed (read_signatures c st).2 = false <-> signature_acceptable c).
Proof.
  clear utf8_error self_agent_id.
  intros Hst. destruct c as [m|]; simpl; [|by rewrite Hst].
  unfold signatures_try_from.
  destruct (String.eqb_spec (capability m) SIGNATURE_CUSTOM_CAPABILITY) as [Hc|Hc]; simpl;
    [|by rewrite Hst].
  destruct (String.eqb_spec (message_type m) SIGNATURE_CUSTOM_MESSAGE_TYPE) as [Ht|Ht]; simpl;
    [|by rewrite Hst].
  destruct (json_raw_signatures (data m)) as [raw|e]; simpl; [|naive_solver].
  pose proof (signatures_from_raw_ok ∅ (entries raw)) as Hraw.
  rewrite (Forall_entries (fun _ l => is_ok (parse_first_valid l) = true)) in Hraw.
  destruct (signatures_from_raw ∅ (entries raw)); simpl in *; [rewrite Hst|]; naive_solver.
Qed.

Lemma read_signatures_failed c msg : is_failed (read_signatures c (Failed msg)).2 = true.
Proof. destruct c; simpl; [|done]. by repeat case_match. Qed.

Lemma assemble_state m c :
  state (assemble_remote_config m c) = Applying <-> well_formed m c.
Proof.
  assert (state (assemble_remote_config m c) =
    (read_signatures c (read_config_map m (read_hash m Applying).2).2).2) as ->.
  { unfold assemble_remote_config. destruct (read_hash m Applying) as [h st1]; simpl.
    destruct (read_config_map m st1) as [cm st2]; simpl.
    by destruct (read_signatures c st2) as [[] st3]. }
  assert (forall st, (read_signatures c st).2 = Applying <->
    is_failed (read_signatures c st).2 = false /\ st = Applying) as Hsig.
  { intros st. destruct c; simpl; [|destruct st; naive_solver].
    repeat case_match; simpl; destruct st; naive_solver. }
  rewrite Hsig. unfold well_formed.
  assert ((read_config_map m (read_hash m Applying).2).2 = Applying <->
    utf8_valid (config_hash m) = true /\
    (exists files, config m = Some files /\ map_Forall (fun _ b => utf8_valid b = true) files))
    as Hmap.
  { unfold read_config_map, read_hash, from_utf8.
    destruct (config m) as [files|]; [|simpl; naive_solver].
    pose proof (configuration_map_try_from_ok utf8_error files) as Hok.
    destruct (configuration_map_try_from utf8_error files) as [m'|e]; simpl.
    - specialize (Hok m') as [[-> ?] _]; [done|].
      destruct (utf8_valid (config_hash m)); simpl; naive_solver.
    - split; [done|]. intros (_ & ? & [= <-] & Hv).
      destruct (Hok files) as [_ Hok']. by discriminate Hok'. }
  rewrite Hmap. split.
  - intros [Hf Ha]. rewrite (proj2 Hmap Ha) in Hf. apply read_signatures_state in Hf; naive_solver.
  - intros (? & ? & ?). split; [|done]. rewrite (proj2 Hmap) by done.
    by apply read_signatures_state.
Qed.

Lemma assemble_agent_id m c : agent_id (assemble_remote_config m c) = self_agent_id.
Proof.
  unfold assemble_remote_config. destruct (read_hash m Applying) as [h st1]; simpl.
  destruct (read_config_map m st1) as [cm st2]; simpl.
  by destruct (read_signatures c st2) as [[] st3].
Qed.

Lemma assemble_applying_or_failed m c :
  state (assemble_remote_config m c) = Applying \/
  is_failed (state (assemble_remote_config m c)) = true.
Proof.
  destruct (decide (state (assemble_remote_config m c) = Applying)); [by left|right].
  unfold assemble_remote_config, read_hash, read_config_map, read_signatures in *.
  repeat case_match; simplify_eq/=; done.
Qed.

Lemma assemble_contents m c files :
  utf8_valid (config_hash m) = true ->
  config m = Some files ->
  map_Forall (fun _ b => utf8_valid b = true) files ->
  hash (assemble_remote_config m c) = config_hash m /\
  config m = Some (config_map (assemble_remote_config m c)).
Proof.
  intros Hh Hf Hv. unfold assemble_remote_config, read_hash, read_config_map, from_utf8.
  rewrite Hh, Hf.
  rewrite (proj2 (configuration_map_try_from_ok utf8_error files files)) by done.
  by destruct (read_signatures c Applying) as [[] st3].
Qed.
End Callbacks.

(** ** Properties *)

(** While its consumer is there, every server message that carries a remote
    configuration publishes exactly one [RemoteConfigReceived] event, addressed to
    this agent.  The event is in state [Applying] exactly when the hash and every
    configuration body are valid UTF-8, a configuration is present, and a signature
    message, if any, has a supported signature for every entry; it then carries the
    hash and the bodies unchanged.  In every other case it is in state [Failed], so a
    malformed message is never applied and never lost.  Nothing depends on the
    iteration order of the maps. *)
Theorem on_message_publishes `{HO : HashOrder} utf8_error json_raw json_custom
    (id : AgentID) (m : AgentRemoteConfig) (c : option CustomMessage) (p : EventPublisher) :
  disconnected p = false ->
  exists rc,
    on_message utf8_error json_raw json_custom id
        {| remote_config := Some m; custom_message := c |} p
      = (tt, {| sent := sent p ++ [RemoteConfigReceived rc]; disconnected := false |}) /\
    agent_id rc = id /\
    (state rc = Applying \/ is_failed (state rc) = true) /\
    (state rc = Applying <-> well_formed json_raw m c) /\
    (state rc = Applying -> hash rc = config_hash m /\ config m = Some (config_map rc)).
Proof.
  intros Hp. exists (assemble_remote_config utf8_error json_raw json_custom id m c).
  split_and!.
  - unfold on_message, process_remote_config, publish, bind, ret; simpl. by rewrite Hp.
  - apply assemble_agent_id.
  - apply assemble_applying_or_failed.
  - apply assemble_state.
  - intros (Hh & (files & Hf & Hv) & Hs)%assemble_state.
    by eapply assemble_contents.
Qed.

Lemma on_message_publishes_witness :
  exists rc,
    on_message (fun _ => "") (fun _ => Err "") (fun e => e) AgentControl
        {| remote_config := Some {| config := Some {["agentConfig" := "a: 1"]};
                                    config_hash := "h" |};
           custom_message := None |} {| sent := [Connected]; disconnected := false |}
      = (tt, {| sent := [Connected; RemoteConfigReceived rc]; disconnected := false |}).
Proof.
  destruct (on_message_publishes (fun _ => "") (fun _ => Err "") (fun e => e) AgentControl
    {| config := Some {["agentConfig" := "a: 1"]}; config_hash := "h" |} None
    {| sent := [Connected]; disconnected := false |} eq_refl) as (rc & Hrc & _).
  by exists rc.
Defined.
