(* ===== verification/YamlConfig.v ===== *)
(** * YAML configurations

    Models [values/yaml_config.rs]: the values of an agent, a mapping from keys to
    JSON values, and how several of them are combined. *)

From Stdlib Require Import String.
From stdpp Require Import base option list strings gmap.
From S2P Require Import Prelude RustString Json.

Abbreviation YAMLConfig := (gmap string value).

(** The text of a [YAMLConfigError]. *)
Definition YAMLConfigError : Type := string.

(** The YAML library ([serde_saphyr]): reading a mapping, its error as text, and
    writing one. *)
Class Yaml : Type := {
  parse_yaml_config : string -> result YAMLConfig string;
  yaml_to_string : YAMLConfig -> result string string;
}.

Definition is_empty (c : YAMLConfig) : bool := bool_decide (c = ∅).

Definition remove_key (key : string) (c : YAMLConfig) : option value * YAMLConfig :=
  (c !! key, delete key c).

(** [TryFrom<&str> for YAMLConfig] *)
Definition yaml_config_try_from `{Yaml} (content : string) : result YAMLConfig YAMLConfigError :=
  map_err (fun e => "decoding config: " +:+ e) (parse_yaml_config content).

(** [TryFrom<YAMLConfig> for String] *)
Definition string_try_from `{Yaml} (c : YAMLConfig) : result string YAMLConfigError :=
  if is_empty c then Ok ""
  else map_err (fun e => "decoding config: " +:+ e) (yaml_to_string c).

Section Merge.
Context `{HO : HashOrder}.

(** One step of the loop of [try_append]. *)
Definition append_entry (acc : YAMLConfig) (kv : string * value) :
  result YAMLConfig YAMLConfigError :=
  match acc !! kv.1 with
  | Some _ => Err ("cannot append duplicated key: " +:+ kv.1)
  | None => Ok (<[kv.1 := kv.2]> acc)
  end.

Definition try_append (a b : YAMLConfig) : result YAMLConfig YAMLConfigError :=
  try_fold append_entry a (entries b).

Definition merge_override (a b : YAMLConfig) : YAMLConfig :=
  fold_left (fun acc kv => <[kv.1 := kv.2]> acc) (entries b) a.

(** ** Facts *)

Lemma append_entries_ok l a r :
  NoDup l.*1 ->
  try_fold append_entry a l = Ok r <-> a ##ₘ list_to_map l /\ r = a ∪ list_to_map l.
Proof.
  revert a. induction l as [|[k v] l IH]; intros a Hnd; simpl.
  - rewrite (right_id_L ∅ (∪)). split; [intros [= ->]|by intros [_ ->]].
    split; [apply map_disjoint_empty_r|done].
  - apply NoDup_cons in Hnd as [Hk Hnd]. unfold append_entry at 1; simpl.
    rewrite map_disjoint_insert_r.
    destruct (a !! k) as [w|] eqn:Ha; simpl; [naive_solver|].
    rewrite IH, map_disjoint_insert_l by done.
    apply not_elem_of_list_to_map_1 in Hk.
    rewrite <-insert_union_l, insert_union_r by done. naive_solver.
Qed.

(** Appending succeeds exactly on configurations without a common key, and gives
    their union. *)
Lemma try_append_ok a b r : try_append a b = Ok r <-> a ##ₘ b /\ r = a ∪ b.
Proof.
  unfold try_append. rewrite append_entries_ok by apply NoDup_fst_entries.
  by rewrite list_to_map_entries.
Qed.

(** The overriding configuration wins on every common key. *)
Lemma merge_override_union a b : merge_override a b = b ∪ a.
Proof.
  rewrite <-(list_to_map_entries b) at 2. unfold merge_override.
  pose proof (NoDup_fst_entries b) as Hnd. revert a Hnd.
  induction (entries b) as [|[k v] l IH]; intros a Hnd; simpl.
  - by rewrite (left_id_L ∅ (∪)).
  - apply NoDup_cons in Hnd as [Hk Hnd]. rewrite IH by done.
    rewrite <-insert_union_r, insert_union_l; [done|].
    by apply not_elem_of_list_to_map_1.
Qed.

End Merge.

Lemma is_empty_true c : is_empty c = true <-> c = ∅.
Proof. apply bool_decide_eq_true. Qed.
