(* ===== verification/Variables.v ===== *)
(** * Agent type variables

    Models [agent_type/variable.rs] and its directory, [agent_type/trivial_value.rs] and the
    variables of [agent_type/definition.rs] and [agent_type/render.rs]: the variables an agent
    type declares, the values a configuration gives them, and the names under which
    templates refer to them.

    A [HashMap] of subtrees is the list of its entries in the order they are iterated, with
    distinct keys. *)

From Stdlib Require Import Ascii String.
From stdpp Require Import base option list strings gmap.
From S2P Require Import Prelude RustString Json.

(** ** Errors ([error.rs]); the payload of an external error is its text *)

Inductive AgentTypeError : Type :=
| Serialization (e : string)
| ValueConversion (e : string)
| MissingValue (key : string)
| UnexpectedValueForKey (key val : string)
| MissingTemplateKey (key : string)
| Parse (e : string)
| ValuesNotPopulated (keys : list string)
| ValueNotParseableFromString (s : string)
| UnknownBackoffStrategyType (s : string)
| InvalidVariant (variants : string)
| RenderingTemplate (e : string)
| OCIReferenceParsingError (e : string).

(** The types values are converted to, and the text of the [serde_json] error for a value
    that is not of the type. *)
Inductive json_type : Type := JsonString | JsonBool | JsonNumber | JsonMap.

Class JsonErrors : Type := { conversion_error : json_type -> value -> string }.

(** ** Variants ([variants.rs], [constraints.rs]) *)

Definition Variants : Type := list string.

Record VariantsConfig : Type := { ac_config_field : option string; variants_values : Variants }.

Record VariableConstraints : Type := { variants_constraints : gmap string Variants }.

Definition is_valid (v : Variants) (s : string) : bool :=
  match v with [] => true | _ => existsb (String.eqb s) v end.

(** [Display for Variants] *)
Definition show_variants (v : Variants) : string :=
  "[" +:+ match v with
          | [] => ""
          | s :: l => fold_left (fun acc s => acc +:+ ", " +:+ s) l s
          end +:+ "]".

(** ** Fields ([fields.rs]) *)

Record FieldsDefinition (T : Type) : Type := { def_required : bool; def_default : option T }.
Arguments def_required {T} _.
Arguments def_default {T} _.

Record Fields (T : Type) : Type := {
  required : bool;
  default_value : option T;
  final_value : option T;
}.
Arguments required {T} _.
Arguments default_value {T} _.
Arguments final_value {T} _.
Arguments Build_Fields {T} _ _ _.

Record StringFieldsDefinition : Type := {
  def_inner : FieldsDefinition string;
  def_variants : VariantsConfig;
}.

Record StringFields : Type := { inner : Fields string; variants : Variants }.

(** [Deserialize for FieldsDefinition], after its fields have been read *)
Definition fields_definition {T} (default : option T) (required : bool) :
  result (FieldsDefinition T) AgentTypeError :=
  match default, required with
  | Some _, true =>
      Err (Parse "default value cannot be specified for a required spec key")
  | None, false => Err (Parse "missing default value for a non-required spec key")
  | _, _ => Ok {| def_required := required; def_default := default |}
  end.

(** [Deserialize for YamlFieldsDefinition] *)
Definition yaml_fields_definition (default : option value) (required : bool) :
  result (FieldsDefinition value) AgentTypeError :=
  match default, required with
  | Some _, true =>
      Err (Parse "default value cannot be specified for a required spec key")
  | None, false => Ok {| def_required := required; def_default := Some Null |}
  | _, _ => Ok {| def_required := required; def_default := default |}
  end.

Definition fields_with_config {T} (d : FieldsDefinition T) : Fields T :=
  {| required := def_required d; default_value := def_default d; final_value := None |}.

Definition build_variants (c : VariantsConfig) (constraints : VariableConstraints) : Variants :=
  match ac_config_field c with
  | None => variants_values c
  | Some field => default (variants_values c) (variants_constraints constraints !! field)
  end.

Definition string_with_config (constraints : VariableConstraints) (d : StringFieldsDefinition) :
  StringFields :=
  {| inner := fields_with_config (def_inner d);
     variants := build_variants (def_variants d) constraints |}.

Definition set_final_value {T} (f : Fields T) (v : T) : Fields T :=
  {| required := required f; default_value := default_value f; final_value := Some v |}.

Definition set_final_string (f : StringFields) (v : string) : result StringFields AgentTypeError :=
  if is_valid (variants f) v
  then Ok {| inner := set_final_value (inner f) v; variants := variants f |}
  else Err (InvalidVariant (show_variants (variants f))).

(** ** Types ([variable_type.rs]) *)

Inductive VariableTypeDefinition : Type :=
| StringDefinition (f : StringFieldsDefinition)
| BoolDefinition (f : FieldsDefinition bool)
| NumberDefinition (f : FieldsDefinition string)
| MapStringYamlDefinition (f : FieldsDefinition (gmap string value))
| YamlDefinition (f : FieldsDefinition value).

Inductive VariableType : Type :=
| StringType (f : StringFields)
| BoolType (f : Fields bool)
| NumberType (f : Fields string)
| MapStringYamlType (f : Fields (gmap string value))
| YamlType (f : Fields value).

(** [trivial_value.rs] *)
Inductive TrivialValue : Type :=
| TrivialString (s : string)
| TrivialBool (b : bool)
| TrivialNumber (n : string)
| TrivialYaml (v : value)
| TrivialMapStringString (m : gmap string string)
| TrivialMapStringYaml (m : gmap string value).

Definition to_yaml_value (t : TrivialValue) : option value :=
  match t with TrivialYaml v => Some v | _ => None end.

Definition type_with_config (constraints : VariableConstraints) (t : VariableTypeDefinition) :
  VariableType :=
  match t with
  | StringDefinition f => StringType (string_with_config constraints f)
  | BoolDefinition f => BoolType (fields_with_config f)
  | NumberDefinition f => NumberType (fields_with_config f)
  | MapStringYamlDefinition f => MapStringYamlType (fields_with_config f)
  | YamlDefinition f => YamlType (fields_with_config f)
  end.

Definition is_required (t : VariableType) : bool :=
  match t with
  | StringType f => required (inner f)
  | BoolType f => required f
  | NumberType f => required f
  | MapStringYamlType f => required f
  | YamlType f => required f
  end.

(** [Option::or] on the final value and the default *)
Definition value_or_default {T} (f : Fields T) : option T :=
  match final_value f with Some v => Some v | None => default_value f end.

Definition type_final_value (t : VariableType) : option TrivialValue :=
  match t with
  | StringType f => TrivialString <$> value_or_default (inner f)
  | BoolType f => TrivialBool <$> value_or_default f
  | NumberType f => TrivialNumber <$> value_or_default f
  | MapStringYamlType f => TrivialMapStringYaml <$> value_or_default f
  | YamlType f => TrivialYaml <$> value_or_default f
  end.

(** ** Variables ([variable.rs]) *)

Record VariableDefinition : Type := {
  def_description : string;
  def_variable_type : VariableTypeDefinition;
}.

Record Variable_ : Type := { description : string; kind : VariableType }.

Definition variable_with_config (constraints : VariableConstraints) (d : VariableDefinition) :
  Variable_ :=
  {| description := def_description d; kind := type_with_config constraints (def_variable_type d) |}.

Definition new_final_string_variable (s : string) : Variable_ :=
  {| description := "";
     kind := StringType {| inner := {| required := false; default_value := None;
                                       final_value := Some s |}; variants := [] |} |}.

Definition get_final_value (v : Variable_) : option TrivialValue := type_final_value (kind v).

Section Merge.
Context `{JE : JsonErrors}.

(** [VariableType::merge_with_yaml_value]: the value is converted to the type of the
    variable. *)
Definition merge_type (t : VariableType) (v : value) : result VariableType AgentTypeError :=
  match t, v with
  | StringType f, Str s => map_ok StringType (set_final_string f s)
  | BoolType f, Bool b => Ok (BoolType (set_final_value f b))
  | NumberType f, Number n => Ok (NumberType (set_final_value f n))
  | MapStringYamlType f, Object l => Ok (MapStringYamlType (set_final_value f (list_to_map l)))
  | YamlType f, v => Ok (YamlType (set_final_value f v))
  | StringType _, v => Err (ValueConversion (conversion_error JsonString v))
  | BoolType _, v => Err (ValueConversion (conversion_error JsonBool v))
  | NumberType _, v => Err (ValueConversion (conversion_error JsonNumber v))
  | MapStringYamlType _, v => Err (ValueConversion (conversion_error JsonMap v))
  end.

Definition merge_with_yaml_value (x : Variable_) (v : value) : result Variable_ AgentTypeError :=
  map_ok (fun t => {| description := description x; kind := t |}) (merge_type (kind x) v).

End Merge.

(** ** Trees ([tree.rs]) *)

Inductive Tree (T : Type) : Type :=
| End (t : T)
| Mapping (m : list (string * Tree T)).
Arguments End {T} t.
Arguments Mapping {T} m.

Definition TEMPLATE_KEY_SEPARATOR : string := ".".

(** [HashMap::extend]: the new entries win. *)
Definition extend {T} (result new : gmap string T) : gmap string T := new ∪ result.

Fixpoint inner_flatten {T} (key : string) (spec : Tree T) : gmap string T :=
  match spec with
  | End s => {[key := s]}
  | Mapping m =>
      fold_left (fun result kv =>
        extend result (inner_flatten (key +:+ TEMPLATE_KEY_SEPARATOR +:+ kv.1) kv.2)) m ∅
  end.

(** [VarTree::flatten] *)
Definition flatten {T} (t : list (string * Tree T)) : gmap string T :=
  fold_left (fun result kv => extend result (inner_flatten kv.1 kv.2)) t ∅.

Fixpoint tree_with_config (constraints : VariableConstraints) (t : Tree VariableDefinition) :
  Tree Variable_ :=
  match t with
  | End v => End (variable_with_config constraints v)
  | Mapping m => Mapping (map (fun kv => (kv.1, tree_with_config constraints kv.2)) m)
  end.

(** [VariableDefinitionTree::with_config] *)
Definition with_config (constraints : VariableConstraints)
    (t : list (string * Tree VariableDefinition)) : list (string * Tree Variable_) :=
  map (fun kv => (kv.1, tree_with_config constraints kv.2)) t.

(** The entry of a map is replaced through [get_mut]. *)
Fixpoint set_assoc {T} (k : string) (t : T) (l : list (string * T)) : list (string * T) :=
  match l with
  | [] => []
  | (k', t') :: l => if String.eqb k k' then (k', t) :: l else (k', t') :: set_assoc k t l
  end.

Section Fill.
Context `{JE : JsonErrors}.

(** The loop of [update_specs], given how a value updates a subtree. *)
Fixpoint update_entries (update : value -> Tree Variable_ -> result (Tree Variable_) AgentTypeError)
    (values : list (string * value)) (agent_vars : list (string * Tree Variable_)) :
  result (list (string * Tree Variable_)) AgentTypeError :=
  match values with
  | [] => Ok agent_vars
  | (key, v) :: values =>
      match assoc key agent_vars with
      | None => update_entries update values agent_vars
      | Some spec =>
          let? spec := update v spec in
          update_entries update values (set_assoc key spec agent_vars)
      end
  end.

Fixpoint update_spec (v : value) (spec : Tree Variable_) :
  result (Tree Variable_) AgentTypeError :=
  match spec with
  | End e => map_ok End (merge_with_yaml_value e v)
  | Mapping m =>
      match v with
      | Object l => map_ok Mapping (update_entries update_spec l m)
      | _ => Err (ValueConversion (conversion_error JsonMap v))
      end
  end.

(** [VariableTree::fill_with_values] *)
Definition fill_with_values (values : list (string * value)) (t : list (string * Tree Variable_)) :
  result (list (string * Tree Variable_)) AgentTypeError :=
  update_entries update_spec values t.

End Fill.

(** ** Namespaces ([namespace.rs]) and the variables of a rendering ([render.rs]) *)

Inductive Namespace : Type :=
| VariableNs | SubAgentNs | AgentControlNs | EnvironmentVariableNs | VaultNs | FileNs | K8sSecretNs.

(** [Display for Namespace] *)
Definition show_namespace (n : Namespace) : string :=
  "nr-" +:+ match n with
            | VariableNs => "var"
            | SubAgentNs => "sub"
            | AgentControlNs => "ac"
            | EnvironmentVariableNs => "env"
            | VaultNs => "vault"
            | FileNs => "file"
            | K8sSecretNs => "kubesec"
            end.

Definition namespaced_name (n : Namespace) (name : string) : string :=
  show_namespace n +:+ ":" +:+ name.

Definition is_secret_variable (s : string) : bool :=
  existsb (fun n => starts_with (show_namespace n) s)
    [VaultNs; K8sSecretNs; FileNs; EnvironmentVariableNs].

Definition Variables : Type := gmap string Variable_.

Section Render.
Context `{HO : HashOrder}.

Definition check_all_vars_are_populated (variables : Variables) : result unit AgentTypeError :=
  let not_populated :=
    omap (fun kv : string * Variable_ =>
            match get_final_value kv.2 with None => Some kv.1 | Some _ => None end)
      (entries variables) in
  match not_populated with
  | [] => Ok tt
  | _ => Err (ValuesNotPopulated not_populated)
  end.

(** [build_namespaced_variables]: later variables of the chain win. *)
Definition build_namespaced_variables (ac_variables variables env_vars sub_agent_variables : Variables) :
  Variables :=
  fold_left (fun acc kv => <[kv.1 := kv.2]> acc)
    (map (fun kv => (namespaced_name VariableNs kv.1, kv.2)) (entries variables)
       ++ entries sub_agent_variables ++ entries env_vars ++ entries ac_variables) ∅.

End Render.

(** ** Looking variables and values up by path *)

Fixpoint tree_get {T} (path : list string) (t : Tree T) : option T :=
  match path, t with
  | [], End v => Some v
  | k :: path, Mapping m => assoc k m ≫= tree_get path
  | _, _ => None
  end.

Fixpoint value_get (path : list string) (v : value) : option value :=
  match path with
  | [] => Some v
  | k :: path => get k v ≫= value_get path
  end.

(** The name of a path, as templates write it. *)
Fixpoint path_name (path : list string) : string :=
  match path with
  | [] => ""
  | [k] => k
  | k :: path => k +:+ TEMPLATE_KEY_SEPARATOR +:+ path_name path
  end.

Definition no_dot (s : string) : bool := str_all (fun c => negb (Ascii.eqb c "."%char)) s.

(** Distinct names without dots at every level. *)
Inductive wf_tree {T} : Tree T -> Prop :=
| wf_End t : wf_tree (End t)
| wf_Mapping m :
    NoDup m.*1 -> Forall (fun k => no_dot k = true) m.*1 ->
    Forall (fun kv => wf_tree kv.2) m -> wf_tree (Mapping m).

(** Values are maps: keys are distinct at every level. *)
Inductive wf_value : value -> Prop :=
| wf_Object l : NoDup l.*1 -> Forall (fun kv => wf_value kv.2) l -> wf_value (Object l)
| wf_other v : (forall l, v <> Object l) -> wf_value v.

Fixpoint tree_ind_nested {T} (P : Tree T -> Prop) (HEnd : forall t, P (End t))
    (HMapping : forall m, Forall (fun kv => P kv.2) m -> P (Mapping m)) (t : Tree T) : P t :=
  match t with
  | End t => HEnd t
  | Mapping m =>
      HMapping m ((fix go l : Forall (fun kv => P kv.2) l :=
        match l with
        | [] => Forall_nil_2 _
        | kv :: l => Forall_cons_2 _ kv l (tree_ind_nested P HEnd HMapping kv.2) (go l)
        end) m)
  end.

(** ** Lemmas on association lists *)

Lemma assoc_Some {A} (k : string) (a : A) l :
  NoDup l.*1 -> assoc k l = Some a <-> (k, a) ∈ l.
Proof.
  induction l as [|[k' a'] l IH]; simpl; intros HN; [set_solver|].
  apply NoDup_cons in HN as [Hk HN]. rewrite elem_of_cons.
  destruct (String.eqb_spec k k') as [->|Hne].
  - split; [intros [= ->]; by left|]. intros [[= ->]|Hin]; [done|].
    destruct Hk. apply list_elem_of_fmap. by exists (k', a).
  - rewrite (IH HN). split; [by right|]. intros [[= -> ->]|]; done.
Qed.

Lemma assoc_set_eq {A} (k : string) (a b : A) l :
  assoc k l = Some a -> assoc k (set_assoc k b l) = Some b.
Proof.
  induction l as [|[k' a'] l IH]; simpl; [done|].
  destruct (String.eqb k k') eqn:E; simpl; rewrite E; auto.
Qed.

Lemma assoc_set_ne {A} (k k' : string) (b : A) l :
  k <> k' -> assoc k' (set_assoc k b l) = assoc k' l.
Proof.
  intros Hne. induction l as [|[k2 a2] l IH]; simpl; [done|].
  destruct (String.eqb_spec k k2) as [->|]; simpl; destruct (String.eqb_spec k' k2); congruence.
Qed.

(** ** Flattening *)

Fixpoint suffix (path : list string) : string :=
  match path with
  | [] => ""
  | k :: path => TEMPLATE_KEY_SEPARATOR +:+ k +:+ suffix path
  end.

Lemma path_name_suffix k path : path_name (k :: path) = k +:+ suffix path.
Proof.
  revert k. induction path as [|k' path IH]; intros k.
  - simpl. by rewrite str_app_nil_r.
  - change (path_name (k :: k' :: path)) with (k +:+ TEMPLATE_KEY_SEPARATOR +:+ path_name (k' :: path)).
    by rewrite IH.
Qed.

Lemma suffix_split a b p q :
  no_dot a = true -> no_dot b = true ->
  a +:+ suffix p = b +:+ suffix q -> a = b /\ suffix p = suffix q.
Proof.
  unfold no_dot. revert b.
  induction a as [|x a IH]; intros [|y b] Ha Hb; simpl in *; [done|..].
  - destruct p; simpl; [done|]. intros [= <- _]. done.
  - destruct q; simpl; [done|]. intros [= -> _]. done.
  - intros [= -> H]. apply andb_prop in Ha as [_ Ha], Hb as [_ Hb].
    destruct (IH b Ha Hb H) as [-> ?]. done.
Qed.

Lemma fold_extend_lookup {A T} (f : A -> gmap string T) l acc k v :
  (forall a b x y, a ∈ l -> b ∈ l -> f a !! k = Some x -> f b !! k = Some y -> x = y) ->
  fold_left (fun r a => extend r (f a)) l acc !! k = Some v <->
  (exists a, a ∈ l /\ f a !! k = Some v) \/
  ((forall a, a ∈ l -> f a !! k = None) /\ acc !! k = Some v).
Proof.
  revert acc. induction l as [|a l IH]; intros acc Hc; simpl; [set_solver|].
  rewrite IH by (intros a' b' x y ?? Hx Hy; eapply (Hc a' b'); [by right|by right|done|done]).
  unfold extend. destruct (f a !! k) as [x|] eqn:Hx.
  - rewrite (lookup_union_Some_l _ _ _ _ Hx). split.
    + intros [(b & Hb & Hv)|[_ [= ->]]]; left; [|set_solver]. exists b. set_solver.
    + intros [(b & Hb & Hv)|[Hn _]]; [|specialize (Hn a); set_solver].
      assert (x = v) as -> by (by eapply (Hc a b); [left|..]).
      destruct (decide (Exists (fun a => is_Some (f a !! k)) l)) as [HE|HE].
      * apply Exists_exists in HE as (c & Hin & y & Hy). left. exists c. split; [done|].
        rewrite Hy. f_equal. by eapply (Hc c a); [right|left|..].
      * right. split; [|done]. intros c Hin. apply eq_None_not_Some. intros HS.
        apply HE, Exists_exists. by exists c.
  - rewrite lookup_union_r by done. split.
    + intros [(b & ? & ?)|[Hn ?]]; [left; exists b; set_solver|right].
      split; [|done]. intros b [->|]%elem_of_cons; auto.
    + intros [(b & [->|Hb]%elem_of_cons & Hv)|[Hn ?]]; [congruence|left; eauto|right].
      split; [|done]. intros b Hb. apply Hn. by right.
Qed.

Lemma wf_same_entry {T} (m : list (string * Tree T)) a b p q :
  NoDup m.*1 -> Forall (fun k => no_dot k = true) m.*1 -> a ∈ m -> b ∈ m ->
  a.1 +:+ suffix p = b.1 +:+ suffix q -> a = b /\ suffix p = suffix q.
Proof.
  intros HN HD Ha Hb E. rewrite Forall_fmap, Forall_forall in HD.
  destruct (suffix_split _ _ _ _ (HD _ Ha) (HD _ Hb) E) as [Hk Hs]. split; [|done].
  destruct a as [ka ta], b as [kb tb]; simpl in *; subst kb. f_equal.
  apply (assoc_Some _ _ _ HN) in Ha, Hb. congruence.
Qed.

(** The entries of a map whose subtrees are looked up under [pre] followed by their name. *)
Lemma flatten_entries {T} (pre : string) (m : list (string * Tree T)) k v :
  NoDup m.*1 -> Forall (fun k => no_dot k = true) m.*1 ->
  (forall kv k v, kv ∈ m -> inner_flatten (pre +:+ kv.1) kv.2 !! k = Some v <->
    exists p, k = (pre +:+ kv.1) +:+ suffix p /\ tree_get p kv.2 = Some v) ->
  fold_left (fun r kv => extend r (inner_flatten (pre +:+ kv.1) kv.2)) m ∅ !! k = Some v <->
  exists n p, k = pre +:+ n +:+ suffix p /\ tree_get (n :: p) (Mapping m) = Some v.
Proof.
  intros HN HD HI. rewrite (fold_extend_lookup (fun kv => inner_flatten (pre +:+ kv.1) kv.2)).
  - split.
    + intros [([n t] & Hin & (p & -> & Hp)%HI)|[_ ?]]; [|set_solver|done].
      exists n, p. rewrite str_app_assoc. split; [done|]. simpl in *.
      by rewrite (proj2 (assoc_Some n t m HN) Hin).
    + intros (n & p & -> & Hp). simpl in Hp. apply bind_Some in Hp as (t & Ht & Hp).
      apply (assoc_Some _ _ _ HN) in Ht. left. exists (n, t). split; [done|].
      apply HI; [done|]. exists p. by rewrite str_app_assoc.
  - intros a b x y Ha Hb (p & -> & Hp)%HI (q & E & Hq)%HI; [|done..].
    rewrite !str_app_assoc in E. apply str_app_inj_l in E.
    destruct (wf_same_entry m a b p q HN HD Ha Hb E) as [-> Hs].
    assert (inner_flatten (pre +:+ b.1) b.2 !! ((pre +:+ b.1) +:+ suffix q) = Some x) as H1.
    { apply HI; [done|]. exists p. by rewrite Hs. }
    assert (inner_flatten (pre +:+ b.1) b.2 !! ((pre +:+ b.1) +:+ suffix q) = Some y) as H2.
    { apply HI; [done|]. by exists q. }
    congruence.
Qed.

Lemma inner_flatten_lookup {T} (t : Tree T) key k v :
  wf_tree t ->
  inner_flatten key t !! k = Some v <->
  exists p, k = key +:+ suffix p /\ tree_get p t = Some v.
Proof.
  intros HW. revert key k v. induction t as [t|m IH] using tree_ind_nested; intros key k v.
  - simpl. rewrite lookup_singleton_Some. split.
    + intros [<- <-]. exists []. by rewrite str_app_nil_r.
    + intros ([|] & -> & [= <-]). by rewrite str_app_nil_r.
  - inversion HW as [|? HN HD HF]; subst.
    assert (inner_flatten key (Mapping m) =
      fold_left (fun r kv => extend r (inner_flatten ((key +:+ TEMPLATE_KEY_SEPARATOR) +:+ kv.1) kv.2))
        m ∅) as ->.
    { simpl. generalize (∅ : gmap string T). clear. induction m as [|kv m IH]; intros r; [done|].
      cbn [fold_left]. by rewrite IH, str_app_assoc. }
    rewrite flatten_entries; [|done..|].
    + split.
      * intros (n & p & -> & Hp). exists (n :: p). simpl. by rewrite !str_app_assoc.
      * intros ([|n p] & -> & Hp); [done|]. exists n, p. simpl. by rewrite !str_app_assoc.
    + intros kv k' v' Hin. rewrite Forall_forall in IH, HF. by apply IH; [|apply HF].
Qed.

Lemma flatten_lookup {T} (m : list (string * Tree T)) k v :
  wf_tree (Mapping m) ->
  flatten m !! k = Some v <-> exists p, k = path_name p /\ tree_get p (Mapping m) = Some v.
Proof.
  intros HW. inversion HW as [|? HN HD HF]; subst. rewrite Forall_forall in HF.
  rewrite (flatten_entries "" m) by (done || intros; by apply inner_flatten_lookup, HF).
  split.
  - intros (n & p & -> & Hp). exists (n :: p). by rewrite path_name_suffix.
  - intros ([|n p] & -> & Hp); [done|]. exists n, p. by rewrite path_name_suffix.
Qed.

(** ** Filling the variables *)

Section FillLemmas.
Context `{JE : JsonErrors}.

(** A variable after values were assigned: merged with its value if it has one. *)
Definition filled_by (o : option value) (x x' : option Variable_) : Prop :=
  match x, x' with
  | Some x, Some x' =>
      match o with Some w => merge_with_yaml_value x w = Ok x' | None => x' = x end
  | None, None => True
  | _, _ => False
  end.

Lemma filled_by_None x x' : filled_by None x x' <-> x' = x.
Proof. destruct x, x'; simpl; split; congruence || done. Qed.

Lemma update_entries_get l m m' :
  NoDup l.*1 ->
  Forall (fun kv => forall t t', update_spec kv.2 t = Ok t' ->
    forall p, filled_by (value_get p kv.2) (tree_get p t) (tree_get p t')) l ->
  update_entries update_spec l m = Ok m' ->
  forall k p, filled_by (assoc k l ≫= value_get p) (assoc k m ≫= tree_get p) (assoc k m' ≫= tree_get p).
Proof.
  revert m. induction l as [|[key v] l IH]; intros m HN HF; simpl.
  { intros [= ->] k p. by apply filled_by_None. }
  apply NoDup_cons in HN as [Hk HN]. apply Forall_cons in HF as [Hv HF]. simpl in Hv.
  assert (assoc key l = None) as Hl.
  { destruct (assoc key l) as [w|] eqn:E; [|done]. apply (assoc_Some _ _ _ HN) in E.
    destruct Hk. apply list_elem_of_fmap. by exists (key, w). }
  destruct (assoc key m) as [spec|] eqn:Hm.
  - unfold and_then. destruct (update_spec v spec) as [spec'|e] eqn:Hu; simpl; [|done].
    intros HE k p. pose proof (IH _ HN HF HE k p) as HI.
    destruct (String.eqb_spec k key) as [->|Hne].
    + rewrite Hl, (assoc_set_eq _ _ _ _ Hm) in HI. apply filled_by_None in HI.
      rewrite HI, Hm. simpl. by apply Hv.
    + by rewrite (assoc_set_ne key k) in HI.
  - intros HE k p. pose proof (IH _ HN HF HE k p) as HI.
    destruct (String.eqb_spec k key) as [->|Hne]; [|done].
    rewrite Hm in *. by destruct (assoc key m' ≫= tree_get p).
Qed.

Lemma update_spec_get v t t' :
  wf_value v -> update_spec v t = Ok t' ->
  forall p, filled_by (value_get p v) (tree_get p t) (tree_get p t').
Proof.
  intros HW. revert t t'.
  induction v as [|b|n|s|l _|l IH] using value_ind_nested; intros [e|m] t'; simpl;
    try (destruct (merge_with_yaml_value e _) eqn:E; simpl; [|done]; intros [= <-] [|k p]; done);
    try done.
  inversion HW as [? HN HF|? Hn]; subst; [|by destruct (Hn l)].
  destruct (update_entries update_spec l m) as [m'|] eqn:E; simpl; [|done].
  intros [= <-] [|k p]; [done|]. simpl. apply update_entries_get; [done| |done].
  rewrite Forall_forall in *. intros kv Hin. apply IH; auto.
Qed.

Lemma set_assoc_keys {A} (k : string) (a : A) l : (set_assoc k a l).*1 = l.*1.
Proof.
  induction l as [|[k' a'] l IH]; simpl; [done|].
  destruct (String.eqb k k'); [done|]. rewrite !fmap_cons. by f_equal.
Qed.

Lemma set_assoc_Forall {A} (P : A -> Prop) (k : string) (a : A) l :
  P a -> Forall (fun kv => P kv.2) l -> Forall (fun kv => P kv.2) (set_assoc k a l).
Proof.
  intros Ha. induction l as [|[k' a'] l IH]; simpl; [done|].
  intros [? ?]%Forall_cons. destruct (String.eqb k k'); constructor; auto.
Qed.

Lemma assoc_Forall {A} (P : A -> Prop) (k : string) (a : A) l :
  Forall (fun kv => P kv.2) l -> assoc k l = Some a -> P a.
Proof.
  induction 1 as [|[k' a'] l ? ? IH]; simpl; [done|].
  destruct (String.eqb k k'); [intros [= ->]; done|auto].
Qed.

Lemma update_spec_wf v t t' : update_spec v t = Ok t' -> wf_tree t -> wf_tree t'.
Proof.
  revert t t'.
  induction v as [|b|n|s|l _|l IH] using value_ind_nested; intros [e|m] t'; simpl;
    try (destruct (merge_with_yaml_value e _) eqn:E; simpl; [|done]; intros [= <-] _; constructor);
    try done.
  destruct (update_entries update_spec l m) as [m'|] eqn:E; simpl; [|done].
  intros [= <-] HW. revert m E HW.
  induction IH as [|[key v] l Hv _ IHl]; intros m; simpl; [congruence|].
  destruct (assoc key m) as [spec|] eqn:Hm; [|exact (IHl m)].
  unfold and_then. destruct (update_spec v spec) as [spec'|] eqn:Hu; simpl; [|done].
  intros E HW. apply (IHl _ E). inversion HW as [|? HN HD HF]; subst.
  constructor; [by rewrite set_assoc_keys..|].
  apply set_assoc_Forall; [|done]. eapply Hv; [done|]. by eapply assoc_Forall.
Qed.

Lemma fill_as_update l t :
  update_spec (Object l) (Mapping t) = map_ok Mapping (fill_with_values l t).
Proof. done. Qed.

End FillLemmas.

(** ** Required variables *)

(** A type definition that was read from an agent type. *)
Inductive parsed_definition : VariableTypeDefinition -> Prop :=
| parsed_string d r f c :
    fields_definition d r = Ok f ->
    parsed_definition (StringDefinition {| def_inner := f; def_variants := c |})
| parsed_bool d r f : fields_definition d r = Ok f -> parsed_definition (BoolDefinition f)
| parsed_number d r f : fields_definition d r = Ok f -> parsed_definition (NumberDefinition f)
| parsed_map d r f :
    fields_definition d r = Ok f -> parsed_definition (MapStringYamlDefinition f)
| parsed_yaml d r f : yaml_fields_definition d r = Ok f -> parsed_definition (YamlDefinition f).

Lemma fields_definition_default {T} (d : option T) r f :
  fields_definition d r = Ok f -> def_default f = None <-> def_required f = true.
Proof. destruct d, r; simpl; intros [= <-]; simpl; split; done. Qed.

Lemma yaml_fields_definition_default d r f :
  yaml_fields_definition d r = Ok f -> def_default f = None <-> def_required f = true.
Proof. destruct d, r; simpl; intros [= <-]; simpl; split; done. Qed.

Lemma parsed_final_value c t :
  parsed_definition t ->
  type_final_value (type_with_config c t) = None <-> is_required (type_with_config c t) = true.
Proof.
  destruct 1 as [d r f vc H|d r f H|d r f H|d r f H|d r f H]; simpl;
    rewrite fmap_None; unfold value_or_default; simpl;
    first [by eapply fields_definition_default|by eapply yaml_fields_definition_default].
Qed.

Lemma merge_final_value `{JsonErrors} x w x' :
  merge_with_yaml_value x w = Ok x' -> get_final_value x' <> None.
Proof.
  destruct x as [desc t]. unfold merge_with_yaml_value, get_final_value. simpl.
  destruct t, w; simpl; unfold set_final_string; try case_match; simpl; intros [= <-]; done.
Qed.

Lemma assoc_map {A B} (f : A -> B) k l :
  assoc k (map (fun kv => (kv.1, f kv.2)) l) = f <$> assoc k l.
Proof. induction l as [|[k' a] l IH]; simpl; [done|]. by destruct (String.eqb k k'). Qed.

Lemma tree_get_with_config c p t :
  tree_get p (tree_with_config c t) = variable_with_config c <$> tree_get p t.
Proof.
  revert t. induction p as [|k p IH]; intros [v|m]; simpl; try done.
  rewrite assoc_map. destruct (assoc k m) as [t|]; simpl; [apply IH|done].
Qed.

Lemma wf_with_config c t : wf_tree t -> wf_tree (tree_with_config c t).
Proof.
  induction t as [v|m IH] using tree_ind_nested; intros HW; simpl; [constructor|].
  inversion HW as [|? HN HD HF]; subst.
  assert ((map (fun kv => (kv.1, tree_with_config c kv.2)) m).*1 = m.*1) as Hk.
  { clear. induction m as [|kv m IH]; [done|]. cbn [map]. rewrite !fmap_cons. by f_equal. }
  constructor; [by rewrite Hk..|]. apply Forall_map. rewrite Forall_forall in *.
  intros kv Hin. apply IH; auto.
Qed.

Lemma check_populated `{HashOrder} (vars : Variables) :
  check_all_vars_are_populated vars = Ok tt <->
  forall k x, vars !! k = Some x -> get_final_value x <> None.
Proof.
  unfold check_all_vars_are_populated.
  set (f := fun kv : string * Variable_ => match get_final_value kv.2 with None => Some kv.1 | Some _ => None end).
  assert (forall k x, (k, x) ∈ entries vars <-> vars !! k = Some x) as He.
  { intros k x. by rewrite entries_perm, elem_of_map_to_list. }
  split.
  - intros HE k x Hx Hf. assert (k ∈ omap f (entries vars)) as Hin.
    { apply list_elem_of_omap. exists (k, x). split; [by apply He|]. unfold f. simpl. by rewrite Hf. }
    destruct (omap f (entries vars)); [set_solver|done].
  - intros HA. destruct (omap f (entries vars)) as [|k ks] eqn:E; [done|].
    assert (k ∈ omap f (entries vars)) as Hin by (rewrite E; left).
    apply list_elem_of_omap in Hin as ([k' x] & Hin & Hf). apply He, HA in Hin.
    unfold f in Hf. simpl in Hf. by destruct (get_final_value x).
Qed.

(** ** Namespaces do not meet *)

Definition in_namespace (n : Namespace) (vars : Variables) : Prop :=
  forall k, is_Some (vars !! k) -> exists name, k = namespaced_name n name.

Lemma namespaced_name_inj n m a b : namespaced_name n a = namespaced_name m b -> n = m /\ a = b.
Proof. destruct n, m; intros E; try discriminate E; split; try done; by injection E. Qed.

(** A variable is found under its own namespace, whatever the others hold. *)
Lemma build_namespaced_lookup `{HashOrder} ac vars env sub n name :
  in_namespace SubAgentNs sub -> in_namespace EnvironmentVariableNs env -> in_namespace AgentControlNs ac ->
  build_namespaced_variables ac vars env sub !! namespaced_name n name =
    match n with
    | VariableNs => vars !! name
    | SubAgentNs => sub !! namespaced_name n name
    | EnvironmentVariableNs => env !! namespaced_name n name
    | AgentControlNs => ac !! namespaced_name n name
    | _ => None
    end.
Proof.
  intros Hs He Ha. set (k := namespaced_name n name). set (x := match n with VariableNs => _ | _ => _ end).
  unfold build_namespaced_variables.
  set (l := map _ _ ++ _). assert (forall v, (k, v) ∈ l <-> x = Some v) as Hl.
  { intros v. unfold l. rewrite !elem_of_app, !elem_of_entries.
    assert ((k, v) ∈ map (fun kv => (namespaced_name VariableNs kv.1, kv.2)) (entries vars) <->
            n = VariableNs /\ vars !! name = Some v) as ->.
    { rewrite list_elem_of_In, in_map_iff. split.
      - intros ([k' v'] & (E & <-)%pair_equal_spec & Hin%list_elem_of_In%elem_of_entries).
        by apply namespaced_name_inj in E as [<- <-].
      - intros [-> Hv]. exists (name, v). split; [done|]. by apply list_elem_of_In, elem_of_entries. }
    assert (forall m vs, in_namespace m vs -> vs !! k = Some v -> n = m) as Hin.
    { intros m vs Hm Hv. destruct (Hm k) as [name' E]; [by eexists|]. by apply namespaced_name_inj in E as [? _]. }
    pose proof (Hin _ _ Hs). pose proof (Hin _ _ He). pose proof (Hin _ _ Ha). subst x. clear Hin.
    destruct n; naive_solver. }
  destruct x as [v|].
  - apply fold_insert_lookup; [by apply Hl|]. intros v' [= ->]%Hl. done.
  - etransitivity; [apply fold_insert_ne|apply lookup_empty]. intros ([k' v] & E & Hin)%list_elem_of_fmap. simpl in E. subst k'.
    by apply Hl in Hin.
Qed.

(** ** Properties *)

(** After the values of a configuration have been assigned, the variables templates can
    refer to are exactly those of the agent type, each under its names joined by dots, with
    the value found at the same path of the configuration, or unchanged when there is none. *)
Theorem filled_variables_by_path `{JsonErrors} values t t' k x' :
  wf_tree (Mapping t) -> wf_value (Object values) ->
  fill_with_values values t = Ok t' ->
  flatten t' !! k = Some x' <->
  exists p x, k = path_name p /\ tree_get p (Mapping t) = Some x /\
    filled_by (value_get p (Object values)) (Some x) (Some x').
Proof.
  intros HW HV HF.
  assert (update_spec (Object values) (Mapping t) = Ok (Mapping t')) as HU.
  { by rewrite fill_as_update, HF. }
  pose proof (update_spec_get _ _ _ HV HU) as HG.
  rewrite (flatten_lookup t') by (by eapply update_spec_wf). split.
  - intros (p & -> & Hp). specialize (HG p). rewrite Hp in HG.
    destruct (tree_get p (Mapping t)) as [x|] eqn:E; [|done]. by exists p, x.
  - intros (p & x & -> & Hx & Hfill). exists p. split; [done|]. specialize (HG p).
    rewrite Hx in HG. destruct (tree_get p (Mapping t')) as [y|]; [|done]. simpl in *.
    destruct (value_get p (Object values)); congruence.
Qed.

(** For an agent type whose variables were read from its definition, rendering goes past
    the check of its variables exactly when the configuration gives a value to every required
    variable; the others have their default. *)
Theorem required_variables_checked `{JsonErrors, HashOrder} constraints d values t' :
  wf_tree (Mapping d) -> wf_value (Object values) ->
  (forall p x, tree_get p (Mapping d) = Some x -> parsed_definition (def_variable_type x)) ->
  fill_with_values values (with_config constraints d) = Ok t' ->
  check_all_vars_are_populated (flatten t') = Ok tt <->
  forall p x, tree_get p (Mapping (with_config constraints d)) = Some x ->
    is_required (kind x) = true -> value_get p (Object values) <> None.
Proof.
  intros HW HV HP HF. pose proof (wf_with_config constraints _ HW) as HW'.
  assert (update_spec (Object values) (tree_with_config constraints (Mapping d)) = Ok (Mapping t')) as HU.
  { change (tree_with_config constraints (Mapping d)) with (Mapping (with_config constraints d)).
    by rewrite fill_as_update, HF. }
  pose proof (update_spec_get _ _ _ HV HU) as HG.
  pose proof (update_spec_wf _ _ _ HU HW') as HWt.
  assert (forall p x, tree_get p (Mapping (with_config constraints d)) = Some x ->
    get_final_value x = None <-> is_required (kind x) = true) as Hfresh.
  { intros p x. change (Mapping (with_config constraints d)) with (tree_with_config constraints (Mapping d)).
    rewrite tree_get_with_config. intros (y & Hy & ->)%fmap_Some.
    apply parsed_final_value. by eapply HP. }
  rewrite check_populated. split.
  - intros HA p x Hx Hr Hn. specialize (HG p). simpl tree_with_config in HG.
    change (map _ d) with (with_config constraints d) in HG. rewrite Hx, Hn in HG.
    apply filled_by_None in HG. apply (HA (path_name p) x).
    + apply flatten_lookup; [done|]. by exists p.
    + by apply (Hfresh p).
  - intros HA k x' (p & -> & Hp)%flatten_lookup Hn; [|done]. specialize (HG p).
    simpl tree_with_config in HG. change (map _ d) with (with_config constraints d) in HG.
    rewrite Hp in HG. destruct (tree_get p (Mapping (with_config constraints d))) as [x|] eqn:E; [|done].
    destruct (value_get p (Object values)) eqn:Ev; simpl in HG.
    + by eapply merge_final_value.
    + subst x'. eapply HA; [done| |done]. by apply (Hfresh p).
Qed.

(** Names that contain dots are not told apart from nested ones: which variable is kept
    depends on the iteration order of the map. *)
Example dotted_names_depend_on_order (x y : Variable_) :
  flatten [("a.b", End x); ("a", Mapping [("b", End y)])] !! "a.b" = Some y /\
  flatten [("a", Mapping [("b", End y)]); ("a.b", End x)] !! "a.b" = Some x.
Proof. split; vm_compute; done. Qed.

(** ** A concrete agent type *)

Definition example_json_errors : JsonErrors := {| conversion_error := fun _ _ => "invalid type" |}.

Definition example_definition (default : option string) (required : bool) : VariableDefinition :=
  {| def_description := "";
     def_variable_type := StringDefinition
       {| def_inner := {| def_required := required; def_default := default |};
          def_variants := {| ac_config_field := None; variants_values := [] |} |} |}.

Definition example_definitions : list (string * Tree VariableDefinition) :=
  [("license", End (example_definition None true));
   ("system", Mapping [("level", End (example_definition (Some "info") false))])].

Definition example_constraints : VariableConstraints := {| variants_constraints := ∅ |}.

Definition example_values : list (string * value) := [("license", Str "key"); ("other", Null)].

Definition example_filled : list (string * Tree Variable_) :=
  match @fill_with_values example_json_errors example_values
          (with_config example_constraints example_definitions) with
  | Ok t => t
  | Err _ => []
  end.

Lemma example_wf : wf_tree (Mapping example_definitions).
Proof.
  constructor; [by apply (bool_decide_unpack _); vm_compute|by repeat constructor|].
  repeat constructor; simpl; try by apply not_elem_of_nil. 
Qed.

Lemma example_values_wf : wf_value (Object example_values).
Proof.
  constructor; [by apply (bool_decide_unpack _); vm_compute|].
  repeat constructor; simpl; by intros l.
Qed.

Lemma example_parsed p x :
  tree_get p (Mapping example_definitions) = Some x -> parsed_definition (def_variable_type x).
Proof.
  assert (parsed_definition (def_variable_type (example_definition None true))) as H1.
  { by apply (parsed_string None true). }
  assert (parsed_definition (def_variable_type (example_definition (Some "info") false))) as H2.
  { by apply (parsed_string (Some "info") false). }
  destruct p as [|k p]; simpl; [done|].
  destruct (String.eqb k "license"); [by destruct p; simpl; [intros [= <-]|]|].
  destruct (String.eqb k "system"); [|done]. destruct p as [|k' p]; simpl; [done|].
  destruct (String.eqb k' "level"); [|done]. by destruct p; simpl; [intros [= <-]|].
Qed.

Lemma filled_variables_by_path_witness :
  exists p x, "license" = path_name p /\
    tree_get p (Mapping (with_config example_constraints example_definitions)) = Some x.
Proof.
  destruct (proj1 (@filled_variables_by_path example_json_errors example_values
    (with_config example_constraints example_definitions) example_filled "license"
    {| description := "";
       kind := StringType {| inner := {| required := true; default_value := None;
                                         final_value := Some "key" |}; variants := [] |} |}
    (wf_with_config example_constraints _ example_wf) example_values_wf eq_refl) eq_refl)
    as (p & x & Hk & Hx & _).
  by exists p, x.
Defined.

Lemma example_required_given p x :
  tree_get p (Mapping (with_config example_constraints example_definitions)) = Some x ->
  is_required (kind x) = true -> value_get p (Object example_values) <> None.
Proof.
  destruct p as [|k p]; simpl; [done|].
  destruct (String.eqb k "license"); [by destruct p|].
  destruct (String.eqb k "system"); [|done]. destruct p as [|k' p]; simpl; [done|].
  destruct (String.eqb k' "level"); [|done]. by destruct p; simpl; [intros [= <-]|].
Qed.

Lemma required_variables_checked_witness :
  @check_all_vars_are_populated canonical_order (flatten example_filled) = Ok tt.
Proof.
  exact (proj2 (@required_variables_checked example_json_errors canonical_order
    example_constraints example_definitions example_values example_filled
    example_wf example_values_wf example_parsed eq_refl) example_required_given).
Defined.
