(* ===== verification/Templates.v ===== *)
(** * Templates

    Models [agent_type/templates.rs], [agent_type/templates_function.rs], the text of values
    ([agent_type/trivial_value.rs]) and the templating of [values/yaml_config.rs]: placeholders
    such as [${nr-var:name|indent 2}] are replaced by the values of variables. *)

From Stdlib Require Import Ascii String.
From stdpp Require Import base option list strings gmap.
From S2P Require Import Prelude RustString Regex Json YamlConfig Variables.

#[local] Arguments String.append !s1 s2 : simpl nomatch.

(** ** Patterns *)

Definition var_char (c : ascii) : bool :=
  is_ascii_alphanumeric c || Ascii.eqb c "." || Ascii.eqb c "-" || Ascii.eqb c "_" ||
  Ascii.eqb c "/" || Ascii.eqb c ":".

Definition Whitespace : regex := Star (Cls is_whitespace).

(** [\s*[a-zA-Z]+\s*\d*], a function and its parameter *)
Definition FUNCTION_RE : regex :=
  Seq Whitespace (Seq (Plus (Cls is_ascii_alphabetic)) (Seq Whitespace (Star (Cls is_ascii_digit)))).

(** The two groups of [TEMPLATE_RE] *)
Definition VAR_GROUP : regex :=
  Seq (Lit "nr-") (Seq (Plus (Cls is_ascii_lowercase)) (Seq (Chr ":") (Plus (Cls var_char)))).

Definition FUNCTIONS_GROUP : regex := Star (Seq Whitespace (Seq (Chr "|") FUNCTION_RE)).

Definition TEMPLATE_RE : regex :=
  Seq (Lit "${") (Seq VAR_GROUP (Seq FUNCTIONS_GROUP (Chr "}"))).

(** The pattern of the source is [\\s*|\s*[a-zA-Z]+\s*\d*]: its first alternative is a backslash
    and any number of letters [s]. *)
Definition TEMPLATE_PIPE_FUNCTIONS : regex :=
  Alt (Seq (Chr "\") (Star (Chr "s"))) FUNCTION_RE.

(** ** Functions *)

Inductive FunctionError : Type :=
| Applying (e : string)
| Parsing (e : string)
| UnknownFunctionName (e : string).

Definition show_function_error (e : FunctionError) : string :=
  match e with
  | Applying e => "applying function: " +:+ e
  | Parsing e => "parsing function: " +:+ e
  | UnknownFunctionName e => "not supported function: " +:+ e
  end.

(** [Indent] holds a [u8]. *)
Inductive SupportedFunction : Type := Indent (n : N).

Definition INDENT_FUNCTION_NAME : string := "indent".
Definition INDENT_STR : string := " ".
Definition newline : ascii := "010".

Definition indent_apply (n : N) (v : string) : string :=
  replace v (String newline "") (String newline (repeat_str INDENT_STR (N.to_nat n))).

Definition apply_function (f : SupportedFunction) (v : string) : result string FunctionError :=
  match f with Indent n => Ok (indent_apply n v) end.

Definition indent_parse (v : string) : result SupportedFunction FunctionError :=
  let trimmed_value := to_ascii_lowercase (trim v) in
  match strip_prefix INDENT_FUNCTION_NAME trimmed_value with
  | None => Err (UnknownFunctionName v)
  | Some n_parameter =>
      match parse_unsigned u8_bound (trim n_parameter) with
      | None => Err (Parsing ("parsing space number parameter: " +:+ v))
      | Some n => Ok (Indent n)
      end
  end.

(** The YAML library at values: writing one, which always succeeds, and reading one. *)
Class YamlValues : Type := {
  value_to_yaml : value -> string;
  map_to_yaml : gmap string value -> string;
  value_from_yaml : string -> result value string;
}.

(** A boolean is read back from its text. *)
Class YamlValuesLaws `{YamlValues} : Prop := {
  bool_from_yaml (b : bool) : value_from_yaml (if b then "true" else "false") = Ok (Bool b);
}.

Section Templates.
Context `{RX : RegexLib} `{HO : HashOrder} `{YV : YamlValues}.

Definition parse_function_list (functions_str : string) : result (list SupportedFunction) FunctionError :=
  try_map (fun m => indent_parse (trim_start (Ascii.eqb "|") m))
    (find_iter TEMPLATE_PIPE_FUNCTIONS functions_str).

(** ** The text of a value ([Display for TrivialValue]) *)

Fixpoint join (sep : string) (l : list string) : string :=
  match l with [] => "" | [s] => s | s :: l => s +:+ sep +:+ join sep l end.

Definition show_trivial (t : TrivialValue) : string :=
  match t with
  | TrivialString s => s
  | TrivialYaml v => value_to_yaml v
  | TrivialBool b => if b then "true" else "false"
  | TrivialNumber n => n
  | TrivialMapStringString m => join " " (map (fun kv => kv.1 +:+ "=" +:+ kv.2) (entries m))
  | TrivialMapStringYaml m => map_to_yaml m
  end.

(** ** Templates of strings *)

Fixpoint span_str (p : ascii -> bool) (s : string) : string * string :=
  match s with
  | EmptyString => ("", "")
  | String c s' =>
      if p c then let '(a, b) := span_str p s' in (String c a, b) else ("", s)
  end.

(** [Captures::extract]: the two groups of a match, which are determined by it because no
    function begins with a character of a variable name. *)
Definition extract (m : string) : string * string :=
  let '(captured_var, rest) := span_str var_char (default m (strip_prefix "${" m)) in
  (captured_var, trim_end (Ascii.eqb "}") rest).

Definition template_trim (s : string) : string :=
  trim_end (Ascii.eqb "}") (trim_start_str "${" s).

Definition normalized_var (name : string) (variables : Variables) : result Variable_ AgentTypeError :=
  ok_or (variables !! name) (MissingTemplateKey name).

(** The body of the loop of [template_string], for one match *)
Definition render_placeholder (variables : Variables) (templatable_placeholder : string) :
  result string AgentTypeError :=
  let '(captured_var, captured_functions) := extract templatable_placeholder in
  let? v := normalized_var captured_var variables in
  let? value := ok_or (get_final_value v) (MissingTemplateKey templatable_placeholder) in
  let? functions := map_err (fun e => RenderingTemplate (show_function_error e))
                      (parse_function_list captured_functions) in
  try_fold (fun acc f => map_err (fun e => RenderingTemplate (show_function_error e)) (apply_function f acc))
    (show_trivial value) functions.

Definition template_string (s : string) (variables : Variables) : result string AgentTypeError :=
  try_fold (fun render_result m =>
      let? final_value := render_placeholder variables m in
      Ok (replace render_result m final_value))
    s (find_iter TEMPLATE_RE s).

(** ** Templates of values *)

Definition template_yaml_value_string (s : string) (variables : Variables) :
  result value AgentTypeError :=
  if negb (full_match TEMPLATE_RE s) then map_ok Str (template_string s variables)
  else
    let var_name := template_trim s in
    let? var_spec := normalized_var var_name variables in
    let? var_value := ok_or (get_final_value var_spec) (MissingValue var_name) in
    match kind var_spec with
    | YamlType _ =>
        ok_or (to_yaml_value var_value) (UnexpectedValueForKey var_name (show_trivial var_value))
    | BoolType _ | NumberType _ =>
        map_err Serialization (value_from_yaml (show_trivial var_value))
    | _ => Ok (Str (show_trivial var_value))
    end.

(** [Templateable for serde_json::Value], its arrays and its maps *)
Fixpoint template_value (variables : Variables) (v : value) : result value AgentTypeError :=
  match v with
  | Object m =>
      map_ok Object (try_map (fun kv => map_ok (pair kv.1) (template_value variables kv.2)) m)
  | Array seq => map_ok Array (try_map (template_value variables) seq)
  | Str st => template_yaml_value_string st variables
  | v => Ok v
  end.

(** [Templateable for YAMLConfig] *)
Definition template_config (variables : Variables) (c : YAMLConfig) : result YAMLConfig AgentTypeError :=
  map_ok list_to_map
    (try_map (fun kv => map_ok (pair kv.1) (template_value variables kv.2)) (entries c)).

(** ** The reference: every placeholder is replaced once, in one pass *)

Definition substitute_piece (variables : Variables) (p : ascii + string) : result string AgentTypeError :=
  match p with
  | inl c => Ok (String c "")
  | inr m => render_placeholder variables m
  end.

Definition substitute (s : string) (variables : Variables) : result string AgentTypeError :=
  map_ok concat_str (try_map (substitute_piece variables) (scan TEMPLATE_RE s 0)).

Definition no_dollar (s : string) : bool := str_all (fun c => negb (Ascii.eqb c "$")) s.

(** Every [$] of the text begins a placeholder, and no value has one. *)
Definition hygienic (s : string) (variables : Variables) : bool :=
  forallb (fun p =>
      match p with
      | inl c => negb (Ascii.eqb c "$")
      | inr m => match render_placeholder variables m with Ok v => no_dollar v | Err _ => true end
      end)
    (scan TEMPLATE_RE s 0).

(** The strings of a value have no placeholder. *)
Inductive plain_value : value -> Prop :=
| plain_null : plain_value Null
| plain_bool b : plain_value (Bool b)
| plain_number n : plain_value (Number n)
| plain_str s : omap piece_match (scan TEMPLATE_RE s 0) = [] -> plain_value (Str s)
| plain_array l : Forall plain_value l -> plain_value (Array l)
| plain_object m : Forall (fun kv => plain_value kv.2) m -> plain_value (Object m).

End Templates.

(** ** Lemmas on the patterns *)

Lemma matches_seq_inv a b m :
  matches (Seq a b) m -> exists s t, m = s +:+ t /\ matches a s /\ matches b t.
Proof. inversion 1; subst; eauto. Qed.

Lemma matches_chr_inv c m : matches (Chr c) m -> m = String c "".
Proof. inversion 1 as [|p x Hx| | | | |]; subst. by apply Ascii.eqb_eq in Hx as ->. Qed.

Lemma matches_lit_inv s m : matches (Lit s) m -> m = s.
Proof.
  revert m. induction s as [|c s IH]; intros m; simpl; [by inversion 1|].
  intros (a & b & -> & ->%matches_chr_inv & ->%IH)%matches_seq_inv. done.
Qed.

Lemma matches_lit s : matches (Lit s) s.
Proof.
  induction s as [|c s IH]; simpl; [constructor|].
  apply (matches_seq _ _ (String c "")); [|done]. constructor. by apply Ascii.eqb_eq.
Qed.

(** The characters of what a pattern matches. *)
Fixpoint regex_all (p : ascii -> bool) (r : regex) : Prop :=
  match r with
  | Eps => True
  | Cls q => forall c, q c = true -> p c = true
  | Seq a b | Alt a b => regex_all p a /\ regex_all p b
  | Star a => regex_all p a
  end.

Lemma matches_all p r m : regex_all p r -> matches r m -> str_all p m = true.
Proof.
  intros Hr Hm. induction Hm; simpl in *; rewrite ?str_all_app, ?andb_true_iff; try naive_solver.
Qed.

Lemma matches_first p r m :
  matches (Seq (Cls p) r) m -> exists c t, m = String c t /\ p c = true.
Proof.
  intros (s & t & -> & Hs & _)%matches_seq_inv. inversion Hs as [|q c Hc| | | | |]; subst. by exists c, t.
Qed.

(** Predicates on characters are compared on all of them. *)
Definition all_ascii : list ascii := map ascii_of_nat (seq 0 256).

Lemma all_ascii_spec (p : ascii -> bool) : forallb p all_ascii = true -> forall c, p c = true.
Proof.
  intros Hp c. rewrite forallb_forall in Hp. apply Hp. unfold all_ascii. apply in_map_iff.
  exists (nat_of_ascii c). split; [apply ascii_nat_embedding|]. apply in_seq.
  pose proof (nat_ascii_bounded c). lia.
Qed.

Lemma ascii_impl (p q : ascii -> bool) :
  forallb (fun c => implb (p c) (q c)) all_ascii = true -> forall c, p c = true -> q c = true.
Proof. intros H c Hp. pose proof (all_ascii_spec _ H c) as Hc. simpl in Hc. by rewrite Hp in Hc. Qed.

Definition inner_char (c : ascii) : bool := negb (Ascii.eqb c "$") && negb (Ascii.eqb c "}").

Lemma var_group_all (p : ascii -> bool) v :
  matches VAR_GROUP v -> forallb (fun c => implb (var_char c) (p c)) all_ascii = true -> str_all p v = true.
Proof.
  intros Hm Hp. eapply matches_all; [|done].
  assert (forall c, var_char c = true -> p c = true) as Hv by by apply ascii_impl.
  simpl. split_and!; try done; intros c Hc; apply Hv; revert c Hc; by apply ascii_impl; vm_compute.
Qed.

Definition function_char (c : ascii) : bool :=
  is_whitespace c || is_ascii_alphanumeric c || Ascii.eqb c "|".

Lemma functions_group_all (p : ascii -> bool) f :
  matches FUNCTIONS_GROUP f -> forallb (fun c => implb (function_char c) (p c)) all_ascii = true ->
  str_all p f = true.
Proof.
  intros Hm Hp. eapply matches_all; [|done].
  assert (forall c, function_char c = true -> p c = true) as Hv by by apply ascii_impl.
  simpl. split_and!; try done; intros c Hc; apply Hv; revert c Hc; by apply ascii_impl; vm_compute.
Qed.

Lemma template_re_inv m :
  matches TEMPLATE_RE m ->
  exists v f, m = "${" +:+ v +:+ f +:+ "}" /\ matches VAR_GROUP v /\ matches FUNCTIONS_GROUP f.
Proof.
  intros (a & b & -> & ->%matches_lit_inv & Hb)%matches_seq_inv.
  apply matches_seq_inv in Hb as (v & b' & -> & Hv & Hb).
  apply matches_seq_inv in Hb as (f & e & -> & Hf & ->%matches_chr_inv). by exists v, f.
Qed.

Lemma template_re_intro v f :
  matches VAR_GROUP v -> matches FUNCTIONS_GROUP f -> matches TEMPLATE_RE ("${" +:+ v +:+ f +:+ "}").
Proof.
  intros Hv Hf. apply matches_seq; [apply matches_lit|]. apply matches_seq; [done|].
  apply matches_seq; [done|by constructor].
Qed.

(** A placeholder begins with its only [$] and ends with its only closing brace. *)
Lemma template_re_shape m :
  matches TEMPLATE_RE m -> exists b, m = String "$" (b +:+ "}") /\ str_all inner_char b = true.
Proof.
  intros (v & f & -> & Hv & Hf)%template_re_inv. exists (String "{" (v +:+ f)). split.
  - simpl. by rewrite str_app_assoc.
  - cbn [str_all]. rewrite str_all_app, (var_group_all _ _ Hv), (functions_group_all _ _ Hf); by vm_compute.
Qed.

Lemma template_re_nullable : nullable TEMPLATE_RE = false.
Proof. done. Qed.

(** ** Lemmas on the substitution *)

(** The groups of a match are those it was matched with. *)
Lemma span_str_app p a b :
  str_all p a = true -> starts_with_char p b = false -> span_str p (a +:+ b) = (a, b).
Proof.
  intros Ha Hb. induction a as [|c a IH]; simpl in *.
  - destruct b as [|c b]; simpl in *; [done|]. by rewrite Hb.
  - apply andb_true_iff in Ha as [-> Ha]. by rewrite IH.
Qed.

Lemma trim_end_app p a c :
  str_all (fun x => negb (p x)) a = true -> p c = true -> trim_end p (a +:+ String c "") = a.
Proof.
  intros Ha Hc. induction a as [|x a IH]; simpl in *; [by rewrite Hc|].
  apply andb_true_iff in Ha as [Hx%negb_true_iff Ha]. rewrite IH by done.
  destruct a; [by rewrite Hx|done].
Qed.

Lemma functions_group_start f s :
  matches FUNCTIONS_GROUP f -> starts_with_char var_char (f +:+ String "}" s) = false.
Proof.
  unfold FUNCTIONS_GROUP. remember (Star _) as r eqn:Hr. intros Hf.
  induction Hf as [| | | | |a|a m1 m2 Hm _ _ _]; simplify_eq; [done|].
  apply matches_seq_inv in Hm as (w & m' & -> & Hw & Hm).
  apply matches_seq_inv in Hm as (b & m'' & -> & ->%matches_chr_inv & _).
  assert (str_all is_whitespace w = true) as Hws by (by apply (matches_all _ Whitespace w (fun c Hc => Hc))).
  destruct w as [|x w]; [done|]. simpl in *.
  apply andb_true_iff in Hws as [Hx _]. apply negb_true_iff.
  apply (ascii_impl is_whitespace (fun x => negb (var_char x))); [by vm_compute|done].
Qed.

Lemma extract_groups v f :
  matches VAR_GROUP v -> matches FUNCTIONS_GROUP f -> extract ("${" +:+ v +:+ f +:+ "}") = (v, f).
Proof.
  intros Hv Hf. unfold extract. rewrite strip_prefix_app. simpl default.
  rewrite span_str_app; [|apply (var_group_all _ _ Hv); by vm_compute|by apply functions_group_start].
  rewrite trim_end_app; [done| |done]. apply (functions_group_all _ _ Hf). by vm_compute.
Qed.

(** Replacing a placeholder in a text of placeholders and pieces without [$]. *)
Definition chunk (s : string) : Prop := no_dollar s = true \/ matches TEMPLATE_RE s.

Lemma replace_chunks m v (l : list string) :
  matches TEMPLATE_RE m -> Forall chunk l ->
  replace (concat_str l) m v = concat_str (map (fun s => if String.eqb s m then v else s) l).
Proof.
  intros Hm. apply template_re_shape in Hm as (b & -> & Hb). unfold replace.
  induction 1 as [|s l Hs _ IH]; [done|]. simpl.
  destruct (String.eqb_spec s (String "$" (b +:+ "}"))) as [->|Hne]; [by rewrite replace_from_hit, IH|].
  rewrite <-IH. clear IH. destruct Hs as [Hs|(b' & -> & Hb')%template_re_shape]; [by apply replace_from_plain|].
  change (String "$" (b' +:+ "}") +:+ concat_str l) with (String "$" ((b' +:+ "}") +:+ concat_str l)).
  cbn [replace_from].
  destruct (starts_with _ _) eqn:E.
  - exfalso. apply starts_with_spec in E as [t E]. simpl in E. injection E as E.
    rewrite !str_app_assoc in E. simpl in E. apply until_unique in E as [-> _]; [done|..].
    + eapply str_all_impl; [|exact Hb']. intros c. unfold inner_char. by intros [_ ?]%andb_true_iff.
    + eapply str_all_impl; [|exact Hb]. intros c. unfold inner_char. by intros [_ ?]%andb_true_iff.
  - rewrite replace_from_plain; [done|]. rewrite str_all_app. apply andb_true_iff. split; [|done].
    eapply str_all_impl; [|exact Hb']. intros c. unfold inner_char. by intros [? _]%andb_true_iff.
Qed.

Section Substitution.
Context `{RX : RegexLib} `{RL : !RegexLaws} `{HO : HashOrder} `{YV : YamlValues}.
Variable variables : Variables.

(** A piece of the text when the placeholders in [past] have been replaced. *)
Definition piece_after (past : list string) (p : ascii + string) : string :=
  match p with
  | inl c => String c ""
  | inr m => if decide (m ∈ past) then default "" (ok (render_placeholder variables m)) else m
  end.

Definition clean_piece (p : ascii + string) : Prop :=
  match p with
  | inl c => c <> "$"%char
  | inr m => matches TEMPLATE_RE m /\
      forall v, render_placeholder variables m = Ok v -> no_dollar v = true
  end.

Lemma piece_after_chunk past p : clean_piece p -> chunk (piece_after past p).
Proof.
  destruct p as [c|m]; simpl.
  - intros Hc. left. unfold no_dollar. simpl. by rewrite (proj2 (Ascii.eqb_neq _ _)).
  - intros [Hm Hv]. case_decide; [|by right]. left.
    destruct (render_placeholder variables m); simpl; [by apply Hv|done].
Qed.

Lemma replace_piece past m v ps :
  Forall clean_piece ps -> matches TEMPLATE_RE m -> render_placeholder variables m = Ok v ->
  replace (concat_str (piece_after past <$> ps)) m v = concat_str (piece_after (m :: past) <$> ps).
Proof.
  intros Hps Hm Hv. rewrite (replace_chunks m v); [|done|].
  - f_equal. rewrite map_map. apply map_ext_in. intros p Hin%list_elem_of_In.
    rewrite Forall_forall in Hps. specialize (Hps p Hin).
    assert (forall s, no_dollar s = true -> String.eqb s m = false) as Hnd.
    { intros s Hs. apply String.eqb_neq. intros ->. apply template_re_shape in Hm as (b & -> & _). done. }
    destruct p as [c|q]; cbn [piece_after clean_piece] in *.
    + rewrite Hnd; [done|]. unfold no_dollar. simpl. by rewrite (proj2 (Ascii.eqb_neq _ _)).
    + destruct Hps as [Hq Hd]. case_decide as Hpast.
      * rewrite (decide_True (P := q ∈ m :: past)) by by right.
        rewrite Hnd; [done|]. destruct (render_placeholder variables q); simpl; [by apply Hd|done].
      * destruct (String.eqb_spec q m) as [->|Hne].
        -- rewrite decide_True by by left. by rewrite Hv.
        -- rewrite decide_False; [done|]. by intros [?|?]%elem_of_cons.
  - apply Forall_fmap. eapply Forall_impl; [done|]. intros p. by apply piece_after_chunk.
Qed.

Lemma replace_loop past ms ps :
  Forall clean_piece ps -> Forall (matches TEMPLATE_RE) ms ->
  try_fold (fun acc m => let? v := render_placeholder variables m in Ok (replace acc m v))
    (concat_str (piece_after past <$> ps)) ms =
  map_ok (fun _ => concat_str (piece_after (rev ms ++ past) <$> ps))
    (try_map (render_placeholder variables) ms).
Proof.
  intros Hps. revert past. induction ms as [|m ms IH]; intros past Hms; [done|].
  apply Forall_cons in Hms as [Hm Hms]. simpl.
  destruct (render_placeholder variables m) as [v|e] eqn:Hv; simpl; [|done].
  rewrite (replace_piece past m v ps) by done. rewrite IH by done.
  destruct (try_map _ ms); simpl; [|done]. by rewrite <-app_assoc.
Qed.

(** Rendering the pieces is rendering the placeholders among them. *)
Lemma substitute_pieces ps (past : list string) :
  omap piece_match ps ⊆ past ->
  map_ok concat_str (try_map (substitute_piece variables) ps) =
  map_ok (fun _ => concat_str (piece_after past <$> ps))
    (try_map (render_placeholder variables) (omap piece_match ps)).
Proof.
  induction ps as [|[c|m] ps IH]; intros Hd; [done|..].
  - change (omap piece_match (inl c :: ps)) with (omap piece_match ps) in *. specialize (IH Hd).
    rewrite fmap_cons. cbn [try_map substitute_piece and_then].
    destruct (try_map (substitute_piece variables) ps),
      (try_map (render_placeholder variables) (omap piece_match ps)); simpl in *; congruence.
  - change (omap piece_match (inr m :: ps)) with (m :: omap piece_match ps) in *.
    assert (omap piece_match ps ⊆ past) as Hd' by (intros x Hx; apply Hd; by right). specialize (IH Hd').
    rewrite fmap_cons. cbn [try_map substitute_piece piece_after]. rewrite decide_True by (apply Hd; by left).
    destruct (render_placeholder variables m) as [v|e]; [|done].
    destruct (try_map (substitute_piece variables) ps),
      (try_map (render_placeholder variables) (omap piece_match ps)); simpl in *; congruence.
Qed.

Lemma piece_after_nil (ps : list (ascii + string)) : piece_after [] <$> ps = piece_text <$> ps.
Proof.
  apply list_fmap_ext. intros i [c|m] _; [done|]. unfold piece_after, piece_text.
  rewrite decide_False; [done|]. by intros ?%elem_of_nil.
Qed.

Lemma template_string_correct s :
  hygienic s variables = true -> template_string s variables = substitute s variables.
Proof using RL.
  unfold hygienic, template_string, substitute. set (ps := scan TEMPLATE_RE s 0) in *.
  intros Hall. rewrite forallb_forall in Hall.
  assert (Forall clean_piece ps) as Hps.
  { apply Forall_forall. intros [c|m] Hin; pose proof (Hall _ (proj1 (list_elem_of_In _ _) Hin)) as Hp; simpl in Hp.
    - by apply Ascii.eqb_neq, negb_true_iff.
    - split; [by apply (scan_matches TEMPLATE_RE s)|]. intros v Hv. by rewrite Hv in Hp. }
  rewrite find_iter_spec by done. fold ps.
  rewrite <-(scan_text TEMPLATE_RE s) at 1 by done. fold ps. rewrite <-piece_after_nil.
  rewrite replace_loop; [|done|].
  - rewrite app_nil_r. symmetry. apply substitute_pieces. intros m Hin.
    apply list_elem_of_In. rewrite <-in_rev. by apply list_elem_of_In.
  - apply Forall_forall. intros m (p & Hin & Hp)%list_elem_of_omap.
    destruct p; simplify_eq/=. by apply (scan_matches TEMPLATE_RE s).
Qed.

(** A value without placeholders is not changed. *)
Lemma template_plain v : plain_value v -> template_value variables v = Ok v.
Proof using RL.
  induction v as [|b|n|s|l IH|m IH] using value_ind_nested; inversion 1 as [| | |s' Hs|l' Hl|m' Hm]; subst;
    simpl; try done.
  - unfold template_yaml_value_string. destruct (full_match TEMPLATE_RE s) eqn:E; simpl.
    + exfalso. apply full_match_spec in E.
      destruct (scan_step TEMPLATE_RE s) as [[-> Es]|[(m & t & _ & _ & -> & Es)|(c & t & -> & Hno & Es)]];
        [done|..].
      * by apply matches_nullable in E.
      * by rewrite Es in Hs.
      * destruct (Hno _ "" (eq_sym (str_app_nil_r _)) E).
    + unfold template_string. by rewrite find_iter_spec, Hs.
  - rewrite (proj2 (try_map_ok _ l l)); [done|].
    rewrite Forall_forall in IH, Hl. apply Forall2_same_length_lookup_2; [done|].
    intros i a b Ha Hb. simplify_eq. apply list_elem_of_lookup_2 in Ha. auto.
  - rewrite (proj2 (try_map_ok _ m m)); [done|].
    rewrite Forall_forall in IH, Hm. apply Forall2_same_length_lookup_2; [done|].
    intros i [k a] b Ha Hb. simplify_eq. apply list_elem_of_lookup_2 in Ha.
    pose proof (IH _ Ha (Hm _ Ha)) as E. simpl in E |- *. by rewrite E.
Qed.

End Substitution.

(** ** Lemmas on placeholders that are the whole text *)

Lemma template_trim_placeholder v f :
  matches VAR_GROUP v -> matches FUNCTIONS_GROUP f -> template_trim ("${" +:+ v +:+ f +:+ "}") = v +:+ f.
Proof.
  intros Hv Hf. unfold template_trim, trim_start_str.
  assert (str_all (fun c => negb (Ascii.eqb "}" c)) (v +:+ f) = true) as Hend.
  { rewrite str_all_app, (var_group_all _ _ Hv), (functions_group_all _ _ Hf); by vm_compute. }
  apply matches_seq_inv in Hv as (a & b & -> & ->%matches_lit_inv & _).
  cbn [String.length String.append trim_start_str_fuel strip_prefix Ascii.eqb Bool.eqb].
  rewrite <-str_app_assoc. apply (trim_end_app _ (("nr-" +:+ b) +:+ f)); done.
Qed.

Section Lone.
Context `{RX : RegexLib} `{RL : !RegexLaws} `{HO : HashOrder} `{YV : YamlValues}.

Lemma lone_placeholder variables v f :
  matches VAR_GROUP v -> matches FUNCTIONS_GROUP f ->
  template_value variables (Str ("${" +:+ v +:+ f +:+ "}")) =
  (let? var_spec := normalized_var (v +:+ f) variables in
   let? var_value := ok_or (get_final_value var_spec) (MissingValue (v +:+ f)) in
   match kind var_spec with
   | YamlType _ =>
       ok_or (to_yaml_value var_value) (UnexpectedValueForKey (v +:+ f) (show_trivial var_value))
   | BoolType _ | NumberType _ => map_err Serialization (value_from_yaml (show_trivial var_value))
   | _ => Ok (Str (show_trivial var_value))
   end).
Proof using RL.
  intros Hv Hf. cbn [template_value]. unfold template_yaml_value_string.
  rewrite (proj2 (full_match_spec _ _) (template_re_intro v f Hv Hf)). cbn [negb].
  by rewrite template_trim_placeholder.
Qed.

End Lone.

(** ** Lemmas on indentation *)

Lemma split_cons_form sep s : exists l ls, split sep s = l :: ls.
Proof. induction s as [|c s IH]; simpl; [by eexists _, _|]. destruct IH as (l & ls & ->). destruct (Ascii.eqb c sep); by eexists _, _. Qed.

Lemma split_prefix sep a s :
  str_all (fun c => negb (Ascii.eqb c sep)) a = true ->
  split sep (a +:+ s) = match split sep s with l :: ls => (a +:+ l) :: ls | [] => [] end.
Proof.
  induction a as [|c a IH]; simpl; [by destruct (split_cons_form sep s) as (l & ls & ->)|].
  rewrite andb_true_iff, negb_true_iff. intros [-> Ha]. rewrite IH by done.
  by destruct (split_cons_form sep s) as (l & ls & ->).
Qed.

Lemma spaces_no_newline n : str_all (fun c => negb (Ascii.eqb c newline)) (repeat_str INDENT_STR n) = true.
Proof. induction n as [|n IH]; [done|]. exact IH. Qed.

Lemma indent_lines_from ind v :
  str_all (fun c => negb (Ascii.eqb c newline)) ind = true ->
  split newline (replace_from (String newline "") (String newline ind) v 0) =
  match split newline v with l :: ls => l :: map (fun s => ind +:+ s) ls | [] => [] end.
Proof.
  intros Hi. induction v as [|c v IH]; [done|]. cbn [replace_from split].
  destruct (split_cons_form newline v) as (l & ls & El). rewrite El in IH |- *.
  destruct (Ascii.eqb_spec c newline) as [->|Hne].
  - change (String newline v) with (String newline "" +:+ v). rewrite starts_with_app. simpl String.length.
    cbn [Nat.sub]. change (String newline ind +:+ replace_from (String newline "") (String newline ind) v 0)
      with (String newline (ind +:+ replace_from (String newline "") (String newline ind) v 0)).
    cbn [split]. rewrite Ascii.eqb_refl, split_prefix, IH by done. done.
  - destruct (starts_with (String newline "") (String c v)) eqn:E.
    { apply starts_with_spec in E as [b [= -> _]]. done. }
    cbn [split]. rewrite (proj2 (Ascii.eqb_neq _ _) Hne), IH. done.
Qed.

Lemma trim_end_id p s : ends_with_char p s = false -> trim_end p s = s.
Proof.
  induction s as [|c s IH]; simpl; [done|]. destruct s as [|d s]; [by intros ->|].
  intros Hs. rewrite IH by done. done.
Qed.

Lemma to_ascii_lowercase_digits s : str_all is_ascii_digit s = true -> to_ascii_lowercase s = s.
Proof.
  induction s as [|c s IH]; simpl; [done|]. intros [Hc Hs]%andb_true_iff. rewrite IH by done. f_equal.
  unfold to_ascii_lowercase_char. destruct (is_ascii_uppercase c) eqn:E; [|done].
  pose proof (ascii_impl is_ascii_digit (fun c => negb (is_ascii_uppercase c)) eq_refl c Hc) as H.
  simpl in H. by rewrite E in H.
Qed.

Lemma ends_with_digits p a s :
  str_all is_ascii_digit s = true -> s <> "" -> (forall c, is_ascii_digit c = true -> p c = false) ->
  ends_with_char p (a +:+ s) = false.
Proof.
  intros Hs Hne Hp. induction a as [|x a IH]; simpl.
  - revert Hs. induction s as [|c s IH]; [done|]. simpl. intros [Hc Hs]%andb_true_iff.
    destruct s as [|d s]; [by apply Hp|]. by apply IH.
  - destruct (a +:+ s) as [|y t] eqn:E; [|done]. by destruct a, s.
Qed.

Lemma parse_digits_acc bound acc s m : parse_digits bound acc s = Some m -> (acc <= m)%N.
Proof.
  revert acc. induction s as [|c s IH]; intros acc; simpl; [by intros [= ->]|].
  destruct (is_ascii_digit c); [|done]. destruct (_ <? bound)%N; [|done]. intros ?%IH. lia.
Qed.

Lemma parse_digits_mono bound bound' acc s m :
  parse_digits bound acc s = Some m -> (m < bound')%N -> parse_digits bound' acc s = Some m.
Proof.
  revert acc. induction s as [|c s IH]; intros acc; simpl; [done|].
  destruct (is_ascii_digit c); [|done]. destruct (N.ltb_spec (acc * 10 + digit_value c) bound); [|done].
  intros Hp Hm. rewrite (proj2 (N.ltb_lt _ _)); [by apply IH|].
  apply parse_digits_acc in Hp. lia.
Qed.

(** A number is read only below the bound. *)
Lemma parse_show_overflow bound n : (bound <= n)%N -> parse_unsigned bound (show_N n) = None.
Proof.
  intros Hn. destruct (show_N_cons n) as (c & s & Es & Hc).
  pose proof (parse_show_N (n + 1) n ltac:(lia)) as Hp. unfold parse_unsigned in *. rewrite Es in *.
  assert (Ascii.eqb c "+" = false) as Hplus.
  { apply negb_true_iff. revert Hc. apply (ascii_impl is_ascii_digit (fun c => negb (Ascii.eqb c "+"))). by vm_compute. }
  rewrite Hplus in *. destruct (parse_digits bound 0 (String c s)) as [m|] eqn:Hm; [|done].
  assert (0 < bound)%N.
  { destruct (N.eq_dec bound 0%N) as [->|]; [|lia]. cbn [parse_digits] in Hm. rewrite Hc in Hm.
    by destruct (N.ltb_spec (0 * 10 + digit_value c) 0%N); [lia|]. }
  pose proof (parse_digits_bound bound 0%N _ m ltac:(lia) Hm).
  apply (parse_digits_mono _ (n + 1)) in Hm; [|lia]. simplify_eq. lia.
Qed.

(** ** Properties *)

Section TemplateProperties.
Context `{RX : RegexLib} `{RL : !RegexLaws} `{HO : HashOrder} `{YV : YamlValues}.

(** C29: a template is expanded as if every placeholder were replaced once, in a single pass.
    The code replaces the placeholders one after the other in the whole text, and stops at the
    first that cannot be rendered.  When every [$] of the text begins a placeholder and no
    value has one, the result, error or text, is that of the reference [substitute]. *)
Theorem template_string_single_pass s variables :
  hygienic s variables = true -> template_string s variables = substitute s variables.
Proof using RL. apply template_string_correct. Qed.


(** A placeholder with a function cannot be a whole string of a value: the function is taken
    as part of the name of the variable, which is then missing. *)
Theorem lone_placeholder_function_rejected variables v f :
  matches VAR_GROUP v -> matches FUNCTIONS_GROUP f -> variables !! (v +:+ f) = None ->
  template_value variables (Str ("${" +:+ v +:+ f +:+ "}")) = Err (MissingTemplateKey (v +:+ f)).
Proof using RL. intros Hv Hf Hn. rewrite lone_placeholder by done. unfold normalized_var. by rewrite Hn. Qed.

End TemplateProperties.

(** [indent] puts its spaces before every line but the first. *)
Theorem indent_lines n v :
  split newline (indent_apply n v) =
  match split newline v with
  | l :: ls => l :: map (fun s => repeat_str INDENT_STR (N.to_nat n) +:+ s) ls
  | [] => []
  end.
Proof. apply indent_lines_from, spaces_no_newline. Qed.

(** The parameter of [indent] is any number of 8 bits, and no larger one. *)
Theorem indent_parameter n :
  indent_parse ("indent " +:+ show_N n) =
  if (n <? u8_bound)%N then Ok (Indent n)
  else Err (Parsing ("parsing space number parameter: indent " +:+ show_N n)).
Proof.
  pose proof (show_N_digits n) as Hd. destruct (show_N_cons n) as (c & s & Es & Hc).
  assert (forall c, is_ascii_digit c = true -> is_whitespace c = false) as Hws.
  { intros d Hd'. apply negb_true_iff. revert Hd'.
    apply (ascii_impl is_ascii_digit (fun c => negb (is_whitespace c))). by vm_compute. }
  assert (trim ("indent " +:+ show_N n) = "indent " +:+ show_N n) as Htrim.
  { unfold trim. change (trim_start is_whitespace ("indent " +:+ show_N n)) with ("indent " +:+ show_N n).
    apply trim_end_id, ends_with_digits; [done| |done]. by rewrite Es. }
  unfold indent_parse. rewrite Htrim.
  change (to_ascii_lowercase ("indent " +:+ show_N n)) with ("indent " +:+ to_ascii_lowercase (show_N n)).
  rewrite to_ascii_lowercase_digits by done.
  change ("indent " +:+ show_N n) with (INDENT_FUNCTION_NAME +:+ String " " (show_N n)) at 1.
  rewrite strip_prefix_app.
  assert (trim (String " " (show_N n)) = show_N n) as ->.
  { unfold trim. change (trim_start is_whitespace (String " " (show_N n))) with (trim_start is_whitespace (show_N n)).
    rewrite Es. cbn [trim_start]. rewrite (Hws c Hc). rewrite <-Es. apply trim_end_id.
    apply (ends_with_digits _ "" (show_N n)); [done| |done]. by rewrite Es. }
  destruct (N.ltb_spec n u8_bound).
  - by rewrite parse_show_N.
  - by rewrite parse_show_overflow.
Qed.

(** ** Concrete templates *)

#[export] Instance example_yaml_values : YamlValues | 100 := {|
  value_to_yaml := fun v => match v with Bool b => if b then "true" else "false" | Str s => s | _ => "null" end;
  map_to_yaml := fun _ => "{}";
  value_from_yaml := fun s =>
    Ok (if String.eqb s "true" then Bool true else if String.eqb s "false" then Bool false else Str s);
|}.

#[export] Instance example_yaml_laws : YamlValuesLaws | 100.
Proof. by split; intros []. Qed.

Definition example_variables : Variables :=
  {["nr-var:a" := new_final_string_variable "${nr-var:b}";
    "nr-var:b" := new_final_string_variable "x";
    "nr-var:c" := new_final_string_variable ("x" +:+ String newline "y")]}.

(** A placeholder inside the value of a variable is expanded when the text uses its variable
    later, although values are not meant to be expanded: the first placeholder is replaced by
    [${nr-var:b}], which is replaced in its turn.  With the placeholders in the other order the
    value is left as it is. *)
Theorem placeholder_in_value_expanded :
  template_string "${nr-var:a} ${nr-var:b}" example_variables = Ok "x x" /\
  substitute "${nr-var:a} ${nr-var:b}" example_variables = Ok "${nr-var:b} x" /\
  template_string "${nr-var:b} ${nr-var:a}" example_variables = Ok "x ${nr-var:b}".
Proof. split_and!; vm_compute; reflexivity. Qed.

Lemma example_var_name : matches VAR_GROUP "nr-var:b".
Proof. by apply full_match_spec; vm_compute. Qed.

Lemma template_string_single_pass_witness :
  template_string "b: ${nr-var:b}, ${nr-var:c|indent 2}" example_variables =
  Ok ("b: x, x" +:+ String newline "  y").
Proof.
  rewrite (template_string_single_pass "b: ${nr-var:b}, ${nr-var:c|indent 2}" example_variables);
    vm_compute; reflexivity.
Defined.


Lemma example_functions : matches FUNCTIONS_GROUP "|indent 2".
Proof. by apply full_match_spec; vm_compute. Qed.

Lemma lone_placeholder_function_rejected_witness :
  template_value example_variables (Str "${nr-var:b|indent 2}") =
  Err (MissingTemplateKey "nr-var:b|indent 2").
Proof.
  exact (lone_placeholder_function_rejected example_variables "nr-var:b" "|indent 2" example_var_name
    example_functions eq_refl).
Defined.
