(* ===== verification/Secrets.v ===== *)
(** * Secrets

    Models [secrets_provider.rs] and its directory, and [agent_type/variable/secret_variables.rs]:
    the placeholders of a configuration that stand for secrets, the providers that know them and
    how they are loaded.  What the outside answers (environment, files, cluster, Vault server)
    is the interface [Outside]. *)

From Stdlib Require Import Ascii String.
From stdpp Require Import base option list strings gmap.
From S2P Require Import Prelude RustString Regex Json YamlConfig Variables Templates.

#[local] Arguments String.append !s1 s2 : simpl nomatch.

(** ** The outside

    Errors are their text.  A request to Vault has a URL and a token. *)

Inductive HttpResponseError : Type :=
| UnsuccessfulResponse (status_code : N) (status body : string)
| OtherHttpError (text : string).

Class Outside : Type := {
  env_var : string -> result string string;
  read_to_string : string -> result string string;
  get_secret_key : string -> string -> string -> result (option string) string;
  url_join : string -> string -> result string string;
  valid_uri : string -> result unit string;
  valid_header : string -> result unit string;
  http_send : string -> string -> result string HttpResponseError;
  from_utf8 : string -> result string string;
  parse_kv1 : string -> result (gmap string string) string;
  parse_kv2 : string -> result (gmap string string) string;
}.

(** ** Vault ([vault.rs]) *)

Inductive VaultError : Type :=
| VaultHttpClient (e : string)
| InvalidHeaderValue (e : string)
| VaultParseError (e : string)
| SerdeError (e : string)
| BuildingError (e : string)
| HttpTransportError (e : string)
| DeserializeError (e : string)
| IncorrectSecretPath (path : string)
| SourceNotFound
| VaultNotFound
| ConnectionFailed (e : string)
| GenericError (e : string).

Definition show_vault_error (e : VaultError) : string :=
  match e with
  | VaultHttpClient e => "could not build the vault http client: " +:+ e
  | InvalidHeaderValue e => "invalid header: " +:+ e
  | VaultParseError e => "could not parse mount and path for secret source: " +:+ e
  | SerdeError e =>
      "error deserializing the JSON config. Check your Vault endpoint URL (is /v1/ missing?): " +:+ e
  | BuildingError e => "could not build the HTTP client: " +:+ e
  | HttpTransportError e => "http transport error: " +:+ e
  | DeserializeError e => "unable to deserialize body: " +:+ e
  | IncorrectSecretPath p =>
      "secret path '" +:+ p +:+ "' does not have a valid format 'source:mount:path:name'"
  | SourceNotFound => "secret source not found"
  | VaultNotFound => "secret not found in the specified source"
  | ConnectionFailed e => "source url can't be reached: " +:+ e
  | GenericError e => e
  end.

Record VaultSecretPath : Type := {
  vault_source : string;
  vault_mount : string;
  vault_path : string;
  vault_name : string;
}.

(** [FromStr for VaultSecretPath] *)
Definition vault_path_from_str (secret_path : string) : result VaultSecretPath VaultError :=
  let parts := split ":" secret_path in
  if existsb str_is_empty parts then Err (IncorrectSecretPath secret_path)
  else match parts with
       | [s; m; p; n] =>
           Ok {| vault_source := s; vault_mount := m; vault_path := p; vault_name := n |}
       | _ => Err (IncorrectSecretPath secret_path)
       end.

Inductive SecretEngine : Type := Kv1 | Kv2.

Record VaultSource : Type := {
  source_url : string;
  source_token : string;
  source_engine : SecretEngine;
}.

Abbreviation Vault := (gmap string VaultSource).

Section Providers.
Context `{OU : Outside}.

Definition get_url (e : SecretEngine) (url mount path : string) : result string VaultError :=
  map_err VaultParseError
    (url_join url (match e with
                   | Kv1 => mount +:+ "/" +:+ path
                   | Kv2 => mount +:+ "/data/" +:+ path
                   end)).

Definition parse_secret_response (e : SecretEngine) (name body : string) :
  result (option string) VaultError :=
  map_err SerdeError
    (map_ok (fun data : gmap string string => data !! name)
       (match e with Kv1 => parse_kv1 body | Kv2 => parse_kv2 body end)).

(** [SecretsProvider for Vault] *)
Definition vault_get_secret (sources : Vault) (secret_path : string) : result string VaultError :=
  let? p := vault_path_from_str secret_path in
  let? s := ok_or (sources !! vault_source p) SourceNotFound in
  let? url := get_url (source_engine s) (source_url s) (vault_mount p) (vault_path p) in
  let? _ := map_err BuildingError (valid_uri url) in
  let? _ := map_err InvalidHeaderValue (valid_header (source_token s)) in
  match http_send url (source_token s) with
  | Err (UnsuccessfulResponse code status _) =>
      if N.eqb code 404 then Err VaultNotFound
      else Err (GenericError ("the vault source responded with status: " +:+ status))
  | Err (OtherHttpError e) => Err (ConnectionFailed e)
  | Ok response =>
      let? body := map_err (fun e => DeserializeError ("invalid utf8 response: " +:+ e)) (from_utf8 response) in
      let? maybe_secret := parse_secret_response (source_engine s) (vault_name p) body in
      ok_or maybe_secret VaultNotFound
  end.

(** ** Kubernetes secrets ([k8s_secret.rs]) *)

Definition K8sSecretProviderError : Type := string.

Record K8sSecretPath : Type := { secret_namespace : string; secret_name : string; secret_key : string }.

Definition k8s_path_try_from (v : string) : result K8sSecretPath K8sSecretProviderError :=
  let error := "secret path '" +:+ v +:+ "' does not have a valid format '<namespace>:<name>:<key>'" in
  let parts := split ":" v in
  if existsb str_is_empty parts then Err error
  else match parts with
       | [ns; n; k] => Ok {| secret_namespace := ns; secret_name := n; secret_key := k |}
       | _ => Err error
       end.

Definition build_secret_path (namespace name key : string) : string :=
  namespace +:+ ":" +:+ name +:+ ":" +:+ key.

Definition k8s_get_secret (secret_path : string) : result string K8sSecretProviderError :=
  let? p := k8s_path_try_from secret_path in
  let? secret := map_err (fun e => "getting " +:+ secret_path +:+ " secret: " +:+ e)
                   (get_secret_key (secret_name p) (secret_namespace p) (secret_key p)) in
  ok_or secret ("'" +:+ secret_path +:+ "' secret not found").

(** ** Files ([file.rs]) and environment ([env.rs]) *)

Definition file_path_try_from (v : string) : result string string :=
  if str_is_empty (trim v) then Err "secret path cannot be empty" else Ok v.

Definition file_get_secret (secret_path : string) : result string string :=
  let? path := file_path_try_from secret_path in
  map_err (fun e => "reading '" +:+ secret_path +:+ "' secret: " +:+ e)
    (map_ok trim (read_to_string path)).

Definition env_get_secret (secret_path : string) : result string string := env_var secret_path.

(** ** The providers ([secrets_provider.rs]) *)

Inductive SecretsProviderType : Type :=
| VaultProvider (v : Vault)
| K8sSecretProvider
| FileProvider
| EnvProvider.

#[export] Instance secret_engine_eq_dec : EqDecision SecretEngine.
Proof. solve_decision. Defined.

#[export] Instance vault_source_eq_dec : EqDecision VaultSource.
Proof. solve_decision. Defined.

#[export] Instance provider_eq_dec : EqDecision SecretsProviderType.
Proof. solve_decision. Defined.

(** The text of the error, through [Display for SecretsProvidersError] *)
Definition get_secret (p : SecretsProviderType) (secret_path : string) : result string string :=
  match p with
  | VaultProvider v =>
      map_err (fun e => "vault provider failed: " +:+ show_vault_error e) (vault_get_secret v secret_path)
  | K8sSecretProvider =>
      map_err (fun e => "k8s secret provider failed: resolving k8s secret: " +:+ e) (k8s_get_secret secret_path)
  | FileProvider =>
      map_err (fun e => "file secret provider failed: resolving file secret: " +:+ e) (file_get_secret secret_path)
  | EnvProvider =>
      map_err (fun e => "env var provider failed: failed to retrieve secret from environment variable: " +:+ e)
        (env_get_secret secret_path)
  end.

End Providers.

#[export] Instance namespace_eq_dec : EqDecision Namespace.
Proof. solve_decision. Defined.

#[export] Instance namespace_countable : Countable Namespace.
Proof.
  refine (inj_countable' (fun n => match n with
      | VariableNs => 0 | SubAgentNs => 1 | AgentControlNs => 2 | EnvironmentVariableNs => 3
      | VaultNs => 4 | FileNs => 5 | K8sSecretNs => 6 end)
    (fun i => match i with
      | 0 => VariableNs | 1 => SubAgentNs | 2 => AgentControlNs | 3 => EnvironmentVariableNs
      | 4 => VaultNs | 5 => FileNs | _ => K8sSecretNs end) _).
  by intros [].
Defined.

(** [Registry], with the calls that build it; those for Vault and the cluster take what they
    need from a configuration. *)
Abbreviation SecretsProviders := (gmap Namespace SecretsProviderType).

Definition with_env (r : SecretsProviders) : SecretsProviders := <[EnvironmentVariableNs := EnvProvider]> r.
Definition with_k8s_secret (r : SecretsProviders) : SecretsProviders := <[K8sSecretNs := K8sSecretProvider]> r.
Definition with_file (r : SecretsProviders) : SecretsProviders := <[FileNs := FileProvider]> r.

(** ** Secret variables ([secret_variables.rs]) *)

(** The names by namespace prefix; a [HashSet] is a map to [unit]. *)
Abbreviation SecretVariables := (gmap string (gmap string unit)).

Inductive SecretVariablesError : Type :=
| SecretsLoadError (path err_msg : string)
| YamlParseError.

Definition PREFIX_NS_SEPARATOR : ascii := ":".

(** [None] is the panic of [expect]. *)
Definition add_namespaced_variable (v : string) (vars : SecretVariables) : option SecretVariables :=
  match split_once PREFIX_NS_SEPARATOR v with
  | Some (prefix, var_name) =>
      Some (<[prefix := <[var_name := tt]> (default ∅ (vars !! prefix))]> vars)
  | None => None
  end.

(** What the loop of [from] adds for one match. *)
Definition add_captured (vars : SecretVariables) (m : string) : option SecretVariables :=
  let captured_var := (extract m).1 in
  if is_secret_variable captured_var then add_namespaced_variable captured_var vars else Some vars.

Section Secrets.
Context `{RX : RegexLib} `{HO : HashOrder} `{OU : Outside} `{YA : Yaml}.

(** [From<&str> for SecretVariables] *)
Definition secret_variables_from (s : string) : option SecretVariables :=
  fold_left (fun acc m => acc ≫= fun vars => add_captured vars m) (find_iter TEMPLATE_RE s) (Some ∅).

(** [TryFrom<YAMLConfig> for SecretVariables] *)
Definition secret_variables_try_from (c : YAMLConfig) : result (option SecretVariables) SecretVariablesError :=
  let? text := map_err (fun _ => YamlParseError) (string_try_from c) in
  Ok (secret_variables_from text).

(** The body of the inner loop of [load_secrets] *)
Definition load_secret (ns : Namespace) (p : SecretsProviderType) (acc : Variables) (secret_path : string) :
  result Variables SecretVariablesError :=
  let? secret_value := map_err (fun e => SecretsLoadError secret_path e) (get_secret p secret_path) in
  Ok (<[namespaced_name ns secret_path := new_final_string_variable secret_value]> acc).

Definition load_namespace (vars : SecretVariables) (acc : Variables) (np : Namespace * SecretsProviderType) :
  result Variables SecretVariablesError :=
  match vars !! show_namespace np.1 with
  | None => Ok acc
  | Some secrets_paths => try_fold (load_secret np.1 np.2) acc (entries secrets_paths).*1
  end.

Definition load_secrets (vars : SecretVariables) (registry : SecretsProviders) :
  result Variables SecretVariablesError :=
  if bool_decide (registry = ∅) then Ok ∅
  else try_fold (load_namespace vars) ∅ (entries registry).

(** [load_env_vars], given the environment *)
Definition load_env_vars (env : gmap string string) : Variables :=
  list_to_map ((fun kv => (namespaced_name EnvironmentVariableNs kv.1, new_final_string_variable kv.2))
    <$> entries env).

End Secrets.

(** ** Lemmas on paths *)

Definition no_sep (sep : ascii) (s : string) : bool := str_all (fun c => negb (Ascii.eqb c sep)) s.

Lemma join_split sep s : join (String sep "") (split sep s) = s /\ Forall (fun p => no_sep sep p = true) (split sep s).
Proof.
  induction s as [|c s [IH1 IH2]]; [by repeat constructor|]. cbn [split].
  destruct (split_cons_form sep s) as (l & ls & E). rewrite E in IH1, IH2 |- *.
  apply Forall_cons in IH2 as [Hl Hls]. destruct (Ascii.eqb_spec c sep) as [->|Hne].
  - split; [|by repeat constructor]. cbn [join]. cbn [join] in IH1. by rewrite IH1.
  - split; [|constructor; [|done]].
    + rewrite <-IH1. by destruct ls.
    + unfold no_sep. simpl. by rewrite (proj2 (Ascii.eqb_neq _ _) Hne).
Qed.

Lemma split_join sep a l :
  Forall (fun p => no_sep sep p = true) (a :: l) -> split sep (join (String sep "") (a :: l)) = a :: l.
Proof.
  revert a. induction l as [|b l IH]; intros a [Ha Hl]%Forall_cons; [by apply split_no_sep|].
  change (join (String sep "") (a :: b :: l)) with (a +:+ String sep (join (String sep "") (b :: l))).
  by rewrite split_app, IH.
Qed.

(** A part of a secret path *)
Definition path_part (s : string) : Prop := s <> "" /\ no_sep ":" s = true.

Lemma parts_spec s l :
  l <> [] ->
  split ":" s = l /\ existsb str_is_empty l = false <-> s = join ":" l /\ Forall path_part l.
Proof.
  intros Hl. split.
  - intros [Hs He]. destruct (join_split ":" s) as [Hj Hf]. rewrite Hs in Hj, Hf. split; [done|].
    rewrite Forall_forall in Hf |- *. intros p Hp. split; [|by apply Hf]. intros ->.
    assert (existsb str_is_empty l = true); [|congruence]. apply existsb_exists. exists "".
    split; [by apply list_elem_of_In|done].
  - intros [-> Hf]. destruct l as [|a l]; [done|]. split.
    + apply (split_join ":"). eapply Forall_impl; [done|]. by intros p [_ ?].
    + apply not_true_iff_false. intros (p & Hp%list_elem_of_In & He)%existsb_exists.
      rewrite Forall_forall in Hf. destruct (Hf p Hp) as [Hne _]. by destruct p.
Qed.

(** ** Lemmas on secret variables *)

(** [vars] has the name under the prefix. *)
Definition has_secret (vars : SecretVariables) (prefix name : string) : Prop :=
  exists names, vars !! prefix = Some names /\ is_Some (names !! name).

Lemma add_namespaced_spec v prefix name vars :
  split_once PREFIX_NS_SEPARATOR v = Some (prefix, name) ->
  exists vars', add_namespaced_variable v vars = Some vars' /\
    forall p n, has_secret vars' p n <-> has_secret vars p n \/ (p = prefix /\ n = name).
Proof.
  intros Hs. unfold add_namespaced_variable. rewrite Hs. eexists. split; [done|]. intros p n.
  unfold has_secret. destruct (decide (p = prefix)) as [->|Hp].
  - rewrite lookup_insert_eq. split.
    + intros (names & [= <-] & Hn). destruct (decide (n = name)) as [->|Hne]; [by right|].
      rewrite lookup_insert_ne in Hn by done. left. destruct (vars !! prefix) as [ns|]; [by exists ns|].
      simpl in Hn. rewrite lookup_empty in Hn. by destruct Hn.
    + intros [(names & -> & Hn)|[_ ->]]; eexists; (split; [done|]).
      * simpl. destruct (decide (n = name)) as [->|]; [by rewrite lookup_insert_eq|]. by rewrite lookup_insert_ne.
      * by rewrite lookup_insert_eq.
  - rewrite lookup_insert_ne by done. split; [by left|]. by intros [?|[? _]].
Qed.

(** A match names a secret. *)
Definition names_secret (m prefix name : string) : Prop :=
  is_secret_variable (extract m).1 = true /\
  split_once PREFIX_NS_SEPARATOR (extract m).1 = Some (prefix, name).

(** A match has a namespace and a name. *)
Lemma match_splits m :
  matches TEMPLATE_RE m -> exists prefix name, split_once PREFIX_NS_SEPARATOR (extract m).1 = Some (prefix, name).
Proof.
  intros (v & f & -> & Hv & Hf)%template_re_inv. rewrite extract_groups by done. simpl.
  apply matches_seq_inv in Hv as (a & b & -> & ->%matches_lit_inv & Hb).
  apply matches_seq_inv in Hb as (l & c & -> & Hl & Hc).
  apply matches_seq_inv in Hc as (d & n & -> & ->%matches_chr_inv & _).
  exists ("nr-" +:+ l), n. rewrite <-str_app_assoc. apply split_once_app. rewrite str_all_app.
  apply andb_true_iff. split; [done|]. eapply matches_all; [|exact Hl].
  split; exact (ascii_impl is_ascii_lowercase (fun c => negb (Ascii.eqb c ":")) eq_refl).
Qed.

Lemma collect_secrets ms vars :
  Forall (matches TEMPLATE_RE) ms ->
  exists vars', fold_left (fun acc m => acc ≫= fun vars => add_captured vars m) ms (Some vars) = Some vars' /\
    forall p n, has_secret vars' p n <-> has_secret vars p n \/ exists m, m ∈ ms /\ names_secret m p n.
Proof.
  intros Hms. revert vars. induction Hms as [|m ms Hm _ IH]; intros vars; simpl.
  - exists vars. split; [done|]. intros p n. split; [by left|].
    by intros [?|(m & Hin%elem_of_nil & _)].
  - destruct (match_splits m Hm) as (prefix & name & Hs). unfold add_captured at 2.
    destruct (is_secret_variable (extract m).1) eqn:Hsec.
    + destruct (add_namespaced_spec _ _ _ vars Hs) as (vars1 & -> & H1).
      destruct (IH vars1) as (vars' & Hf & H'). exists vars'. split; [exact Hf|]. intros p n.
      rewrite H', H1. setoid_rewrite elem_of_cons. unfold names_secret. naive_solver congruence.
    + destruct (IH vars) as (vars' & Hf & H'). exists vars'. split; [exact Hf|]. intros p n.
      rewrite H'. setoid_rewrite elem_of_cons. unfold names_secret. naive_solver congruence.
Qed.

(** ** Lemmas on loading *)

Lemma show_namespace_inj n n' : show_namespace n = show_namespace n' -> n = n'.
Proof. by destruct n, n'. Qed.

Lemma show_namespace_no_sep n : no_sep ":" (show_namespace n) = true.
Proof. by destruct n. Qed.

Lemma namespaced_name_split n name :
  split_once PREFIX_NS_SEPARATOR (namespaced_name n name) = Some (show_namespace n, name).
Proof. apply split_once_app, show_namespace_no_sep. Qed.

Section Load.
Context `{HO : HashOrder} `{OU : Outside}.

(** The secrets to load, in order. *)
Definition jobs_of (vars : SecretVariables) (np : Namespace * SecretsProviderType) :
  list (Namespace * SecretsProviderType * string) :=
  pair np <$> (entries (default ∅ (vars !! show_namespace np.1))).*1.

Definition run_job (acc : Variables) (j : Namespace * SecretsProviderType * string) :
  result Variables SecretVariablesError :=
  load_secret j.1.1 j.1.2 acc j.2.

Lemma load_namespace_jobs vars acc np :
  load_namespace vars acc np = try_fold run_job acc (jobs_of vars np).
Proof.
  unfold load_namespace, jobs_of. destruct (vars !! show_namespace np.1) as [names|]; simpl.
  - revert acc. induction (entries names).*1 as [|x l IH]; intros acc; [done|].
    rewrite fmap_cons. cbn [try_fold]. change (run_job acc (np, x)) with (load_secret np.1 np.2 acc x).
    destruct (load_secret np.1 np.2 acc x); simpl; [apply IH|done].
  - by rewrite entries_empty.
Qed.

Lemma load_all_jobs vars acc l :
  try_fold (load_namespace vars) acc l = try_fold run_job acc (flat_map (jobs_of vars) l).
Proof.
  revert acc. induction l as [|np l IH]; intros acc; simpl; [done|].
  rewrite try_fold_app, load_namespace_jobs. unfold and_then. destruct (try_fold run_job acc _); [apply IH|done].
Qed.

Definition job_secret (j : Namespace * SecretsProviderType * string) : result string string :=
  get_secret j.1.2 j.2.

(** Jobs for the same name are the same job. *)
Definition distinct_jobs (l : list (Namespace * SecretsProviderType * string)) : Prop :=
  forall j j', j ∈ l -> j' ∈ l -> j.1.1 = j'.1.1 -> j.2 = j'.2 -> j = j'.

Lemma run_jobs_spec l acc :
  distinct_jobs l ->
  match try_fold run_job acc l with
  | Ok res =>
      (forall j, j ∈ l -> exists v, job_secret j = Ok v /\
         res !! namespaced_name j.1.1 j.2 = Some (new_final_string_variable v)) /\
      (forall name, (forall j, j ∈ l -> namespaced_name j.1.1 j.2 <> name) -> res !! name = acc !! name)
  | Err e => exists j msg, j ∈ l /\ job_secret j = Err msg /\ e = SecretsLoadError j.2 msg
  end.
Proof.
  revert acc. induction l as [|j l IH]; intros acc Hd; simpl.
  - split; [by intros j ?%elem_of_nil|done].
  - change (run_job acc j) with (let? secret_value := map_err (fun e => SecretsLoadError j.2 e) (job_secret j) in
      Ok (<[namespaced_name j.1.1 j.2 := new_final_string_variable secret_value]> acc) : result Variables _).
    destruct (job_secret j) as [v|e] eqn:Hj; simpl; [|exists j, e; split_and!; [by left|done..]].
    assert (distinct_jobs l) as Hd' by (intros a b Ha Hb; apply Hd; by right).
    specialize (IH (<[namespaced_name j.1.1 j.2 := new_final_string_variable v]> acc) Hd').
    destruct (try_fold run_job _ l) as [res|e].
    2:{ destruct IH as (j' & msg & Hin & ? & ?). exists j', msg. split_and!; [by right|done..]. }
    destruct IH as [IH1 IH2]. split.
    + intros j' [->|Hin]%elem_of_cons; [|by apply IH1]. exists v. split; [done|].
      destruct (decide (j ∈ l)) as [Hin|Hnot].
      * destruct (IH1 j Hin) as (v' & Hv' & ->). rewrite Hj in Hv'. by simplify_eq.
      * rewrite IH2; [apply lookup_insert_eq|]. intros j' Hin' [E1 E2]%namespaced_name_inj.
        destruct Hnot. rewrite <-(Hd j' j); [done|by right|by left|done|done].
    + intros name Hne. rewrite IH2 by (intros j' ?; apply Hne; by right).
      apply lookup_insert_ne, Hne. by left.
Qed.

Lemma elem_of_jobs vars reg j :
  j ∈ flat_map (jobs_of vars) (entries reg) <->
  reg !! j.1.1 = Some j.1.2 /\ has_secret vars (show_namespace j.1.1) j.2.
Proof.
  rewrite list_elem_of_In, in_flat_map. unfold has_secret. destruct j as [[ns p] path]; simpl. split.
  - intros ([ns' p'] & Hnp%list_elem_of_In & Hj%list_elem_of_In). unfold jobs_of in Hj.
    apply list_elem_of_fmap in Hj as (x & [= -> -> ->] & Hx). apply elem_of_entries in Hnp. split; [done|].
    simpl in Hx. apply elem_of_entries_fst in Hx. destruct (vars !! show_namespace ns') as [names|]; [by exists names|].
    simpl in Hx. rewrite lookup_empty in Hx. by destruct Hx.
  - intros (Hreg & names & Hv & Hn). exists (ns, p). split; [by apply list_elem_of_In, elem_of_entries|].
    apply list_elem_of_In. unfold jobs_of. simpl. rewrite Hv. simpl. apply list_elem_of_fmap.
    exists path. split; [done|]. by apply elem_of_entries_fst.
Qed.

Lemma jobs_distinct vars reg : distinct_jobs (flat_map (jobs_of vars) (entries reg)).
Proof.
  intros [[n p] a] [[n' p'] a'] [H1 _]%elem_of_jobs [H2 _]%elem_of_jobs; simpl in *.
  intros -> ->. by simplify_eq.
Qed.

(** What [load_secrets] returns. *)
Lemma load_secrets_spec vars reg :
  match load_secrets vars reg with
  | Ok res => forall name x, res !! name = Some x <->
      exists ns p path v, name = namespaced_name ns path /\ reg !! ns = Some p /\
        has_secret vars (show_namespace ns) path /\ get_secret p path = Ok v /\ x = new_final_string_variable v
  | Err e => exists ns p path msg, reg !! ns = Some p /\ has_secret vars (show_namespace ns) path /\
      get_secret p path = Err msg /\ e = SecretsLoadError path msg
  end.
Proof.
  unfold load_secrets. case_bool_decide as He.
  - subst reg. intros name x. split; [by intros [=]%(eq_trans (eq_sym (lookup_empty name)))|].
    intros (ns & p & path & v & _ & Hreg & _). by rewrite lookup_empty in Hreg.
  - rewrite load_all_jobs. pose proof (run_jobs_spec _ ∅ (jobs_distinct vars reg)) as H.
    destruct (try_fold run_job ∅ _) as [res|e].
    + destruct H as [H1 H2]. intros name x. split.
      * intros Hx. destruct (decide (Exists (fun j : Namespace * SecretsProviderType * string => namespaced_name j.1.1 j.2 = name)
            (flat_map (jobs_of vars) (entries reg)))) as [Hex|Hnot].
        -- apply Exists_exists in Hex as ([[ns p] path] & Hin & Hname). simpl in Hname.
           destruct (H1 _ Hin) as (v & Hv & Hres). simpl in *. subst name.
           apply elem_of_jobs in Hin as [Hreg Hhas]. rewrite Hx in Hres. simplify_eq. by exists ns, p, path, v.
        -- rewrite H2 in Hx; [by apply (eq_trans (eq_sym (lookup_empty name))) in Hx|]. intros j Hj E. destruct Hnot. apply Exists_exists. by exists j.
      * intros (ns & p & path & v & -> & Hreg & Hhas & Hget & ->).
        destruct (H1 (ns, p, path)) as (v' & Hv' & Hres); [by apply elem_of_jobs|].
        unfold job_secret in Hv'. simpl in *. congruence.
    + destruct H as ([[ns p] path] & msg & [Hreg Hhas]%elem_of_jobs & Hget & ->). by exists ns, p, path, msg.
Qed.

End Load.

(** Once secrets are loaded, each of them was known. *)
Lemma load_secrets_all `{HO : HashOrder} `{OU : Outside} vars reg res :
  load_secrets vars reg = Ok res -> forall ns p path, reg !! ns = Some p ->
  has_secret vars (show_namespace ns) path -> exists v, get_secret p path = Ok v.
Proof.
  unfold load_secrets. case_bool_decide as He; [subst reg; intros _ ns p path; by rewrite lookup_empty|].
  rewrite load_all_jobs. intros Hload ns p path Hreg Hhas.
  pose proof (run_jobs_spec _ ∅ (jobs_distinct vars reg)) as H. rewrite Hload in H. destruct H as [H _].
  destruct (H (ns, p, path)) as (v & Hv & _); [by apply elem_of_jobs|]. by exists v.
Qed.

(** The secrets of a text are those its placeholders name. *)
Lemma secrets_of_text `{RX : RegexLib} `{RL : !RegexLaws} s :
  exists vars, secret_variables_from s = Some vars /\
    forall ns path, has_secret vars (show_namespace ns) path <->
      exists m, inr m ∈ scan TEMPLATE_RE s 0 /\ (extract m).1 = namespaced_name ns path /\
        is_secret_variable (extract m).1 = true.
Proof.
  unfold secret_variables_from. rewrite find_iter_spec by done.
  destruct (collect_secrets (omap piece_match (scan TEMPLATE_RE s 0)) ∅) as (vars & -> & Hv).
  { apply Forall_forall. intros m (p & Hin & Hp)%list_elem_of_omap. destruct p; simplify_eq/=.
    by apply (scan_matches TEMPLATE_RE s). }
  exists vars. split; [done|]. intros ns path. rewrite Hv. split.
  - intros [(names & Hn & _)|(m & (p & Hin & Hp)%list_elem_of_omap & Hsec & Hs)].
    + by rewrite lookup_empty in Hn.
    + destruct p; simplify_eq/=. exists m. split_and!; [done| |done]. by apply split_once_spec in Hs.
  - intros (m & Hin & Hname & Hsec). right. exists m. split.
    + apply list_elem_of_omap. by exists (inr m).
    + split; [done|]. rewrite Hname. apply namespaced_name_split.
Qed.

(** ** Lemmas on expansion *)

Section Expand.
Context `{RX : RegexLib} `{RL : !RegexLaws} `{HO : HashOrder} `{YV : YamlValues}.

(** The loop of [template_string] succeeds when every placeholder can be rendered. *)
Lemma template_string_ok s variables :
  (forall m, inr m ∈ scan TEMPLATE_RE s 0 -> is_ok (render_placeholder variables m) = true) ->
  is_ok (template_string s variables) = true.
Proof using RL.
  intros Hall. unfold template_string. rewrite find_iter_spec by done.
  assert (Forall (fun m => is_ok (render_placeholder variables m) = true)
    (omap piece_match (scan TEMPLATE_RE s 0))) as Hms.
  { apply Forall_forall. intros m (p & Hin & Hp)%list_elem_of_omap. destruct p; simplify_eq/=. by apply Hall. }
  generalize s at 1. induction Hms as [|m ms Hm _ IH]; intros acc; simpl; [done|].
  destruct (render_placeholder variables m); [apply IH|done].
Qed.

Lemma apply_functions_ok fs v :
  is_ok (try_fold (fun acc f => map_err (fun e => RenderingTemplate (show_function_error e))
    (apply_function f acc)) v fs) = true.
Proof using. revert v. induction fs as [|[n] fs IH]; intros v; simpl; [done|apply IH]. Qed.

Lemma render_string_variable variables m v :
  variables !! (extract m).1 = Some (new_final_string_variable v) ->
  is_ok (parse_function_list (extract m).2) = true -> is_ok (render_placeholder variables m) = true.
Proof using.
  unfold render_placeholder, normalized_var. destruct (extract m) as [name fs]; simpl. intros -> Hf. simpl.
  destruct (parse_function_list fs); simpl; [apply apply_functions_ok|done].
Qed.

End Expand.

(** ** Properties *)

Section SecretProperties.
Context `{RX : RegexLib} `{RL : !RegexLaws} `{HO : HashOrder} `{OU : Outside}.

(** The secrets of a text are found and loaded exactly.  Collecting them never panics.
    When loading succeeds the result has a variable for each placeholder of a secret whose
    namespace has a provider, with the value the provider gives, and nothing else.  When it
    fails, the error is the one the provider gives for a placeholder of the text. *)
Theorem secrets_loaded_exactly s (registry : SecretsProviders) :
  exists vars, secret_variables_from s = Some vars /\
  match load_secrets vars registry with
  | Ok res => forall name x, res !! name = Some x <->
      exists m ns p path v, inr m ∈ scan TEMPLATE_RE s 0 /\ (extract m).1 = name /\
        is_secret_variable name = true /\ name = namespaced_name ns path /\
        registry !! ns = Some p /\ get_secret p path = Ok v /\ x = new_final_string_variable v
  | Err e => exists m ns p path msg, inr m ∈ scan TEMPLATE_RE s 0 /\
      (extract m).1 = namespaced_name ns path /\ registry !! ns = Some p /\
      get_secret p path = Err msg /\ e = SecretsLoadError path msg
  end.
Proof using RL.
  destruct (secrets_of_text s) as (vars & Hvars & Hhas). exists vars. split; [done|].
  pose proof (load_secrets_spec vars registry) as H. destruct (load_secrets vars registry) as [res|e].
  - intros name x. rewrite H. split.
    + intros (ns & p & path & v & -> & Hreg & (m & Hm & Hname & Hsec)%Hhas & Hget & ->).
      exists m, ns, p, path, v. by rewrite Hname in Hsec.
    + intros (m & ns & p & path & v & Hm & Hname & Hsec & -> & Hreg & Hget & ->).
      exists ns, p, path, v. split_and!; [done..| |done|done]. apply Hhas. exists m. by rewrite Hname.
  - destruct H as (ns & p & path & msg & Hreg & (m & Hm & Hname & _)%Hhas & Hget & ->).
    by exists m, ns, p, path, msg.
Qed.

(** A text whose placeholders are all secrets of registered providers is expanded once its
    secrets are loaded: the only other way to fail is a function that does not exist. *)
Theorem secrets_expand_text `{YV : YamlValues} s (registry : SecretsProviders) vars res :
  (forall m, inr m ∈ scan TEMPLATE_RE s 0 ->
     is_secret_variable (extract m).1 = true /\ is_ok (parse_function_list (extract m).2) = true /\
     exists ns path, (extract m).1 = namespaced_name ns path /\ is_Some (registry !! ns)) ->
  secret_variables_from s = Some vars -> load_secrets vars registry = Ok res ->
  is_ok (template_string s res) = true.
Proof using RL.
  intros Hall Hvars Hload. destruct (secrets_of_text s) as (vars' & Hvars' & Hhas).
  rewrite Hvars in Hvars'. injection Hvars' as <-.
  apply template_string_ok. intros m Hm. destruct (Hall m Hm) as (Hsec & Hf & ns & path & Hname & [p Hp]).
  pose proof (load_secrets_spec vars registry) as H. rewrite Hload in H.
  destruct (load_secrets_all vars registry res Hload ns p path Hp) as (v & Hget).
  { apply Hhas. exists m. by rewrite Hname in *. }
  eapply (render_string_variable _ _ v); [|done]. apply H. exists ns, p, path, v. split_and!; [done..| |done|done].
  apply Hhas. exists m. by rewrite Hname in *.
Qed.

End SecretProperties.

(** The path of a Vault secret has exactly four parts that are not empty, separated by
    colons, and is read into them. *)
Theorem vault_path_exact s a b c d :
  vault_path_from_str s = Ok {| vault_source := a; vault_mount := b; vault_path := c; vault_name := d |} <->
  s = a +:+ ":" +:+ b +:+ ":" +:+ c +:+ ":" +:+ d /\ Forall path_part [a; b; c; d].
Proof.
  rewrite <-(parts_spec s [a; b; c; d]) by done. unfold vault_path_from_str. split.
  - destruct (existsb str_is_empty (split ":" s)) eqn:E; [done|].
    destruct (split ":" s) as [|? [|? [|? [|? [|]]]]]; try done. intros [= -> -> -> ->]. done.
  - intros [-> ->]. done.
Qed.

(** The path of a Kubernetes secret is read back from what [build_secret_path] writes. *)
Theorem k8s_path_roundtrip s a b c :
  k8s_path_try_from s = Ok {| secret_namespace := a; secret_name := b; secret_key := c |} <->
  s = build_secret_path a b c /\ Forall path_part [a; b; c].
Proof.
  rewrite <-(parts_spec s [a; b; c]) by done. unfold k8s_path_try_from. split.
  - destruct (existsb str_is_empty (split ":" s)) eqn:E; [done|].
    destruct (split ":" s) as [|? [|? [|? [|]]]]; try done. intros [= -> -> ->]. done.
  - intros [-> ->]. done.
Qed.

(** ** Concrete secrets *)

Definition example_outside : Outside := {|
  env_var := fun _ => Err "not present";
  read_to_string := fun path => if String.eqb path "/key" then Ok ("secret" +:+ String newline "") else Err "no file";
  get_secret_key := fun _ _ _ => Ok None;
  url_join := fun url path => Ok (url +:+ path);
  valid_uri := fun _ => Ok tt;
  valid_header := fun _ => Ok tt;
  http_send := fun _ _ => Err (OtherHttpError "refused");
  from_utf8 := Ok;
  parse_kv1 := fun _ => Ok ∅;
  parse_kv2 := fun _ => Ok ∅;
|}.

Definition example_text : string := "key: ${nr-file:/key|indent 2}".

Definition example_secrets : Variables :=
  {["nr-file:/key" := new_final_string_variable "secret"]}.

Lemma secrets_expand_text_witness :
  is_ok (template_string example_text example_secrets) = true.
Proof.
  refine (secrets_expand_text (OU := example_outside) example_text (with_file ∅)
    {["nr-file" := {["/key" := tt]}]} example_secrets _ _ _); [|vm_compute; reflexivity..].
  assert (scan TEMPLATE_RE example_text 0 = [inl "k"%char; inl "e"%char; inl "y"%char; inl ":"%char;
    inl " "%char; inr "${nr-file:/key|indent 2}"]) as -> by (vm_compute; reflexivity).
  intros m Hm. rewrite !elem_of_cons, elem_of_nil in Hm.
  destruct Hm as [[=]|[[=]|[[=]|[[=]|[[=]|[[= ->]|[]]]]]]].
  split; [vm_compute; reflexivity|]. split; [vm_compute; reflexivity|].
  exists FileNs, "/key". split; [vm_compute; reflexivity|]. by exists FileProvider.
Defined.

(** The text names one secret, which the file has. *)
Lemma secrets_loaded_exactly_witness :
  exists vars, secret_variables_from example_text = Some vars /\
    is_ok (load_secrets (OU := example_outside) vars (with_file ∅)) = true.
Proof.
  destruct (secrets_loaded_exactly (OU := example_outside) example_text (with_file ∅)) as (vars & Hvars & _).
  exists vars. split; [exact Hvars|].
  assert (secret_variables_from example_text = Some {["nr-file" := {["/key" := tt]}]}) as E by (vm_compute; reflexivity).
  rewrite E in Hvars. apply (inj Some) in Hvars. rewrite <-Hvars. vm_compute. reflexivity.
Defined.
