(* ===== verification/OciTypes.v ===== *)
(** * Package references

    Models [agent_type/runtime_config/on_host/package/rendered.rs]: the validated repository and
    version of a package, and the reference built from them. *)

From Stdlib Require Import Ascii String.
From stdpp Require Import base option list strings numbers.
From S2P Require Import Prelude RustString.

#[local] Arguments String.append !s1 s2 : simpl nomatch.

Definition REPOSITORY_TOTAL_LENGTH_MAX : nat := 255.
Definition TAG_TOTAL_LENGTH_MAX : nat := 128.

(** [Iterator::try_for_each] on the characters of a string *)
Fixpoint chars_try_for_each {E} (f : ascii -> result unit E) (s : string) : result unit E :=
  match s with
  | EmptyString => Ok tt
  | String c s => let? _ := f c in chars_try_for_each f s
  end.

Fixpoint list_try_for_each {A E} (f : A -> result unit E) (l : list A) : result unit E :=
  match l with
  | [] => Ok tt
  | a :: l => let? _ := f a in list_try_for_each f l
  end.

(** ** Repositories *)

Definition InvalidRepository : Type := string.
Definition Repository : Type := string.

Definition validate_repository_char (c : ascii) : result unit InvalidRepository :=
  if is_ascii_uppercase c then Err "repository name contains uppercase character"
  else if negb (is_ascii_alphanumeric c) && negb (Ascii.eqb c ".") && negb (Ascii.eqb c "_")
          && negb (Ascii.eqb c "-")
  then Err "repository name contains invalid character"
  else Ok tt.

Definition validate_component (component : string) : result unit InvalidRepository :=
  if str_is_empty component then Err "repository name contains empty component"
  else chars_try_for_each validate_repository_char component.

(** [FromStr for Repository] *)
Definition repository_from_str (s : string) : result Repository InvalidRepository :=
  if str_is_empty s then Err "repository name cannot be empty"
  else if REPOSITORY_TOTAL_LENGTH_MAX <? String.length s then Err "repository name too long"
  else let? _ := list_try_for_each validate_component (split "/" s) in Ok s.

(** ** Versions *)

Definition InvalidVersion : Type := string.
Definition Version : Type := string.

Definition validate_version_tag_char (c : ascii) : result unit InvalidVersion :=
  if negb (is_ascii_alphanumeric c) && negb (Ascii.eqb c ".") && negb (Ascii.eqb c "_")
     && negb (Ascii.eqb c "-")
  then Err "version tag contains invalid character"
  else Ok tt.

Definition validate_digest (digest : string) : result unit InvalidVersion :=
  match split_once ":" digest with
  | Some (algorithm, hex) =>
      if String.eqb algorithm "sha256" then
        if String.length hex =? 64 then Ok tt else Err "digest has invalid length"
      else if String.eqb algorithm "sha384" then
        if String.length hex =? 96 then Ok tt else Err "digest has invalid length"
      else if String.eqb algorithm "sha512" then
        if String.length hex =? 128 then Ok tt else Err "digest has invalid length"
      else Err "digest algorithm unsupported"
  | None => Err "digest has invalid format"
  end.

Definition validate_tag (tag : string) : result unit InvalidVersion :=
  if TAG_TOTAL_LENGTH_MAX <? String.length tag then Err "version tag too long"
  else chars_try_for_each validate_version_tag_char tag.

(** [FromStr for Version] *)
Definition version_from_str (s : string) : result Version InvalidVersion :=
  if str_is_empty s then Err "version cannot be empty"
  else if ends_with_char (Ascii.eqb "@") s then Err "version cannot end with '@'"
  else
    let? _ := match split_once "@" s with
              | Some (tag, digest) =>
                  let? _ := if str_is_empty tag then Ok tt else validate_tag tag in
                  validate_digest digest
              | None => validate_tag s
              end in
    Ok s.

Definition tag_and_digest (v : Version) : option string * option string :=
  if str_is_empty v then (None, None)
  else match split_once "@" v with
       | Some (tag, digest) =>
           if str_is_empty tag then (None, Some digest)
           else if str_is_empty digest then (Some tag, None)
           else (Some tag, Some digest)
       | None => (Some v, None)
       end.

(** ** References

    [oci_client::Reference], as it was built. *)

Record Reference : Type := {
  ref_registry : string;
  ref_repository : string;
  ref_tag : option string;
  ref_digest : option string;
}.

Record Oci : Type := {
  repository : Repository;
  version : Version;
  public_key_url : option string;
}.

Definition to_reference (oci : Oci) (registry : string) : result Reference InvalidVersion :=
  match tag_and_digest (version oci) with
  | (None, None) => Err "version cannot be empty"
  | (tag, digest) =>
      Ok {| ref_registry := registry; ref_repository := repository oci;
            ref_tag := tag; ref_digest := digest |}
  end.

(** ** Lemmas *)

Lemma chars_try_for_each_ok {E} (f : ascii -> result unit E) s :
  chars_try_for_each f s = Ok tt <-> str_all (fun c => is_ok (f c)) s = true.
Proof.
  induction s as [|c s IH]; simpl; [done|]. rewrite andb_true_iff, <-IH.
  destruct (f c) as [[]|]; simpl; naive_solver.
Qed.

Lemma split_once_None sep s : split_once sep s = None <-> str_all (fun c => negb (Ascii.eqb c sep)) s = true.
Proof.
  induction s as [|c s IH]; simpl; [done|]. destruct (Ascii.eqb c sep); simpl; [done|].
  rewrite <-IH. destruct (split_once sep s) as [[]|]; naive_solver.
Qed.

Definition tag_char (c : ascii) : bool :=
  is_ascii_alphanumeric c || Ascii.eqb c "." || Ascii.eqb c "_" || Ascii.eqb c "-".

Lemma validate_tag_ok tag :
  validate_tag tag = Ok tt <-> String.length tag <= TAG_TOTAL_LENGTH_MAX /\ str_all tag_char tag = true.
Proof.
  unfold validate_tag. destruct (Nat.ltb_spec TAG_TOTAL_LENGTH_MAX (String.length tag)).
  - split; [done|]. intros [? _]. lia.
  - rewrite chars_try_for_each_ok.
    assert (forall s, str_all (fun c => is_ok (validate_version_tag_char c)) s = str_all tag_char s) as ->.
    { intros s. induction s as [|c s IH]; simpl; [done|]. rewrite IH. f_equal.
      unfold validate_version_tag_char, tag_char.
      by destruct (is_ascii_alphanumeric c), (Ascii.eqb c "."), (Ascii.eqb c "_"), (Ascii.eqb c "-"). }
    naive_solver.
Qed.

Lemma digest_not_empty digest : validate_digest digest = Ok tt -> digest <> "".
Proof. by intros H ->. Qed.

(** ** Properties *)

(** A version that was accepted always gives a reference, which has the parts of the version:
    putting tag and digest together again gives the version.  The error for an empty version is
    never reached. *)
Theorem version_gives_reference s v repo url registry :
  version_from_str s = Ok v ->
  exists tag digest,
    to_reference {| repository := repo; version := v; public_key_url := url |} registry =
      Ok {| ref_registry := registry; ref_repository := repo; ref_tag := tag; ref_digest := digest |} /\
    s = default "" tag +:+ match digest with Some d => "@" +:+ d | None => "" end /\
    (forall t, tag = Some t -> t <> "" /\ String.length t <= TAG_TOTAL_LENGTH_MAX /\ str_all tag_char t = true) /\
    (forall d, digest = Some d -> validate_digest d = Ok tt).
Proof.
  unfold version_from_str, to_reference, tag_and_digest. destruct (str_is_empty s) eqn:Hs; [done|].
  destruct (ends_with_char _ s); [done|]. destruct (split_once "@" s) as [[tag digest]|] eqn:Hsp.
  - apply split_once_spec in Hsp as Hs'. destruct (str_is_empty tag) eqn:Ht; simpl.
    + destruct (validate_digest digest) as [[]|] eqn:Hd; simpl; [|done]. intros [= <-]. simpl. rewrite Hs, Hsp, Ht.
      exists None, (Some digest). destruct tag; [|done]. split_and!; [done..|by intros d [= <-]].
    + destruct (validate_tag tag) as [[]|] eqn:Hv; simpl; [|done].
      destruct (validate_digest digest) as [[]|] eqn:Hd; simpl; [|done]. intros [= <-]. simpl.
      rewrite Hs, Hsp, Ht. apply digest_not_empty in Hd as Hne. destruct digest as [|c digest]; [done|]. simpl.
      exists (Some tag), (Some (String c digest)). split_and!; [done..| |by intros d [= <-]].
      intros t [= <-]. split; [by destruct tag|]. by apply validate_tag_ok.
  - destruct (validate_tag s) as [[]|] eqn:Hv; simpl; [|done]. intros [= <-]. simpl. rewrite Hs, Hsp.
    exists (Some s), None. split_and!; [done|by rewrite str_app_nil_r| |done].
    intros t [= <-]. split; [by destruct s|]. by apply validate_tag_ok.
Qed.

(** The checks of a version accept more than the documentation says: a tag may begin with a
    dot or a dash, and a digest may have characters that are not hexadecimal digits. *)
Theorem version_accepts_undocumented :
  version_from_str ".1" = Ok ".1" /\ version_from_str "-1" = Ok "-1" /\
  let digest := "@sha256:" +:+ repeat_str "/." 32 in version_from_str digest = Ok digest.
Proof. split_and!; vm_compute; reflexivity. Qed.

Lemma version_gives_reference_witness :
  exists tag digest,
    to_reference {| repository := "r"; version := "1.0"; public_key_url := None |} "docker.io" =
      Ok {| ref_registry := "docker.io"; ref_repository := "r"; ref_tag := tag; ref_digest := digest |}.
Proof.
  destruct (version_gives_reference "1.0" "1.0" "r" None "docker.io" eq_refl) as (tag & digest & H & _).
  exists tag, digest. exact H.
Defined.
