(* ===== verification/Registry.v ===== *)
(** * The agent type registry

    Models [agent_type/registry.rs], [agent_type/registry/local.rs],
    [agent_type/registry/local/custom.rs], [agent_type/registry/local/embedded.rs],
    [agent_type/registry/remote.rs], [agent_type/registry/caching.rs], [agent_type/oci.rs],
    [environment.rs] and the metadata of [agent_type/definition.rs]: how the identifier of an
    agent type is resolved to its definition.

    The contents of a definition are opaque here; reading one from its bytes, listing a
    directory and downloading are answers of the outside. *)

From Stdlib Require Import Ascii String Lia.
From stdpp Require Import base option list strings gmap.
From S2P Require Import Prelude RustString AgentId AgentTypeId.

(** [environment.rs] *)
Inductive Environment : Type := Linux | Windows | K8s.

#[export] Instance Environment_eq_dec : EqDecision Environment.
Proof. solve_decision. Defined.

Definition show_environment (e : Environment) : string :=
  match e with Linux => "linux" | Windows => "windows" | K8s => "kubernetes" end.

(** [oci.rs] *)
Definition environment_prefix (e : Environment) : string :=
  match e with Linux => "host-linux" | Windows => "host-windows" | K8s => "kubernetes" end.

(** ** Metadata ([definition.rs]) *)

Inductive Platform : Type := Host | Kubernetes.
Inductive OperatingSystem : Type := LinuxOs | WindowsOs.
Inductive AgentTypeMetadataError : Type := MissingOperatingSystem | UnexpectedOperatingSystem.

Section Registry.
Context `{SV : SemVer} {Body : Type}.

Record AgentTypeMetadata : Type := { meta_id : AgentTypeID; environment : Environment }.

Definition try_from_parts (id : AgentTypeID) (platform : Platform) (os : option OperatingSystem) :
  result AgentTypeMetadata AgentTypeMetadataError :=
  match platform, os with
  | Host, Some LinuxOs => Ok {| meta_id := id; environment := Linux |}
  | Host, Some WindowsOs => Ok {| meta_id := id; environment := Windows |}
  | Kubernetes, None => Ok {| meta_id := id; environment := K8s |}
  | Host, None => Err MissingOperatingSystem
  | Kubernetes, Some _ => Err UnexpectedOperatingSystem
  end.

Record AgentTypeDefinition : Type := { metadata : AgentTypeMetadata; body : Body }.

Definition definition_id (d : AgentTypeDefinition) : AgentTypeID := meta_id (metadata d).

Inductive AgentTypeRegistryError : Type :=
| RegistryNotFound (id : string)
| AlreadyExists (id : string)
| Parsing (e : string)
| Remote (e : string)
| MetadataMismatch (tag details : string).

(** Reading a definition from its bytes, [AgentTypeDefinition::from_slice] *)
Context (from_slice : string -> result AgentTypeDefinition string).

(** ** The local registry

    Definitions in the order they are found; the map is keyed by identifier. *)

Definition LocalRegistry : Type := list (AgentTypeID * AgentTypeDefinition).

Fixpoint registry_lookup (id : AgentTypeID) (r : LocalRegistry) : option AgentTypeDefinition :=
  match r with
  | [] => None
  | (k, d) :: r => if decide (id = k) then Some d else registry_lookup id r
  end.

(** [HashMap::insert] *)
Definition registry_insert (id : AgentTypeID) (d : AgentTypeDefinition) (r : LocalRegistry) : LocalRegistry :=
  (id, d) :: List.filter (fun kd => negb (bool_decide (kd.1 = id))) r.

Definition local_get (r : LocalRegistry) (id : AgentTypeID) :
  result AgentTypeDefinition AgentTypeRegistryError :=
  ok_or (registry_lookup id r) (RegistryNotFound (to_string id)).

Definition insert_unique (r : LocalRegistry) (d : AgentTypeDefinition) :
  result LocalRegistry AgentTypeRegistryError :=
  let id := definition_id d in
  match registry_lookup id r with
  | Some _ => Err (AlreadyExists (to_string id))
  | None => Ok (registry_insert id d r)
  end.

Definition local_try_new (definitions : list AgentTypeDefinition) :
  result LocalRegistry AgentTypeRegistryError := try_fold insert_unique [] definitions.

(** [None] is the panic on a file that is not valid. *)
Definition embedded_definitions (env : Environment) (embedded_files : list string) :
  option (list AgentTypeDefinition) :=
  List.filter (fun d => bool_decide (environment (metadata d) = env)) <$>
    mapM (fun f => ok (from_slice f)) embedded_files.

(** The entries of the directory with what reading them gives, sorted by path; [None] when it
    cannot be read. *)
Definition custom_definitions (dir : option (list (result string string))) : list AgentTypeDefinition :=
  match dir with
  | None => []
  | Some entries => omap (fun r => ok r ≫= fun content => ok (from_slice content)) entries
  end.

(** [LocalRegistry::new]; [None] is a panic. *)
Definition local_new (env : Environment) (embedded_files : list string)
    (dir : option (list (result string string))) : option LocalRegistry :=
  definitions ← embedded_definitions env embedded_files;
  registry ← ok (local_try_new definitions);
  Some (fold_left (fun r d => registry_insert (definition_id d) d r)
    (List.filter (fun d => bool_decide (environment (metadata d) = env)) (custom_definitions dir)) registry).

(** ** The remote registry *)

(** [AgentTypeTag::new] *)
Definition agent_type_tag (id : AgentTypeID) (env : Environment) : string :=
  environment_prefix env +:+ "-" +:+ name id +:+ "-" +:+ version_show (version id).

Definition check_metadata (env : Environment) (m : AgentTypeMetadata) (expected : AgentTypeID) :
  result unit string :=
  if negb (bool_decide (environment m = env)) then
    Err ("expected environment '" +:+ show_environment env +:+ "', found '" +:+
         show_environment (environment m) +:+ "'")
  else if negb (bool_decide (meta_id m = expected)) then
    Err ("expected <namespace/name:version> '" +:+ to_string expected +:+ "', found  " +:+
         to_string (meta_id m))
  else Ok tt.

Definition remote_get (env : Environment) (download : string -> result string string)
    (id : AgentTypeID) : result AgentTypeDefinition AgentTypeRegistryError :=
  let tag := agent_type_tag id env in
  let? raw := map_err Remote (download tag) in
  let? definition := map_err Parsing (from_slice raw) in
  let? _ := map_err (MetadataMismatch tag) (check_metadata env (metadata definition) id) in
  Ok definition.

(** ** Layers and cache *)

(** [Registry::get]: the first layer that answers wins, the last error is kept. *)
Fixpoint layers_get (layers : list (AgentTypeID -> result AgentTypeDefinition AgentTypeRegistryError))
    (last_err : AgentTypeRegistryError) (id : AgentTypeID) :
  result AgentTypeDefinition AgentTypeRegistryError :=
  match layers with
  | [] => Err last_err
  | inner :: layers =>
      match inner id with
      | Ok def => Ok def
      | Err err => layers_get layers err id
      end
  end.

Definition registry_get (layers : list (AgentTypeID -> result AgentTypeDefinition AgentTypeRegistryError))
    (id : AgentTypeID) : result AgentTypeDefinition AgentTypeRegistryError :=
  layers_get layers (RegistryNotFound (to_string id)) id.

(** [CachingRegistry::get]: the inner registry answers as a function of how often it was
    asked. *)
Record CachingRegistry : Type := { cache : LocalRegistry; inner_calls : list AgentTypeID }.

Definition caching_get
    (inner : list AgentTypeID -> AgentTypeID -> result AgentTypeDefinition AgentTypeRegistryError)
    (id : AgentTypeID) : M CachingRegistry (result AgentTypeDefinition AgentTypeRegistryError) := fun c =>
  match registry_lookup id (cache c) with
  | Some d => (Ok d, c)
  | None =>
      let calls := id :: inner_calls c in
      match inner (inner_calls c) id with
      | Ok d => (Ok d, {| cache := registry_insert id d (cache c); inner_calls := calls |})
      | Err e => (Err e, {| cache := cache c; inner_calls := calls |})
      end
  end.

(** ** Lemmas *)

(** Definitions are under their own identifier, once, and for the running environment. *)
Definition registry_wf (env : Environment) (r : LocalRegistry) : Prop :=
  Forall (fun kd => definition_id kd.2 = kd.1 /\ environment (metadata kd.2) = env) r.

Lemma registry_lookup_in id d r : registry_lookup id r = Some d -> (id, d) ∈ r.
Proof.
  induction r as [|[k e] r IH]; simpl; [done|].
  destruct (decide (id = k)) as [->|]; [intros [= ->]; left|right; auto].
Qed.

Lemma registry_lookup_insert id id' d r :
  registry_lookup id' (registry_insert id d r) = if decide (id' = id) then Some d else registry_lookup id' r.
Proof.
  unfold registry_insert. simpl. destruct (decide (id' = id)) as [->|Hne]; [done|].
  induction r as [|[k e] r IH]; simpl; [done|].
  case_bool_decide as Hk; simpl; destruct (decide (id' = k)) as [->|]; done.
Qed.

Lemma registry_wf_insert env d r :
  environment (metadata d) = env -> registry_wf env r -> registry_wf env (registry_insert (definition_id d) d r).
Proof.
  unfold registry_wf. intros He Hr. constructor; [done|]. rewrite Forall_forall in *.
  intros kd Hin%list_elem_of_In%filter_In. apply Hr, list_elem_of_In. by destruct Hin.
Qed.

Lemma registry_wf_try_fold env ds r r' :
  Forall (fun d => environment (metadata d) = env) ds -> registry_wf env r ->
  try_fold insert_unique r ds = Ok r' -> registry_wf env r'.
Proof.
  intros Hds. revert r. induction Hds as [|d ds Hd _ IH]; intros r Hr; simpl; [by intros [= <-]|].
  unfold insert_unique, and_then. destruct (registry_lookup (definition_id d) r); [done|].
  apply IH. by apply registry_wf_insert.
Qed.

Lemma filter_environment env (ds : list AgentTypeDefinition) :
  Forall (fun d => environment (metadata d) = env)
    (List.filter (fun d => bool_decide (environment (metadata d) = env)) ds).
Proof. apply Forall_forall. intros d [_ ?%bool_decide_eq_true]%list_elem_of_In%filter_In. done. Qed.

Lemma local_new_wf env files dir r : local_new env files dir = Some r -> registry_wf env r.
Proof.
  unfold local_new, embedded_definitions. destruct (mapM _ files) as [ds|]; simpl; [|done].
  unfold local_try_new. destruct (try_fold insert_unique [] _) as [r0|] eqn:E; simpl; [|done].
  intros [= <-]. apply registry_wf_try_fold with (env := env) in E;
    [|apply filter_environment|apply Forall_nil_2]. revert r0 E.
  generalize (filter_environment env (custom_definitions dir)).
  induction 1 as [|d l Hd _ IH]; intros r0 Hr0; simpl; [done|]. apply IH. by apply registry_wf_insert.
Qed.

Lemma layers_get_Ok layers e id d :
  layers_get layers e id = Ok d -> exists f, f ∈ layers /\ f id = Ok d.
Proof.
  revert e. induction layers as [|f layers IH]; intros e; simpl; [done|].
  destruct (f id) as [d'|e'] eqn:E.
  - intros [= <-]. exists f. split; [left|done].
  - intros (g & ? & ?)%IH. exists g. split; [by right|done].
Qed.

(** The definitions of a registry were read from bytes. *)
Definition parsed (d : AgentTypeDefinition) : Prop := exists raw, from_slice raw = Ok d.

Lemma registry_insert_Forall (P : AgentTypeDefinition -> Prop) id d r :
  P d -> Forall (fun kd => P kd.2) r -> Forall (fun kd => P kd.2) (registry_insert id d r).
Proof.
  intros Hd Hr. constructor; [done|]. rewrite Forall_forall in *.
  intros kd Hin%list_elem_of_In%filter_In. apply Hr, list_elem_of_In. by destruct Hin.
Qed.

Lemma registry_try_fold_Forall (P : AgentTypeDefinition -> Prop) ds r r' :
  Forall P ds -> Forall (fun kd => P kd.2) r -> try_fold insert_unique r ds = Ok r' -> Forall (fun kd => P kd.2) r'.
Proof.
  intros Hds. revert r. induction Hds as [|d ds Hd _ IH]; intros r Hr; simpl; [by intros [= <-]|].
  unfold insert_unique, and_then. destruct (registry_lookup (definition_id d) r); [done|].
  apply IH. by apply registry_insert_Forall.
Qed.

Lemma filter_Forall {A} (P : A -> Prop) f (l : list A) : Forall P l -> Forall P (List.filter f l).
Proof. rewrite !Forall_forall. intros H x Hx%list_elem_of_In%filter_In. apply H, list_elem_of_In. tauto. Qed.

Lemma local_new_parsed env files dir r : local_new env files dir = Some r -> Forall (fun kd => parsed kd.2) r.
Proof.
  unfold local_new, embedded_definitions. destruct (mapM _ files) as [ds|] eqn:Em; simpl; [|done].
  unfold local_try_new. destruct (try_fold insert_unique [] _) as [r0|] eqn:E; simpl; [|done].
  intros [= <-]. apply (registry_try_fold_Forall parsed) in E; [|apply filter_Forall|constructor].
  2: { apply Forall_forall. intros d [i Hi]%list_elem_of_lookup. apply mapM_Some in Em.
       destruct (Forall2_lookup_r _ _ _ _ _ Em Hi) as (f & _ & Hf). exists f. by destruct (from_slice f); simplify_eq/=. }
  assert (Forall parsed (List.filter (fun d => bool_decide (environment (metadata d) = env)) (custom_definitions dir))) as Hc.
  { apply filter_Forall, Forall_forall. intros d Hd. destruct dir as [es|]; [|by apply not_elem_of_nil in Hd].
    apply list_elem_of_omap in Hd as ([c|] & _ & Hc); [|done]. simpl in Hc. exists c. by destruct (from_slice c); simplify_eq/=. }
  revert r0 E. induction Hc as [|d l Hd _ IH]; intros r0 Hr0; simpl; [done|]. apply IH. by apply registry_insert_Forall.
Qed.

Lemma remote_get_parsed env download id d : remote_get env download id = Ok d -> parsed d.
Proof.
  unfold remote_get, and_then. destruct (download _) as [raw|]; simpl; [|done].
  destruct (from_slice raw) as [def|] eqn:E; simpl; [|done]. destruct (check_metadata _ _ _); simpl; [|done].
  intros [= <-]. by exists raw.
Qed.

Lemma registry_get_parsed env files dir download local id d :
  local_new env files dir = Some local ->
  registry_get [local_get local; remote_get env download] id = Ok d -> parsed d.
Proof.
  intros Hl%local_new_parsed (f & Hf & Hd)%layers_get_Ok.
  apply elem_of_cons in Hf as [->|[->|[]%not_elem_of_nil]%elem_of_cons]; [|by eapply remote_get_parsed].
  unfold local_get, ok_or in Hd. destruct (registry_lookup id local) as [d'|] eqn:E; simplify_eq.
  apply registry_lookup_in in E. rewrite Forall_forall in Hl. by apply Hl in E.
Qed.

Lemma remote_get_metadata env download id d :
  remote_get env download id = Ok d -> environment (metadata d) = env /\ definition_id d = id.
Proof.
  unfold remote_get, and_then. destruct (download _) as [raw|]; simpl; [|done].
  destruct (from_slice raw) as [def|]; simpl; [|done]. unfold check_metadata.
  case_bool_decide as He; simpl; [|done]. case_bool_decide as Hi; simpl; [|done].
  by intros [= <-].
Qed.

(** ** Properties *)

(** Whatever the directory of custom types has and whatever is downloaded, an agent type
    that the registry returns is the one that was asked for, made for the running
    environment. *)
Theorem registry_returns_requested env files dir download local id d :
  local_new env files dir = Some local ->
  registry_get [local_get local; remote_get env download] id = Ok d ->
  definition_id d = id /\ environment (metadata d) = env.
Proof.
  intros Hl%local_new_wf (f & Hf & Hd)%layers_get_Ok.
  apply elem_of_cons in Hf as [->|[->|[]%not_elem_of_nil]%elem_of_cons].
  - unfold local_get, ok_or in Hd. destruct (registry_lookup id local) as [d'|] eqn:E; simplify_eq.
    apply registry_lookup_in in E. unfold registry_wf in Hl. rewrite Forall_forall in Hl. by apply Hl in E.
  - apply remote_get_metadata in Hd. tauto.
Qed.

(** The answers to a sequence of lookups. *)
Fixpoint caching_gets
    (inner : list AgentTypeID -> AgentTypeID -> result AgentTypeDefinition AgentTypeRegistryError)
    (ids : list AgentTypeID) : M CachingRegistry (list (result AgentTypeDefinition AgentTypeRegistryError)) :=
  match ids with
  | [] => ret []
  | id :: ids =>
      let* r := caching_get inner id in let* rs := caching_gets inner ids in ret (r :: rs)
  end.

Definition cache_sound (f : AgentTypeID -> result AgentTypeDefinition AgentTypeRegistryError)
    (c : CachingRegistry) : Prop :=
  forall id d, registry_lookup id (cache c) = Some d -> f id = Ok d.

Lemma caching_gets_sound f ids c :
  cache_sound f c -> (caching_gets (fun _ => f) ids c).1 = f <$> ids.
Proof.
  revert c. induction ids as [|id ids IH]; intros c Hc; [done|]. simpl. unfold_effects.
  unfold caching_get. destruct (registry_lookup id (cache c)) as [d|] eqn:E.
  - specialize (IH c Hc). destruct (caching_gets _ ids c). simpl in *. by rewrite IH, (Hc _ _ E).
  - destruct (f id) as [d|e] eqn:Ef.
    + assert (cache_sound f {| cache := registry_insert id d (cache c); inner_calls := id :: inner_calls c |})
        as Hc'. { intros id' d'. cbn [cache]. rewrite registry_lookup_insert.
        destruct (decide (id' = id)) as [->|]; [congruence|apply Hc]. }
      specialize (IH _ Hc'). destruct (caching_gets _ ids _). simpl in *. by rewrite IH.
    + specialize (IH {| cache := cache c; inner_calls := id :: inner_calls c |} Hc).
      destruct (caching_gets _ ids _). simpl in *. by rewrite IH.
Qed.

(** The cache is transparent: when the inner registry always gives the same answer for an
    identifier, any sequence of lookups through the cache gives the answers it would give. *)
Theorem caching_equivalent f ids :
  (caching_gets (fun _ => f) ids {| cache := []; inner_calls := [] |}).1 = f <$> ids.
Proof. by apply caching_gets_sound. Qed.

(** A definition that was found is kept: later lookups return it and do not ask the inner
    registry, whatever it would answer; a lookup that fails leaves the cache as it was, so that
    the next one asks again. *)
Theorem caching_keeps_found_only inner id c :
  let '(r, c') := caching_get inner id c in
  match r with
  | Ok d => forall inner', caching_get inner' id c' = (Ok d, c')
  | Err e => cache c' = cache c /\ inner_calls c' = id :: inner_calls c /\
      registry_lookup id (cache c') = None
  end.
Proof.
  unfold caching_get. destruct (registry_lookup id (cache c)) as [d|] eqn:E.
  - intros inner'. by rewrite E.
  - destruct (inner (inner_calls c) id) as [d|e]; [|done].
    intros inner'. cbn [cache]. rewrite registry_lookup_insert. by rewrite decide_True.
Qed.

(** The characters of an OCI tag that are used. *)
Definition tag_char (c : ascii) : bool := name_char c || Ascii.eqb c "-".

Lemma tag_char_name s : str_all name_char s = true -> str_all tag_char s = true.
Proof.
  induction s as [|c s IH]; simpl; [done|]. intros [Hc Hs]%andb_prop.
  unfold tag_char at 1. by rewrite Hc, IH.
Qed.

Lemma parse_version_chars v w :
  parse_version v = Ok w -> str_all (fun c => is_ascii_digit c || Ascii.eqb c ".") v = true.
Proof. unfold parse_version. by destruct (str_all _ v). Qed.

Lemma tag_char_version s :
  str_all (fun c => is_ascii_digit c || Ascii.eqb c ".") s = true -> str_all tag_char s = true.
Proof.
  induction s as [|c s IH]; simpl; [done|]. intros [Hc Hs]%andb_prop. rewrite IH by done.
  unfold tag_char, name_char. apply orb_prop in Hc as [->| ->]; by rewrite ?orb_true_r.
Qed.

(** The tag of an agent type is a valid OCI tag: at most 128 characters (92 here), all of
    them lowercase letters, digits, dots, underscores or hyphens. *)
Theorem agent_type_tag_valid id env :
  wf_agent_type_id id ->
  String.length (agent_type_tag id env) <= 92 /\ str_all tag_char (agent_type_tag id env) = true.
Proof.
  intros [v Hv]. apply from_parts_ok in Hv as (_ & (_ & Hlen & _ & _ & Hn) & w & Hver & Hid).
  pose proof (parse_version_chars _ _ Hver) as Hall.
  apply parse_version_ok in Hver as (Hs & Hvlen). unfold agent_type_tag.
  assert (version_show (version id) = v) as -> by (by rewrite Hid).
  rewrite !str_length_app, !str_all_app, (tag_char_name _ Hn), (tag_char_version v Hall).
  split; [|by destruct env]. destruct env; simpl; lia.
Qed.

End Registry.

(** ** A concrete registry *)

Definition example_type : AgentTypeDefinition (Body := unit) :=
  {| metadata := {| meta_id := example_id; environment := Linux |}; body := tt |}.

Lemma example_local :
  local_new (fun _ => Ok example_type) Linux ["file"] None = Some [(example_id, example_type)].
Proof. reflexivity. Qed.

Lemma example_lookup : registry_get [local_get [(example_id, example_type)];
  remote_get (fun _ => Ok example_type) Linux (fun _ => Err "offline")] example_id = Ok example_type.
Proof.
  unfold registry_get, local_get. cbn [layers_get registry_lookup]. by rewrite decide_True.
Qed.

Lemma registry_returns_requested_witness :
  definition_id example_type = example_id /\ environment (metadata example_type) = Linux.
Proof.
  exact (registry_returns_requested (fun _ => Ok example_type) Linux ["file"] None
    (fun _ => Err "offline") [(example_id, example_type)] example_id example_type
    example_local example_lookup).
Defined.

Lemma agent_type_tag_valid_witness : String.length (agent_type_tag example_id K8s) <= 92.
Proof. refine (proj1 (agent_type_tag_valid example_id K8s _)). by exists "0.1.0". Defined.
