(* ===== verification/RemoteConfigParser.v ===== *)
(** * From a remote configuration to the values of a sub-agent

    Models [sub_agent/remote_config_parser.rs]: the validators, the merge of the
    configuration entries and the override. *)

From Stdlib Require Import String.
From stdpp Require Import base option list strings gmap.
From S2P Require Import Prelude RustString Json AgentId RemoteConfig YamlConfig.

(** [values/config.rs] *)
Record RemoteConfig : Type := {
  config : YAMLConfig;
  hash : Hash;
  state : ConfigState;
}.

Inductive RemoteConfigParserError : Type :=
| Validation (e : string)
| RemoteConfigLoad (e : string)
| InvalidValues (e : string).

(** [Display for RemoteConfigParserError] *)
Definition show_parser_error (e : RemoteConfigParserError) : string :=
  match e with
  | Validation e => "remote configuration with validation errors: " +:+ e
  | RemoteConfigLoad e => "remote configuration cannot be loaded: " +:+ e
  | InvalidValues e => "remote configuration with invalid values: " +:+ e
  end.

Section Parser.
Context `{HO : HashOrder} `{Y : Yaml}.

(** One step of the fold over the configuration entries. *)
Definition append_content (acc : YAMLConfig) (kv : string * string) :
  result YAMLConfig RemoteConfigParserError :=
  let? cfg := map_err (fun err => InvalidValues ("decoding config: " +:+ err))
                (yaml_config_try_from kv.2) in
  map_err (fun err => InvalidValues ("appending config: " +:+ err)) (try_append acc cfg).

(** The decoded override, if there is one. *)
Definition override_values (c : OpampRemoteConfig) :
  result (option YAMLConfig) RemoteConfigParserError :=
  let? maybe_override_config :=
    map_err (fun err => InvalidValues ("getting override values: " +:+ show_remote_config_error err))
      (agent_config_override c) in
  match maybe_override_config with
  | Some override_content =>
      map_ok Some
        (map_err (fun err => InvalidValues ("decoding override values: " +:+ err))
          (yaml_config_try_from override_content))
  | None => Ok None
  end.

Definition extract_remote_config_values (c : OpampRemoteConfig) :
  result (option RemoteConfig) RemoteConfigParserError :=
  let? base := try_fold append_content ∅ (agent_configs_iter c) in
  let? maybe_override := override_values c in
  let merged :=
    match maybe_override with
    | Some override_config => merge_override base override_config
    | None => base
    end in
  if is_empty merged then Ok None
  else Ok (Some {| config := merged; hash := RemoteConfig.hash c; state := RemoteConfig.state c |}).

(** [AgentRemoteConfigParser::parse]; a validator gives its error as text. *)
Definition parse {Identity : Type}
    (remote_config_validators : list (Identity -> OpampRemoteConfig -> result unit string))
    (agent_identity : Identity) (c : OpampRemoteConfig) :
  result (option RemoteConfig) RemoteConfigParserError :=
  match error_message (RemoteConfig.state c) with
  | Some err_msg => Err (RemoteConfigLoad err_msg)
  | None =>
      let? _ := try_fold
        (fun _ validator => map_err Validation (validator agent_identity c))
        tt remote_config_validators in
      extract_remote_config_values c
  end.

(** ** Specification *)

(** The values of the entries with the plain prefix. *)
Definition decoded (c : OpampRemoteConfig) (k : string) (y : YAMLConfig) : Prop :=
  exists content, config_map c !! k = Some content /\
    starts_with AGENT_CONFIG_PREFIX k = true /\ yaml_config_try_from content = Ok y.

(** Every entry with the plain prefix is a readable mapping, and no key is in two
    of them. *)
Definition entries_compatible (c : OpampRemoteConfig) : Prop :=
  (forall k content, config_map c !! k = Some content ->
     starts_with AGENT_CONFIG_PREFIX k = true -> exists y, yaml_config_try_from content = Ok y) /\
  (forall k1 k2 y1 y2, k1 <> k2 -> decoded c k1 y1 -> decoded c k2 y2 -> y1 ##ₘ y2).

(** The override of the configuration, if there is one. *)
Definition override_of (c : OpampRemoteConfig) (o : option YAMLConfig) : Prop :=
  match o with
  | None => forall k, is_Some (config_map c !! k) ->
              starts_with AGENT_CONFIG_OVERRIDE_PREFIX k = false
  | Some y => exists k content, config_map c !! k = Some content /\
      starts_with AGENT_CONFIG_OVERRIDE_PREFIX k = true /\ yaml_config_try_from content = Ok y /\
      forall k', is_Some (config_map c !! k') ->
        starts_with AGENT_CONFIG_OVERRIDE_PREFIX k' = true -> k' = k
  end.

(** The union of the entries with the plain prefix. *)
Definition base_of (c : OpampRemoteConfig) (base : YAMLConfig) : Prop :=
  forall key v, base !! key = Some v <-> exists k y, decoded c k y /\ y !! key = Some v.

(** What the parser returns for the merged values. *)
Definition parsed (c : OpampRemoteConfig) (merged : YAMLConfig) : option RemoteConfig :=
  if is_empty merged then None
  else Some {| config := merged; hash := RemoteConfig.hash c; state := RemoteConfig.state c |}.

(** ** Facts *)

(** The decoded contents of an entry. *)
Definition content_values (kv : string * string) : option YAMLConfig :=
  ok (yaml_config_try_from kv.2).

Lemma content_values_Some kv y :
  content_values kv = Some y <-> yaml_config_try_from kv.2 = Ok y.
Proof. unfold content_values. destruct (yaml_config_try_from kv.2); naive_solver. Qed.

Lemma append_content_ok acc kv r :
  append_content acc kv = Ok r <->
  exists y, content_values kv = Some y /\ acc ##ₘ y /\ r = acc ∪ y.
Proof.
  unfold append_content, content_values.
  destruct (yaml_config_try_from kv.2) as [y|e]; simpl; [|naive_solver].
  pose proof (try_append_ok acc y) as Ht. destruct (try_append acc y) as [m|e]; simpl.
  - destruct (proj1 (Ht m) eq_refl). naive_solver.
  - split; [done|]. intros (y' & [= <-] & Hd & ->). by discriminate (proj2 (Ht _) (conj Hd eq_refl)).
Qed.

Lemma prefixed_nodup p c :
  NoDup (List.filter (fun kv => starts_with p kv.1) (configs_iter c)).*1.
Proof.
  unfold configs_iter. pose proof (NoDup_fst_entries (config_map c)) as Hnd.
  induction (entries (config_map c)) as [|kv l IH]; simpl; [done|].
  apply NoDup_cons in Hnd as [Hkv Hnd]. case_match; simpl; [|by apply IH].
  constructor; [|by apply IH]. intros (kv' & Heq & Hin)%list_elem_of_fmap.
  apply Hkv. rewrite Heq. apply list_elem_of_fmap_2.
  by apply list_elem_of_In, filter_In, proj1, list_elem_of_In in Hin.
Qed.

Lemma elem_of_prefixed p c k content :
  (k, content) ∈ List.filter (fun kv => starts_with p kv.1) (configs_iter c) <->
  config_map c !! k = Some content /\ starts_with p k = true.
Proof.
  unfold configs_iter. by rewrite list_elem_of_In, filter_In, <-list_elem_of_In, elem_of_entries.
Qed.

Lemma agent_configs_contents c :
  merge_ok content_values ∅ (agent_configs_iter c) <-> entries_compatible c.
Proof.
  unfold merge_ok, entries_compatible, decoded. setoid_rewrite content_values_Some. split.
  - intros [H1 H2]. split.
    + intros k content Hk Hp. destruct (H1 (k, content)) as (y & Hy & _); [|by eauto].
      by apply elem_of_prefixed.
    + intros k1 k2 y1 y2 Hne (c1 & ? & ? & ?) (c2 & ? & ? & ?).
      apply (H2 (k1, c1) (k2, c2)); try done; by apply elem_of_prefixed.
  - intros [H1 H2]. split.
    + intros [k content] [Hk Hp]%elem_of_prefixed. destruct (H1 k content Hk Hp) as [y Hy].
      exists y. split; [done|apply map_disjoint_empty_l].
    + intros [k1 c1] [k2 c2] y1 y2 [??]%elem_of_prefixed [??]%elem_of_prefixed Hne Hy1 Hy2.
      by apply (H2 k1 k2); [done|exists c1|exists c2].
Qed.

Lemma agent_configs_union c base :
  merge_union content_values ∅ (agent_configs_iter c) base <-> base_of c base.
Proof.
  unfold merge_union, base_of, decoded. setoid_rewrite content_values_Some.
  assert (forall key v,
    ((∅ : YAMLConfig) !! key = Some v \/ exists kv y, kv ∈ agent_configs_iter c /\
       yaml_config_try_from kv.2 = Ok y /\ y !! key = Some v) <->
    exists k y, (exists content, config_map c !! k = Some content /\
       starts_with AGENT_CONFIG_PREFIX k = true /\ yaml_config_try_from content = Ok y) /\
       y !! key = Some v) as Heq; [|by setoid_rewrite Heq].
  intros key v. rewrite lookup_empty. split.
  - intros [?|([k content] & y & [Hk Hp]%elem_of_prefixed & Hy & Hkey)]; [done|].
    exists k, y. split; [by exists content|done].
  - intros (k & y & (content & Hk & Hp & Hy) & Hkey). right.
    exists (k, content), y. split; [by apply elem_of_prefixed|done].
Qed.

Lemma agent_config_override_ok c o :
  agent_config_override c = Ok o <->
  match o with
  | None => forall k, is_Some (config_map c !! k) ->
              starts_with AGENT_CONFIG_OVERRIDE_PREFIX k = false
  | Some content => exists k, config_map c !! k = Some content /\
      starts_with AGENT_CONFIG_OVERRIDE_PREFIX k = true /\
      forall k', is_Some (config_map c !! k') ->
        starts_with AGENT_CONFIG_OVERRIDE_PREFIX k' = true -> k' = k
  end.
Proof.
  unfold agent_config_override, override_configs.
  pose proof (prefixed_nodup AGENT_CONFIG_OVERRIDE_PREFIX c) as Hnd.
  pose proof (elem_of_prefixed AGENT_CONFIG_OVERRIDE_PREFIX c) as Hin.
  destruct (List.filter _ _) as [|[k1 c1] [|[k2 c2] l]]; simpl.
  - assert (forall k, is_Some (config_map c !! k) ->
      starts_with AGENT_CONFIG_OVERRIDE_PREFIX k = false) as Hnone.
    { intros k [content Hk]. apply not_true_iff_false. intros Hp.
      by apply (not_elem_of_nil (k, content)), Hin. }
    destruct o as [content|]; [|done]. split; [done|]. intros (k & Hk & Hp & _).
    rewrite Hnone in Hp; [done|by eexists].
  - assert (config_map c !! k1 = Some c1 /\ starts_with AGENT_CONFIG_OVERRIDE_PREFIX k1 = true)
      as [Hk1 Hp1] by (apply Hin; by left).
    destruct o as [content|].
    + split.
      * intros [= <-]. exists k1. split_and!; [done..|]. intros k' [c' Hk'] Hp'.
        assert ((k', c') ∈ [(k1, c1)]) as [= ]%list_elem_of_singleton by by apply Hin. done.
      * intros (k & Hk & Hp & Hu). rewrite (Hu k1) in Hk1; [by simplify_eq|by eexists|done].
    + split; [done|]. intros Hn. rewrite Hn in Hp1; [done|by eexists].
  - split; [done|]. apply NoDup_cons in Hnd as [Hne _].
    assert (config_map c !! k1 = Some c1 /\ starts_with AGENT_CONFIG_OVERRIDE_PREFIX k1 = true)
      as [Hk1 Hp1] by (apply Hin; by left).
    assert (config_map c !! k2 = Some c2 /\ starts_with AGENT_CONFIG_OVERRIDE_PREFIX k2 = true)
      as [Hk2 Hp2] by (apply Hin; right; by left).
    destruct o as [content|].
    + intros (k & _ & _ & Hu). destruct Hne. simpl.
      rewrite (Hu k1), <-(Hu k2); [by left|by eexists|done|by eexists|done].
    + intros Hn. rewrite Hn in Hp1; [done|by eexists].
Qed.

Lemma override_values_ok c ov : override_values c = Ok ov <-> override_of c ov.
Proof.
  unfold override_values. pose proof (agent_config_override_ok c) as Hov.
  destruct (agent_config_override c) as [[content|]|e]; simpl.
  - destruct (proj1 (Hov _) eq_refl) as (k & Hk & Hp & Hu).
    assert (forall k' c', config_map c !! k' = Some c' ->
      starts_with AGENT_CONFIG_OVERRIDE_PREFIX k' = true -> c' = content) as Huniq.
    { intros k' c' Hk' Hp'. rewrite (Hu k') in Hk'; [congruence|by eexists|done]. }
    destruct ov as [y|]; simpl.
    + destruct (yaml_config_try_from content) as [y'|e] eqn:Hy; simpl; split; try done.
      * intros [= ->]. by exists k, content.
      * intros (k' & c' & Hk' & Hp' & Hy' & _). by rewrite (Huniq k' c'), Hy in Hy'; simplify_eq.
      * intros (k' & c' & Hk' & Hp' & Hy' & _). by rewrite (Huniq k' c'), Hy in Hy'.
    + split; [by destruct (yaml_config_try_from content)|].
      intros Hn. rewrite Hn in Hp; [done|by eexists].
  - pose proof (proj1 (Hov _) eq_refl) as Hnone. simpl in Hnone.
    destruct ov as [y|]; simpl; [|done]. split; [done|].
    intros (k & c' & Hk & Hp & _). rewrite Hnone in Hp; [done|by eexists].
  - split; [done|]. intros Ho. exfalso. destruct ov as [y|]; simpl in Ho.
    + destruct Ho as (k & c' & Hk & Hp & _ & Hu).
      by discriminate (proj2 (Hov (Some c')) (ex_intro _ k (conj Hk (conj Hp Hu)))).
    + by discriminate (proj2 (Hov None) Ho).
Qed.

Lemma base_of_unique c b1 b2 : base_of c b1 -> base_of c b2 -> b1 = b2.
Proof.
  intros H1 H2. apply map_eq. intros key. apply option_eq. intros v.
  by rewrite (H1 key v), (H2 key v).
Qed.

Lemma agent_configs_fold_ok c base :
  try_fold append_content ∅ (agent_configs_iter c) = Ok base <->
  entries_compatible c /\ base_of c base.
Proof.
  rewrite (merge_fold_ok content_values append_content append_content_ok) by apply prefixed_nodup.
  by rewrite agent_configs_contents, agent_configs_union.
Qed.

Lemma extract_ok c o :
  extract_remote_config_values c = Ok o <->
  entries_compatible c /\ exists base ov, base_of c base /\ override_of c ov /\
    o = parsed c (default ∅ ov ∪ base).
Proof.
  unfold extract_remote_config_values.
  pose proof (agent_configs_fold_ok c) as Hfold. pose proof (override_values_ok c) as Hov.
  destruct (try_fold append_content ∅ (agent_configs_iter c)) as [base|e]; simpl.
  2:{ split; [done|]. intros (Hc & base & ov & Hb & _).
      by discriminate (proj2 (Hfold base) (conj Hc Hb)). }
  destruct (proj1 (Hfold base) eq_refl) as [Hc Hb].
  destruct (override_values c) as [ov|e]; simpl.
  2:{ split; [done|]. intros (_ & base' & ov & _ & Ho & _).
      by discriminate (proj2 (Hov ov) Ho). }
  assert ((if is_empty (match ov with Some o => merge_override base o | None => base end)
    then Ok None else Ok (Some {| config := match ov with Some o => merge_override base o
                                           | None => base end;
                                  hash := RemoteConfig.hash c; state := RemoteConfig.state c |}))
    = Ok (E := RemoteConfigParserError) (parsed c (default ∅ ov ∪ base))) as ->.
  { unfold parsed. destruct ov as [y|]; simpl;
      rewrite ?merge_override_union, ?(left_id_L ∅ (∪)); by case_match. }
  split.
  - intros [= <-]. split; [done|]. exists base, ov. split_and!; [done| |done]. by apply Hov.
  - intros (_ & base' & ov' & Hb' & Ho & ->). apply Hov in Ho as [= <-].
    by rewrite (base_of_unique c base base').
Qed.

Lemma validators_ok {Identity} (vs : list (Identity -> OpampRemoteConfig -> result unit string)) id c :
  is_ok (try_fold (fun _ v => map_err Validation (v id c)) tt vs) = true <->
  Forall (fun v => v id c = Ok tt) vs.
Proof.
  induction vs as [|v vs IH]; simpl; [split; [constructor|done]|].
  rewrite Forall_cons. destruct (v id c) as [[]|e]; simpl; [rewrite IH|]; naive_solver.
Qed.

End Parser.

(** ** Properties *)

(** What a remote configuration means for a sub-agent.  Parsing succeeds exactly
    when the configuration did not arrive as failed, every validator accepts it, each
    entry with the [agentConfig] prefix is a readable mapping, no key is in two of
    them, and there is at most one readable override.  The result is the union of the
    entries with the values of the override on top, or [None] when that is empty; it
    keeps the hash and state.  It does not depend on the iteration order of the maps. *)
Theorem parse_spec `{HO : HashOrder} `{Y : Yaml} {Identity : Type}
    (vs : list (Identity -> OpampRemoteConfig -> result unit string))
    (id : Identity) (c : OpampRemoteConfig) (o : option RemoteConfig) :
  parse vs id c = Ok o <->
  is_failed (RemoteConfig.state c) = false /\
  Forall (fun v => v id c = Ok tt) vs /\
  entries_compatible c /\
  exists base ov, base_of c base /\ override_of c ov /\ o = parsed c (default ∅ ov ∪ base).
Proof.
  unfold parse. rewrite <-validators_ok, <-extract_ok.
  destruct (RemoteConfig.state c); simpl; [..|naive_solver].
  all: destruct (try_fold _ tt vs) as [[]|e]; simpl; naive_solver.
Qed.
