(* ===== verification/ConfigRepo.v ===== *)
(** * Configuration repository

    Models [values.rs], [values/config.rs], [values/config_repository.rs],
    [resource_ownership.rs] and the interface of [data_store.rs].  [DataStore] and
    [ConfigRepository] are the interfaces between the program's components: each is a
    class of operations with a class of laws, stated on what the store holds for each
    agent.  [ConfigRepo] implements the second on top of the first. *)

From Stdlib Require Import String.
From stdpp Require Import base option list strings gmap.
From S2P Require Import Prelude RustString Json AgentId AgentTypeId RemoteConfig YamlConfig.
From S2P Require Import RemoteConfigParser.

(** ** Data *)

Inductive ResourceOwnership `{SemVer} : Type :=
| OwnedByAgentControl
| OwnedBySubAgent (agent_type_id : AgentTypeID).

(** [values/config.rs] *)
Inductive Config : Type :=
| LocalConfig (c : YAMLConfig)
| RemoteConfigOf (c : RemoteConfig).

Definition get_yaml_config (c : Config) : YAMLConfig :=
  match c with LocalConfig c => c | RemoteConfigOf rc => config rc end.

Definition get_hash (c : Config) : option Hash :=
  match c with LocalConfig _ => None | RemoteConfigOf rc => Some (hash rc) end.

Definition get_state (c : Config) : option ConfigState :=
  match c with LocalConfig _ => None | RemoteConfigOf rc => Some (state rc) end.

Definition with_state (rc : RemoteConfig) (st : ConfigState) : RemoteConfig :=
  {| config := config rc; hash := hash rc; state := st |}.

(** [opamp_client::operation::capabilities::Capabilities], the flag that is read *)
Record Capabilities : Type := { accepts_remote_config : bool }.

(** [yaml_config.rs] *)
Definition has_remote_management (c : Capabilities) : bool := accepts_remote_config c.

(** [defaults.rs], the flag that is read *)
Definition default_capabilities : Capabilities := {| accepts_remote_config := true |}.

Inductive ConfigRepositoryError : Type :=
| LoadError (e : string)
| StoreError (e : string)
| DeleteError (e : string)
| UpdateHashStateError (e : string).

(** [Display for ConfigRepositoryError] *)
Definition show_repository_error (e : ConfigRepositoryError) : string :=
  match e with
  | LoadError e => "error loading values: " +:+ e
  | StoreError e => "error storing values: " +:+ e
  | DeleteError e => "error deleting values: " +:+ e
  | UpdateHashStateError e => "error updating hash, no remote config to update: " +:+ e
  end.

(** ** The data store interface ([data_store.rs])

    At the two types the repository reads and writes; the text of an error is its
    payload. *)
Class DataStore `{SemVer} (D : Type) : Type := {
  get_remote_data : AgentID -> M D (result (option RemoteConfig) string);
  get_local_data : AgentID -> M D (result (option YAMLConfig) string);
  set_remote_data : AgentID -> ResourceOwnership -> RemoteConfig -> M D (result unit string);
  delete_remote_data : AgentID -> M D (result unit string);
}.

(** What a data store promises.  [remote_data] and [local_data] are what it holds.
    Reading changes nothing and returns what is held; a successful write or deletion
    is seen by later reads; a failed one may leave the entry of its agent in any
    state, and no operation touches the entries of agents with another name, by which
    stores tell them apart.  [data_reliable] stores never fail on the identifiers the
    program can hold. *)
Class DataStoreLaws `{SemVer} (D : Type) `{!DataStore D} : Type := {
  remote_data : D -> AgentID -> option RemoteConfig;
  local_data : D -> AgentID -> option YAMLConfig;
  data_reliable : D -> Prop;

  get_remote_data_spec d id r d' :
    get_remote_data id d = (r, d') ->
    remote_data d' = remote_data d /\ local_data d' = local_data d /\
    (forall o, r = Ok o -> o = remote_data d id) /\
    (data_reliable d -> data_reliable d' /\ is_ok r = true);
  get_local_data_spec d id r d' :
    get_local_data id d = (r, d') ->
    remote_data d' = remote_data d /\ local_data d' = local_data d /\
    (forall o, r = Ok o -> o = local_data d id) /\
    (data_reliable d -> data_reliable d' /\ is_ok r = true);
  set_remote_data_spec d id o rc r d' :
    set_remote_data id o rc d = (r, d') ->
    (forall i, local_data d' i = local_data d i) /\
    (forall id', as_str id' <> as_str id -> remote_data d' id' = remote_data d id') /\
    (r = Ok tt -> remote_data d' id = Some rc) /\
    (wf_agent_id id -> data_reliable d -> data_reliable d' /\ r = Ok tt);
  delete_remote_data_spec d id r d' :
    delete_remote_data id d = (r, d') ->
    (forall i, local_data d' i = local_data d i) /\
    (forall id', as_str id' <> as_str id -> remote_data d' id' = remote_data d id') /\
    (r = Ok tt -> remote_data d' id = None) /\
    (data_reliable d -> data_reliable d' /\ r = Ok tt);
}.

(** ** The repository interface ([config_repository.rs]) *)

Class ConfigRepository `{SemVer} (R : Type) : Type := {
  load_local : AgentID -> M R (result (option Config) ConfigRepositoryError);
  load_remote : AgentID -> Capabilities -> M R (result (option Config) ConfigRepositoryError);
  store_remote : AgentID -> ResourceOwnership -> RemoteConfig ->
    M R (result unit ConfigRepositoryError);
  get_remote_config : AgentID -> M R (result (option RemoteConfig) ConfigRepositoryError);
  update_state : AgentID -> ResourceOwnership -> ConfigState ->
    M R (result unit ConfigRepositoryError);
  delete_remote : AgentID -> M R (result unit ConfigRepositoryError);
}.

(** The provided method of the trait. *)
Definition load_remote_fallback_local `{SemVer} {R} `{!ConfigRepository R}
    (agent_id : AgentID) (capabilities : Capabilities) :
  M R (result (option Config) ConfigRepositoryError) :=
  let*? remote := load_remote agent_id capabilities in
  match remote with
  | Some _ => ret (Ok remote)
  | None => load_local agent_id
  end.

(** What a repository promises to the agents.  [remote_of] and [local_of] are the
    configurations it holds, [remote_on] whether remote configurations are loaded. *)
Class ConfigRepositoryLaws `{SemVer} (R : Type) `{!ConfigRepository R} : Type := {
  remote_of : R -> AgentID -> option RemoteConfig;
  local_of : R -> AgentID -> option YAMLConfig;
  remote_on : R -> bool;
  reliable : R -> Prop;

  load_local_spec r id res r' :
    load_local id r = (res, r') ->
    remote_of r' = remote_of r /\ local_of r' = local_of r /\ remote_on r' = remote_on r /\
    (forall o, res = Ok o -> o = LocalConfig <$> local_of r id) /\
    (reliable r -> reliable r' /\ is_ok res = true);
  load_remote_spec r id caps res r' :
    load_remote id caps r = (res, r') ->
    remote_of r' = remote_of r /\ local_of r' = local_of r /\ remote_on r' = remote_on r /\
    (forall o, res = Ok o -> o =
       if remote_on r && has_remote_management caps then RemoteConfigOf <$> remote_of r id
       else None) /\
    (reliable r -> reliable r' /\ is_ok res = true);
  get_remote_config_spec r id res r' :
    get_remote_config id r = (res, r') ->
    remote_of r' = remote_of r /\ local_of r' = local_of r /\ remote_on r' = remote_on r /\
    (forall o, res = Ok o -> o = remote_of r id) /\
    (reliable r -> reliable r' /\ is_ok res = true);
  store_remote_spec r id o rc res r' :
    store_remote id o rc r = (res, r') ->
    (forall i, local_of r' i = local_of r i) /\ remote_on r' = remote_on r /\
    (forall id', as_str id' <> as_str id -> remote_of r' id' = remote_of r id') /\
    (res = Ok tt -> remote_of r' id = Some rc) /\
    (wf_agent_id id -> reliable r -> reliable r' /\ res = Ok tt);
  update_state_spec r id o st res r' :
    update_state id o st r = (res, r') ->
    (forall i, local_of r' i = local_of r i) /\ remote_on r' = remote_on r /\
    (forall id', as_str id' <> as_str id -> remote_of r' id' = remote_of r id') /\
    (res = Ok tt -> exists rc, remote_of r id = Some rc /\
       remote_of r' id = Some (with_state rc st)) /\
    (remote_of r id = None -> remote_of r' id = None) /\
    (wf_agent_id id -> reliable r -> reliable r' /\
       (res = Ok tt \/ (remote_of r id = None /\ is_ok res = false)));
  delete_remote_spec r id res r' :
    delete_remote id r = (res, r') ->
    (forall i, local_of r' i = local_of r i) /\ remote_on r' = remote_on r /\
    (forall id', as_str id' <> as_str id -> remote_of r' id' = remote_of r id') /\
    (res = Ok tt -> remote_of r' id = None) /\
    (reliable r -> reliable r' /\ res = Ok tt);
}.

Section RepositoryFacts.
Context `{SV : SemVer} {R : Type} `{CR : !ConfigRepository R} `{CL : !ConfigRepositoryLaws R}.

(** The configuration an agent starts with: the remote one if it can be used,
    otherwise the local one. *)
Definition effective_of (r : R) (id : AgentID) (caps : Capabilities) : option Config :=
  match (if remote_on r && has_remote_management caps then remote_of r id else None) with
  | Some rc => Some (RemoteConfigOf rc)
  | None => LocalConfig <$> local_of r id
  end.

Lemma load_fallback_spec r id caps res r' :
  load_remote_fallback_local id caps r = (res, r') ->
  remote_of r' = remote_of r /\ local_of r' = local_of r /\ remote_on r' = remote_on r /\
  (forall o, res = Ok o -> o = effective_of r id caps) /\
  (reliable r -> reliable r' /\ is_ok res = true).
Proof.
  unfold load_remote_fallback_local, bind_try. intros H.
  destruct (load_remote id caps r) as [res1 r1] eqn:Hlr.
  apply load_remote_spec in Hlr as (Hr1 & Hl1 & Hon1 & Ho1 & Hrel1). unfold effective_of.
  destruct res1 as [[c|]|e]; simpl in H.
  - unfold ret in H. simplify_eq. specialize (Ho1 _ eq_refl).
    split_and!; [done..| |by intros []%Hrel1]. intros o [= <-].
    destruct (remote_on r && has_remote_management caps); [|done].
    by destruct (remote_of r id); simplify_eq/=.
  - apply load_local_spec in H as (Hr2 & Hl2 & Hon2 & Ho2 & Hrel2).
    specialize (Ho1 _ eq_refl). split_and!; try congruence.
    + intros o ->. rewrite (Ho2 o eq_refl), Hl1.
      destruct (remote_on r && has_remote_management caps); [|done].
      by destruct (remote_of r id).
    + intros Hr. by apply Hrel2, Hrel1.
  - simplify_eq. split_and!; [done..|]. by intros []%Hrel1.
Qed.

Lemma repository_lifecycle (r r1 r2 r3 r4 r5 r6 : R) id o rc st res1 res2 res3 res4 res5 res6 :
  wf_agent_id id -> reliable r -> remote_on r = true ->
  store_remote id o rc r = (res1, r1) ->
  load_remote_fallback_local id default_capabilities r1 = (res2, r2) ->
  update_state id o st r2 = (res3, r3) ->
  load_remote_fallback_local id default_capabilities r3 = (res4, r4) ->
  delete_remote id r4 = (res5, r5) ->
  load_remote_fallback_local id default_capabilities r5 = (res6, r6) ->
  res1 = Ok tt /\ res2 = Ok (Some (RemoteConfigOf rc)) /\
  res3 = Ok tt /\ res4 = Ok (Some (RemoteConfigOf (with_state rc st))) /\
  res5 = Ok tt /\ res6 = Ok (LocalConfig <$> local_of r id) /\
  (forall id', as_str id' <> as_str id -> remote_of r6 id' = remote_of r id').
Proof.
  intros Hid Hr Hre Hstore Hload1 Hupd Hload2 Hdel Hload3.
  apply store_remote_spec in Hstore as (Hl1 & Hre1 & Hf1 & Hs1 & Hr1).
  destruct (Hr1 Hid Hr) as [Hr1' ->]. specialize (Hs1 eq_refl).
  apply load_fallback_spec in Hload1 as (Hf2 & Hl2 & Hre2 & Ho2 & Hr2).
  destruct (Hr2 Hr1') as [Hr2' Hok2].
  apply update_state_spec in Hupd as (Hl3 & Hre3 & Hf3 & Hs3 & _ & Hr3).
  assert (remote_of r2 id = Some rc) as Hrc2 by congruence.
  destruct (Hr3 Hid Hr2') as [Hr3' [->|[? _]]]; [|congruence].
  destruct (Hs3 eq_refl) as (rc' & Hrc' & Hs3'). assert (rc' = rc) as -> by congruence.
  apply load_fallback_spec in Hload2 as (Hf4 & Hl4 & Hre4 & Ho4 & Hr4).
  destruct (Hr4 Hr3') as [Hr4' Hok4].
  apply delete_remote_spec in Hdel as (Hl5 & Hre5 & Hf5 & Hs5 & Hr5).
  destruct (Hr5 Hr4') as [Hr5' ->]. specialize (Hs5 eq_refl).
  apply load_fallback_spec in Hload3 as (Hf6 & Hl6 & Hre6 & Ho6 & Hr6).
  destruct (Hr6 Hr5') as [Hr6' Hok6].
  destruct res2 as [o2|], res4 as [o4|], res6 as [o6|]; try done.
  rewrite (Ho2 _ eq_refl), (Ho4 _ eq_refl), (Ho6 _ eq_refl).
  unfold effective_of, default_capabilities, has_remote_management; simpl accepts_remote_config.
  rewrite Hs1, Hs3', Hs5, Hre5, Hre4, Hre3, Hre2, Hre1, Hre; cbn [andb].
  split_and!; try done.
  - by rewrite Hl5, Hl4, Hl3, Hl2, Hl1.
  - intros id' Hne. by rewrite Hf6, Hf5, Hf4, Hf3, Hf2, Hf1 by done.
Qed.

End RepositoryFacts.

(** ** [ConfigRepo] ([values.rs]) *)

Record ConfigRepo (D : Type) : Type := {
  opamp_data_store : D;
  remote_enabled : bool;
}.
Arguments opamp_data_store {D} _.
Arguments remote_enabled {D} _.

(** [ConfigRepo::new] *)
Definition new_config_repo {D} (d : D) : ConfigRepo D :=
  {| opamp_data_store := d; remote_enabled := false |}.

Definition with_remote {D} (r : ConfigRepo D) : ConfigRepo D :=
  {| opamp_data_store := opamp_data_store r; remote_enabled := true |}.

(** A call to the store the repository holds. *)
Definition on_store {D A} (m : M D A) : M (ConfigRepo D) A :=
  fun r => let '(a, d) := m (opamp_data_store r) in
           (a, {| opamp_data_store := d; remote_enabled := remote_enabled r |}).

Section Repo.
Context `{SV : SemVer} {D : Type} `{DS : !DataStore D}.

Definition repo_load_local (agent_id : AgentID) :
  M (ConfigRepo D) (result (option Config) ConfigRepositoryError) :=
  let*? opt_yaml := map_err_m (fun err => LoadError ("loading local config: " +:+ err))
    (on_store (get_local_data agent_id)) in
  ret (Ok (LocalConfig <$> opt_yaml)).

Definition repo_load_remote (agent_id : AgentID) (capabilities : Capabilities) :
  M (ConfigRepo D) (result (option Config) ConfigRepositoryError) :=
  fun r =>
    if negb (remote_enabled r) || negb (has_remote_management capabilities) then (Ok None, r)
    else
      (let*? opt_rc := map_err_m (fun err => LoadError ("loading remote config: " +:+ err))
         (on_store (get_remote_data agent_id)) in
       ret (Ok (RemoteConfigOf <$> opt_rc))) r.

Definition repo_store_remote (agent_id : AgentID) (ownership : ResourceOwnership)
    (remote_config : RemoteConfig) : M (ConfigRepo D) (result unit ConfigRepositoryError) :=
  map_err_m (fun e => StoreError ("storing remote config: " +:+ e))
    (on_store (set_remote_data agent_id ownership remote_config)).

Definition repo_get_remote_config (agent_id : AgentID) :
  M (ConfigRepo D) (result (option RemoteConfig) ConfigRepositoryError) :=
  map_err_m (fun e => LoadError ("getting remote config hash: " +:+ e))
    (on_store (get_remote_data agent_id)).

Definition repo_update_state (agent_id : AgentID) (ownership : ResourceOwnership)
    (st : ConfigState) : M (ConfigRepo D) (result unit ConfigRepositoryError) :=
  let*? maybe_config := map_err_m (fun e => LoadError ("updating remote config state: " +:+ e))
    (on_store (get_remote_data agent_id)) in
  match maybe_config with
  | Some remote_config =>
      map_err_m (fun err => StoreError ("updating remote config state: " +:+ err))
        (on_store (set_remote_data agent_id ownership (with_state remote_config st)))
  | None => ret (Err (UpdateHashStateError "No remote config found"))
  end.

Definition repo_delete_remote (agent_id : AgentID) :
  M (ConfigRepo D) (result unit ConfigRepositoryError) :=
  map_err_m (fun e => DeleteError ("deleting remote config: " +:+ e))
    (on_store (delete_remote_data agent_id)).

#[export] Instance config_repo : ConfigRepository (ConfigRepo D) := {|
  load_local := repo_load_local;
  load_remote := repo_load_remote;
  store_remote := repo_store_remote;
  get_remote_config := repo_get_remote_config;
  update_state := repo_update_state;
  delete_remote := repo_delete_remote;
|}.

(** ** [ConfigRepo] keeps the promises of the interface *)

Context `{DL : !DataStoreLaws D}.

(** Runs the store call of an operation and brings in its law. *)
Ltac store_call lem :=
  match goal with
  | H : context [on_store ?m ?r] |- _ =>
      unfold on_store in H; destruct (m (opamp_data_store r)) as [? ?] eqn:?Hcall;
      pose proof Hcall as ?Hspec; apply lem in Hspec
  end.

Lemma repo_load_local_spec (r : ConfigRepo D) id res r' :
  repo_load_local id r = (res, r') ->
  remote_data (opamp_data_store r') = remote_data (opamp_data_store r) /\
  local_data (opamp_data_store r') = local_data (opamp_data_store r) /\
  remote_enabled r' = remote_enabled r /\
  (forall o, res = Ok o -> o = LocalConfig <$> local_data (opamp_data_store r) id) /\
  (data_reliable (opamp_data_store r) -> data_reliable (opamp_data_store r') /\ is_ok res = true).
Proof.
  unfold repo_load_local. intros H. unfold_effects. store_call get_local_data_spec.
  destruct r0; simplify_eq/=; naive_solver.
Qed.

Lemma repo_load_remote_spec (r : ConfigRepo D) id caps res r' :
  repo_load_remote id caps r = (res, r') ->
  remote_data (opamp_data_store r') = remote_data (opamp_data_store r) /\
  local_data (opamp_data_store r') = local_data (opamp_data_store r) /\
  remote_enabled r' = remote_enabled r /\
  (forall o, res = Ok o -> o =
     if remote_enabled r && has_remote_management caps
     then RemoteConfigOf <$> remote_data (opamp_data_store r) id else None) /\
  (data_reliable (opamp_data_store r) -> data_reliable (opamp_data_store r') /\ is_ok res = true).
Proof.
  unfold repo_load_remote. intros H.
  destruct (remote_enabled r) eqn:Hre, (has_remote_management caps) eqn:Hcaps; simpl in H;
    try (simplify_eq; simpl; split_and!; naive_solver).
  unfold_effects. store_call get_remote_data_spec. destruct r0; simplify_eq/=; naive_solver.
Qed.

Lemma repo_get_remote_config_spec (r : ConfigRepo D) id res r' :
  repo_get_remote_config id r = (res, r') ->
  remote_data (opamp_data_store r') = remote_data (opamp_data_store r) /\
  local_data (opamp_data_store r') = local_data (opamp_data_store r) /\
  remote_enabled r' = remote_enabled r /\
  (forall o, res = Ok o -> o = remote_data (opamp_data_store r) id) /\
  (data_reliable (opamp_data_store r) -> data_reliable (opamp_data_store r') /\ is_ok res = true).
Proof.
  unfold repo_get_remote_config. intros H. unfold_effects. store_call get_remote_data_spec.
  destruct r0; simplify_eq/=; naive_solver.
Qed.

Lemma repo_store_remote_spec (r : ConfigRepo D) id o rc res r' :
  repo_store_remote id o rc r = (res, r') ->
  (forall i, local_data (opamp_data_store r') i = local_data (opamp_data_store r) i) /\
  remote_enabled r' = remote_enabled r /\
  (forall id', as_str id' <> as_str id ->
     remote_data (opamp_data_store r') id' = remote_data (opamp_data_store r) id') /\
  (res = Ok tt -> remote_data (opamp_data_store r') id = Some rc) /\
  (wf_agent_id id -> data_reliable (opamp_data_store r) -> data_reliable (opamp_data_store r') /\ res = Ok tt).
Proof.
  unfold repo_store_remote. intros H. unfold_effects. store_call set_remote_data_spec.
  destruct r0; simplify_eq/=; naive_solver.
Qed.

Lemma repo_update_state_spec (r : ConfigRepo D) id o st res r' :
  repo_update_state id o st r = (res, r') ->
  (forall i, local_data (opamp_data_store r') i = local_data (opamp_data_store r) i) /\
  remote_enabled r' = remote_enabled r /\
  (forall id', as_str id' <> as_str id ->
     remote_data (opamp_data_store r') id' = remote_data (opamp_data_store r) id') /\
  (res = Ok tt -> exists rc, remote_data (opamp_data_store r) id = Some rc /\
     remote_data (opamp_data_store r') id = Some (with_state rc st)) /\
  (remote_data (opamp_data_store r) id = None -> remote_data (opamp_data_store r') id = None) /\
  (wf_agent_id id -> data_reliable (opamp_data_store r) -> data_reliable (opamp_data_store r') /\
     (res = Ok tt \/ (remote_data (opamp_data_store r) id = None /\ is_ok res = false))).
Proof.
  unfold repo_update_state. intros H. unfold_effects. store_call get_remote_data_spec.
  destruct Hspec as (Hr & Hl & Ho & Hrel). destruct r0 as [[rc|]|e]; simplify_eq/=.
  - destruct (set_remote_data id o (with_state rc st) d) as [r1 d'] eqn:Hset.
    apply set_remote_data_spec in Hset as (Hl' & Hf & Hs & Hrel'). specialize (Ho _ eq_refl).
    rewrite Hr in Hf. rewrite Hl in Hl'. symmetry in Ho.
    destruct r1 as [[]|e]; simplify_eq/=; split_and!; try congruence; try done; eauto.
    + intros ? ?. by destruct Hrel' as [? _]; [done|apply Hrel|auto].
    + intros ? ?. by destruct Hrel' as [_ ?]; [done|apply Hrel|].
  - rewrite Hr, Hl. specialize (Ho _ eq_refl). naive_solver.
  - rewrite Hr, Hl. naive_solver.
Qed.

Lemma repo_delete_remote_spec (r : ConfigRepo D) id res r' :
  repo_delete_remote id r = (res, r') ->
  (forall i, local_data (opamp_data_store r') i = local_data (opamp_data_store r) i) /\
  remote_enabled r' = remote_enabled r /\
  (forall id', as_str id' <> as_str id ->
     remote_data (opamp_data_store r') id' = remote_data (opamp_data_store r) id') /\
  (res = Ok tt -> remote_data (opamp_data_store r') id = None) /\
  (data_reliable (opamp_data_store r) -> data_reliable (opamp_data_store r') /\ res = Ok tt).
Proof.
  unfold repo_delete_remote. intros H. unfold_effects. store_call delete_remote_data_spec.
  destruct r0; simplify_eq/=; naive_solver.
Qed.

#[export] Instance config_repo_laws : ConfigRepositoryLaws (ConfigRepo D) := {|
  remote_of := fun r => remote_data (opamp_data_store r);
  local_of := fun r => local_data (opamp_data_store r);
  remote_on := remote_enabled;
  reliable := fun r => data_reliable (opamp_data_store r);
  load_local_spec := repo_load_local_spec;
  load_remote_spec := repo_load_remote_spec;
  get_remote_config_spec := repo_get_remote_config_spec;
  store_remote_spec := repo_store_remote_spec;
  update_state_spec := repo_update_state_spec;
  delete_remote_spec := repo_delete_remote_spec;
|}.

End Repo.

(** ** A store in memory

    It fails when the next entry of [faults] says so. *)

Record MemStore : Type := {
  mem_remote : gmap AgentID RemoteConfig;
  mem_local : gmap AgentID YAMLConfig;
  faults : list (option string);
}.

(** Runs [f] on the store unless this call fails. *)
Definition mem_call {A} (f : MemStore -> A * MemStore) : M MemStore (result A string) :=
  fun d =>
    let d' := {| mem_remote := mem_remote d; mem_local := mem_local d; faults := tail (faults d) |} in
    match faults d with
    | Some e :: _ => (Err e, d')
    | _ => let '(a, d'') := f d' in (Ok a, d'')
    end.

Definition mem_set (f : gmap AgentID RemoteConfig -> gmap AgentID RemoteConfig) (d : MemStore) :
  unit * MemStore :=
  (tt, {| mem_remote := f (mem_remote d); mem_local := mem_local d; faults := faults d |}).

Section Mem.
Context `{SV : SemVer}.

#[export] Instance mem_store : DataStore MemStore := {|
  get_remote_data := fun id => mem_call (fun d => (mem_remote d !! id, d));
  get_local_data := fun id => mem_call (fun d => (mem_local d !! id, d));
  set_remote_data := fun id _ rc => mem_call (mem_set (insert id rc));
  delete_remote_data := fun id => mem_call (mem_set (delete id));
|}.

Definition mem_reliable (d : MemStore) : Prop := Forall (fun f => f = None) (faults d).

#[export] Program Instance mem_store_laws : DataStoreLaws MemStore := {|
  remote_data := fun d id => mem_remote d !! id;
  local_data := fun d id => mem_local d !! id;
  data_reliable := mem_reliable;
|}.
Next Obligation.
  intros d id r d' H. unfold get_remote_data, mem_store, mem_call, mem_reliable in *; simpl in *.
  destruct (faults d) as [|[e|] l]; simplify_eq/=; split_and!; try done; try naive_solver.
  all: intros Hf%Forall_cons; naive_solver.
Qed.
Next Obligation.
  intros d id r d' H. unfold get_local_data, mem_store, mem_call, mem_reliable in *; simpl in *.
  destruct (faults d) as [|[e|] l]; simplify_eq/=; split_and!; try done; try naive_solver.
  all: intros Hf%Forall_cons; naive_solver.
Qed.
Next Obligation.
  intros d id o rc r d' H. unfold set_remote_data, mem_store, mem_call, mem_reliable in *; simpl in *.
  destruct (faults d) as [|[e|] l]; simplify_eq/=; split_and!; try done;
    try (intros id' Hne; assert (id <> id') by congruence; by simplify_map_eq);
    try (intros; by simplify_map_eq).
  all: intros _ Hf%Forall_cons; naive_solver.
Qed.
Next Obligation.
  intros d id r d' H. unfold delete_remote_data, mem_store, mem_call, mem_reliable in *; simpl in *.
  destruct (faults d) as [|[e|] l]; simplify_eq/=; split_and!; try done;
    try (intros id' Hne; assert (id <> id') by congruence; by simplify_map_eq);
    try (intros; by simplify_map_eq).
  all: intros Hf%Forall_cons; naive_solver.
Qed.

End Mem.

(** ** Properties *)

(** The life of a remote configuration in the repository.  On a store that keeps
    its laws and does not fail, for a valid identifier and with remote configurations enabled: what is stored is
    what is loaded next; a state update replaces the state and keeps values and hash;
    after the deletion the local configuration is loaded again; and the entry of no agent
    with another name changes on the way. *)
Theorem config_repo_lifecycle `{SV : SemVer} {D : Type} `{DS : !DataStore D}
    `{DL : !DataStoreLaws D} (r r1 r2 r3 r4 r5 r6 : ConfigRepo D) (id : AgentID)
    (o : ResourceOwnership) (rc : RemoteConfig) (st : ConfigState) res1 res2 res3 res4 res5 res6 :
  wf_agent_id id -> reliable r -> remote_enabled r = true ->
  store_remote id o rc r = (res1, r1) ->
  load_remote_fallback_local id default_capabilities r1 = (res2, r2) ->
  update_state id o st r2 = (res3, r3) ->
  load_remote_fallback_local id default_capabilities r3 = (res4, r4) ->
  delete_remote id r4 = (res5, r5) ->
  load_remote_fallback_local id default_capabilities r5 = (res6, r6) ->
  res1 = Ok tt /\ res2 = Ok (Some (RemoteConfigOf rc)) /\
  res3 = Ok tt /\ res4 = Ok (Some (RemoteConfigOf (with_state rc st))) /\
  res5 = Ok tt /\ res6 = Ok (LocalConfig <$> local_of r id) /\
  (forall id', as_str id' <> as_str id -> remote_of r6 id' = remote_of r id').
Proof. intros; by eapply (repository_lifecycle r r1 r2 r3 r4 r5 r6). Qed.

Lemma config_repo_lifecycle_witness :
  let r := {| opamp_data_store := {| mem_remote := ∅; mem_local := ∅; faults := [] |};
              remote_enabled := true |} in
  let rc := {| config := {["k" := Null]}; hash := "h"; state := Applying |} in
  (load_remote_fallback_local (H := plain_semver) (SubAgent "a") default_capabilities
     (store_remote (SubAgent "a") OwnedByAgentControl rc r).2).1
  = Ok (Some (RemoteConfigOf rc)).
Proof.
  intros r rc.
  refine (proj1 (proj2 (config_repo_lifecycle r _ _ _ _ _ _ (SubAgent "a") OwnedByAgentControl rc
    Applied _ _ _ _ _ _ eq_refl _ eq_refl
    (surjective_pairing _) (surjective_pairing _) (surjective_pairing _) (surjective_pairing _)
    (surjective_pairing _) (surjective_pairing _)))).
  apply Forall_nil_2.
Defined.
