(* ===== verification/FileStore.v ===== *)
(** * The file store

    Models [on_host/file_store.rs] and the parts of the [fs] crate it uses: the data store
    of hosts, which keeps one file per agent and kind of data.  The store is proved to keep
    the laws of [DataStore], so that every theorem about the configuration repository holds
    on it.

    A path is the list of its components.  The disk fails when the next entry of
    [disk_faults] says so; a write that fails may leave anything in its file. *)

From Stdlib Require Import Ascii String.
From stdpp Require Import base option list strings gmap.
From S2P Require Import Prelude RustString AgentId AgentTypeId Json YamlConfig RemoteConfig.
From S2P Require Import RemoteConfigParser ConfigRepo.

(** ** The disk *)

Abbreviation Path := (list string).

Inductive IoError : Type :=
| NotFound (text : string)
| InvalidData (text : string)
| InvalidInput (text : string)
| OtherIo (text : string).

Definition io_text (e : IoError) : string :=
  match e with NotFound t | InvalidData t | InvalidInput t | OtherIo t => t end.

Record Fault : Type := { fault_error : string; fault_left : option string }.

Record Disk : Type := {
  files : gmap Path string;
  dirs : gset Path;
  disk_faults : list (option Fault);
}.

Definition set_files (d : Disk) (f : gmap Path string) : Disk :=
  {| files := f; dirs := dirs d; disk_faults := disk_faults d |}.

Definition next_fault : M Disk (option Fault) := fun d =>
  (mjoin (head (disk_faults d)),
   {| files := files d; dirs := dirs d; disk_faults := tail (disk_faults d) |}).

(** [Path::display] *)
Definition show_path (path : Path) : string :=
  fold_right (fun c acc => "/" +:+ c +:+ acc) "" path.

(** [fs::utils::validate_path]: no component goes to the parent directory; paths are valid
    Unicode here. *)
Definition validate_path (path : Path) : result unit IoError :=
  if existsb (String.eqb "..") path then Err (InvalidInput ("dots disallowed in path " +:+ show_path path))
  else Ok tt.

(** [FileReader::read]: a call may fail only once it is known that there is a file *)
Definition read (path : Path) : M Disk (result string IoError) := fun d =>
  match files d !! path with
  | None => (Err (NotFound ("file not found or not a file: " +:+ show_path path)), d)
  | Some t =>
      (let* f := next_fault in
       ret match f with Some f => Err (OtherIo (fault_error f)) | None => Ok t end) d
  end.

(** [FileWriter::write] *)
Definition write (path : Path) (content : string) : M Disk (result unit IoError) :=
  let*? _ := ret (validate_path path) in
  let* f := next_fault in
  fun d =>
    match f with
    | Some f =>
        (Err (OtherIo (fault_error f)),
         set_files d (match fault_left f with Some t => <[path := t]> (files d) | None => files d end))
    | None =>
        if decide (removelast path ∈ dirs d) then (Ok tt, set_files d (<[path := content]> (files d)))
        else (Err (NotFound "not found"), d)
    end.

(** [DirectoryManager::create], with the parents of the directory *)
Definition create (path : Path) : M Disk (result unit IoError) :=
  let*? _ := ret (validate_path path) in
  let* f := next_fault in
  match f with
  | Some f => ret (Err (OtherIo (fault_error f)))
  | None => fun d =>
      (Ok tt, {| files := files d;
                 dirs := list_to_set ((fun n => take n path) <$> seq 1 (length path)) ∪ dirs d;
                 disk_faults := disk_faults d |})
  end.

(** [std::fs::remove_file] *)
Definition remove_file (path : Path) : M Disk (result unit IoError) :=
  let* f := next_fault in
  match f with
  | Some f => ret (Err (OtherIo (fault_error f)))
  | None => fun d => (Ok tt, set_files d (delete path (files d)))
  end.

(** ** The store *)

Definition FOLDER_NAME_LOCAL_DATA : string := "local-data".
Definition FOLDER_NAME_FLEET_DATA : string := "fleet-data".
Definition STORE_KEY_LOCAL_DATA_CONFIG : string := "local_config".
Definition STORE_KEY_OPAMP_DATA_CONFIG : string := "remote_config".
Definition STORE_KEY_INSTANCE_ID : string := "instance_id".

Definition build_config_name (name : string) : string := name +:+ ".yaml".

(** [RemoteDir::get_file_path] and [LocalDir::get_file_path] *)
Definition remote_file_path (base : Path) (agent_id : AgentID) (key : string) : Path :=
  base ++ [FOLDER_NAME_FLEET_DATA; as_str agent_id; build_config_name key].

Definition local_file_path (base : Path) (agent_id : AgentID) (key : string) : Path :=
  base ++ [FOLDER_NAME_LOCAL_DATA; as_str agent_id; build_config_name key].

Record FileStore : Type := { disk : Disk; local_dir : Path; remote_dir : Path }.

Definition on_disk {A} (m : M Disk A) : M FileStore A := fun s =>
  let '(a, d) := m (disk s) in
  (a, {| disk := d; local_dir := local_dir s; remote_dir := remote_dir s |}).

Definition load_file_if_present (path : Path) : M Disk (result (option string) IoError) :=
  let* values_result := read path in
  ret match values_result with
      | Ok res => Ok (Some res)
      | Err (NotFound _) => Ok None
      | Err err => Err err
      end.

Definition ensure_directory_existence (path : Path) : M Disk (result unit IoError) := fun d =>
  match path with
  | [] => (Err (OtherIo ("cannot determine parent directory of path `" +:+ show_path path +:+ "`")), d)
  | _ =>
      if decide (removelast path ∈ dirs d) then (Ok tt, d)
      else map_err_m (fun e => OtherIo (io_text e)) (create (removelast path)) d
  end.

(** [FileStore::get] *)
Definition file_get {T} (parse : string -> result T string) (path : Path) :
  M Disk (result (option T) IoError) :=
  let*? maybe_values := load_file_if_present path in
  ret match maybe_values with
      | None => Ok None
      | Some s => map_ok Some (map_err InvalidData (parse s))
      end.

Definition file_set {T} (print : T -> result string string) (path : Path) (data : T) :
  M Disk (result unit IoError) :=
  let*? _ := map_err_m (fun err => OtherIo ("error ensuring directory existence for path '" +:+
      show_path path +:+ "': " +:+ io_text err))
    (ensure_directory_existence path) in
  match print data with
  | Err e => ret (Err (InvalidData e))
  | Ok content =>
      map_err_m (fun err => OtherIo ("error writing file " +:+ show_path path +:+ ": " +:+ io_text err))
        (write path content)
  end.

Definition file_delete (path : Path) : M Disk (result unit IoError) := fun d =>
  match files d !! path with
  | Some _ => remove_file path d
  | None => (Ok tt, d)
  end.

(** The YAML library at the types the repository stores. *)
Class FileSerde : Type := {
  print_remote : RemoteConfig -> result string string;
  parse_remote : string -> result RemoteConfig string;
  parse_local : string -> result YAMLConfig string;
}.

(** Stored configurations can be written, and are read back as they were. *)
Class FileSerdeLaws `{FileSerde} : Prop := {
  print_remote_ok : forall rc, is_ok (print_remote rc) = true;
  parse_print_remote : forall rc t, print_remote rc = Ok t -> parse_remote t = Ok rc;
}.

(** The text of the errors is what the callers see. *)
Definition io {A} (m : M Disk (result A IoError)) : M FileStore (result A string) :=
  map_err_m io_text (on_disk m).

Section Store.
Context `{SV : SemVer} `{FS : FileSerde}.

Definition fs_get_remote_data (agent_id : AgentID) : M FileStore (result (option RemoteConfig) string) :=
  fun s => io (file_get parse_remote
    (remote_file_path (remote_dir s) agent_id STORE_KEY_OPAMP_DATA_CONFIG)) s.

Definition fs_get_local_data (agent_id : AgentID) : M FileStore (result (option YAMLConfig) string) :=
  fun s => io (file_get parse_local
    (local_file_path (local_dir s) agent_id STORE_KEY_LOCAL_DATA_CONFIG)) s.

Definition fs_set_remote_data (agent_id : AgentID) (ownership : ResourceOwnership) (rc : RemoteConfig) :
  M FileStore (result unit string) :=
  fun s => io (file_set print_remote
    (remote_file_path (remote_dir s) agent_id STORE_KEY_OPAMP_DATA_CONFIG) rc) s.

Definition fs_delete_remote_data (agent_id : AgentID) : M FileStore (result unit string) :=
  fun s => io (file_delete
    (remote_file_path (remote_dir s) agent_id STORE_KEY_OPAMP_DATA_CONFIG)) s.

#[export] Instance file_store : DataStore FileStore := {|
  get_remote_data := fs_get_remote_data;
  get_local_data := fs_get_local_data;
  set_remote_data := fs_set_remote_data;
  delete_remote_data := fs_delete_remote_data;
|}.

End Store.

(** ** Lemmas on the disk operations

    [good] says that no operation fails from here on. *)

Definition good (d : Disk) : Prop := Forall (fun f => f = None) (disk_faults d).

Lemma next_fault_spec d f d' :
  next_fault d = (f, d') ->
  files d' = files d /\ dirs d' = dirs d /\ (good d -> good d' /\ f = None).
Proof.
  unfold next_fault, good. intros [= <- <-]. simpl. split_and!; [done..|].
  destruct (disk_faults d) as [|o l]; simpl; [done|]. intros [-> Hl]%Forall_cons. done.
Qed.

Lemma file_get_spec {T} (parse : string -> result T string) path d r d' :
  file_get parse path d = (r, d') ->
  files d' = files d /\
  (forall o, r = Ok o -> o = files d !! path ≫= (fun t => ok (parse t))) /\
  (good d -> good d' /\
    ((forall t, files d !! path = Some t -> is_ok (parse t) = true) -> is_ok r = true)).
Proof.
  unfold file_get, load_file_if_present, read. unfold_effects.
  destruct (files d !! path) as [t|] eqn:Ht;
    [|intros [= <- <-]; split_and!; [done|by intros o [= <-]|done]].
  destruct (next_fault d) as [f d1] eqn:Hf. apply next_fault_spec in Hf as (Hfs & _ & Hg).
  destruct f as [f|]; simpl.
  - intros [= <- <-]. split_and!; [done..|]. intros [_ ?]%Hg. done.
  - destruct (parse t) as [v|e] eqn:Hp; simpl; intros [= <- <-]; split_and!; try done.
    + by intros o [= <-].
    + intros [? _]%Hg. done.
    + intros [? _]%Hg. split; [done|]. intros HA. specialize (HA t eq_refl). by rewrite Hp in HA.
Qed.

Lemma create_spec path d r d' :
  create path d = (r, d') ->
  files d' = files d /\ (r = Ok tt -> path <> [] -> path ∈ dirs d') /\
  (validate_path path = Ok tt -> good d -> good d' /\ r = Ok tt).
Proof.
  unfold create. unfold_effects.
  destruct (validate_path path) as [[]|e]; [|by intros [= <- <-]].
  destruct (next_fault d) as [f d1] eqn:Hf. apply next_fault_spec in Hf as (Hfs & _ & Hg).
  destruct f as [f|]; intros [= <- <-]; simpl.
  - split_and!; [done..|]. intros _ [_ ?]%Hg. done.
  - split_and!; [done| |intros _ [? _]%Hg; done]. intros _ Hne.
    apply elem_of_union_l, elem_of_list_to_set, list_elem_of_fmap. exists (length path).
    split; [by rewrite firstn_all|]. apply elem_of_seq. destruct path; simpl in *; [done|lia].
Qed.

Lemma validate_parent path : validate_path path = Ok tt -> validate_path (removelast path) = Ok tt.
Proof.
  unfold validate_path. destruct (existsb (String.eqb "..") path) eqn:E; [done|]. intros _.
  destruct path as [|c p]; [done|].
  rewrite (app_removelast_last "" (l := c :: p)), existsb_app in E by done.
  by apply orb_false_elim in E as [-> _].
Qed.

Lemma ensure_directory_spec path d r d' :
  removelast path <> [] ->
  ensure_directory_existence path d = (r, d') ->
  files d' = files d /\ (r = Ok tt -> removelast path ∈ dirs d') /\
  (validate_path path = Ok tt -> good d -> good d' /\ r = Ok tt).
Proof.
  intros Hne. destruct path as [|c p]; [done|]. unfold ensure_directory_existence. unfold_effects.
  destruct (decide (removelast (c :: p) ∈ dirs d)); [by intros [= <- <-]|].
  destruct (create (removelast (c :: p)) d) as [r1 d1] eqn:Hc.
  apply create_spec in Hc as (Hf & Hd & Hg). destruct r1 as [[]|e]; intros [= <- <-].
  - split_and!; [done|intros _; by apply Hd|].
    intros Hv%validate_parent HG. by destruct (Hg Hv HG).
  - split_and!; [done..|]. intros Hv%validate_parent HG. by destruct (Hg Hv HG).
Qed.

Lemma write_spec path content d r d' :
  write path content d = (r, d') ->
  (forall q, q <> path -> files d' !! q = files d !! q) /\
  (r = Ok tt -> files d' !! path = Some content) /\
  (validate_path path = Ok tt -> good d -> removelast path ∈ dirs d -> good d' /\ r = Ok tt).
Proof.
  unfold write. unfold_effects. destruct (validate_path path) as [[]|e]; [|by intros [= <- <-]].
  destruct (next_fault d) as [f d1] eqn:Hf. apply next_fault_spec in Hf as (Hfs & Hds & Hg).
  destruct f as [f|].
  - intros [= <- <-]. simpl. split_and!; [|done|by intros _ [_ ?]%Hg].
    intros q Hq. destruct (fault_left f); rewrite ?lookup_insert_ne, Hfs; done.
  - rewrite Hds. destruct (decide (removelast path ∈ dirs d)); intros [= <- <-]; simpl.
    + split_and!; [intros q Hq; by rewrite lookup_insert_ne, Hfs|by rewrite lookup_insert_eq|].
      intros _ [? _]%Hg _. done.
    + split_and!; [by rewrite Hfs|done|by intros].
Qed.

Lemma file_set_spec {T} (print : T -> result string string) path data d r d' :
  removelast path <> [] ->
  file_set print path data d = (r, d') ->
  (forall q, q <> path -> files d' !! q = files d !! q) /\
  (r = Ok tt -> exists t, print data = Ok t /\ files d' !! path = Some t) /\
  (validate_path path = Ok tt -> good d -> is_ok (print data) = true -> good d' /\ r = Ok tt).
Proof.
  intros Hne. unfold file_set. unfold_effects.
  destruct (ensure_directory_existence path d) as [r1 d1] eqn:He.
  apply ensure_directory_spec in He as (Hf1 & Hd1 & Hg1); [|done].
  destruct r1 as [[]|e1].
  - destruct (print data) as [t|e] eqn:Hp.
    + destruct (write path t d1) as [r2 d2] eqn:Hw. apply write_spec in Hw as (Hq & Hok & Hg2).
      destruct r2 as [[]|e2]; intros [= <- <-].
      * split_and!; [by intros q ?; rewrite Hq, Hf1|intros _; eauto|].
        intros Hv HG _. destruct (Hg1 Hv HG) as [Hg' _]. destruct Hg2; [done..|by apply Hd1|done].
      * split_and!; [by intros q ?; rewrite Hq, Hf1|done|].
        intros Hv HG _. destruct (Hg1 Hv HG) as [Hg' _]. by destruct Hg2; [| |apply Hd1|].
    + intros [= <- <-]. split_and!; [by rewrite Hf1|done|done].
  - intros [= <- <-]. split_and!; [by rewrite Hf1|done|]. intros Hv HG. by destruct (Hg1 Hv HG).
Qed.

Lemma file_delete_spec path d r d' :
  file_delete path d = (r, d') ->
  (forall q, q <> path -> files d' !! q = files d !! q) /\
  (r = Ok tt -> files d' !! path = None) /\ (good d -> good d' /\ r = Ok tt) /\
  (r <> Ok tt -> files d' = files d).
Proof.
  unfold file_delete. destruct (files d !! path) as [t|] eqn:Ht; [|by intros [= <- <-]].
  unfold remove_file. unfold_effects.
  destruct (next_fault d) as [f d1] eqn:Hf. apply next_fault_spec in Hf as (Hfs & _ & Hg).
  destruct f as [f|]; intros [= <- <-]; simpl.
  - split_and!; [by rewrite Hfs|done|by intros [_ ?]%Hg|done].
  - split_and!; [intros q Hq; by rewrite lookup_delete_ne, Hfs|by rewrite lookup_delete_eq| |done].
    intros [? _]%Hg. done.
Qed.

(** ** Paths *)

Lemma remote_path_inj base id id' k k' :
  remote_file_path base id k = remote_file_path base id' k' ->
  as_str id = as_str id' /\ build_config_name k = build_config_name k'.
Proof. unfold remote_file_path. intros [= ? ?]%app_inv_head. done. Qed.

Lemma local_remote_disjoint base base' id id' k k' :
  local_file_path base id k <> remote_file_path base' id' k'.
Proof. unfold local_file_path, remote_file_path. by intros [_ [=]]%app_inj_2. Qed.

Lemma remote_path_parent base id k : removelast (remote_file_path base id k) <> [].
Proof. unfold remote_file_path. rewrite removelast_app by done. by destruct base. Qed.

Lemma config_name_not_parent key : build_config_name key <> "..".
Proof. destruct key as [|a [|b [|c s]]]; by intros [=]. Qed.

Lemma agent_name_not_parent id : wf_agent_id id -> as_str id <> "..".
Proof. destruct id as [|s]; [done|]. simpl. by intros H ->. Qed.

(** The paths of the store pass [validate_path] when the base directory does. *)
Lemma remote_path_valid base id {key} :
  wf_agent_id id -> validate_path base = Ok tt -> validate_path (remote_file_path base id key) = Ok tt.
Proof.
  intros Hid. unfold validate_path, remote_file_path. rewrite existsb_app.
  destruct (existsb (String.eqb "..") base); [done|]. intros _. cbn [existsb orb].
  rewrite !(proj2 (String.eqb_neq ".." _)); [done|..].
  - intros E. by apply (config_name_not_parent key).
  - intros E. by apply (agent_name_not_parent id).
  - done.
Qed.

(** ** The store keeps the laws of a data store *)

Section StoreLaws.
Context `{SV : SemVer} `{FS : FileSerde} `{FL : !FileSerdeLaws}.

Definition remote_path (s : FileStore) (id : AgentID) : Path :=
  remote_file_path (remote_dir s) id STORE_KEY_OPAMP_DATA_CONFIG.

Definition local_path (s : FileStore) (id : AgentID) : Path :=
  local_file_path (local_dir s) id STORE_KEY_LOCAL_DATA_CONFIG.

Definition fs_remote_data (s : FileStore) (id : AgentID) : option RemoteConfig :=
  files (disk s) !! remote_path s id ≫= (fun t => ok (parse_remote t)).

Definition fs_local_data (s : FileStore) (id : AgentID) : option YAMLConfig :=
  files (disk s) !! local_path s id ≫= (fun t => ok (parse_local t)).

(** The disk does not fail, the directory is a valid path and what is stored can be read. *)
Definition fs_reliable (s : FileStore) : Prop :=
  good (disk s) /\ validate_path (remote_dir s) = Ok tt /\
  (forall id t, files (disk s) !! remote_path s id = Some t -> is_ok (parse_remote t) = true) /\
  (forall id t, files (disk s) !! local_path s id = Some t -> is_ok (parse_local t) = true).

(** What an operation on the disk leaves of the store. *)
Lemma io_spec {A} (m : M Disk (result A IoError)) s r s' :
  io m s = (r, s') ->
  exists r0 d', m (disk s) = (r0, d') /\ r = map_err io_text r0 /\
    s' = {| disk := d'; local_dir := local_dir s; remote_dir := remote_dir s |}.
Proof.
  unfold io, on_disk. unfold_effects. destruct (m (disk s)) as [r0 d'] eqn:E.
  intros [= <- <-]. exists r0, d'. by destruct r0.
Qed.

Lemma fs_get_remote_data_spec s id r s' :
  fs_get_remote_data id s = (r, s') ->
  fs_remote_data s' = fs_remote_data s /\ fs_local_data s' = fs_local_data s /\
  (forall o, r = Ok o -> o = fs_remote_data s id) /\
  (fs_reliable s -> fs_reliable s' /\ is_ok r = true).
Proof using.
  intros (r0 & d' & (Hf & Ho & Hg)%file_get_spec & -> & ->)%io_spec.
  unfold fs_remote_data, fs_local_data, fs_reliable, remote_path, local_path; simpl. rewrite Hf.
  split_and!; [done..| |].
  - intros o. destruct r0; simpl; [|done]. intros [= ->]. by apply Ho.
  - intros (HG & HV & HR & HL). destruct (Hg HG) as [? Hok]. split_and!; [done..|].
    specialize (Hok (HR id)). by destruct r0.
Qed.

Lemma fs_get_local_data_spec s id r s' :
  fs_get_local_data id s = (r, s') ->
  fs_remote_data s' = fs_remote_data s /\ fs_local_data s' = fs_local_data s /\
  (forall o, r = Ok o -> o = fs_local_data s id) /\
  (fs_reliable s -> fs_reliable s' /\ is_ok r = true).
Proof using.
  intros (r0 & d' & (Hf & Ho & Hg)%file_get_spec & -> & ->)%io_spec.
  unfold fs_remote_data, fs_local_data, fs_reliable, remote_path, local_path; simpl. rewrite Hf.
  split_and!; [done..| |].
  - intros o. destruct r0; simpl; [|done]. intros [= ->]. by apply Ho.
  - intros (HG & HV & HR & HL). destruct (Hg HG) as [? Hok]. split_and!; [done..|].
    specialize (Hok (HL id)). by destruct r0.
Qed.

(** Changing only the file of one agent keeps local data and agents with other names. *)
Lemma remote_file_frame s s' id :
  local_dir s' = local_dir s -> remote_dir s' = remote_dir s ->
  (forall q, q <> remote_path s id -> files (disk s') !! q = files (disk s) !! q) ->
  (forall id', fs_local_data s' id' = fs_local_data s id') /\
  (forall id', as_str id' <> as_str id -> fs_remote_data s' id' = fs_remote_data s id') /\
  (fs_reliable s -> good (disk s') ->
   (forall t, files (disk s') !! remote_path s id = Some t -> is_ok (parse_remote t) = true) ->
   fs_reliable s').
Proof using.
  unfold fs_local_data, fs_remote_data, fs_reliable, remote_path, local_path.
  intros -> -> Hq. split_and!.
  - intros id'. by rewrite Hq by apply local_remote_disjoint.
  - intros id' Hne. rewrite Hq; [done|]. by intros [? _]%remote_path_inj.
  - intros (HG & HV & HR & HL) Hg Hp. split_and!; [done..| |].
    + intros id' t. destruct (decide (remote_file_path (remote_dir s) id' STORE_KEY_OPAMP_DATA_CONFIG =
        remote_file_path (remote_dir s) id STORE_KEY_OPAMP_DATA_CONFIG)) as [->|Hne]; [apply Hp|].
      rewrite Hq by done. apply HR.
    + intros id' t. rewrite Hq by apply local_remote_disjoint. apply HL.
Qed.

Lemma fs_set_remote_data_spec s id o rc r s' :
  fs_set_remote_data id o rc s = (r, s') ->
  (forall i, fs_local_data s' i = fs_local_data s i) /\
  (forall id', as_str id' <> as_str id -> fs_remote_data s' id' = fs_remote_data s id') /\
  (r = Ok tt -> fs_remote_data s' id = Some rc) /\
  (wf_agent_id id -> fs_reliable s -> fs_reliable s' /\ r = Ok tt).
Proof using FL.
  intros (r0 & d' & Hset & -> & ->)%io_spec.
  apply file_set_spec in Hset as (Hq & Hok & Hg); [|apply remote_path_parent].
  set (s' := {| disk := d'; local_dir := local_dir s; remote_dir := remote_dir s |}).
  destruct (remote_file_frame s s' id eq_refl eq_refl Hq) as (Hl & Hr & Hrel).
  split_and!; [done..| |].
  - destruct r0 as [[]|]; [|done]. intros _. destruct (Hok eq_refl) as (t & Hp & Hf).
    unfold fs_remote_data, remote_path, s'; cbn [disk remote_dir]. rewrite Hf. simpl.
    by rewrite (parse_print_remote _ _ Hp).
  - intros Hid HR. pose proof HR as (Hg0 & HV & _).
    destruct (Hg (remote_path_valid _ id Hid HV) Hg0 (print_remote_ok rc)) as [HG ->]. split; [|done].
    apply Hrel; [done..|]. intros t. destruct (Hok eq_refl) as (t' & Hp & Hf).
    unfold remote_path, s'; cbn [disk remote_dir]. rewrite Hf. intros [= <-]. by rewrite (parse_print_remote _ _ Hp).
Qed.

Lemma fs_delete_remote_data_spec s id r s' :
  fs_delete_remote_data id s = (r, s') ->
  (forall i, fs_local_data s' i = fs_local_data s i) /\
  (forall id', as_str id' <> as_str id -> fs_remote_data s' id' = fs_remote_data s id') /\
  (r = Ok tt -> fs_remote_data s' id = None) /\
  (fs_reliable s -> fs_reliable s' /\ r = Ok tt).
Proof using.
  intros (r0 & d' & (Hq & Hok & Hg & _)%file_delete_spec & -> & ->)%io_spec.
  set (s' := {| disk := d'; local_dir := local_dir s; remote_dir := remote_dir s |}).
  destruct (remote_file_frame s s' id eq_refl eq_refl Hq) as (Hl & Hr & Hrel).
  split_and!; [done..| |].
  - destruct r0 as [[]|]; [|done]. intros _. unfold fs_remote_data, remote_path, s'; cbn [disk remote_dir].
    by rewrite (Hok eq_refl).
  - intros HR. destruct (Hg (proj1 HR)) as [HG ->]. split; [|done].
    apply Hrel; [done..|]. intros t. unfold remote_path, s'; cbn [disk remote_dir]. by rewrite (Hok eq_refl).
Qed.

#[export] Instance file_store_laws : DataStoreLaws FileStore := {|
  remote_data := fs_remote_data;
  local_data := fs_local_data;
  data_reliable := fs_reliable;
  get_remote_data_spec := fs_get_remote_data_spec;
  get_local_data_spec := fs_get_local_data_spec;
  set_remote_data_spec := fs_set_remote_data_spec;
  delete_remote_data_spec := fs_delete_remote_data_spec;
|}.

End StoreLaws.

(** ** Properties *)

Section FileStoreProperties.
Context `{SV : SemVer} `{FS : FileSerde} `{FL : !FileSerdeLaws}.


End FileStoreProperties.

(** ** A concrete format *)

Fixpoint bits (p : positive) : string :=
  match p with
  | xH => ""
  | xO p => String "0" (bits p)
  | xI p => String "1" (bits p)
  end.

Fixpoint unbits (s : string) : positive :=
  match s with
  | EmptyString => xH
  | String c s => if Ascii.eqb c "0" then xO (unbits s) else xI (unbits s)
  end.

Lemma unbits_bits p : unbits (bits p) = p.
Proof. induction p as [p IH|p IH|]; simpl; by rewrite ?IH. Qed.

Definition remote_to_tuple (rc : RemoteConfig) : gmap string value * string * option (option string) :=
  (config rc, hash rc,
   match state rc with Applying => None | Applied => Some None | Failed m => Some (Some m) end).

Definition tuple_to_remote (t : gmap string value * string * option (option string)) : RemoteConfig :=
  let '(c, h, st) := t in
  {| config := c; hash := h;
     state := match st with None => Applying | Some None => Applied | Some (Some m) => Failed m end |}.

#[export] Instance bits_serde : FileSerde | 100 := {|
  print_remote := fun rc => Ok (bits (encode (remote_to_tuple rc)));
  parse_remote := fun t => ok_or (tuple_to_remote <$> decode (unbits t)) "invalid data";
  parse_local := fun t => ok_or (decode (unbits t)) "invalid data";
|}.

#[export] Instance bits_serde_laws : FileSerdeLaws | 100.
Proof.
  split; [done|]. intros [c h st] t [= <-]. simpl. rewrite unbits_bits, decode_encode. simpl.
  by destruct st.
Qed.

(** The write succeeds, the deletion fails. *)
Definition example_file_repo : ConfigRepo FileStore := {|
  opamp_data_store :=
    {| disk := {| files := ∅; dirs := ∅;
                  disk_faults := [None; None; Some {| fault_error := "busy"; fault_left := None |}] |};
       local_dir := ["etc"]; remote_dir := ["var"] |};
  remote_enabled := true;
|}.

Definition example_stored_config : RemoteConfig := {| config := ∅; hash := "h"; state := Applying |}.

Definition example_stored_repo :=
  store_remote (H := plain_semver) (AgentId.SubAgent "a") OwnedByAgentControl example_stored_config
    example_file_repo.

