(* ===== verification/HostFs.v ===== *)
(** * The file system of a host

    What the code that manages files and directories of sub-agents and packages sees of the
    file system, through the standard library and the [fs] crate ([directory_manager.rs],
    [file/writer.rs], [file/reader.rs]).  A path is the list of its components below the root.
    There are no symbolic links.  A call fails when the next entry of [host_faults] says so; it
    may then have done a part of its work. *)

From Stdlib Require Import Ascii String.
From stdpp Require Import base option list strings gmap.
From S2P Require Import Prelude RustString FileStore.

Inductive Node : Type := FileNode (content : string) | DirNode.

#[export] Instance node_eq_dec : EqDecision Node.
Proof. solve_decision. Defined.

(** A failed call: its error and the nodes it leaves changed. *)
Record HostFault : Type := { host_error : string; host_left : list (Path * option Node) }.

Record Host : Type := {
  nodes : gmap Path Node;
  host_faults : list (option HostFault);
}.

Definition node_at (h : Host) (p : Path) : option Node :=
  match p with [] => Some DirNode | _ => nodes h !! p end.

Definition exists_path (h : Host) (p : Path) : bool := bool_decide (is_Some (node_at h p)).
Definition is_dir (h : Host) (p : Path) : bool := bool_decide (node_at h p = Some DirNode).

Definition set_nodes (h : Host) (n : gmap Path Node) : Host :=
  {| nodes := n; host_faults := host_faults h |}.

Definition next_host_fault : M Host (option HostFault) := fun h =>
  (mjoin (head (host_faults h)), {| nodes := nodes h; host_faults := tail (host_faults h) |}).

#[export] Instance prefix_dec (p q : Path) : Decision (p `prefix_of` q) := _.

(** ** Creating directories ([DirBuilder::create], recursive) *)

Definition prefixes (p : Path) : list Path := (fun n => take n p) <$> seq 1 (length p).

Definition make_dir (m : gmap Path Node) (p : Path) : gmap Path Node :=
  match m !! p with Some _ => m | None => <[p := DirNode]> m end.

(** [n] is how many of the directories were made when the call failed. *)
Definition make_dirs (ps : list Path) (m : gmap Path Node) : gmap Path Node :=
  fold_left make_dir ps m.

Definition is_file_node (o : option Node) : bool :=
  match o with Some (FileNode _) => true | _ => false end.

Definition dir_builder_create (p : Path) : M Host (result unit IoError) :=
  let* f := next_host_fault in
  fun h =>
    match f with
    | Some f =>
        (Err (OtherIo (host_error f)), set_nodes h (make_dirs (take (length (host_left f)) (prefixes p)) (nodes h)))
    | None =>
        if existsb (fun q => is_file_node (nodes h !! q)) (prefixes p)
        then (Err (OtherIo "not a directory"), h)
        else (Ok tt, set_nodes h (make_dirs (prefixes p) (nodes h)))
    end.

(** [DirectoryManager::create] *)
Definition dm_create (p : Path) : M Host (result unit IoError) :=
  let*? _ := ret (validate_path p) in dir_builder_create p.

(** ** Removing *)

Definition below (p q : Path) : Prop := p `prefix_of` q.

(** Removes the nodes of [p] and below it; a failed call removes those of [host_left]. *)
Definition remove_dir_all (p : Path) : M Host (result unit IoError) :=
  let* f := next_host_fault in
  fun h =>
    match f with
    | Some f =>
        (Err (OtherIo (host_error f)),
         set_nodes h (filter (fun kv => ~ (p `prefix_of` kv.1 /\ kv.1 ∈ (host_left f).*1)) (nodes h)))
    | None =>
        if is_dir h p then (Ok tt, set_nodes h (filter (fun kv => ~ p `prefix_of` kv.1) (nodes h)))
        else (Err (OtherIo "not a directory"), h)
    end.

Definition host_remove_file (p : Path) : M Host (result unit IoError) :=
  let* f := next_host_fault in
  fun h =>
    match f with
    | Some f => (Err (OtherIo (host_error f)), h)
    | None =>
        if is_file_node (node_at h p) then (Ok tt, set_nodes h (delete p (nodes h)))
        else (Err (OtherIo "not a file"), h)
    end.

(** [DirectoryManager::delete] *)
Definition dm_delete (p : Path) : M Host (result unit IoError) :=
  let*? _ := ret (validate_path p) in
  fun h => if exists_path h p then remove_dir_all p h else (Ok tt, h).

(** ** Files *)

Definition parent (p : Path) : Path := removelast p.

(** [OpenOptions::open] and [write_all]; [host_left] is what a failed call leaves in the file *)
Definition raw_write (p : Path) (content : string) : M Host (result unit IoError) :=
  let* f := next_host_fault in
  fun h =>
    match f with
    | Some f =>
        (Err (OtherIo (host_error f)),
         match head (host_left f) with
         | Some (_, Some (FileNode t)) =>
             if is_dir h (parent p) && negb (is_dir h p) then set_nodes h (<[p := FileNode t]> (nodes h)) else h
         | _ => h
         end)
    | None =>
        if is_dir h (parent p) && negb (is_dir h p) then (Ok tt, set_nodes h (<[p := FileNode content]> (nodes h)))
        else (Err (NotFound "not found"), h)
    end.

(** [FileWriter::write] *)
Definition fw_write (p : Path) (content : string) : M Host (result unit IoError) :=
  let*? _ := ret (validate_path p) in raw_write p content.

(** [std::fs::read] *)
Definition raw_read (p : Path) : M Host (result string IoError) :=
  let* f := next_host_fault in
  fun h =>
    (match f, node_at h p with
     | Some f, _ => Err (OtherIo (host_error f))
     | None, Some (FileNode t) => Ok t
     | None, Some DirNode => Err (OtherIo "is a directory")
     | None, None => Err (NotFound "not found")
     end, h).

(** [FileReader::dir_entries]: the children of a directory, in some order *)
Definition children (h : Host) (p : Path) : list Path :=
  (filter (fun kv => kv.1 <> [] /\ parent kv.1 = p) (map_to_list (nodes h))).*1.

Definition dir_entries (p : Path) : M Host (result (list Path) IoError) := fun h =>
  if negb (is_dir h p)
  then (Err (NotFound ("directory not found or not a directory: " +:+ show_path p)), h)
  else (let* f := next_host_fault in
        fun h => (match f with Some f => Err (OtherIo (host_error f)) | None => Ok (children h p) end, h)) h.

(** ** Joining paths ([PathBuf::join], [Path::components])

    A string that begins with a separator replaces the path; empty and [.] components are
    dropped. *)
Definition components (s : string) : list string :=
  filter (fun c => c <> "" /\ c <> ".") (split "/" s).

Definition is_absolute (s : string) : bool := starts_with "/" s.

Definition join_path (base : Path) (s : string) : Path :=
  if is_absolute s then components s else base ++ components s.

(** ** Lemmas

    [no_host_fault] says that no call fails from here on. *)

Definition no_host_fault (h : Host) : Prop := Forall (fun f => f = None) (host_faults h).

Lemma next_host_fault_spec h f h' :
  next_host_fault h = (f, h') ->
  nodes h' = nodes h /\ (no_host_fault h -> no_host_fault h' /\ f = None).
Proof.
  unfold next_host_fault, no_host_fault. intros [= <- <-]. simpl. split; [done|].
  destruct (host_faults h) as [|o l]; simpl; [done|]. intros [-> Hl]%Forall_cons. done.
Qed.

(** What changes: nodes at [p] or below it, and directories made on the way to it. *)
Definition changes_below (p : Path) (h h' : Host) : Prop :=
  forall q, ~ p `prefix_of` q ->
    nodes h' !! q = nodes h !! q \/
    (q `prefix_of` p /\ nodes h !! q = None /\ nodes h' !! q = Some DirNode).

Lemma changes_refl p h : changes_below p h h.
Proof. by left. Qed.

Lemma changes_trans p h1 h2 h3 : changes_below p h1 h2 -> changes_below p h2 h3 -> changes_below p h1 h3.
Proof.
  intros H12 H23 q Hq. destruct (H12 q Hq) as [E1|(Hp & E1 & E2)], (H23 q Hq) as [F1|(Hp' & F1 & F2)].
  - left. by rewrite F1.
  - right. by rewrite <-E1.
  - right. by rewrite F1.
  - by rewrite E2 in F1.
Qed.

(** What happens below a path happens below the paths above it. *)
Lemma changes_above p q h h' : p `prefix_of` q -> changes_below q h h' -> changes_below p h h'.
Proof.
  intros Hpq Hc r Hr. destruct (Hc r) as [?|(Hrq & ? & ?)].
  - intros Hqr. apply Hr. by transitivity q.
  - by left.
  - right. split_and!; [|done|done]. destruct (prefix_weak_total r p q Hrq Hpq); [done|]. by destruct Hr.
Qed.

Lemma make_dirs_lookup ps m q :
  make_dirs ps m !! q = match m !! q with Some n => Some n | None => if decide (q ∈ ps) then Some DirNode else None end.
Proof.
  unfold make_dirs. revert m. induction ps as [|p ps IH]; intros m; simpl.
  - by destruct (m !! q).
  - rewrite IH. unfold make_dir. destruct (m !! p) as [n|] eqn:Hp.
    + destruct (m !! q) eqn:Hq; [done|]. assert (p <> q) by congruence.
      destruct (decide (q ∈ ps)); [by rewrite decide_True by by right|].
      rewrite decide_False; [done|]. by intros [?|?]%elem_of_cons.
    + destruct (decide (p = q)) as [->|Hne].
      * rewrite lookup_insert_eq, Hp. by rewrite decide_True by by left.
      * rewrite lookup_insert_ne by done. destruct (m !! q); [done|].
        destruct (decide (q ∈ ps)); [by rewrite decide_True by by right|].
        rewrite decide_False; [done|]. by intros [?|?]%elem_of_cons.
Qed.

Lemma elem_of_prefixes p q : q ∈ prefixes p <-> q <> [] /\ q `prefix_of` p.
Proof.
  unfold prefixes. rewrite list_elem_of_fmap. split.
  - intros (n & -> & Hn%elem_of_seq). split; [|apply prefix_take].
    destruct p as [|c p]; simpl in *; [lia|]. by destruct n; [lia|].
  - intros [Hne [l ->]]. exists (length q). split; [by rewrite take_app_length|].
    apply elem_of_seq. rewrite length_app. destruct q; simpl; [done|lia].
Qed.

(** Directories made on the way to [p] are all that changes. *)
Definition adds_dirs (p : Path) (h h' : Host) : Prop :=
  forall q, nodes h' !! q = nodes h !! q \/ (q `prefix_of` p /\ nodes h !! q = None /\ nodes h' !! q = Some DirNode).

Lemma make_dirs_adds p ps h h1 :
  nodes h1 = nodes h -> (forall q, q ∈ ps -> q ∈ prefixes p) -> adds_dirs p h (set_nodes h1 (make_dirs ps (nodes h1))).
Proof.
  intros Hn Hps q. simpl. rewrite make_dirs_lookup, Hn. destruct (nodes h !! q) eqn:E; [by left|].
  destruct (decide (q ∈ ps)) as [Hq|]; [right|by left]. by apply Hps, elem_of_prefixes in Hq as [_ ?].
Qed.

Lemma dir_builder_create_spec p h r h' :
  dir_builder_create p h = (r, h') ->
  adds_dirs p h h' /\
  (r = Ok tt -> forall q, q `prefix_of` p -> is_dir h' q = true) /\
  (no_host_fault h -> no_host_fault h' /\
    ((forall q, q `prefix_of` p -> is_file_node (node_at h q) = false) -> r = Ok tt)).
Proof.
  unfold dir_builder_create. unfold_effects.
  destruct (next_host_fault h) as [f h1] eqn:Hf. apply next_host_fault_spec in Hf as (Hn & Hg). destruct f as [f|].
  - intros [= <- <-]. split_and!; [|done|by intros [_ ?]%Hg]. apply make_dirs_adds; [done|].
    intros q [i Hi]%list_elem_of_lookup. apply lookup_take_Some in Hi as [Hi _]. by eapply list_elem_of_lookup_2.
  - rewrite Hn. destruct (existsb _ (prefixes p)) eqn:E; intros [= <- <-].
    + split_and!; [intros q; left; by rewrite Hn|done|]. intros [? _]%Hg. split; [done|]. intros Hfile. exfalso.
      apply existsb_exists in E as (q & [Hne Hq]%list_elem_of_In%elem_of_prefixes & Hq'). specialize (Hfile q Hq).
      unfold node_at in Hfile. destruct q; congruence.
    + rewrite <-Hn. split_and!; [by apply make_dirs_adds| |intros [? _]%Hg; done]. rewrite Hn.
      intros _ q Hq. unfold is_dir, node_at. apply bool_decide_eq_true. destruct q as [|c q]; [done|].
      cbn [nodes set_nodes]. rewrite make_dirs_lookup.
      assert ((c :: q) ∈ prefixes p) as Hin by by apply elem_of_prefixes.
      destruct (nodes h !! (c :: q)) as [[t|]|] eqn:Hp; [|done|by rewrite decide_True].
      apply not_true_iff_false in E. destruct E. apply existsb_exists. exists (c :: q). rewrite Hp.
      split; [|done]. by apply list_elem_of_In.
Qed.

Lemma adds_dirs_changes p h h' : adds_dirs p h h' -> changes_below p h h'.
Proof. intros H q _. apply H. Qed.

Lemma adds_dirs_keeps p h h' q n : adds_dirs p h h' -> nodes h !! q = Some n -> nodes h' !! q = Some n.
Proof. intros H Hq. destruct (H q) as [->|(_ & ? & _)]; [done|congruence]. Qed.

Lemma dm_create_spec p h r h' :
  dm_create p h = (r, h') ->
  adds_dirs p h h' /\
  (r = Ok tt -> forall q, q `prefix_of` p -> is_dir h' q = true) /\
  (no_host_fault h -> no_host_fault h' /\
    (validate_path p = Ok tt -> (forall q, q `prefix_of` p -> is_file_node (node_at h q) = false) -> r = Ok tt)).
Proof.
  unfold dm_create. unfold_effects.
  destruct (validate_path p) as [[]|e]; [|intros [= <- <-]; split_and!; [by left|done..]].
  intros (H1 & H2 & H3)%dir_builder_create_spec. split_and!; [done..|]. intros HG. split; [by apply H3|]. intros _. by apply H3.
Qed.

Lemma remove_dir_all_spec p h r h' :
  remove_dir_all p h = (r, h') ->
  (forall q, nodes h' !! q = nodes h !! q \/ (p `prefix_of` q /\ nodes h' !! q = None)) /\
  (r = Ok tt -> forall q, p `prefix_of` q -> nodes h' !! q = None) /\
  (no_host_fault h -> no_host_fault h' /\ (is_dir h p = true -> r = Ok tt)).
Proof.
  unfold remove_dir_all. unfold_effects.
  destruct (next_host_fault h) as [f h1] eqn:Hf. apply next_host_fault_spec in Hf as (Hn & Hg). destruct f as [f|].
  - intros [= <- <-]. simpl. split_and!; [|done|by intros [_ ?]%Hg]. intros q. rewrite Hn.
    destruct (decide (p `prefix_of` q /\ q ∈ (host_left f).*1)) as [[Hp Hin]|Hno].
    + right. split; [done|]. apply map_lookup_filter_None_2. right. intros n _ Hnot. by apply Hnot.
    + left. destruct (nodes h !! q) as [n|] eqn:E; [|apply map_lookup_filter_None_2; by left].
      apply map_lookup_filter_Some_2; done.
  - assert (is_dir h1 p = is_dir h p) as -> by (unfold is_dir, node_at; by rewrite Hn).
    destruct (is_dir h p); intros [= <- <-]; simpl; rewrite ?Hn.
    + split_and!; [| |intros [? _]%Hg; done].
      * intros q. destruct (decide (p `prefix_of` q)) as [Hp|Hp].
        -- right. split; [done|]. apply map_lookup_filter_None_2. right. intros n _ Hnot. by apply Hnot.
        -- left. destruct (nodes h !! q) as [n|] eqn:E; [|apply map_lookup_filter_None_2; by left].
           apply map_lookup_filter_Some_2; done.
      * intros _ q Hp. apply map_lookup_filter_None_2. right. intros n _ Hnot. by apply Hnot.
    + split_and!; [by left|done|]. intros [? _]%Hg. done.
Qed.

Lemma host_remove_file_spec p h r h' :
  host_remove_file p h = (r, h') ->
  (forall q, q <> p -> nodes h' !! q = nodes h !! q) /\
  (r = Ok tt -> nodes h' !! p = None) /\ (r <> Ok tt -> nodes h' = nodes h) /\
  (no_host_fault h -> no_host_fault h' /\ (is_file_node (node_at h p) = true -> r = Ok tt)).
Proof.
  unfold host_remove_file. unfold_effects.
  destruct (next_host_fault h) as [f h1] eqn:Hf. apply next_host_fault_spec in Hf as (Hn & Hg). destruct f as [f|].
  - intros [= <- <-]. split_and!; [by rewrite Hn|done|done|]. by intros [_ ?]%Hg.
  - assert (node_at h1 p = node_at h p) as -> by (unfold node_at; by rewrite Hn).
    destruct (is_file_node (node_at h p)); intros [= <- <-]; simpl.
    + split_and!; [intros q Hq; by rewrite lookup_delete_ne, Hn|by rewrite lookup_delete_eq|done|].
      intros [? _]%Hg. done.
    + split_and!; [by rewrite Hn|done|done|]. intros [? _]%Hg. done.
Qed.

Lemma dm_delete_spec p h r h' :
  dm_delete p h = (r, h') ->
  (forall q, nodes h' !! q = nodes h !! q \/ (p `prefix_of` q /\ nodes h' !! q = None)) /\
  (r = Ok tt -> exists_path h p = true -> forall q, p `prefix_of` q -> nodes h' !! q = None) /\
  (no_host_fault h -> no_host_fault h' /\
    (validate_path p = Ok tt -> is_file_node (node_at h p) = false -> r = Ok tt)).
Proof.
  unfold dm_delete. unfold_effects.
  destruct (validate_path p) as [[]|e]; [|intros [= <- <-]; split_and!; [by left|done..]].
  destruct (exists_path h p) eqn:He.
  - intros (H1 & H2 & H3)%remove_dir_all_spec. split_and!; [done|intros Hr _; by apply H2|]. intros HG.
    destruct (H3 HG) as [? Hr]. split; [done|]. intros _ Hfile. apply Hr. unfold is_dir.
    apply bool_decide_eq_true. unfold exists_path in He. apply bool_decide_eq_true in He as [n Hnode].
    rewrite Hnode in *. by destruct n.
  - intros [= <- <-]. split_and!; [by left|done|done].
Qed.

Lemma raw_write_spec p content h r h' :
  raw_write p content h = (r, h') ->
  (forall q, q <> p -> nodes h' !! q = nodes h !! q) /\
  (nodes h' !! p = nodes h !! p \/ exists t, nodes h' !! p = Some (FileNode t)) /\
  (r = Ok tt -> nodes h' !! p = Some (FileNode content)) /\
  (no_host_fault h -> no_host_fault h' /\ (is_dir h (parent p) = true -> is_dir h p = false -> r = Ok tt)).
Proof.
  unfold raw_write. unfold_effects.
  destruct (next_host_fault h) as [f h1] eqn:Hf. apply next_host_fault_spec in Hf as (Hn & Hg).
  assert (forall q, is_dir h1 q = is_dir h q) as Hd by (intros q; unfold is_dir, node_at; by rewrite Hn).
  rewrite !Hd. destruct f as [f|].
  - intros [= <- <-]. split; [|split; [|split; [done|by intros [_ ?]%Hg]]].
    + intros q Hq. destruct (head (host_left f)) as [[? [[t|]|]]|]; try (by rewrite Hn).
      destruct (is_dir h (parent p) && negb (is_dir h p)); [simpl; by rewrite lookup_insert_ne, Hn|by rewrite Hn].
    + destruct (head (host_left f)) as [[? [[t|]|]]|]; try (left; by rewrite Hn).
      destruct (is_dir h (parent p) && negb (is_dir h p)); [right; exists t; apply lookup_insert_eq|left; by rewrite Hn].
  - destruct (is_dir h (parent p)), (is_dir h p); simpl; intros [= <- <-]; simpl.
    1,3,4: split_and!; [by rewrite Hn|left; by rewrite Hn|done|intros [? _]%Hg; done].
    split_and!; [intros q Hq; by rewrite lookup_insert_ne, Hn|right; exists content; apply lookup_insert_eq|by rewrite lookup_insert_eq|].
    intros [? _]%Hg. done.
Qed.

(** A file is written below a path. *)
Lemma fw_write_spec p content h r h' :
  fw_write p content h = (r, h') ->
  (forall q, q <> p -> nodes h' !! q = nodes h !! q) /\
  (nodes h' !! p = nodes h !! p \/ exists t, nodes h' !! p = Some (FileNode t)) /\
  (r = Ok tt -> nodes h' !! p = Some (FileNode content)) /\
  (no_host_fault h -> no_host_fault h' /\
    (validate_path p = Ok tt -> is_dir h (parent p) = true -> is_dir h p = false -> r = Ok tt)).
Proof.
  unfold fw_write. unfold_effects.
  destruct (validate_path p) as [[]|e]; [|intros [= <- <-]; split_and!; [done|by left|done..]].
  intros (H1 & H2 & H3 & H4)%raw_write_spec. split_and!; [done..|]. intros HG. destruct (H4 HG). auto.
Qed.

Lemma dir_entries_spec p h r h' :
  dir_entries p h = (r, h') ->
  nodes h' = nodes h /\
  (forall l, r = Ok l -> l = children h p) /\
  (no_host_fault h -> no_host_fault h' /\ (is_dir h p = true -> r = Ok (children h p))).
Proof.
  unfold dir_entries. destruct (is_dir h p) eqn:E; simpl; [|by intros [= <- <-]].
  unfold_effects. destruct (next_host_fault h) as [f h1] eqn:Hf. apply next_host_fault_spec in Hf as (Hn & Hg).
  assert (children h1 p = children h p) as Hc by (unfold children; by rewrite Hn).
  destruct f; intros [= <- <-]; simpl; rewrite ?Hc; split_and!; try done; try (by intros l [= <-]);
    intros [? ?]%Hg; done.
Qed.

Lemma elem_of_children h p q : q ∈ children h p <-> is_Some (nodes h !! q) /\ q <> [] /\ parent q = p.
Proof.
  unfold children. rewrite list_elem_of_fmap. split.
  - intros ([q' n] & -> & [[? ?] Hin%elem_of_map_to_list]%list_elem_of_filter). simpl in *. split; [by exists n|done].
  - intros ([n Hn] & Hne & Hp). exists (q, n). split; [done|]. apply list_elem_of_filter.
    split; [done|by apply elem_of_map_to_list].
Qed.

(** *** Paths and what changes along them *)

(** A name that is one component of a path. *)
Definition normal_name (s : string) : Prop :=
  s <> "" /\ s <> "." /\ s <> ".." /\ str_all (fun c => negb (Ascii.eqb c "/")) s = true.

Lemma no_slash_relative s : str_all (fun c => negb (Ascii.eqb c "/")) s = true -> is_absolute s = false.
Proof.
  destruct s as [|c s]; [done|]. cbn [str_all]. intros [Hc%negb_true_iff _]%andb_true_iff.
  unfold is_absolute, starts_with. apply not_true_iff_false. intros [b Hb]%starts_with_spec.
  change ("/" +:+ b) with (String "/" b) in Hb. injection Hb as -> _. by rewrite Ascii.eqb_refl in Hc.
Qed.

Lemma join_normal base s : normal_name s -> join_path base s = base ++ [s].
Proof.
  intros (H1 & H2 & _ & Hs). unfold join_path, components. rewrite no_slash_relative, split_no_sep by done.
  cbn. by rewrite decide_True by done.
Qed.

Lemma is_dir_exists h p : is_dir h p = true -> exists_path h p = true.
Proof. unfold is_dir, exists_path. rewrite !bool_decide_eq_true. eauto. Qed.

Lemma is_dir_nodes h p : p <> [] -> is_dir h p = true <-> nodes h !! p = Some DirNode.
Proof. intros Hp. unfold is_dir, node_at. rewrite bool_decide_eq_true. by destruct p. Qed.

(** Nodes of [P] may be removed; nothing else changes. *)
Definition only_removes (P : Path -> Prop) (h h' : Host) : Prop :=
  forall q, nodes h' !! q = nodes h !! q \/ (P q /\ nodes h' !! q = None).

Lemma only_removes_refl P h : only_removes P h h.
Proof. by left. Qed.

Lemma only_removes_trans P h1 h2 h3 : only_removes P h1 h2 -> only_removes P h2 h3 -> only_removes P h1 h3.
Proof. intros H1 H2 q. destruct (H2 q) as [->|?]; [apply H1|by right]. Qed.

Lemma only_removes_weaken (P Q : Path -> Prop) h h' :
  (forall q, P q -> Q q) -> only_removes P h h' -> only_removes Q h h'.
Proof. intros HPQ H q. destruct (H q) as [?|[? ?]]; [by left|right; auto]. Qed.

Lemma only_removes_none P h h' q : only_removes P h h' -> nodes h !! q = None -> nodes h' !! q = None.
Proof. intros H Hq. destruct (H q) as [->|[_ ?]]; done. Qed.

Lemma only_removes_file P h h' q :
  only_removes P h h' -> is_file_node (node_at h q) = false -> is_file_node (node_at h' q) = false.
Proof. intros H. unfold node_at. destruct q as [|c q]; [done|]. destruct (H (c :: q)) as [->|[_ ->]]; done. Qed.

Definition disjoint_paths (p q : Path) : Prop := ~ p `prefix_of` q /\ ~ q `prefix_of` p.

Lemma disjoint_below P p q : disjoint_paths P p -> P `prefix_of` q -> ~ p `prefix_of` q.
Proof. intros [H1 H2] HP Hp. destruct (prefix_weak_total P p q HP Hp); [by apply H1|by apply H2]. Qed.

Lemma only_removes_changes p h h' : only_removes (fun q => p `prefix_of` q) h h' -> changes_below p h h'.
Proof. intros H q Hq. left. destruct (H q) as [?|[? _]]; done. Qed.

(** No file is in the way of a directory. *)
Definition clear_way (h : Host) (p : Path) : Prop := forall q, q `prefix_of` p -> is_file_node (node_at h q) = false.

Definition dirs_to (h : Host) (p : Path) : Prop := forall q, q `prefix_of` p -> is_dir h q = true.

Lemma clear_way_changes d p h h' : disjoint_paths d p -> changes_below d h h' -> clear_way h p -> clear_way h' p.
Proof.
  intros [Hd _] Hc Hw q Hq. specialize (Hw q Hq). unfold node_at in *. destruct q as [|c q]; [done|].
  destruct (Hc (c :: q)) as [->|(_ & _ & ->)]; [|done..]. intros Hdq. apply Hd. by transitivity (c :: q).
Qed.

Lemma dirs_to_changes d p h h' : ~ d `prefix_of` p -> changes_below d h h' -> dirs_to h p -> dirs_to h' p.
Proof.
  intros Hd Hc Hw q Hq. specialize (Hw q Hq). unfold is_dir, node_at in *. rewrite bool_decide_eq_true in *.
  destruct q as [|c q]; [done|]. destruct (Hc (c :: q)) as [->|(_ & ? & ->)]; [|done..]. intros Hdq. apply Hd. by transitivity (c :: q).
Qed.

Lemma dirs_clear h p : dirs_to h p -> clear_way h p.
Proof. intros Hd q Hq. specialize (Hd q Hq). unfold is_dir in Hd. apply bool_decide_eq_true in Hd. by rewrite Hd. Qed.

Lemma create_ok d h :
  no_host_fault h -> validate_path d = Ok tt -> clear_way h d ->
  exists h', dm_create d h = (Ok tt, h') /\ no_host_fault h' /\ dirs_to h' d /\ changes_below d h h'.
Proof.
  intros HG Hv Hw. destruct (dm_create d h) as [r h'] eqn:E. apply dm_create_spec in E as (Hc & Hd & Hok).
  destruct (Hok HG) as [HG' Hr]. specialize (Hr Hv Hw) as ->. exists h'. split_and!; [done..|intros q Hq; by apply Hd|].
  by apply adds_dirs_changes.
Qed.

Lemma validate_app a b : validate_path (a ++ b) = Ok tt <-> validate_path a = Ok tt /\ validate_path b = Ok tt.
Proof.
  unfold validate_path. rewrite existsb_app. destruct (existsb _ a), (existsb _ b); simpl; naive_solver.
Qed.

Lemma validate_names l : Forall (fun s => s <> "..") l -> validate_path l = Ok tt.
Proof.
  intros H. unfold validate_path. replace (existsb _ l) with false; [done|]. symmetry. apply not_true_iff_false.
  intros (s & Hs%list_elem_of_In & <-%String.eqb_eq)%existsb_exists. rewrite Forall_forall in H. by apply (H _ Hs).
Qed.
