(* ===== verification/PackageManager.v ===== *)
(** * Packages

    Models [package/oci/package_manager.rs], [package/manager.rs] and the wait loop of
    [package/post_download_hook_executor.rs]: packages are downloaded, extracted into a directory
    of their agent, and the old ones are removed.  Downloads, archives and hooks are the outside;
    what they may do to the file system is stated in [PackageToolsLaws].  The directories are
    those of a Unix host. *)

From Stdlib Require Import Ascii String.
From stdpp Require Import base option list strings gmap.
From S2P Require Import Prelude RustString AgentId OciTypes FileStore HostFs.

#[local] Arguments String.append !s1 s2 : simpl nomatch.

(** ** Data ([manager.rs]) *)

Record PostDownloadHook : Type := {
  hook_path : string;
  hook_args : list string;
  hook_env : gmap string string;
}.

Record PackageData : Type := {
  package_id : string;
  package_oci : Oci;
  post_download_hook : option PostDownloadHook;
}.

Record InstalledPackageData : Type := { installed_id : string; installation_path : Path }.

#[export] Instance installed_eq_dec : EqDecision InstalledPackageData.
Proof. solve_decision. Defined.

(** Errors of the outside are their text. *)
Inductive OCIPackageManagerError : Type :=
| Download (e : string)
| Install (e : IoError)
| Uninstall (e : IoError)
| Extraction (e : string)
| NotNormalSuffix (s : string)
| RetainPackageErrors (errors : list (string * OCIPackageManagerError))
| PostDownloadHookError (e : string).

Definition PACKAGES_FOLDER_NAME : string := "packages".
Definition TEMP_PCK_LOCATION : string := "__temp_packages".
Definition INSTALLED_PCK_LOCATION : string := "stored_packages".

(** ** Paths *)

(** [is_alphanumeric] is that of ASCII: repositories and tags are checked to be ASCII. *)
Fixpoint sanitize (s : string) : string :=
  match s with
  | EmptyString => EmptyString
  | String c s =>
      (if Ascii.eqb c "/" then "__" else if negb (is_ascii_alphanumeric c) then "_" else String c "")
        +:+ sanitize s
  end.

Definition compute_path_suffix (p : PackageData) : result string OCIPackageManagerError :=
  let package_full_reference := repository (package_oci p) +:+ ":" +:+ version (package_oci p) in
  let safe_name := "oci_" +:+ sanitize package_full_reference in
  if is_absolute safe_name then Err (NotNormalSuffix "RootDir")
  else if bool_decide (head (split "/" safe_name) = Some ".") then Err (NotNormalSuffix "CurDir")
  else if existsb (String.eqb "..") (components safe_name) then Err (NotNormalSuffix "ParentDir")
  else Ok safe_name.

Definition get_generic_package_location_path (base_path : Path) (agent_id : AgentID) (location : string) : Path :=
  join_path (join_path (join_path base_path PACKAGES_FOLDER_NAME) (as_str agent_id)) location.

Definition get_generic_package_path (base_path : Path) (agent_id : AgentID) (location : string)
    (p : PackageData) : result Path OCIPackageManagerError :=
  let? suffix := compute_path_suffix p in
  Ok (join_path (join_path (get_generic_package_location_path base_path agent_id location) (package_id p)) suffix).

Definition get_package_path (base_path : Path) (agent_id : AgentID) (p : PackageData) :
  result Path OCIPackageManagerError :=
  get_generic_package_path base_path agent_id INSTALLED_PCK_LOCATION p.

Definition get_temp_package_path (base_path : Path) (agent_id : AgentID) (p : PackageData) :
  result Path OCIPackageManagerError :=
  get_generic_package_path base_path agent_id TEMP_PCK_LOCATION p.

(** ** The package manager

    The downloaded archive is named by the text the downloader returns. *)

Class PackageTools : Type := {
  download : PackageData -> Path -> M Host (result string string);
  extract_archive : string -> Path -> M Host (result unit string);
  execute_hook : PostDownloadHook -> Path -> M Host (result unit string);
}.

Record PackageWorld : Type := {
  pm_host : Host;
  latest_installed_packages : gmap AgentID InstalledPackageData;
  hooks_run : list (PostDownloadHook * Path);
}.

Definition on_host {A} (m : M Host A) : M PackageWorld A := fun w =>
  let '(a, h) := m (pm_host w) in
  (a, {| pm_host := h; latest_installed_packages := latest_installed_packages w; hooks_run := hooks_run w |}).

Definition log_hook (hook : PostDownloadHook) (p : Path) : M PackageWorld unit := fun w =>
  (tt, {| pm_host := pm_host w; latest_installed_packages := latest_installed_packages w;
          hooks_run := (hook, p) :: hooks_run w |}).

(** [HashMap::insert] returns the previous value. *)
Definition insert_latest (agent_id : AgentID) (p : InstalledPackageData) :
  M PackageWorld (option InstalledPackageData) := fun w =>
  (latest_installed_packages w !! agent_id,
   {| pm_host := pm_host w;
      latest_installed_packages := <[agent_id := p]> (latest_installed_packages w);
      hooks_run := hooks_run w |}).

Section Manager.
Context `{PT : PackageTools}.
Variable remote_dir : Path.

Definition extract_package (archive : string) (extract_dir : Path) :
  M PackageWorld (result unit OCIPackageManagerError) :=
  let*? _ := map_err_m Install (on_host (dm_create extract_dir)) in
  let* r := on_host (extract_archive archive extract_dir) in
  match r with
  | Ok _ => ret (Ok tt)
  | Err e =>
      let* _ := on_host (dm_delete extract_dir) in
      ret (Err (Extraction e))
  end.

Definition install_archive (package_data : PackageData) (tmp_download_path install_path : Path) :
  M PackageWorld (result InstalledPackageData OCIPackageManagerError) :=
  let*? _ := map_err_m Install (on_host (dm_create tmp_download_path)) in
  let*? downloaded_package := map_err_m Download (on_host (download package_data tmp_download_path)) in
  let*? _ := extract_package downloaded_package install_path in
  let*? _ :=
    match post_download_hook package_data with
    | Some hook =>
        let* _ := log_hook hook install_path in
        map_err_m PostDownloadHookError (on_host (execute_hook hook install_path))
    | None => ret (Ok tt)
    end in
  ret (Ok {| installed_id := package_id package_data; installation_path := install_path |}).

Definition uninstall (agent_id : AgentID) (package : InstalledPackageData) :
  M PackageWorld (result unit OCIPackageManagerError) :=
  map_err_m Uninstall (on_host (dm_delete (installation_path package))).

(** The inner loop of [installed_packages]: what [is_dir] says of the entries *)
Definition package_dirs (id : string) (dirs : list Path) : M PackageWorld (list InstalledPackageData) := fun w =>
  ((fun d => {| installed_id := id; installation_path := d |}) <$> filter (fun d => is_dir (pm_host w) d = true) dirs,
   w).

Fixpoint packages_of (id_dirs : list Path) : M PackageWorld (result (list InstalledPackageData) OCIPackageManagerError) :=
  match id_dirs with
  | [] => ret (Ok [])
  | id_path :: id_dirs => fun w =>
      if is_dir (pm_host w) id_path then
        match last id_path with
        | None => packages_of id_dirs w
        | Some id =>
            (let*? dirs := map_err_m Install (on_host (dir_entries id_path)) in
             let* here := package_dirs id dirs in
             let*? rest := packages_of id_dirs in
             ret (Ok (here ++ rest))) w
        end
      else packages_of id_dirs w
  end.

Definition installed_packages (agent_id : AgentID) :
  M PackageWorld (result (list InstalledPackageData) OCIPackageManagerError) :=
  let*? id_dirs := map_err_m Install (on_host (dir_entries
    (get_generic_package_location_path remote_dir agent_id INSTALLED_PCK_LOCATION))) in
  packages_of id_dirs.

(** The loop that removes what is not retained, with the errors it gathered. *)
Fixpoint remove_others (agent_id : AgentID) (pkg_to_retain l : list InstalledPackageData) :
  M PackageWorld (list (string * OCIPackageManagerError)) :=
  match l with
  | [] => ret []
  | p :: l =>
      if bool_decide (p ∈ pkg_to_retain) then remove_others agent_id pkg_to_retain l
      else
        let* r := uninstall agent_id p in
        let* errors := remove_others agent_id pkg_to_retain l in
        ret (match r with Ok _ => errors | Err e => (installed_id p, e) :: errors end)
  end.

Definition retain_packages (agent_id : AgentID) (installed_package : InstalledPackageData) :
  M PackageWorld (result unit OCIPackageManagerError) :=
  let* previous := insert_latest agent_id installed_package in
  let pkg_to_retain := installed_package :: option_list previous in
  let*? l := installed_packages agent_id in
  let* errors := remove_others agent_id pkg_to_retain l in
  ret (match errors with [] => Ok tt | _ => Err (RetainPackageErrors errors) end).

Definition install (agent_id : AgentID) (package_data : PackageData) :
  M PackageWorld (result InstalledPackageData OCIPackageManagerError) :=
  let*? package_path := ret (get_package_path remote_dir agent_id package_data) in
  fun w =>
    if exists_path (pm_host w) package_path then
      let installed_package := {| installed_id := package_id package_data; installation_path := package_path |} in
      (let*? _ := retain_packages agent_id installed_package in ret (Ok installed_package)) w
    else
      (let*? temp_package_path := ret (get_temp_package_path remote_dir agent_id package_data) in
       let* r := install_archive package_data temp_package_path package_path in
       match r with
       | Err e =>
           let* _ := on_host (dm_delete temp_package_path) in
           ret (Err e)
       | Ok installed_package =>
           let*? _ := map_err_m Install (on_host (dm_delete temp_package_path)) in
           let*? _ := retain_packages agent_id installed_package in
           ret (Ok installed_package)
       end) w.

End Manager.

(** ** The wait of a hook ([PostDownloadHookExecutor::execute], once the process runs)

    Times are in milliseconds; a process that has ended has an exit code and what it wrote.  The
    answers of the operating system and the clock are functions of the number of polls. *)

Definition HOOK_TIMEOUT : N := 300000.
Definition POLL_INTERVAL : N := 100.

Inductive HookEnd : Type :=
| HookSuccess
| HookFailed (code : option Z) (stderr : string)
| HookTimeout.

Record ExitStatus : Type := { exit_code : option Z; exit_stderr : string }.

Fixpoint wait_hook (fuel : nat) (try_wait : nat -> option ExitStatus) (now : nat -> N) (deadline : N) (i : nat) :
  option HookEnd :=
  match fuel with
  | 0 => None
  | S fuel =>
      match try_wait i with
      | Some status =>
          Some (if bool_decide (exit_code status = Some 0%Z) then HookSuccess
                else HookFailed (exit_code status) (exit_stderr status))
      | None =>
          if (deadline <=? now i)%N then Some HookTimeout
          else wait_hook fuel try_wait now deadline (S i)
      end
  end.

(** ** Lemmas: paths *)

Lemma sanitize_chars s : str_all (fun c => negb (Ascii.eqb c "/") && negb (Ascii.eqb c ".")) (sanitize s) = true.
Proof.
  induction s as [|c s IH]; [done|]. cbn [sanitize]. rewrite str_all_app, IH, andb_true_r.
  destruct (Ascii.eqb c "/") eqn:E1; [done|]. destruct (is_ascii_alphanumeric c) eqn:E2; [|done].
  cbn. rewrite E1, andb_true_r. cbn. destruct (Ascii.eqb_spec c "."); [by subst|done].
Qed.

Lemma suffix_normal s : normal_name ("oci_" +:+ sanitize s).
Proof.
  unfold normal_name. split_and!; [done..|]. change (str_all (fun c => negb (Ascii.eqb c "/")) (sanitize s) = true).
  eapply str_all_impl; [|apply sanitize_chars]. by intros c [? _]%andb_true_iff.
Qed.

Definition package_suffix (p : PackageData) : string :=
  "oci_" +:+ sanitize (repository (package_oci p) +:+ ":" +:+ version (package_oci p)).

Lemma compute_path_suffix_ok p : compute_path_suffix p = Ok (package_suffix p).
Proof.
  unfold compute_path_suffix. fold (package_suffix p).
  destruct (suffix_normal (repository (package_oci p) +:+ ":" +:+ version (package_oci p))) as (H1 & H2 & H3 & H4).
  fold (package_suffix p) in H1, H2, H3, H4. rewrite no_slash_relative by done.
  unfold components. rewrite split_no_sep by done. rewrite bool_decide_eq_false_2 by (simpl; congruence).
  rewrite filter_cons_True by done. cbn [filter list_filter existsb]. 
  replace (".." =? package_suffix p)%string with false; [done|]. symmetry. by apply String.eqb_neq.
Qed.

Lemma agent_name_normal id : wf_agent_id id -> normal_name (as_str id).
Proof.
  intros Hid. pose proof (agent_name_not_parent id Hid) as Hp. destruct id as [|s]; [by split_and!|].
  simpl in *. apply try_from_ok in Hid as (_ & Hl & _).
  assert (str_all (fun x => negb (Ascii.eqb x "/")) s = true) as Hsl.
  { apply label_no_char; [done|]. unfold label_char. by intros [?|[?|?]]. }
  destruct Hl as (_ & (c & s' & -> & Hc) & _). split_and!; [done| |done|done].
  intros [= -> _]. done.
Qed.

(** The directories of an agent's packages *)
Definition agent_dir (base : Path) (id : AgentID) : Path := base ++ [PACKAGES_FOLDER_NAME; as_str id].
Definition stored_dir (base : Path) (id : AgentID) : Path := agent_dir base id ++ [INSTALLED_PCK_LOCATION].
Definition temp_dir (base : Path) (id : AgentID) : Path := agent_dir base id ++ [TEMP_PCK_LOCATION].

Lemma location_path base id location :
  wf_agent_id id -> normal_name location ->
  get_generic_package_location_path base id location = agent_dir base id ++ [location].
Proof.
  intros Hid Hl. unfold get_generic_package_location_path. rewrite !join_normal; [|by split_and!|by apply agent_name_normal|done].
  unfold agent_dir. by rewrite <-!app_assoc.
Qed.

Lemma package_path base id location p :
  wf_agent_id id -> normal_name location -> normal_name (package_id p) ->
  get_generic_package_path base id location p = Ok (agent_dir base id ++ [location] ++ [package_id p; package_suffix p]).
Proof.
  intros Hid Hl Hp. unfold get_generic_package_path. rewrite compute_path_suffix_ok, location_path by done. simpl.
  rewrite !join_normal; [|done|apply suffix_normal]. by rewrite <-!app_assoc.
Qed.

(** ** Lemmas: listing and removing *)

Lemma children_snoc h p q : q ∈ children h p <-> exists c, q = p ++ [c] /\ is_Some (nodes h !! q).
Proof.
  rewrite elem_of_children. unfold parent. split.
  - intros (Hs & Hne & Hp). destruct (exists_last Hne) as (l & c & ->). rewrite removelast_last in Hp. subst. eauto.
  - intros (c & -> & Hs). rewrite removelast_last. split_and!; [done| |done]. by destruct p.
Qed.

(** A package of an agent on the disk. *)
Definition stored_package (h : Host) (stored : Path) (ip : InstalledPackageData) : Prop :=
  exists name, installation_path ip = stored ++ [installed_id ip; name] /\
    is_dir h (stored ++ [installed_id ip]) = true /\ is_dir h (installation_path ip) = true.

Section Listing.
Context `{PT : PackageTools}.

Lemma on_host_dir_entries p w r w' :
  map_err_m Install (on_host (dir_entries p)) w = (r, w') ->
  nodes (pm_host w') = nodes (pm_host w) /\ latest_installed_packages w' = latest_installed_packages w /\
  hooks_run w' = hooks_run w /\
  (forall l, r = Ok l -> l = children (pm_host w) p) /\
  (no_host_fault (pm_host w) -> no_host_fault (pm_host w') /\
    (is_dir (pm_host w) p = true -> r = Ok (children (pm_host w) p))).
Proof.
  unfold on_host. unfold_effects. destruct (dir_entries p (pm_host w)) as [r0 h0] eqn:E.
  apply dir_entries_spec in E as (Hn & Hl & Hg). intros [= <- <-]. simpl. split_and!; [done..| |].
  - intros l. destruct r0; [|done]. intros [= ->]. by apply Hl.
  - intros HG. destruct (Hg HG) as [? Hr]. split; [done|]. intros Hd. by rewrite (Hr Hd).
Qed.

(** What the inner loop says of one identifier's directory *)
Lemma elem_of_package_dirs h stored id ip :
  is_dir h (stored ++ [id]) = true ->
  ip ∈ (fun d => {| installed_id := id; installation_path := d |}) <$>
         filter (fun d => is_dir h d = true) (children h (stored ++ [id])) <->
  stored_package h stored ip /\ installed_id ip = id.
Proof.
  intros Hid. rewrite list_elem_of_fmap. split.
  - intros (d & -> & [Hd (c & -> & _)%children_snoc]%list_elem_of_filter). simpl. split; [|done].
    exists c. simpl. rewrite <-app_assoc in *. done.
  - intros [(name & Hp & H1 & H2) <-]. exists (installation_path ip). split; [by destruct ip|].
    apply list_elem_of_filter. split; [done|]. apply children_snoc. exists name. rewrite Hp, <-app_assoc. split; [done|].
    rewrite Hp in H2. apply is_dir_nodes in H2; [by eexists|]. by destruct stored.
Qed.

Lemma packages_of_spec stored id_dirs w r w' :
  (forall d, d ∈ id_dirs -> exists id, d = stored ++ [id]) ->
  packages_of id_dirs w = (r, w') ->
  nodes (pm_host w') = nodes (pm_host w) /\ latest_installed_packages w' = latest_installed_packages w /\
  hooks_run w' = hooks_run w /\
  (forall l, r = Ok l -> forall ip, ip ∈ l <->
     stored_package (pm_host w) stored ip /\ stored ++ [installed_id ip] ∈ id_dirs) /\
  (no_host_fault (pm_host w) -> no_host_fault (pm_host w') /\ exists l, r = Ok l).
Proof.
  revert w r w'. induction id_dirs as [|d id_dirs IH]; intros w r w' Hds; cbn [packages_of].
  { intros [= <- <-]. split_and!; [done..| |by eauto]. intros l [= <-] ip. split; [by intros ?%not_elem_of_nil|].
    by intros [_ ?%not_elem_of_nil]. }
  destruct (Hds d) as [id ->]; [by left|]. rewrite last_snoc.
  assert (forall d', d' ∈ id_dirs -> exists id', d' = stored ++ [id']) as Hds' by (intros; apply Hds; by right).
  assert (forall ip, stored ++ [installed_id ip] ∈ (stored ++ [id]) :: id_dirs <->
            installed_id ip = id \/ stored ++ [installed_id ip] ∈ id_dirs) as Hsplit.
  { intros ip. rewrite elem_of_cons. split; intros [H|H]; [left|by right|left; by rewrite H|by right].
    by apply app_inj_2 in H as [_ [= ->]]. }
  destruct (is_dir (pm_host w) (stored ++ [id])) eqn:Hd.
  - unfold bind_try at 1. unfold package_dirs.
    destruct (map_err_m Install (on_host (dir_entries (stored ++ [id]))) w) as [r1 w1] eqn:E1.
    apply on_host_dir_entries in E1 as (Hn1 & Hl1 & Hh1 & Hr1 & Hg1). destruct r1 as [dirs|e].
    2:{ intros [= <- <-]. split_and!; [done..|]. intros [_ Hr]%Hg1. by specialize (Hr Hd). }
    specialize (Hr1 _ eq_refl) as ->. unfold_effects. destruct (packages_of id_dirs w1) as [r2 w2] eqn:E2.
    destruct (IH _ _ _ Hds' E2) as (Hn2 & Hl2 & Hh2 & Hr2 & Hg2).
    assert (forall q, is_dir (pm_host w1) q = is_dir (pm_host w) q) as Hdir by (intros; unfold is_dir, node_at; by rewrite Hn1).
    destruct r2 as [rest|e]; intros [= <- <-].
    + split_and!; [congruence..| |intros [[? [? ?]]%Hg2 _]%Hg1; by eauto]. intros l [= <-] ip.
      rewrite elem_of_app, (Hr2 _ eq_refl ip), Hsplit.
      replace (filter (fun d => is_dir (pm_host w1) d = true) (children (pm_host w) (stored ++ [id])))
        with (filter (fun d => is_dir (pm_host w) d = true) (children (pm_host w) (stored ++ [id]))).
      2:{ apply list_filter_iff. intros. by rewrite Hdir. }
      rewrite elem_of_package_dirs by done. unfold stored_package. setoid_rewrite Hdir. clear. tauto.
    + split_and!; [congruence..|done|]. intros [[_ [? ?]]%Hg2 _]%Hg1. done.
  - intros E. destruct (IH _ _ _ Hds' E) as (? & ? & ? & Hr & ?). split_and!; [done..| |done].
    intros l -> ip. rewrite (Hr _ eq_refl ip), Hsplit. split; [naive_solver|]. intros [Hs [<-|?]]; [|done].
    destruct Hs as (name & _ & Hd' & _). congruence.
Qed.

Lemma uninstall_spec id p w r w' :
  uninstall id p w = (r, w') ->
  latest_installed_packages w' = latest_installed_packages w /\ hooks_run w' = hooks_run w /\
  only_removes (fun q => installation_path p `prefix_of` q) (pm_host w) (pm_host w') /\
  (r = Ok tt -> exists_path (pm_host w) (installation_path p) = true ->
     forall q, installation_path p `prefix_of` q -> nodes (pm_host w') !! q = None) /\
  (no_host_fault (pm_host w) -> no_host_fault (pm_host w') /\
    (validate_path (installation_path p) = Ok tt -> is_file_node (node_at (pm_host w) (installation_path p)) = false ->
     r = Ok tt)).
Proof.
  unfold uninstall, on_host. unfold_effects. destruct (dm_delete _ (pm_host w)) as [r0 h0] eqn:E.
  apply dm_delete_spec in E as (H1 & H2 & H3). intros [= <- <-]. simpl. split_and!; [done..|exact H1| |].
  - intros Hr. apply H2. by destruct r0 as [[]|].
  - intros HG. destruct (H3 HG) as [? Hr]. split; [done|]. intros Hv Hf. by rewrite (Hr Hv Hf).
Qed.

(** A listed package that is not kept: what the loop removes *)
Definition dropped (keep l : list InstalledPackageData) (q : Path) : Prop :=
  exists p, p ∈ l /\ (p ∉ keep) /\ installation_path p `prefix_of` q.

Lemma remove_others_spec id keep l w errors w' :
  remove_others id keep l w = (errors, w') ->
  latest_installed_packages w' = latest_installed_packages w /\ hooks_run w' = hooks_run w /\
  only_removes (dropped keep l) (pm_host w) (pm_host w') /\
  (errors = [] -> forall p, p ∈ l -> p ∉ keep -> nodes (pm_host w') !! installation_path p = None \/ installation_path p = []) /\
  (no_host_fault (pm_host w) ->
   (forall p, p ∈ l -> validate_path (installation_path p) = Ok tt /\
                       is_file_node (node_at (pm_host w) (installation_path p)) = false) ->
   no_host_fault (pm_host w') /\ errors = []).
Proof.
  revert w errors w'. induction l as [|p l IH]; intros w errors w'; cbn [remove_others].
  { intros [= <- <-]. split_and!; [done..|apply only_removes_refl|by intros _ p ?%not_elem_of_nil|done]. }
  case_bool_decide as Hkeep.
  - intros (H1 & H2 & H3 & H4 & H5)%IH. split_and!; [done..| | |].
    + eapply only_removes_weaken; [|exact H3]. intros q (p' & ? & ? & ?). exists p'. split_and!; [by right|done..].
    + intros He p' [->|Hp']%elem_of_cons Hno; [done|by apply H4].
    + intros HG Hl. apply H5; [done|]. intros p' ?. apply Hl. by right.
  - unfold_effects. destruct (uninstall id p w) as [r1 w1] eqn:E1.
    destruct (remove_others id keep l w1) as [errs w2] eqn:E2.
    apply uninstall_spec in E1 as (H1 & H2 & H3 & H4 & H5). apply IH in E2 as (G1 & G2 & G3 & G4 & G5).
    intros [= <- <-]. split_and!; [congruence..| | |].
    + eapply only_removes_trans; (eapply only_removes_weaken; [|eassumption]); simpl.
      * intros q Hq. exists p. split_and!; [by left|done..].
      * intros q (p' & ? & ? & ?). exists p'. split_and!; [by right|done..].
    + intros He p' [->|Hp']%elem_of_cons Hno; [|apply G4; [by destruct r1|done..]].
      destruct r1 as [[]|]; [|done]. destruct (decide (installation_path p = [])) as [|Hne]; [by right|left].
      eapply only_removes_none; [exact G3|]. destruct (exists_path (pm_host w) (installation_path p)) eqn:Hex; [by apply H4|].
      eapply only_removes_none; [exact H3|]. unfold exists_path, node_at in Hex. apply bool_decide_eq_false in Hex.
      destruct (installation_path p); [done|]. by apply eq_None_not_Some.
    + intros HG Hl. destruct (H5 HG) as [HG1 Hr]. rewrite Hr by (apply Hl; by left). apply G5; [done|].
      intros p' Hp'. destruct (Hl p') as [? ?]; [by right|]. split; [done|]. by eapply only_removes_file.
Qed.

Lemma installed_packages_spec remote_dir id w r w' :
  wf_agent_id id -> installed_packages remote_dir id w = (r, w') ->
  nodes (pm_host w') = nodes (pm_host w) /\ latest_installed_packages w' = latest_installed_packages w /\
  hooks_run w' = hooks_run w /\
  (forall l, r = Ok l -> forall ip, ip ∈ l <-> stored_package (pm_host w) (stored_dir remote_dir id) ip) /\
  (no_host_fault (pm_host w) -> no_host_fault (pm_host w') /\
    (is_dir (pm_host w) (stored_dir remote_dir id) = true -> exists l, r = Ok l)).
Proof.
  intros Hid. unfold installed_packages. rewrite location_path by done.
  fold (stored_dir remote_dir id). unfold bind_try. set (stored := stored_dir remote_dir id).
  destruct (map_err_m Install (on_host (dir_entries stored)) w) as [r1 w1] eqn:E1.
  apply on_host_dir_entries in E1 as (Hn1 & Hl1 & Hh1 & Hr1 & Hg1). destruct r1 as [dirs|e].
  2:{ intros [= <- <-]. split_and!; [done..|]. intros [? Hr]%Hg1. split; [done|]. intros ?%Hr. done. }
  specialize (Hr1 _ eq_refl) as ->. intros E2. apply (packages_of_spec stored) in E2 as (Hn2 & Hl2 & Hh2 & Hr2 & Hg2).
  2:{ intros d (c & -> & _)%children_snoc. by exists c. }
  assert (forall q, is_dir (pm_host w1) q = is_dir (pm_host w) q) as Hdir by (intros; unfold is_dir, node_at; by rewrite Hn1).
  split_and!; [congruence..| |intros [[? ?]%Hg2 _]%Hg1; done].
  intros l -> ip. rewrite (Hr2 _ eq_refl ip). unfold stored_package. setoid_rewrite Hdir. split; [naive_solver|].
  intros (name & Hp & H1 & H2). split; [by eauto|]. apply children_snoc. exists (installed_id ip). split; [done|].
  apply is_dir_nodes in H1; [by eexists|]. by destruct stored.
Qed.

(** [retain_packages]: the package and the one noted before it stay, the other ones go. *)
Lemma retain_packages_spec remote_dir id ip w r w' :
  wf_agent_id id -> retain_packages remote_dir id ip w = (r, w') ->
  let stored := stored_dir remote_dir id in
  let keep := ip :: option_list (latest_installed_packages w !! id) in
  latest_installed_packages w' = <[id := ip]> (latest_installed_packages w) /\ hooks_run w' = hooks_run w /\
  only_removes (fun q => exists p, stored_package (pm_host w) stored p /\ (p ∉ keep) /\ installation_path p `prefix_of` q)
    (pm_host w) (pm_host w') /\
  (r = Ok tt -> forall p, stored_package (pm_host w') stored p -> p ∈ keep) /\
  (no_host_fault (pm_host w) -> is_dir (pm_host w) stored = true ->
   (forall p, stored_package (pm_host w) stored p -> validate_path (installation_path p) = Ok tt) ->
   no_host_fault (pm_host w') /\ r = Ok tt).
Proof.
  intros Hid E stored keep. unfold retain_packages, insert_latest in E. unfold bind at 1 in E.
  set (w0 := {| pm_host := pm_host w; latest_installed_packages := _; hooks_run := _ |}) in E.
  fold keep in E. unfold bind_try in E. destruct (installed_packages remote_dir id w0) as [r1 w1] eqn:E1.
  apply installed_packages_spec in E1 as (Hn1 & Hl1 & Hh1 & Hr1 & Hg1); [|done]. fold stored in Hr1, Hg1.
  assert (forall P h', only_removes P (pm_host w1) h' -> only_removes P (pm_host w) h') as Hfrom.
  { intros P h' H q. change (pm_host w) with (pm_host w0). rewrite <-Hn1. apply H. }
  destruct r1 as [l|e].
  2:{ injection E as <- <-. split_and!; [done..|apply Hfrom, only_removes_refl|done|].
      intros HG Hd _. destruct (Hg1 HG) as [_ Hok]. by destruct (Hok Hd). }
  specialize (Hr1 _ eq_refl). unfold bind, ret in E. destruct (remove_others id keep l w1) as [errors w2] eqn:E2.
  apply remove_others_spec in E2 as (H1 & H2 & H3 & H4 & H5). injection E as <- <-.
  assert (forall P q, only_removes P (pm_host w1) (pm_host w2) -> is_dir (pm_host w2) q = true -> is_dir (pm_host w) q = true) as Hback.
  { intros P q H%Hfrom. unfold is_dir, node_at. rewrite !bool_decide_eq_true. destruct q as [|c q]; [done|].
    by destruct (H (c :: q)) as [->|[_ ->]]. }
  split_and!; [by rewrite H1|by rewrite H2| | |].
  - apply Hfrom. eapply only_removes_weaken; [|exact H3]. intros q (p & Hp%Hr1 & ? & ?). by exists p.
  - intros Hok p Hp. destruct (decide (p ∈ keep)) as [|Hno]; [done|exfalso].
    destruct Hp as (name & Hpath & Hd1 & Hd2).
    assert (p ∈ l) as Hin. { apply Hr1. exists name. split_and!; [done|by eapply Hback..]. }
    destruct (H4 ltac:(by destruct errors) p Hin Hno) as [Hnone|He]; [|by rewrite He in Hpath; destruct stored].
    apply is_dir_nodes in Hd2; [|rewrite Hpath; by destruct stored]. congruence.
  - intros HG Hd Hv. destruct (Hg1 HG) as [HG1 _]. destruct H5 as [? ->]; [done| |done].
    intros p Hp%Hr1. split; [by apply Hv|]. destruct Hp as (name & _ & _ & Hdir). unfold is_dir in Hdir.
    apply bool_decide_eq_true in Hdir. unfold node_at in *. rewrite Hn1. by rewrite Hdir.
Qed.
End Listing.

(** ** What the outside may change

    Downloads and archives are written below the directory they are given: [extract_tar_gz] and
    [extract_zip] skip entries that leave it. *)

Definition works_in {A} (d : Path) (m : M Host A) : Prop :=
  forall h a h', m h = (a, h') ->
    changes_below d h h' /\ (is_dir h d = true -> is_dir h' d = true) /\ (no_host_fault h -> no_host_fault h').

Class PackageToolsLaws (PT : PackageTools) : Prop := {
  download_works_in p d : works_in d (download p d);
  extract_works_in a d : works_in d (extract_archive a d);
}.

(** A hook that stays in the directory of its package. *)
Definition hook_confined `{PackageTools} (p : PackageData) : Prop :=
  match post_download_hook p with
  | Some hook => forall d, works_in d (execute_hook hook d)
  | None => True
  end.

(** Changes below [root], and none below a path disjoint from all of [ps]. *)
Definition within (root : Path) (ps : list Path) (h h' : Host) : Prop :=
  changes_below root h h' /\
  forall P, (forall p, p ∈ ps -> disjoint_paths P p) -> forall q, P `prefix_of` q -> nodes h' !! q = nodes h !! q.

Lemma within_refl root ps h : within root ps h h.
Proof. split; [apply changes_refl|done]. Qed.

Lemma within_trans root ps h1 h2 h3 : within root ps h1 h2 -> within root ps h2 h3 -> within root ps h1 h3.
Proof.
  intros [H1 H2] [H3 H4]. split; [by eapply changes_trans|]. intros P HP q Hq. by rewrite (H4 P HP q Hq), (H2 P HP q Hq).
Qed.

Lemma within_changes root ps p h h' :
  p ∈ ps -> root `prefix_of` p -> changes_below p h h' -> within root ps h h'.
Proof.
  intros Hin Hr Hc. split; [by eapply changes_above|]. intros P HP q Hq. specialize (HP p Hin).
  destruct (Hc q) as [?|(Hqp & _)]; [by eapply disjoint_below|done|]. destruct HP as [HP _]. destruct HP. by transitivity q.
Qed.

Lemma within_app_length_eq (stored : Path) a b c d q :
  stored ++ [a; b] `prefix_of` q -> stored ++ [c; d] `prefix_of` q -> a = c /\ b = d.
Proof.
  intros [l1 ->] [l2 Hl]. rewrite <-!app_assoc in Hl. apply app_inv_head in Hl. by simplify_eq.
Qed.

Section Install.
Context `{PTL : PackageToolsLaws}.
Variable remote_dir : Path.

Lemma on_host_within {A} root ps d (m : M Host A) w a w' :
  works_in d m -> d ∈ ps -> root `prefix_of` d -> on_host m w = (a, w') ->
  within root ps (pm_host w) (pm_host w') /\
  (is_dir (pm_host w) d = true -> is_dir (pm_host w') d = true) /\
  (no_host_fault (pm_host w) -> no_host_fault (pm_host w')) /\
  latest_installed_packages w' = latest_installed_packages w /\ hooks_run w' = hooks_run w.
Proof using.
  intros Hm Hin Hr. unfold on_host. destruct (m (pm_host w)) as [a0 h0] eqn:E. intros [= <- <-]. simpl.
  destruct (Hm _ _ _ E) as (Hc & ? & ?). split_and!; [by eapply within_changes|done..].
Qed.

Lemma dm_create_works_in d : works_in d (dm_create d).
Proof using.
  intros h a h' (H1 & _ & H4)%dm_create_spec. split_and!; [by apply adds_dirs_changes| |intros HG; by apply H4].
  unfold is_dir, node_at. rewrite !bool_decide_eq_true. destruct d; [done|]. intros. by eapply adds_dirs_keeps.
Qed.

(** Facts on a failed or finished call that change only below [ps] and leave the notes alone *)
Definition quiet (ps : list Path) (root : Path) (w w' : PackageWorld) : Prop :=
  within root ps (pm_host w) (pm_host w') /\
  (no_host_fault (pm_host w) -> no_host_fault (pm_host w')) /\
  latest_installed_packages w' = latest_installed_packages w.

Lemma quiet_refl ps root w : quiet ps root w w.
Proof using. split_and!; [apply within_refl|done..]. Qed.

Lemma quiet_trans ps root w1 w2 w3 : quiet ps root w1 w2 -> quiet ps root w2 w3 -> quiet ps root w1 w3.
Proof using. intros (?&?&?) (?&?&?). split_and!; [by eapply within_trans|auto|congruence]. Qed.

Lemma on_host_quiet {A} root ps d (m : M Host A) w a w' :
  works_in d m -> d ∈ ps -> root `prefix_of` d -> on_host m w = (a, w') ->
  quiet ps root w w' /\ (is_dir (pm_host w) d = true -> is_dir (pm_host w') d = true).
Proof using. intros H1 H2 H3 (?&?&?&?&?)%(on_host_within root ps d); [|done..]. split; [split_and!|]; done. Qed.

Lemma on_host_create ps root d w r w' :
  d ∈ ps -> root `prefix_of` d -> on_host (dm_create d) w = (r, w') ->
  quiet ps root w w' /\ (r = Ok tt -> forall q, q `prefix_of` d -> is_dir (pm_host w') q = true).
Proof using.
  intros H1 H2 E. split; [by eapply on_host_quiet; eauto using dm_create_works_in|].
  unfold on_host in E. destruct (dm_create d (pm_host w)) as [a0 h0] eqn:Ec. injection E as <- <-.
  by apply dm_create_spec in Ec as (_ & ? & _).
Qed.

Lemma on_host_delete ps root d w r w' :
  d ∈ ps -> root `prefix_of` d -> d <> [] -> on_host (dm_delete d) w = (r, w') ->
  quiet ps root w w' /\ only_removes (fun q => d `prefix_of` q) (pm_host w) (pm_host w') /\
  (r = Ok tt -> nodes (pm_host w') !! d = None) /\
  (no_host_fault (pm_host w) -> validate_path d = Ok tt -> is_file_node (node_at (pm_host w) d) = false -> r = Ok tt).
Proof using.
  intros H1 H2 Hd E. unfold on_host in E. destruct (dm_delete d (pm_host w)) as [a0 h0] eqn:Ec. injection E as <- <-.
  apply dm_delete_spec in Ec as (Hrm & Hgone & HG). simpl. split_and!; [|exact Hrm| |intros HF; by apply HG].
  - split_and!; [|intros HF; by apply HG|done]. eapply within_changes; [done..|]. by apply only_removes_changes.
  - intros Hr. destruct (exists_path (pm_host w) d) eqn:He; [by apply Hgone|]. eapply only_removes_none; [exact Hrm|].
    unfold exists_path, node_at in He. apply bool_decide_eq_false in He. destruct d; [done|]. by apply eq_None_not_Some.
Qed.

Lemma extract_package_spec ps root archive d w r w' :
  d ∈ ps -> root `prefix_of` d -> d <> [] -> extract_package archive d w = (r, w') ->
  quiet ps root w w' /\ hooks_run w' = hooks_run w /\ (r = Ok tt -> is_dir (pm_host w') d = true).
Proof using PTL.
  intros Hin Hr Hd. unfold extract_package. unfold_effects.
  destruct (on_host (dm_create d) w) as [r1 w1] eqn:E1.
  pose proof (on_host_within root ps d _ _ _ _ (dm_create_works_in d) Hin Hr E1) as (_ & _ & _ & _ & Hk1).
  apply (on_host_create ps root) in E1 as [Hq1 Hd1]; [|done..]. destruct r1 as [[]|e]; [|by intros [= <- <-]].
  destruct (on_host (extract_archive archive d) w1) as [r2 w2] eqn:E2.
  pose proof (on_host_within root ps d _ _ _ _ (extract_works_in _ _) Hin Hr E2) as (_ & _ & _ & _ & Hk2).
  apply (on_host_quiet root ps d) in E2 as [Hq2 Hd2]; [|apply extract_works_in|done..].
  destruct r2 as [[]|e].
  - intros [= <- <-]. split_and!; [by eapply quiet_trans|congruence|auto].
  - destruct (on_host (dm_delete d) w2) as [r3 w3] eqn:E3. intros [= <- <-].
    assert (hooks_run w3 = hooks_run w2) as Hk3.
    { unfold on_host in E3. destruct (dm_delete d (pm_host w2)). by injection E3 as _ <-. }
    apply (on_host_delete ps root) in E3 as (Hq3 & _); [|done..].
    split_and!; [eapply quiet_trans; [|done]; by eapply quiet_trans|congruence|done].
Qed.

Lemma install_archive_spec ps root p tmp d w r w' :
  hook_confined p -> tmp ∈ ps -> root `prefix_of` tmp -> d ∈ ps -> root `prefix_of` d -> d <> [] ->
  install_archive p tmp d w = (r, w') ->
  quiet ps root w w' /\
  forall ip, r = Ok ip ->
    ip = {| installed_id := package_id p; installation_path := d |} /\ is_dir (pm_host w') d = true /\
    hooks_run w' = option_list ((., d) <$> post_download_hook p) ++ hooks_run w.
Proof using PTL.
  intros Hhook Ht Hrt Hin Hr Hd. unfold install_archive. unfold_effects.
  destruct (on_host (dm_create tmp) w) as [r1 w1] eqn:E1.
  pose proof (on_host_within root ps tmp _ _ _ _ (dm_create_works_in tmp) Ht Hrt E1) as (_ & _ & _ & _ & Hk1).
  apply (on_host_create ps root) in E1 as [Hq1 _]; [|done..]. destruct r1 as [[]|e]; [|by intros [= <- <-]].
  destruct (on_host (download p tmp) w1) as [r2 w2] eqn:E2.
  pose proof (on_host_within root ps tmp _ _ _ _ (download_works_in _ _) Ht Hrt E2) as (_ & _ & _ & _ & Hk2).
  apply (on_host_quiet root ps tmp) in E2 as [Hq2 _]; [|apply download_works_in|done..].
  assert (quiet ps root w w2) as Hq12 by by eapply quiet_trans. clear Hq1 Hq2.
  destruct r2 as [archive|e]; [|by intros [= <- <-]].
  destruct (extract_package archive d w2) as [r3 w3] eqn:E3.
  apply (extract_package_spec ps root) in E3 as (Hq3 & Hk3 & Hd3); [|done..].
  assert (quiet ps root w w3) as Hq13 by by eapply quiet_trans. clear Hq12 Hq3.
  destruct r3 as [[]|e]; [|by intros [= <- <-]]. specialize (Hd3 eq_refl).
  destruct (post_download_hook p) as [hook|] eqn:Eh; cbn.
  - destruct (on_host (execute_hook hook d) _) as [r4 w4] eqn:E4.
    unfold hook_confined in Hhook. rewrite Eh in Hhook.
    pose proof (on_host_within root ps d _ _ _ _ (Hhook d) Hin Hr E4) as (_ & _ & _ & _ & Hk4).
    apply (on_host_quiet root ps d) in E4 as [Hq4 Hd4]; [|apply Hhook|done..].
    assert (quiet ps root w w4) as Hq by by eapply quiet_trans.
    destruct r4 as [[]|e]; intros [= <- <-]; (split; [exact Hq|]); [|done].
    intros ip [= <-]. split_and!; [done|by apply Hd4|]. rewrite Hk4. simpl. congruence.
  - intros [= <- <-]. split; [done|]. intros ip [= <-]. split_and!; [done..|congruence].
Qed.

(** The package noted for an agent is one of its stored packages. *)
Definition tracked (w : PackageWorld) (id : AgentID) : Prop :=
  forall prev, latest_installed_packages w !! id = Some prev ->
    exists name, installation_path prev = stored_dir remote_dir id ++ [installed_id prev; name].

Definition new_package (id : AgentID) (p : PackageData) : InstalledPackageData :=
  {| installed_id := package_id p;
     installation_path := stored_dir remote_dir id ++ [package_id p; package_suffix p] |}.

Definition temp_path (id : AgentID) (p : PackageData) : Path :=
  temp_dir remote_dir id ++ [package_id p; package_suffix p].

Lemma stored_below id l : agent_dir remote_dir id `prefix_of` stored_dir remote_dir id ++ l.
Proof using. unfold stored_dir. rewrite <-app_assoc. apply prefix_app_r. done. Qed.

Lemma temp_below id p : agent_dir remote_dir id `prefix_of` temp_path id p.
Proof using. unfold temp_path, temp_dir. rewrite <-app_assoc. apply prefix_app_r. done. Qed.

Lemma temp_stored_disjoint id a b p : disjoint_paths (stored_dir remote_dir id ++ [a; b]) (temp_path id p).
Proof using.
  unfold temp_path, temp_dir, stored_dir. rewrite <-!app_assoc.
  split; intros [l Hl]; rewrite <-!app_assoc in Hl; apply app_inv_head in Hl; discriminate Hl.
Qed.

Lemma stored_paths_disjoint (stored : Path) a b c d :
  (a, b) <> (c, d) -> disjoint_paths (stored ++ [a; b]) (stored ++ [c; d]).
Proof using.
  intros Hne. split; intros [l Hl]; rewrite <-!app_assoc in Hl; apply app_inv_head in Hl; simpl in Hl;
    destruct Hne; congruence.
Qed.

(** Retention keeps what lies below the packages it retains. *)
Lemma retained_kept h h' stored (keep : list InstalledPackageData) ip name q :
  only_removes (fun q => exists p, stored_package h stored p /\ (p ∉ keep) /\ installation_path p `prefix_of` q) h h' ->
  ip ∈ keep -> installation_path ip = stored ++ [installed_id ip; name] -> installation_path ip `prefix_of` q ->
  nodes h' !! q = nodes h !! q.
Proof using.
  intros Hrm Hin Hip Hq. destruct (Hrm q) as [?|[(p & (n & Hp & _) & Hno & Hpq) _]]; [done|]. destruct Hno.
  rewrite Hip in Hq. rewrite Hp in Hpq. destruct (within_app_length_eq _ _ _ _ _ _ Hq Hpq) as [E1 E2].
  assert (p = ip) as ->; [|done]. destruct p, ip; simpl in *. by subst.
Qed.

Lemma retain_changes h h' id (keep : list InstalledPackageData) :
  only_removes (fun q => exists p, stored_package h (stored_dir remote_dir id) p /\ (p ∉ keep) /\ installation_path p `prefix_of` q) h h' ->
  changes_below (agent_dir remote_dir id) h h'.
Proof using.
  intros H. apply only_removes_changes. eapply only_removes_weaken; [|exact H]. simpl.
  intros q (p & (n & Hp & _) & _ & Hq). etransitivity; [|exact Hq]. rewrite Hp. apply stored_below.
Qed.

Lemma stored_not_nil id l : stored_dir remote_dir id ++ l <> [].
Proof using. unfold stored_dir, agent_dir. by destruct remote_dir. Qed.

Lemma temp_not_nil id p : temp_path id p <> [].
Proof using. unfold temp_path, temp_dir, agent_dir. by destruct remote_dir. Qed.

Lemma install_unfold id p w :
  wf_agent_id id -> normal_name (package_id p) ->
  let new := new_package id p in
  install remote_dir id p w =
    if exists_path (pm_host w) (installation_path new)
    then (let*? _ := retain_packages remote_dir id new in ret (Ok new)) w
    else
      (let* r := install_archive p (temp_path id p) (installation_path new) in
       match r with
       | Err e => let* _ := on_host (dm_delete (temp_path id p)) in ret (Err e)
       | Ok ip =>
           let*? _ := map_err_m Install (on_host (dm_delete (temp_path id p))) in
           let*? _ := retain_packages remote_dir id ip in
           ret (Ok ip)
       end) w.
Proof using.
  intros Hid Hn new. unfold install, get_package_path, get_temp_package_path. rewrite !package_path by done.
  unfold bind_try at 1, ret at 1. rewrite !app_assoc.
  by fold (stored_dir remote_dir id) (temp_dir remote_dir id) (temp_path id p) (new_package id p) new.
Qed.

(** What an install returns is the package it was asked for, in its directory. *)
Lemma install_archive_returns p tmp d w ip w' :
  install_archive p tmp d w = (Ok ip, w') -> ip = {| installed_id := package_id p; installation_path := d |}.
Proof using. unfold install_archive. unfold_effects. intros E. repeat case_match; simplify_eq; done. Qed.

Lemma install_returns id p w ip w' :
  wf_agent_id id -> normal_name (package_id p) -> install remote_dir id p w = (Ok ip, w') -> ip = new_package id p.
Proof using.
  intros Hid Hn. rewrite install_unfold by done. cbn zeta. case_match.
  - unfold_effects. intros E. repeat case_match; simplify_eq; done.
  - unfold bind. destruct (install_archive p (temp_path id p) _ w) as [[ip'|e] w1] eqn:E1.
    + apply install_archive_returns in E1. unfold_effects. intros E. repeat case_match; simplify_eq; done.
    + unfold_effects. intros E. repeat case_match; simplify_eq; done.
Qed.

(** The two stages of an install: the package is brought to its directory, then the retention. *)
Lemma install_stages id p w r w' :
  wf_agent_id id -> normal_name (package_id p) -> hook_confined p -> install remote_dir id p w = (r, w') ->
  let new := new_package id p in
  exists w1, quiet [temp_path id p; installation_path new] (agent_dir remote_dir id) w w1 /\
    ((exists r', retain_packages remote_dir id new w1 = (r', w') /\ r = map_ok (fun _ => new) r' /\
        exists_path (pm_host w1) (installation_path new) = true /\
        (exists_path (pm_host w) (installation_path new) = true -> w1 = w) /\
        (exists_path (pm_host w) (installation_path new) = false ->
         nodes (pm_host w1) !! temp_path id p = None))
     \/ (w' = w1 /\ exists e, r = Err e)).
Proof using PTL.
  intros Hid Hn Hhook E new. rewrite install_unfold in E by done. cbn zeta in E. fold new in E.
  set (ps := [temp_path id p; installation_path new]).
  destruct (exists_path (pm_host w) (installation_path new)) eqn:Hex.
  { exists w. split; [apply quiet_refl|left]. unfold bind_try, ret in E.
    destruct (retain_packages remote_dir id new w) as [[[]|e] w2]; injection E as <- <-; (eexists; split_and!; done). }
  unfold bind in E.
  destruct (install_archive p (temp_path id p) (installation_path new) w) as [r1 w1] eqn:E1.
  apply (install_archive_spec ps (agent_dir remote_dir id)) in E1 as [Hq1 Hok1];
    [|done|by left|apply temp_below|by right; left|apply stored_below|apply stored_not_nil].
  destruct r1 as [ip|e].
  2:{ destruct (on_host (dm_delete (temp_path id p)) w1) as [r2 w2] eqn:E2. injection E as <- <-.
      apply (on_host_delete ps (agent_dir remote_dir id)) in E2 as (Hq2 & _);
        [|by left|apply temp_below|apply temp_not_nil].
      exists w2. split; [by eapply quiet_trans|right; by eauto]. }
  destruct (Hok1 _ eq_refl) as (-> & Hd1 & _). clear Hok1.
  change {| installed_id := package_id p; installation_path := installation_path new |} with new in E.
  unfold bind_try at 1, map_err_m in E.
  destruct (on_host (dm_delete (temp_path id p)) w1) as [r2 w2] eqn:E2.
  apply (on_host_delete ps (agent_dir remote_dir id)) in E2 as (Hq2 & Hrm2 & Hgone & _);
    [|by left|apply temp_below|apply temp_not_nil].
  exists w2. split; [by eapply quiet_trans|].
  destruct r2 as [[]|e]; [|injection E as <- <-; right; by eauto]. left.
  cbn [map_err] in E. unfold bind_try, ret in E. destruct (retain_packages remote_dir id new w2) as [r3 w3].
  exists r3. destruct r3 as [[]|e]; injection E as <- <-; (split_and!; [done..| |done|auto]);
    apply is_dir_exists; rewrite is_dir_nodes in * by apply stored_not_nil;
    (destruct (Hrm2 (installation_path new)) as [->|[Hpre _]]; [done|]);
    by apply (temp_stored_disjoint id (package_id p) (package_suffix p) p) in Hpre.
Qed.


(** *** When the outside works *)

Definition tools_work (p : PackageData) : Prop :=
  (forall d h, exists a, (download p d h).1 = Ok a) /\ (forall a d h, (extract_archive a d h).1 = Ok tt) /\
  match post_download_hook p with Some hook => forall d h, (execute_hook hook d h).1 = Ok tt | None => True end.

Lemma dirs_to_works {A} d (m : M Host A) h a h' : works_in d m -> m h = (a, h') -> dirs_to h d -> dirs_to h' d.
Proof using.
  intros Hm E Hw q Hq. destruct (Hm _ _ _ E) as (Hc & Hd & _). destruct (decide (q = d)) as [->|Hne]; [by apply Hd, Hw|].
  eapply (dirs_to_changes d q); [|exact Hc| |done].
  - intros Hdq. apply Hne. by apply (anti_symm prefix).
  - intros q' Hq'. apply Hw. by transitivity q.
Qed.

Lemma on_host_run {A} (m : M Host A) w : on_host m w =
  ((m (pm_host w)).1, {| pm_host := (m (pm_host w)).2; latest_installed_packages := latest_installed_packages w;
                         hooks_run := hooks_run w |}).
Proof using. unfold on_host. by destruct (m (pm_host w)). Qed.

Lemma tool_ok {A} d (m : M Host A) h :
  works_in d m -> no_host_fault h -> dirs_to h d ->
  exists h', m h = ((m h).1, h') /\ no_host_fault h' /\ dirs_to h' d /\ changes_below d h h'.
Proof using.
  intros Hm HG Hd. destruct (m h) as [a h'] eqn:E. exists h'. destruct (Hm _ _ _ E) as (Hc & _ & HG').
  split_and!; [done|auto| |done]. by eapply dirs_to_works.
Qed.

Lemma install_archive_ok p tmp d w :
  hook_confined p -> tools_work p -> no_host_fault (pm_host w) -> disjoint_paths tmp d ->
  validate_path tmp = Ok tt -> validate_path d = Ok tt -> clear_way (pm_host w) tmp -> clear_way (pm_host w) d ->
  exists w', install_archive p tmp d w = (Ok {| installed_id := package_id p; installation_path := d |}, w') /\
    no_host_fault (pm_host w') /\ dirs_to (pm_host w') d /\ is_dir (pm_host w') tmp = true.
Proof using PTL.
  intros Hhook (Hdl & Hex & Hhk) HG0 Hdis Hvt Hvd Hwt Hwd. unfold install_archive, extract_package. unfold_effects.
  destruct (create_ok tmp (pm_host w)) as (h1 & E1 & HG1 & Hd1 & Hc1); [done..|].
  rewrite on_host_run, E1. cbn -[on_host].
  destruct (tool_ok tmp (download p tmp) h1) as (h2 & E2 & HG2 & Hd2 & Hc2); [apply download_works_in|done..|].
  destruct (Hdl tmp h1) as [archive Ha]. rewrite on_host_run. cbn [pm_host]. rewrite E2, Ha. cbn -[on_host].
  destruct (create_ok d h2) as (h3 & E3 & HG3 & Hd3 & Hc3); [done..| |].
  { eapply clear_way_changes; [exact Hdis|exact Hc2|]. by eapply clear_way_changes. }
  rewrite on_host_run. cbn [pm_host]. rewrite E3. cbn -[on_host].
  destruct (tool_ok d (extract_archive archive d) h3) as (h4 & E4 & HG4 & Hd4 & Hc4); [apply extract_works_in|done..|].
  rewrite on_host_run. cbn [pm_host]. rewrite E4, Hex. cbn -[on_host].
  assert (dirs_to h4 tmp) as Ht4.
  { eapply dirs_to_changes; [apply Hdis|exact Hc4|]. eapply dirs_to_changes; [apply Hdis|exact Hc3|done]. }
  unfold hook_confined in Hhook. destruct (post_download_hook p) as [hook|]; cbn -[on_host].
  - destruct (tool_ok d (execute_hook hook d) h4) as (h5 & E5 & HG5 & Hd5 & Hc5); [apply Hhook|done..|].
    rewrite on_host_run. cbn [pm_host]. rewrite E5, Hhk. eexists. split_and!; [done..|]. cbn.
    eapply (dirs_to_changes d tmp); [apply Hdis|exact Hc5|exact Ht4|done].
  - eexists. split_and!; [done..|]. by apply Ht4.
Qed.

Lemma package_dir_valid id p loc :
  validate_path remote_dir = Ok tt -> wf_agent_id id -> normal_name (package_id p) -> normal_name loc ->
  validate_path (agent_dir remote_dir id ++ [loc] ++ [package_id p; package_suffix p]) = Ok tt.
Proof using.
  intros Hv Hid (_ & _ & Hp & _) (_ & _ & Hl & _). unfold agent_dir. rewrite <-app_assoc. apply validate_app. split; [done|].
  apply validate_names. simpl. rewrite !Forall_cons. split_and!; [done|by apply agent_name_not_parent|done|done| |done].
  by destruct (suffix_normal (repository (package_oci p) +:+ ":" +:+ version (package_oci p))) as (_ & _ & ? & _).
Qed.

(** Where an install can work: no call fails, no file is in the way, the entries of the disk have
    their directories and none is called [..]. *)
Definition ready (h : Host) (id : AgentID) (p : PackageData) : Prop :=
  no_host_fault h /\ validate_path remote_dir = Ok tt /\
  clear_way h (temp_path id p) /\
  (nodes h !! installation_path (new_package id p) = None -> clear_way h (installation_path (new_package id p))) /\
  (forall q c n, nodes h !! (q ++ [c]) = Some n -> is_dir h q = true) /\
  (forall q n, nodes h !! q = Some n -> validate_path q = Ok tt).

Lemma retain_ok id ip w :
  wf_agent_id id -> no_host_fault (pm_host w) -> is_dir (pm_host w) (stored_dir remote_dir id) = true ->
  (forall q, stored_package (pm_host w) (stored_dir remote_dir id) q -> validate_path (installation_path q) = Ok tt) ->
  exists w', retain_packages remote_dir id ip w = (Ok tt, w') /\ no_host_fault (pm_host w').
Proof using.
  intros Hid HG Hd Hv. destruct (retain_packages remote_dir id ip w) as [r w'] eqn:E.
  apply retain_packages_spec in E as (_ & _ & _ & _ & Hok); [|done]. destruct Hok as [? ->]; [done..|]. by exists w'.
Qed.

(** The first stage of a new install *)
Lemma fetch_ok id p w :
  wf_agent_id id -> normal_name (package_id p) -> hook_confined p -> tools_work p -> ready (pm_host w) id p ->
  let new := new_package id p in
  nodes (pm_host w) !! installation_path new = None ->
  exists w1 w2,
    install_archive p (temp_path id p) (installation_path new) w = (Ok new, w1) /\
    on_host (dm_delete (temp_path id p)) w1 = (Ok tt, w2) /\
    no_host_fault (pm_host w2) /\ dirs_to (pm_host w2) (installation_path new) /\
    within (agent_dir remote_dir id) [temp_path id p; installation_path new] (pm_host w) (pm_host w2).
Proof using PTL.
  intros Hid Hn Hhook Htools (HG & Hv & Hwt & Hwd & _ & _) new Hnone.
  destruct (temp_stored_disjoint id (package_id p) (package_suffix p) p) as [Hd1 Hd2].
  fold new in Hwd. specialize (Hwd Hnone).
  assert (validate_path (temp_path id p) = Ok tt) as Hvt.
  { unfold temp_path, temp_dir. rewrite <-app_assoc. by apply package_dir_valid. }
  destruct (install_archive_ok p (temp_path id p) (installation_path new) w) as (w1 & E1 & HG1 & Hdirs & Htd); try done.
  { unfold new. simpl. unfold stored_dir. rewrite <-app_assoc. by apply package_dir_valid. }
  destruct (on_host (dm_delete (temp_path id p)) w1) as [r2 w2] eqn:E2.
  set (ps := [temp_path id p; installation_path new]).
  pose proof E2 as (Hq2 & Hrm & _ & Hok)%(on_host_delete ps (agent_dir remote_dir id));
    [|by left|apply temp_below|apply temp_not_nil].
  pose proof E1 as [Hq1 _]%(install_archive_spec ps (agent_dir remote_dir id));
    [|done|by left|apply temp_below|by right; left|apply stored_below|apply stored_not_nil].
  assert (r2 = Ok tt) as ->.
  { apply Hok; [done..|]. unfold is_dir in Htd. apply bool_decide_eq_true in Htd. by rewrite Htd. }
  exists w1, w2. split_and!; [done|done|by apply Hq2| |by eapply within_trans; [apply Hq1|apply Hq2]].
  eapply dirs_to_changes; [|by apply only_removes_changes|exact Hdirs]. done.
Qed.

(** When the download, the archive and the hook work and the disk accepts every operation,
    [install] succeeds, whatever packages are already there. *)
Theorem install_succeeds id p w :
  wf_agent_id id -> normal_name (package_id p) -> hook_confined p -> tools_work p ->
  ready (pm_host w) id p ->
  exists w', install remote_dir id p w = (Ok (new_package id p), w') /\ no_host_fault (pm_host w').
Proof using PTL.
  intros Hid Hn Hhook Htools Hready. rewrite install_unfold by done. cbn zeta. set (new := new_package id p).
  pose proof Hready as (HG & Hv & _ & _ & Htree & Hnames).
  destruct (exists_path (pm_host w) (installation_path new)) eqn:Hex;
    unfold exists_path, node_at in Hex; destruct (installation_path new) as [|c l] eqn:Ep;
    try (by apply stored_not_nil in Ep); rewrite <-Ep in *.
  - apply bool_decide_eq_true in Hex as [n Hnode].
    destruct (retain_ok id new w) as (w' & Hr & HG'); [done..| | |exists w'; unfold bind_try; by rewrite Hr].
    + unfold new in Hnode. simpl in Hnode.
      replace (stored_dir remote_dir id ++ [package_id p; package_suffix p])
        with ((stored_dir remote_dir id ++ [package_id p]) ++ [package_suffix p]) in Hnode by by rewrite <-app_assoc.
      apply Htree, is_dir_nodes in Hnode; [|apply stored_not_nil]. by apply Htree in Hnode.
    + intros q (name & Hq & _ & Hd). rewrite Hq in *. apply is_dir_nodes in Hd; [|apply stored_not_nil]. by apply Hnames in Hd.
  - apply bool_decide_eq_false, eq_None_not_Some in Hex.
    destruct (fetch_ok id p w) as (w1 & w2 & E1 & E2 & HG2 & Hdirs & Hw); [done..|]. fold new in E1, Hdirs, Hw.
    unfold bind at 1. rewrite E1. unfold bind_try at 1, map_err_m. rewrite E2. cbn [map_err].
    destruct (retain_ok id new w2) as (w' & Hr & HG'); [done|done| | |exists w'; unfold bind_try; by rewrite Hr].
    + apply Hdirs. by apply prefix_app_r.
    + intros q (name & Hq & _ & Hd). rewrite Hq in *. apply is_dir_nodes in Hd; [|apply stored_not_nil].
      destruct (decide ((installed_id q, name) = (package_id p, package_suffix p))) as [[= -> ->]|Hne].
      { unfold stored_dir. rewrite <-app_assoc. by apply package_dir_valid. }
      destruct Hw as [_ Hfr]. rewrite (Hfr (stored_dir remote_dir id ++ [installed_id q; name])) in Hd; [by apply Hnames in Hd| |done].
      intros d [->|[->|[]%not_elem_of_nil]%elem_of_cons]%elem_of_cons; [apply temp_stored_disjoint|].
      by apply stored_paths_disjoint.
Qed.
End Install.

(** ** The wait of a hook *)

(** What a wait that ended at poll [i] has seen *)
Definition hook_end_at (try_wait : nat -> option ExitStatus) (now : nat -> N) (deadline : N) (i : nat) (r : HookEnd) : Prop :=
  match r with
  | HookTimeout => try_wait i = None /\ (deadline <= now i)%N
  | HookSuccess => exists st, try_wait i = Some st /\ exit_code st = Some 0%Z
  | HookFailed code err => exists st, try_wait i = Some st /\ exit_code st = code /\ exit_stderr st = err /\ code <> Some 0%Z
  end.

Lemma wait_hook_spec fuel try_wait now deadline i :
  (forall j, now j + POLL_INTERVAL <= now (S j))%N ->
  (deadline <= now i + POLL_INTERVAL * N.of_nat (pred fuel))%N -> 0 < fuel ->
  exists k r, wait_hook fuel try_wait now deadline i = Some r /\ i <= k < i + fuel /\
    (forall j, i <= j < k -> try_wait j = None) /\ hook_end_at try_wait now deadline k r.
Proof.
  intros Hclock. revert i. induction fuel as [|fuel IH]; intros i Hdl Hf; [lia|]. cbn [wait_hook].
  destruct (try_wait i) as [st|] eqn:E.
  - exists i. eexists. split; [done|]. split_and!; [lia..|intros; lia|]. case_bool_decide; simpl; by eauto 10.
  - destruct (N.leb_spec deadline (now i)) as [Hle|Hlt].
    + exists i, HookTimeout. split_and!; [done|lia..|intros; lia|done].
    + destruct fuel as [|fuel]; [simpl in Hdl; lia|]. specialize (Hclock i).
      destruct (IH (S i)) as (k & r & Hr & Hk & Hnone & Hend); [unfold POLL_INTERVAL in *; lia|lia|].
      exists k, r. split_and!; [done|lia..| |done]. intros j Hj. destruct (decide (j = i)) as [->|]; [done|]. apply Hnone. lia.
Qed.

(** The wait of a hook ends after 3,001 polls at most, whatever the process does: with the exit
    the process had, at the first poll that sees it, or with a timeout not before the five minutes
    have passed. *)
Theorem hook_wait_ends try_wait now start :
  (forall j, now j + POLL_INTERVAL <= now (S j))%N -> (start <= now 0%nat)%N ->
  exists k r, wait_hook 3001 try_wait now (start + HOOK_TIMEOUT)%N 0 = Some r /\ k <= 3000 /\
    (forall j, j < k -> try_wait j = None) /\ hook_end_at try_wait now (start + HOOK_TIMEOUT)%N k r.
Proof.
  intros Hclock Hstart. destruct (wait_hook_spec 3001 try_wait now (start + HOOK_TIMEOUT)%N 0) as (k & r & Hr & Hk & Hn & He).
  - done.
  - unfold POLL_INTERVAL, HOOK_TIMEOUT. lia.
  - lia.
  - exists k, r. split_and!; [done|lia| |done]. intros j Hj. apply Hn. lia.
Qed.

(** A process that ends with code 1 before the third poll. *)
Lemma hook_wait_ends_witness :
  exists k r, wait_hook 3001 (fun i => if 2 <=? i then Some {| exit_code := Some 1%Z; exit_stderr := "no" |} else None)
    (fun i => 5 + 100 * N.of_nat i)%N (5 + HOOK_TIMEOUT)%N 0 = Some r /\ k <= 3000 /\ r <> HookTimeout.
Proof.
  destruct (hook_wait_ends (fun i => if 2 <=? i then Some {| exit_code := Some 1%Z; exit_stderr := "no" |} else None)
    (fun i => 5 + 100 * N.of_nat i)%N 5%N) as (k & r & Hr & Hk & _ & _).
  - intros j. unfold POLL_INTERVAL. lia.
  - done.
  - exists k, r. split_and!; [exact Hr|exact Hk|]. vm_compute in Hr. by injection Hr as <-.
Defined.

(** ** Examples

    A downloader and archives that write a file; hooks end with the code [hook_code]. *)

Definition put_file (p : Path) (t : string) : M Host unit := fun h => (tt, set_nodes h (<[p := FileNode t]> (nodes h))).

Definition example_tools (hook_code : Z) : PackageTools := {|
  download p d := let* _ := put_file (d ++ ["archive"]) (repository (package_oci p)) in ret (Ok (repository (package_oci p)));
  extract_archive a d := let* _ := put_file (d ++ ["program"]) a in ret (Ok tt);
  execute_hook _ _ := ret (if (hook_code =? 0)%Z then Ok tt else Err ("exit code " +:+ show_N (Z.to_N hook_code)));
|}.

Lemma put_file_works_in d c t : works_in d (put_file (d ++ [c]) t).
Proof.
  intros h a h' [= _ <-]. split_and!; [| |done].
  - intros q Hq. left. cbn. rewrite lookup_insert_ne; [done|]. intros <-. apply Hq. by apply prefix_app_r.
  - unfold is_dir, node_at. rewrite !bool_decide_eq_true. destruct d; [done|]. cbn [nodes set_nodes].
    rewrite lookup_insert_ne; [done|]. intros E%(f_equal length). rewrite length_app in E. simpl in E. lia.
Qed.

#[export] Instance example_tools_laws code : PackageToolsLaws (example_tools code).
Proof.
  split.
  - intros p d h a h'. cbn. unfold_effects. intros [= _ <-]. by apply (put_file_works_in d "archive" (repository (package_oci p)) h tt).
  - intros t d h a h'. cbn. unfold_effects. intros [= _ <-]. by apply (put_file_works_in d "program" t h tt).
Qed.

Definition example_package (id repo ver : string) (hook : option PostDownloadHook) : PackageData := {|
  package_id := id;
  package_oci := {| repository := repo; version := ver; public_key_url := None |};
  post_download_hook := hook;
|}.

Definition example_hook : PostDownloadHook := {| hook_path := "setup.sh"; hook_args := []; hook_env := ∅ |}.

Definition example_world : PackageWorld := {|
  pm_host := {| nodes := {[ ["data"] := DirNode ]}; host_faults := [] |};
  latest_installed_packages := ∅;
  hooks_run := [];
|}.

(** The world after an install. *)
Definition installed_world (tools : PackageTools) (p : PackageData) (w : PackageWorld) : PackageWorld :=
  (install (PT := tools) ["data"] (SubAgent "agent") p w).2.

Definition install_result (tools : PackageTools) (p : PackageData) (w : PackageWorld) :
  result InstalledPackageData OCIPackageManagerError :=
  (install (PT := tools) ["data"] (SubAgent "agent") p w).1.

Definition package_a : PackageData := example_package "a" "newrelic/a" "1.0" None.
Definition package_a2 : PackageData := example_package "a" "newrelic/a" "2.0" None.
Definition package_b : PackageData := example_package "b" "newrelic/b" "1.0" None.
Definition package_c : PackageData := example_package "c" "newrelic/c" "1.0" None.
Definition package_hooked : PackageData := example_package "a" "newrelic/a" "1.0" (Some example_hook).

Definition stored_at (w : PackageWorld) (p : PackageData) : bool :=
  exists_path (pm_host w) (installation_path (new_package ["data"] (SubAgent "agent") p)).

(** A failed hook is not run again: the package's directory is left behind, so the next
    install takes the package as installed and succeeds without the hook. *)
Theorem hook_failure_not_retried :
  let tools := example_tools 1 in
  let w1 := installed_world tools package_hooked example_world in
  install_result tools package_hooked example_world = Err (PostDownloadHookError "exit code 1") /\
  length (hooks_run w1) = 1 /\
  is_ok (install_result tools package_hooked w1) = true /\
  hooks_run (installed_world tools package_hooked w1) = hooks_run w1.
Proof. vm_compute. split_and!; reflexivity. Qed.

(** An agent with three packages loses the first: one package is noted per agent, not per
    identifier, so installing the third removes it although all three installs succeed.  With two
    packages, an update of one removes the version that runs. *)
Theorem third_package_evicts_first :
  let tools := example_tools 0 in
  let w1 := installed_world tools package_a example_world in
  let w2 := installed_world tools package_b w1 in
  let w3 := installed_world tools package_c w2 in
  let v2 := installed_world tools package_a2 w2 in
  is_ok (install_result tools package_a example_world) = true /\
  is_ok (install_result tools package_b w1) = true /\
  is_ok (install_result tools package_c w2) = true /\
  (stored_at w1 package_a, stored_at w2 package_a, stored_at w3 package_a) = (true, true, false) /\
  is_ok (install_result tools package_a2 w2) = true /\ stored_at v2 package_a = false.
Proof. vm_compute. split_and!; reflexivity. Qed.

Definition package_dotted : PackageData := example_package "a" "newrelic/a.b" "1.0" None.
Definition package_dashed : PackageData := example_package "a" "newrelic/a-b" "1.0" None.

(** Different references can have one directory: the characters other than letters and digits
    are all written as an underscore.  A package is then taken as installed when another one is:
    what is there is the archive of the other repository. *)
Theorem package_directories_collide :
  let tools := example_tools 0 in
  let w1 := installed_world tools package_dotted example_world in
  let path := installation_path (new_package ["data"] (SubAgent "agent") package_dashed) in
  is_ok (repository_from_str "newrelic/a.b") = true /\ is_ok (repository_from_str "newrelic/a-b") = true /\
  install_result tools package_dashed w1 = Ok {| installed_id := "a"; installation_path := path |} /\
  nodes (pm_host (installed_world tools package_dashed w1)) !! (path ++ ["program"]) = Some (FileNode "newrelic/a.b").
Proof. vm_compute. split_and!; reflexivity. Qed.

(** An update of an installed package. *)
Definition updated_from : PackageWorld := installed_world (example_tools 0) package_a example_world.
Definition updated_to : PackageWorld := installed_world (example_tools 0) package_a2 updated_from.

Lemma example_update :
  install (PT := example_tools 0) ["data"] (SubAgent "agent") package_a2 updated_from
  = (Ok (new_package ["data"] (SubAgent "agent") package_a2), updated_to).
Proof. apply run_result. vm_compute. reflexivity. Qed.

Lemma example_latest :
  latest_installed_packages updated_from !! SubAgent "agent" = Some (new_package ["data"] (SubAgent "agent") package_a).
Proof. vm_compute. reflexivity. Qed.


Lemma install_succeeds_witness :
  let tools := example_tools 0 in
  exists w', install (PT := tools) ["data"] (SubAgent "agent") package_hooked example_world
             = (Ok (new_package ["data"] (SubAgent "agent") package_hooked), w').
Proof.
  intros tools.
  assert (forall q n, nodes (pm_host example_world) !! q = Some n -> q = ["data"] /\ n = DirNode) as Hnodes.
  { intros q n. cbn. by intros [<- <-]%lookup_singleton_Some. }
  assert (forall q, is_file_node (node_at (pm_host example_world) q) = false) as Hfile.
  { intros q. unfold node_at. destruct q as [|c q]; [done|].
    destruct (nodes (pm_host example_world) !! (c :: q)) as [n|] eqn:E; [|done]. by apply Hnodes in E as [_ ->]. }
  destruct (install_succeeds (PTL := example_tools_laws 0) ["data"] (SubAgent "agent") package_hooked example_world)
    as (w' & H & _).
  - reflexivity.
  - split_and!; done.
  - intros d h a h' [= _ <-]. split_and!; [apply changes_refl|done..].
  - split_and!; [by eauto|done|done].
  - split_and!; [apply Forall_nil; done|done|intros q _; apply Hfile|intros _ q _; apply Hfile| |].
    + intros q c n [Hq _]%Hnodes. destruct q as [|x [|y q]]; [done|discriminate Hq..].
    + intros q n [-> _]%Hnodes. done.
  - by exists w'.
Defined.
