(* ===== verification/Filesystem.v ===== *)
(** * Files of sub-agents

    Models [agent_type/runtime_config/on_host/filesystem.rs] (the check of the paths of an agent
    type) and [filesystem/rendered.rs]: the declared tree of files is written below the
    sub-agent's directory, what is no longer declared is deleted with the help of a manifest, and
    entries that are not persistent are deleted when the sub-agent stops.

    A [HashMap] of entries is the list of its entries in the order it is iterated in; paths are
    equal when their components are.  The JSON of the manifest is a parameter. *)

From Stdlib Require Import Ascii String.
From stdpp Require Import base option list strings gmap sorting.
From S2P Require Import Prelude RustString FileStore HostFs.

#[local] Arguments String.append !s1 s2 : simpl nomatch.

(** ** The paths of an agent type ([validate_file_entry_path]) *)

Inductive Component : Type := RootDir | CurDir | ParentDir | Normal (name : string).

#[export] Instance component_eq_dec : EqDecision Component.
Proof. solve_decision. Defined.

(** [Path::components]: empty parts and [.] are dropped, but for a [.] at the beginning. *)
Definition component_of (s : string) : option Component :=
  if String.eqb s "" then None
  else if String.eqb s "." then None
  else if String.eqb s ".." then Some ParentDir
  else Some (Normal s).

Definition path_components (path : string) : list Component :=
  if is_absolute path then RootDir :: omap component_of (split "/" path)
  else match split "/" path with
       | [] => []
       | c :: l => if String.eqb c "." then CurDir :: omap component_of l
                   else omap component_of (c :: l)
       end.

Definition MANAGED_PATHS_MANIFEST_FILENAME : string := ".ac-managed-paths.json".

Definition component_text (c : Component) : string :=
  match c with RootDir => "/" | CurDir => "." | ParentDir => ".." | Normal s => s end.

Fixpoint first_escaping (l : list Component) : option Component :=
  match l with
  | [] => None
  | (Normal _ | CurDir) :: l => first_escaping l
  | c :: _ => Some c
  end.

Definition check_basedir_escape_safety (path : string) : result unit string :=
  match first_escaping (path_components path) with
  | None => Ok tt
  | Some comp => Err ("path `" +:+ path +:+ "` has an invalid component: `" +:+ component_text comp +:+ "`")
  end.

Definition check_single_segment (path : string) : result unit string :=
  match path_components path with
  | [Normal _] => Ok tt
  | _ => Err ("path `" +:+ path +:+ "` must be a single path segment (a leaf); declare nested directories explicitly with `kind: dir` and `entries:`")
  end.

Definition check_not_reserved (path : string) : result unit string :=
  if existsb (fun c => bool_decide (c = Normal MANAGED_PATHS_MANIFEST_FILENAME)) (path_components path)
  then Err ("path `" +:+ path +:+ "` uses the reserved filename `" +:+ MANAGED_PATHS_MANIFEST_FILENAME +:+ "`")
  else Ok tt.

Definition error_list (r : result unit string) : list string :=
  match r with Ok _ => [] | Err e => [e] end.

Fixpoint join_errors (l : list string) : string :=
  match l with [] => "" | [e] => e | e :: l => e +:+ ", " +:+ join_errors l end.

Definition validate_file_entry_path (path : string) : result unit string :=
  let errors :=
    (if is_absolute path then ["path `" +:+ path +:+ "` is not relative"] else []) ++
    error_list (check_basedir_escape_safety path) ++
    error_list (check_single_segment path) ++
    error_list (check_not_reserved path) in
  match errors with [] => Ok tt | _ => Err (join_errors errors) end.

(** ** The rendered tree *)

Inductive RenderedEntry : Type :=
| RenderedFile (content : string) (is_persistent : bool)
| RenderedDir (dir_children : list (string * RenderedEntry)) (is_persistent : bool)
| RenderedDirContentFromMap (files : list (string * string)).

Record FileSystem : Type := { base_dir : Path; fs_entries : list (Path * RenderedEntry) }.

Definition FileSystemEntriesError : Type := string.

Definition persistent (e : RenderedEntry) : bool :=
  match e with
  | RenderedFile _ p | RenderedDir _ p => p
  | RenderedDirContentFromMap _ => false
  end.

(** A loop over the entries of a directory. *)
Definition for_entries {A B E} (f : A -> B -> M Host (result unit E)) :
  list (A * B) -> M Host (result unit E) :=
  fix go l :=
    match l with
    | [] => ret (Ok tt)
    | (a, b) :: l => let*? _ := f a b in go l
    end.

Definition fold_entries {A B S} (f : A -> B -> S -> S) : list (A * B) -> S -> S :=
  fix go l s :=
    match l with
    | [] => s
    | (a, b) :: l => go l (f a b s)
    end.

Fixpoint collect_declared (e : RenderedEntry) (path : Path) (declared : gset Path) : gset Path :=
  let declared := {[ path ]} ∪ declared in
  match e with
  | RenderedFile _ _ => declared
  | RenderedDir children _ =>
      fold_entries (fun sub child => collect_declared child (join_path path sub)) children declared
  | RenderedDirContentFromMap files =>
      fold_entries (fun sub _ d => {[ join_path path sub ]} ∪ d) files declared
  end.

Definition ensure_dir (dir : Path) : M Host (result unit FileSystemEntriesError) :=
  map_err_m (fun e => "creating directory " +:+ show_path dir +:+ ": " +:+ io_text e) (dm_create dir).

Definition write_file (path : Path) (content : string) : M Host (result unit FileSystemEntriesError) :=
  match path with
  | [] => ret (Err (show_path path +:+ " has no parent dir"))
  | _ =>
      let*? _ := ensure_dir (parent path) in
      map_err_m (fun e => "creating file " +:+ show_path path +:+ ": " +:+ io_text e) (fw_write path content)
  end.

Fixpoint entry_write (e : RenderedEntry) (path : Path) : M Host (result unit FileSystemEntriesError) :=
  match e with
  | RenderedFile content _ => write_file path content
  | RenderedDir children _ =>
      let*? _ := ensure_dir path in
      for_entries (fun sub_path child => entry_write child (join_path path sub_path)) children
  | RenderedDirContentFromMap files =>
      let*? _ := ensure_dir path in
      for_entries (fun file_name content => write_file (join_path path file_name) content) files
  end.

Definition delete_path (path : Path) : M Host (result unit FileSystemEntriesError) := fun h =>
  map_err_m (fun e => "deleting " +:+ show_path path +:+ ": " +:+ io_text e)
    (if is_dir h path then remove_dir_all path else host_remove_file path) h.

Fixpoint entry_delete_ephemeral (e : RenderedEntry) (path : Path) : M Host (result unit FileSystemEntriesError) :=
  if negb (persistent e) then
    fun h => if exists_path h path then delete_path path h else (Ok tt, h)
  else
    match e with
    | RenderedDir children _ =>
        for_entries (fun sub child => entry_delete_ephemeral child (join_path path sub)) children
    | _ => ret (Ok tt)
    end.

(** ** The manifest *)

Class ManifestSerde : Type := {
  manifest_from_slice : string -> result (list string) string;
  manifest_to_vec : list string -> result string string;
}.

Class ManifestSerdeLaws `{ManifestSerde} : Prop := {
  manifest_roundtrip l : exists t, manifest_to_vec l = Ok t /\ manifest_from_slice t = Ok l;
}.

(** [sort_by_key(Reverse(components().count()))] *)
Definition deeper (p q : Path) : Prop := length q <= length p.

#[export] Instance deeper_dec p q : Decision (deeper p q) := decide (length q <= length p).

(** The order of [PathBuf] is that of the components. *)
Fixpoint path_leb (p q : Path) : bool :=
  match p, q with
  | [], _ => true
  | _ :: _, [] => false
  | a :: p, b :: q => if String.eqb a b then path_leb p q else String.leb a b
  end.

Definition path_le (p q : Path) : Prop := path_leb p q = true.

#[export] Instance path_le_dec p q : Decision (path_le p q) := decide (path_leb p q = true).

Section Write.
Context `{HO : HashOrder} `{MS : ManifestSerde}.

Definition manifest_load (path : Path) : M Host (list string) :=
  let* r := raw_read path in
  ret (match r with
       | Ok raw => match manifest_from_slice raw with Ok l => l | Err _ => [] end
       | Err _ => []
       end).

Definition manifest_save (managed_paths : list string) (path : Path) : M Host (result unit IoError) :=
  let*? _ := match path with [] => ret (Ok tt) | _ => dir_builder_create (parent path) end in
  match manifest_to_vec managed_paths with
  | Err e => ret (Err (OtherIo e))
  | Ok body => raw_write path body
  end.

Definition manifest_path (fs : FileSystem) : Path := join_path (base_dir fs) MANAGED_PATHS_MANIFEST_FILENAME.

Definition is_within_base (path : string) (base : Path) : bool :=
  negb (existsb (fun c => bool_decide (c = ParentDir)) (path_components path)) &&
  is_absolute path && bool_decide (base `prefix_of` components path).

Definition read_manifest (fs : FileSystem) : M Host (gset Path) :=
  let* managed_paths := manifest_load (manifest_path fs) in
  ret (list_to_set (components <$>
    filter (fun p => ~ (is_absolute p = true /\ components p = manifest_path fs) /\
                     is_within_base p (base_dir fs) = true) managed_paths)).

Definition collect_declared_paths (fs : FileSystem) : gset Path :=
  fold_entries (fun path e => collect_declared e path) (fs_entries fs) ∅.

Definition stale_paths (prev_declared curr_declared : gset Path) : list Path :=
  merge_sort deeper (filter (fun p => p ∉ curr_declared) (entries (gset_to_gmap tt prev_declared)).*1).

Definition delete_stale (path : Path) : M Host unit := fun h =>
  if exists_path h path then let '(_, h') := delete_path path h in (tt, h') else (tt, h).

(** [FileSystem::write] *)
Definition filesystem_write (fs : FileSystem) : M Host (result unit FileSystemEntriesError) :=
  let* prev_declared := read_manifest fs in
  let curr_declared := collect_declared_paths fs in
  let* _ := for_each (stale_paths prev_declared curr_declared) delete_stale in
  let*? _ := for_entries (fun path e => entry_write e path) (fs_entries fs) in
  let managed_paths := merge_sort path_le (elements curr_declared) in
  let* _ := manifest_save (show_path <$> managed_paths) (manifest_path fs) in
  ret (Ok tt).

(** [FileSystem::delete_ephemeral] *)
Definition filesystem_delete_ephemeral (fs : FileSystem) : M Host (result unit FileSystemEntriesError) :=
  for_entries (fun path e => entry_delete_ephemeral e path) (fs_entries fs).

End Write.

(** ** Lemmas: the paths of an agent type *)

Lemma split_no_sep_elem sep s c : c ∈ split sep s -> str_all (fun x => negb (Ascii.eqb x sep)) c = true.
Proof.
  revert c. induction s as [|x s IH]; intros c; simpl; [by intros ->%list_elem_of_singleton|].
  destruct (Ascii.eqb x sep) eqn:E; [intros [->|?]%elem_of_cons; [done|by apply IH]|].
  destruct (split sep s) as [|p l] eqn:Es; [intros ->%list_elem_of_singleton; simpl; by rewrite E|].
  intros [->|Hin]%elem_of_cons; [|apply IH; by right]. cbn [str_all]. rewrite E. apply IH. by left.
Qed.

Definition safe_key (s : string) : Prop := validate_file_entry_path s = Ok tt.

(** A name a checked path can have. *)
Definition good_name (c : string) : Prop := normal_name c /\ c <> MANAGED_PATHS_MANIFEST_FILENAME.

Lemma omap_single l c :
  omap component_of l = [Normal c] -> filter (fun c => c <> "" /\ c <> ".") l = [c] /\ c ∈ l /\ c <> "" /\ c <> "." /\ c <> "..".
Proof.
  induction l as [|s l IH]; simpl; [done|]. unfold component_of at 1.
  destruct (String.eqb_spec s "") as [->|H1]; [rewrite filter_cons_False by naive_solver; intros ?%IH; set_solver|].
  destruct (String.eqb_spec s ".") as [->|H2]; [rewrite filter_cons_False by naive_solver; intros ?%IH; set_solver|].
  destruct (String.eqb_spec s "..") as [->|H3]; [done|]. intros [= -> Hl]. rewrite filter_cons_True by done.
  assert (filter (fun c => c <> "" /\ c <> ".") l = []) as ->; [|set_solver]. clear -Hl.
  induction l as [|s l IH]; [done|]. simpl in Hl. unfold component_of at 1 in Hl.
  destruct (String.eqb_spec s "") as [->|H1]; [rewrite filter_cons_False by naive_solver; by apply IH|].
  destruct (String.eqb_spec s ".") as [->|H2]; [rewrite filter_cons_False by naive_solver; by apply IH|].
  by destruct (String.eqb_spec s "..").
Qed.

(** A checked path is one name, other than the manifest's. *)
Lemma safe_key_spec s : safe_key s -> exists c, components s = [c] /\ is_absolute s = false /\ good_name c.
Proof.
  unfold safe_key, validate_file_entry_path, check_single_segment, check_not_reserved.
  destruct (is_absolute s) eqn:Ha; [done|]. destruct (check_basedir_escape_safety s); simpl; [|done].
  destruct (path_components s) as [|[| | |c] [|]] eqn:Hc; simpl; try done. case_bool_decide as Hres; [done|]. intros _.
  exists c. unfold path_components in Hc. rewrite Ha in Hc.
  assert (omap component_of (split "/" s) = [Normal c]) as Ho.
  { destruct (split "/" s) as [|x l]; [done|]. by destruct (String.eqb x "."). }
  apply omap_single in Ho as (Hf & Hin & H1 & H2 & H3). split_and!; [exact Hf|done|].
  split; [|congruence]. split_and!; [done..|]. by eapply split_no_sep_elem.
Qed.

Lemma join_safe base s : safe_key s -> exists c, join_path base s = base ++ [c] /\ components s = [c] /\ good_name c.
Proof.
  intros (c & Hc & Ha & Hg)%safe_key_spec. exists c. unfold join_path. by rewrite Ha, Hc.
Qed.

(** ** Lemmas: the nodes a tree declares *)

Lemma entry_ind' (P : RenderedEntry -> Prop) :
  (forall c p, P (RenderedFile c p)) ->
  (forall ch p, Forall (fun kv => P kv.2) ch -> P (RenderedDir ch p)) ->
  (forall fs, P (RenderedDirContentFromMap fs)) -> forall e, P e.
Proof.
  intros Hf Hd Hm. fix IH 1. intros [c p|ch p|fs]; [apply Hf| |apply Hm].
  apply Hd. induction ch as [|[k e] ch IHl]; constructor; [apply IH|exact IHl].
Qed.

(** The nodes of the tree of an entry. *)
Fixpoint tree_nodes (e : RenderedEntry) (path : Path) : list (Path * Node) :=
  match e with
  | RenderedFile content _ => [(path, FileNode content)]
  | RenderedDir children _ => (path, DirNode) :: flat_map (fun kv => tree_nodes kv.2 (join_path path kv.1)) children
  | RenderedDirContentFromMap files =>
      (path, DirNode) :: map (fun kv => (join_path path kv.1, FileNode kv.2)) files
  end.

(** A tree of checked paths; the keys of a map differ. *)
Inductive wf_entry : RenderedEntry -> Prop :=
| wf_file c p : wf_entry (RenderedFile c p)
| wf_dir ch p :
    NoDup (map (fun kv => components kv.1) ch) -> Forall (fun kv => safe_key kv.1 /\ wf_entry kv.2) ch ->
    wf_entry (RenderedDir ch p)
| wf_dir_content fs :
    NoDup (map (fun kv => components kv.1) fs) -> Forall (fun kv => safe_key kv.1) fs ->
    wf_entry (RenderedDirContentFromMap fs).

Lemma tree_nodes_root e path : exists n l, tree_nodes e path = (path, n) :: l.
Proof. destruct e; simpl; eauto. Qed.

Lemma tree_nodes_below e path q n :
  wf_entry e -> (q, n) ∈ tree_nodes e path -> exists l, q = path ++ l /\ Forall good_name l.
Proof.
  intros Hwf. revert path. induction e as [c p|ch p IH|fs] using entry_ind'; intros path; simpl.
  - intros [= -> _]%list_elem_of_singleton. exists []. by rewrite app_nil_r.
  - intros [[= -> _]|Hin]%elem_of_cons; [exists []; by rewrite app_nil_r|].
    apply list_elem_of_In, in_flat_map in Hin as ([k e] & Hk%list_elem_of_In & Hin%list_elem_of_In). simpl in Hin.
    inversion Hwf as [|? ? _ Hall|]; subst. rewrite Forall_forall in IH, Hall. destruct (Hall _ Hk) as [Hs Hwe].
    destruct (join_safe path k Hs) as (c & Hj & _ & Hg). rewrite Hj in Hin.
    destruct (IH _ Hk Hwe _ Hin) as (l & -> & Hl). exists (c :: l). rewrite <-app_assoc. split; [done|by constructor].
  - intros [[= -> _]|Hin]%elem_of_cons; [exists []; by rewrite app_nil_r|].
    apply list_elem_of_In, in_map_iff in Hin as ([k t] & [= <- _] & Hk%list_elem_of_In).
    inversion Hwf as [| |? _ Hall]; subst. rewrite Forall_forall in Hall. destruct (join_safe path k (Hall _ Hk)) as (c & Hj & _ & Hg).
    exists [c]. simpl. rewrite Hj. split; [done|]. by repeat constructor; apply Hg.
Qed.

Lemma fold_entries_elem {A B} (f : A -> B -> gset Path -> gset Path) (g : A -> B -> list Path) l s q :
  (forall a b s, (a, b) ∈ l -> q ∈ f a b s <-> q ∈ g a b \/ q ∈ s) ->
  q ∈ fold_entries f l s <-> (exists a b, (a, b) ∈ l /\ q ∈ g a b) \/ q ∈ s.
Proof.
  revert s. induction l as [|[a b] l IH]; intros s Hf; cbn.
  - split; [by right|]. by intros [(? & ? & []%not_elem_of_nil & _)|?].
  - rewrite IH by (intros; apply Hf; by right). rewrite Hf by by left. split.
    + intros [(a' & b' & Hin & Hq)|[Hq|Hq]]; [left; exists a', b'; split; [by right|done]|left; exists a, b; split; [by left|done]|by right].
    + intros [(a' & b' & [[= -> ->]|Hin]%elem_of_cons & Hq)|Hq]; [by right; left|left; by exists a', b'|by right; right].
Qed.

Lemma elem_of_collect_declared e path s q : q ∈ collect_declared e path s <-> q ∈ (tree_nodes e path).*1 \/ q ∈ s.
Proof.
  revert path s. induction e as [c p|ch p IH|fs] using entry_ind'; intros path s; cbn [collect_declared tree_nodes].
  - set_solver.
  - rewrite Forall_forall in IH.
    rewrite (fold_entries_elem _ (fun k e => (tree_nodes e (join_path path k)).*1)) by (intros a b s' Hin; apply (IH (a, b) Hin)).
    rewrite fmap_cons, elem_of_cons, elem_of_union, elem_of_singleton, !list_elem_of_fmap. cbn.
    setoid_rewrite list_elem_of_In. setoid_rewrite in_flat_map. split.
    + intros [(k & e & Hk & Hq)|[->|?]]; [|by left; left|by right]. left; right.
      apply list_elem_of_In, list_elem_of_fmap in Hq as ([q' n] & -> & Hq%list_elem_of_In). exists (q', n). split; [done|]. by exists (k, e).
    + intros [[->|([q' n] & -> & [k e] & Hk & Hq)]|?]; [by right; left| |by right; right]. left.
      exists k, e. split; [done|]. apply list_elem_of_In, list_elem_of_fmap. exists (q', n). split; [done|by apply list_elem_of_In].
  - rewrite (fold_entries_elem _ (fun k _ => [join_path path k])) by (intros; rewrite list_elem_of_singleton; set_solver).
    rewrite fmap_cons, elem_of_cons, elem_of_union, elem_of_singleton, list_elem_of_fmap. cbn. setoid_rewrite list_elem_of_singleton. split.
    + intros [(k & t & Hk & ->)|[->|?]]; [|by left; left|by right]. left; right.
      exists (join_path path k, FileNode t). split; [done|]. apply list_elem_of_In, in_map_iff. exists (k, t). split; [done|by apply list_elem_of_In].
    + intros [[->|([q' n] & -> & Hq)]|?]; [by right; left| |by right; right]. left.
      apply list_elem_of_In, in_map_iff in Hq as ([k t] & [= <- _] & Hk%list_elem_of_In). by exists k, t.
Qed.

(** ** Lemmas: writing the tree *)

Definition same_kind (o : option Node) (n : Node) : Prop :=
  match o, n with
  | None, _ | Some DirNode, DirNode | Some (FileNode _), FileNode _ => True
  | _, _ => False
  end.

(** What is on the disk does not stand in the way of the nodes to write. *)
Definition compatible (h : Host) (fl : list (Path * Node)) : Prop := forall q n, (q, n) ∈ fl -> same_kind (nodes h !! q) n.

(** A call that writes the nodes [fl], whose root is [path]. *)
Definition writes (path : Path) (fl : list (Path * Node)) (h : Host) (r : result unit FileSystemEntriesError) (h' : Host) : Prop :=
  (forall q, q ∉ fl.*1 -> nodes h' !! q = nodes h !! q \/
     (q `prefix_of` path /\ nodes h !! q = None /\ nodes h' !! q = Some DirNode)) /\
  (r = Ok tt -> forall q n, (q, n) ∈ fl -> nodes h' !! q = Some n) /\
  (no_host_fault h -> no_host_fault h' /\
    (validate_path path = Ok tt -> clear_way h (parent path) -> compatible h fl -> r = Ok tt)).

Lemma parent_snoc p c : parent (p ++ [c]) = p.
Proof. unfold parent. apply removelast_last. Qed.

Lemma prefix_snoc (q p : Path) c : q `prefix_of` p ++ [c] <-> q `prefix_of` p \/ q = p ++ [c].
Proof.
  split.
  - intros [l Hl]. destruct (decide (l = [])) as [->|Hne]; [right; by rewrite app_nil_r in Hl|left].
    destruct (exists_last Hne) as (l' & x & ->). rewrite app_assoc in Hl. apply app_inj_tail in Hl as [-> _]. by apply prefix_app_r.
  - intros [?| ->]; [by apply prefix_app_r|done].
Qed.

Lemma parent_prefix p : parent p `prefix_of` p.
Proof. destruct p as [|c p] using rev_ind; [done|]. rewrite parent_snoc. by apply prefix_app_r. Qed.

Lemma ensure_dir_spec p h r h' :
  ensure_dir p h = (r, h') ->
  adds_dirs p h h' /\ (r = Ok tt -> dirs_to h' p) /\
  (no_host_fault h -> no_host_fault h' /\ (validate_path p = Ok tt -> clear_way h p -> r = Ok tt)).
Proof.
  unfold ensure_dir. unfold_effects. destruct (dm_create p h) as [r0 h0] eqn:E. intros [= <- <-].
  apply dm_create_spec in E as (H1 & H2 & H3). split_and!; [done| |].
  - destruct r0 as [[]|]; [|done]. intros _ q Hq. by apply H2.
  - intros HG. destruct (H3 HG) as [? Hok]. split; [done|]. intros Hv Hw. by rewrite (Hok Hv Hw).
Qed.

Lemma write_file_spec path content h r h' :
  path <> [] -> write_file path content h = (r, h') -> writes path [(path, FileNode content)] h r h'.
Proof.
  intros Hne. unfold write_file. destruct path as [|c0 p0] eqn:Ep; [done|]. rewrite <-Ep in *. clear c0 p0 Ep. unfold_effects.
  destruct (ensure_dir (parent path) h) as [r1 h1] eqn:E1. apply ensure_dir_spec in E1 as (Ha & Hd & Hg).
  assert (forall q, q ∉ [path] -> nodes h1 !! q = nodes h !! q \/
            (q `prefix_of` path /\ nodes h !! q = None /\ nodes h1 !! q = Some DirNode)) as Hfr.
  { intros q _. destruct (Ha q) as [?|(? & ? & ?)]; [by left|right]. split_and!; [|done..]. etransitivity; [done|apply parent_prefix]. }
  destruct r1 as [[]|e].
  2:{ intros [= <- <-]. split_and!; [done..|]. intros HG. destruct (Hg HG) as [? Hok]. split; [done|]. intros Hv Hw Hc. apply Hok; [|done].
      pose proof (validate_parent _ Hv) as Hvp. exact Hvp. }
  destruct (fw_write path content h1) as [r2 h2] eqn:E2. apply fw_write_spec in E2 as (Hf1 & Hf2 & Hf3 & Hf4).
  intros [= <- <-]. split_and!.
  - intros q Hq. rewrite Hf1 by set_solver. by apply Hfr.
  - intros Hr q n [= -> ->]%list_elem_of_singleton. apply Hf3. by destruct r2 as [[]|].
  - intros HG. destruct (Hg HG) as [HG1 _]. destruct (Hf4 HG1) as [HG2 Hok]. split; [done|]. intros Hv Hw Hc.
    rewrite Hok; [done|done|by apply Hd|]. unfold is_dir, node_at. apply bool_decide_eq_false. destruct path as [|c p]; [done|].
    specialize (Hc (c :: p) (FileNode content) ltac:(by left)). destruct (Ha (c :: p)) as [->|(Hp & _)].
    + destruct (nodes h !! (c :: p)) as [[]|]; simpl in Hc; done || congruence.
    + exfalso. apply prefix_length in Hp. destruct (exists_last Hne) as (l & x & E). rewrite E, parent_snoc, length_app in Hp. simpl in Hp. lia.
Qed.

Lemma writes_keeps path fl h r h' P q :
  writes path fl h r h' -> (forall q n, (q, n) ∈ fl -> path `prefix_of` q) ->
  disjoint_paths P path -> P `prefix_of` q -> nodes h' !! q = nodes h !! q.
Proof.
  intros (W1 & _) Hb Hd Hq. destruct (W1 q) as [?|(Hp & _)]; [|done|].
  - intros ([q' n] & -> & Hin)%list_elem_of_fmap. apply Hb in Hin. by eapply disjoint_below.
  - destruct Hd as [Hd _]. destruct Hd. by transitivity q.
Qed.

Lemma writes_clear path fl h r h' P :
  writes path fl h r h' -> (forall q n, (q, n) ∈ fl -> path `prefix_of` q) ->
  disjoint_paths P path -> clear_way h (parent P) -> clear_way h' (parent P).
Proof.
  intros (W1 & _) Hb [_ Hd] Hw q Hq. specialize (Hw q Hq). unfold node_at in *. destruct q as [|c q]; [done|].
  destruct (W1 (c :: q)) as [->|(_ & _ & ->)]; [|done..].
  intros ([q' n] & Eq & Hin)%list_elem_of_fmap. apply Hb in Hin. simpl in *. subst q'. apply Hd.
  etransitivity; [exact Hin|]. etransitivity; [exact Hq|apply parent_prefix].
Qed.

(** A loop over parts that write disjoint nodes *)
Lemma for_entries_writes {A B} (f : A -> B -> M Host (result unit FileSystemEntriesError))
    (pth : A -> B -> Path) (fl : A -> B -> list (Path * Node)) (l : list (A * B)) h r h' :
  (forall a b h r h', (a, b) ∈ l -> f a b h = (r, h') -> writes (pth a b) (fl a b) h r h') ->
  (forall a b q n, (a, b) ∈ l -> (q, n) ∈ fl a b -> pth a b `prefix_of` q) ->
  ForallOrdPairs (fun x y => disjoint_paths (pth x.1 x.2) (pth y.1 y.2)) l ->
  for_entries f l h = (r, h') ->
  let all := flat_map (fun kv => fl kv.1 kv.2) l in
  (forall q, q ∉ all.*1 -> nodes h' !! q = nodes h !! q \/
     ((exists kv, kv ∈ l /\ q `prefix_of` pth kv.1 kv.2) /\ nodes h !! q = None /\ nodes h' !! q = Some DirNode)) /\
  (r = Ok tt -> forall q n, (q, n) ∈ all -> nodes h' !! q = Some n) /\
  (no_host_fault h -> no_host_fault h' /\
    ((forall kv, kv ∈ l -> validate_path (pth kv.1 kv.2) = Ok tt /\ clear_way h (parent (pth kv.1 kv.2))) ->
     compatible h all -> r = Ok tt)).
Proof.
  intros Hf Hbelow. revert h r h'. induction l as [|[a b] l IH]; intros h r h' Hd; cbn [for_entries].
  { intros [= <- <-]. simpl. split_and!; [by left|by intros _ q n ?%not_elem_of_nil|done]. }
  inversion Hd as [|? ? Hd1 Hd2]; subst. unfold_effects. destruct (f a b h) as [r1 h1] eqn:E1.
  apply Hf in E1 as W; [|by left]. pose proof W as (W1 & W2 & W3). rewrite Forall_forall in Hd1.
  assert (forall q n, (q, n) ∈ fl a b -> pth a b `prefix_of` q) as Hb by (intros; eapply Hbelow; [by left|done]).
  destruct r1 as [[]|e].
  2:{ intros [= <- <-]. cbn. rewrite fmap_app. split_and!; [|done|].
      - intros q [Hq _]%not_elem_of_app. destruct (W1 q Hq) as [?|(? & ? & ?)]; [by left|right].
        split_and!; [exists (a, b); split; [by left|done]|done..].
      - intros HG. destruct (W3 HG) as [? Hok]. split; [done|]. intros Hl Hc. destruct (Hl (a, b)) as [? ?]; [by left|].
        apply Hok; [done..|]. intros q n Hq. apply Hc, elem_of_app. by left. }
  intros E. apply IH in E as (I1 & I2 & I3); [|intros; eapply Hf; [by right|done]|intros; eapply Hbelow; [by right|done]|done].
  assert (forall q n, (q, n) ∈ flat_map (fun kv => fl kv.1 kv.2) l -> nodes h1 !! q = nodes h !! q) as Hrest.
  { intros q n ([a' b'] & Hk%list_elem_of_In & Hq%list_elem_of_In)%list_elem_of_In%in_flat_map.
    eapply writes_keeps; [exact W|exact Hb| |eapply Hbelow; [by right|exact Hq]].
    destruct (Hd1 _ Hk). by split. }
  cbn. rewrite fmap_app. split_and!.
  - intros q [Hq1 Hq2]%not_elem_of_app. destruct (I1 q Hq2) as [->|((kv & Hkv & Hp) & Hn & ?)].
    + destruct (W1 q Hq1) as [?|(? & ? & ?)]; [by left|right]. split_and!; [exists (a, b); split; [by left|done]|done..].
    + right. split_and!; [exists kv; split; [by right|done]| |done].
      destruct (W1 q Hq1) as [<-|(_ & ? & _)]; done.
  - intros Hr q n [Hq|Hq]%elem_of_app; [|by apply I2]. specialize (W2 eq_refl _ _ Hq).
    destruct (I1 q) as [->|(_ & ? & _)]; [|done|congruence]. intros ([q' n'] & -> & Hin)%list_elem_of_fmap. simpl in *.
    apply list_elem_of_In, in_flat_map in Hin as ([a' b'] & Hk%list_elem_of_In & Hq'%list_elem_of_In).
    specialize (Hd1 _ Hk). eapply disjoint_below; [exact Hd1| |]; [eapply Hb; exact Hq|]. eapply Hbelow; [by right|exact Hq'].
  - intros HG. destruct (W3 HG) as [HG1 _]. destruct (I3 HG1) as [HG2 Hok]. split; [done|]. intros Hl Hc. apply Hok.
    + intros [a' b'] Hk. destruct (Hl (a', b')) as [Hv Hw]; [by right|]. split; [done|].
      eapply writes_clear; [exact W|exact Hb| |done]. destruct (Hd1 _ Hk). by split.
    + intros q n Hq. rewrite (Hrest _ _ Hq). apply Hc, elem_of_app. by right.
Qed.

Lemma siblings_disjoint (p : Path) c d : c <> d -> disjoint_paths (p ++ [c]) (p ++ [d]).
Proof.
  intros Hne. split; intros [l Hl]; rewrite <-app_assoc in Hl; apply app_inv_head in Hl; simpl in Hl; congruence.
Qed.

Lemma keys_disjoint {B} path (l : list (string * B)) :
  NoDup (map (fun kv => components kv.1) l) -> Forall (fun kv => safe_key kv.1) l ->
  ForallOrdPairs (fun x y => disjoint_paths (join_path path x.1) (join_path path y.1)) l.
Proof.
  induction l as [|[k b] l IH]; simpl; [constructor|]. intros [Hk Hnd]%NoDup_cons [Hs Hall]%Forall_cons.
  constructor; [|by apply IH]. rewrite Forall_forall in *. intros [k' b'] Hin. simpl in *.
  destruct (join_safe path k Hs) as (c & -> & Hc & _). destruct (join_safe path k' (Hall _ Hin)) as (d & -> & Hd & _).
  apply siblings_disjoint. intros ->. apply Hk. rewrite Hc, <-Hd. apply list_elem_of_In, in_map_iff. exists (k', b').
  split; [done|by apply list_elem_of_In].
Qed.

(** A directory to be written can be made. *)
Lemma root_clear h path fl :
  (path, DirNode) ∈ fl -> clear_way h (parent path) -> compatible h fl -> clear_way h path.
Proof.
  intros Hin Hw Hc q Hq. destruct path as [|c p _] using rev_ind; [by apply prefix_nil_inv in Hq as ->|].
  rewrite parent_snoc in Hw. apply prefix_snoc in Hq as [?| ->]; [by apply Hw|]. apply Hc in Hin.
  unfold node_at. destruct (p ++ [c]); [done|]. by destruct (nodes h !! _) as [[]|].
Qed.

Lemma flat_map_single {A B} (f : A -> B) l : map f l = flat_map (fun a => [f a]) l.
Proof. induction l; simpl; congruence. Qed.

(** A directory and its entries *)
Lemma dir_writes {B} (f : string -> B -> M Host (result unit FileSystemEntriesError))
    (fl : string -> B -> list (Path * Node)) (l : list (string * B)) path h r h' :
  path <> [] -> NoDup (map (fun kv => components kv.1) l) -> Forall (fun kv => safe_key kv.1) l ->
  (forall k b h r h', (k, b) ∈ l -> f k b h = (r, h') -> writes (join_path path k) (fl k b) h r h') ->
  (forall k b q n, (k, b) ∈ l -> (q, n) ∈ fl k b -> join_path path k `prefix_of` q) ->
  (forall k b, (k, b) ∈ l -> join_path path k ∈ (fl k b).*1) ->
  (let*? _ := ensure_dir path in for_entries f l) h = (r, h') ->
  writes path ((path, DirNode) :: flat_map (fun kv => fl kv.1 kv.2) l) h r h'.
Proof.
  intros Hne Hnd Hsafe Hf Hbelow Hroot. unfold_effects.
  destruct (ensure_dir path h) as [r1 h1] eqn:E1. apply ensure_dir_spec in E1 as (Ha & Hd & Hg).
  destruct r1 as [[]|e].
  2:{ intros [= <- <-]. split_and!; [intros q _; by apply Ha|done|]. intros HG. destruct (Hg HG) as [? Hok]. split; [done|].
      intros Hv Hw Hc. apply Hok; [done|]. eapply root_clear; [|exact Hw|exact Hc]. apply elem_of_cons. by left. }
  intros E. apply (for_entries_writes f (fun k _ => join_path path k) fl) in E as (F1 & F2 & F3);
    [|done|done|by apply keys_disjoint]. specialize (Hd eq_refl).
  rewrite Forall_forall in Hsafe.
  assert (path ∉ (flat_map (fun kv => fl kv.1 kv.2) l).*1) as Hpath.
  { intros ([q n] & Eq & Hin)%list_elem_of_fmap. simpl in Eq. subst q.
    apply list_elem_of_In, in_flat_map in Hin as ([k b] & Hk%list_elem_of_In & Hq%list_elem_of_In).
    apply (Hbelow k b) in Hq; [|done]. destruct (join_safe path k (Hsafe _ Hk)) as (c & Hj & _). rewrite Hj in Hq.
    apply prefix_length in Hq. rewrite length_app in Hq. simpl in Hq. lia. }
  split_and!.
  - intros q [Hq1 Hq2]%not_elem_of_cons. destruct (F1 q Hq2) as [->|(([k b] & Hk & Hp) & Hn & ?)]; [by apply Ha|].
    right. split_and!; [|by destruct (Ha q) as [<-|(_ & ? & _)]|done].
    destruct (join_safe path k (Hsafe _ Hk)) as (c & Hj & _). simpl in Hp. pose proof (Hroot k b Hk) as Hr. rewrite Hj in Hp, Hr.
    apply prefix_snoc in Hp as [?| ->]; [done|]. destruct Hq2. apply list_elem_of_fmap in Hr as ([q' n] & -> & Hin).
    apply list_elem_of_fmap. exists (q', n). split; [done|]. apply list_elem_of_In, in_flat_map. exists (k, b).
    split; by apply list_elem_of_In.
  - intros Hr q n [[= -> ->]|Hq]%elem_of_cons; [|by apply F2]. specialize (Hd path ltac:(done)).
    apply is_dir_nodes in Hd; [|done]. destruct (F1 path Hpath) as [->|(_ & ? & _)]; [done|congruence].
  - intros HG. destruct (Hg HG) as [HG1 _]. destruct (F3 HG1) as [HG2 Hok]. split; [done|]. intros Hv Hw Hc. apply Hok.
    + intros [k b] Hk. destruct (join_safe path k (Hsafe _ Hk)) as (c & Hj & _ & (Hn & _)). simpl. rewrite Hj, parent_snoc.
      split; [|by apply dirs_clear]. apply validate_app. split; [done|]. apply validate_names. repeat constructor. apply Hn.
    + intros q n Hq. specialize (Hc q n ltac:(by right)). destruct (Ha q) as [->|(Hp & _)]; [done|]. exfalso.
      apply list_elem_of_In, in_flat_map in Hq as ([k b] & Hk%list_elem_of_In & Hq%list_elem_of_In).
      apply (Hbelow k b) in Hq; [|done]. destruct (join_safe path k (Hsafe _ Hk)) as (c & Hj & _). rewrite Hj in Hq.
      apply prefix_length in Hp, Hq. rewrite length_app in Hq. simpl in Hq. lia.
Qed.

Lemma entry_write_spec e path h r h' :
  wf_entry e -> path <> [] -> entry_write e path h = (r, h') -> writes path (tree_nodes e path) h r h'.
Proof.
  intros Hwf. revert path h r h'. induction e as [c p|ch p IH|fs] using entry_ind'; intros path h r h' Hne; cbn [entry_write tree_nodes].
  - by apply write_file_spec.
  - inversion Hwf as [|? ? Hnd Hall|]; subst. rewrite Forall_forall in IH, Hall.
    intros E. apply (dir_writes _ (fun k e => tree_nodes e (join_path path k))) in E; [exact E|done|done| | | |].
    + rewrite Forall_forall. intros kv Hkv. by apply Hall.
    + intros k e h0 r0 h0' Hk. apply (IH (k, e)); [done|by apply (Hall (k, e))|].
      destruct (join_safe path k) as (c & -> & _); [by apply (Hall (k, e))|]. by destruct path.
    + intros k e q n Hk Hq. destruct (tree_nodes_below _ _ _ _ (proj2 (Hall _ Hk)) Hq) as (l & -> & _). by apply prefix_app_r.
    + intros k e _. destruct (tree_nodes_root e (join_path path k)) as (n & l & ->). by left.
  - inversion Hwf as [| |? Hnd Hall]; subst. intros E.
    apply (dir_writes _ (fun k t => [(join_path path k, FileNode t)])) in E; [|done|done|done| | |].
    + by rewrite <-flat_map_single in E.
    + intros k t h0 r0 h0' Hk. apply write_file_spec. rewrite Forall_forall in Hall.
      destruct (join_safe path k (Hall _ Hk)) as (c & -> & _). by destruct path.
    + by intros k t q n _ [= -> _]%list_elem_of_singleton.
    + intros k t _. by left.
Qed.

(** ** Lemmas: deleting *)

Lemma delete_path_spec p h r h' :
  delete_path p h = (r, h') ->
  only_removes (fun q => p `prefix_of` q) h h' /\ (r = Ok tt -> p <> [] -> nodes h' !! p = None) /\
  (r = Ok tt -> is_dir h p = true -> forall q, p `prefix_of` q -> nodes h' !! q = None) /\
  (no_host_fault h -> no_host_fault h' /\ (exists_path h p = true -> r = Ok tt)).
Proof.
  unfold delete_path. unfold_effects. destruct (is_dir h p) eqn:Hd.
  - destruct (remove_dir_all p h) as [r0 h0] eqn:E. intros [= <- <-]. apply remove_dir_all_spec in E as (H1 & H2 & H3).
    split_and!; [exact H1|intros Hr _; apply H2; [by destruct r0 as [[]|]|done]|intros Hr _; apply H2; by destruct r0 as [[]|]|].
    intros HG. destruct (H3 HG) as [? Hok]. split; [done|]. intros _. by rewrite (Hok Hd).
  - destruct (host_remove_file p h) as [r0 h0] eqn:E. intros [= <- <-]. apply host_remove_file_spec in E as (H1 & H2 & H3 & H4).
    split_and!; [|intros Hr _; apply H2; by destruct r0 as [[]|]|done|].
    + intros q. destruct (decide (q = p)) as [->|]; [|left; by apply H1].
      destruct r0 as [[]|]; [right; split; [done|by apply H2]|left; by rewrite H3].
    + intros HG. destruct (H4 HG) as [? Hok]. split; [done|]. intros Hex. rewrite Hok; [done|].
      unfold exists_path, is_dir in *. apply bool_decide_eq_true in Hex as [n Hn]. apply bool_decide_eq_false in Hd.
      rewrite Hn in *. by destruct n.
Qed.

Lemma not_exists_none h p : p <> [] -> exists_path h p = false -> nodes h !! p = None.
Proof.
  unfold exists_path, node_at. intros Hp H%bool_decide_eq_false. destruct p; [done|]. by apply eq_None_not_Some.
Qed.

Lemma delete_stale_spec l h u h' :
  for_each l delete_stale h = (u, h') ->
  only_removes (fun q => exists p, p ∈ l /\ p `prefix_of` q) h h' /\
  (no_host_fault h -> no_host_fault h' /\ forall p, p ∈ l -> p <> [] -> nodes h' !! p = None).
Proof.
  revert h. induction l as [|p l IH]; intros h; cbn [for_each].
  { intros [= _ <-]. split; [apply only_removes_refl|]. intros HG. split; [done|]. by intros p ?%not_elem_of_nil. }
  unfold bind. destruct (delete_stale p h) as [[] h1] eqn:E1. intros E.
  assert (only_removes (fun q => p `prefix_of` q) h h1 /\
          (no_host_fault h -> no_host_fault h1 /\ (p <> [] -> nodes h1 !! p = None))) as [R1 G1].
  { unfold delete_stale in E1. destruct (exists_path h p) eqn:Hex.
    - destruct (delete_path p h) as [r0 h0] eqn:Ed. injection E1 as <-. apply delete_path_spec in Ed as (H1 & H2 & _ & H3).
      split; [done|]. intros HG. destruct (H3 HG) as [? Hok]. split; [done|]. apply H2. by apply Hok.
    - injection E1 as <-. split; [apply only_removes_refl|]. intros HG. split; [done|]. intros Hp. by apply not_exists_none. }
  apply IH in E as [R2 G2]. split.
  - eapply only_removes_trans; (eapply only_removes_weaken; [|eassumption]); simpl.
    + intros q Hq. exists p. split; [by left|done].
    + intros q (p' & ? & ?). exists p'. split; [by right|done].
  - intros HG. destruct (G1 HG) as [HG1 Hp]. destruct (G2 HG1) as [HG2 Hl]. split; [done|].
    intros p' [->|Hin]%elem_of_cons Hne; [|by apply Hl]. eapply only_removes_none; [exact R2|by apply Hp].
Qed.

(** ** Lemmas: the whole tree *)

Definition wf_filesystem (fs : FileSystem) : Prop :=
  Forall (fun pe => (exists c, pe.1 = base_dir fs ++ [c] /\ good_name c) /\ wf_entry pe.2) (fs_entries fs) /\
  NoDup (fs_entries fs).*1.

(** The nodes the tree declares *)
Definition declared_nodes (fs : FileSystem) : list (Path * Node) :=
  flat_map (fun pe => tree_nodes pe.2 pe.1) (fs_entries fs).

Lemma elem_of_declared fs q : q ∈ collect_declared_paths fs <-> q ∈ (declared_nodes fs).*1.
Proof.
  unfold collect_declared_paths, declared_nodes.
  rewrite (fold_entries_elem _ (fun p e => (tree_nodes e p).*1)) by (intros; apply elem_of_collect_declared).
  rewrite list_elem_of_fmap. split.
  - intros [(p & e & Hp & ([q' n] & -> & Hin)%list_elem_of_fmap)|?]; [|set_solver]. exists (q', n). split; [done|].
    apply list_elem_of_In, in_flat_map. exists (p, e). split; by apply list_elem_of_In.
  - intros ([q' n] & -> & Hin). apply list_elem_of_In, in_flat_map in Hin as ([p e] & Hp%list_elem_of_In & Hin%list_elem_of_In).
    left. exists p, e. split; [done|]. apply list_elem_of_fmap. by exists (q', n).
Qed.

(** Declared paths are below the directory, and none is the manifest. *)
Lemma declared_below fs q n :
  wf_filesystem fs -> (q, n) ∈ declared_nodes fs ->
  exists c l, q = base_dir fs ++ c :: l /\ Forall good_name (c :: l).
Proof.
  intros [Hwf _] Hin. apply list_elem_of_In, in_flat_map in Hin as ([p e] & Hp%list_elem_of_In & Hin%list_elem_of_In).
  rewrite Forall_forall in Hwf. destruct (Hwf _ Hp) as [(c & Hpc & Hc) He]. simpl in *.
  destruct (tree_nodes_below _ _ _ _ He Hin) as (l & -> & Hl). rewrite Hpc. exists c, l. rewrite <-app_assoc. split; [done|by constructor].
Qed.

Lemma manifest_path_eq fs : manifest_path fs = base_dir fs ++ [MANAGED_PATHS_MANIFEST_FILENAME].
Proof. unfold manifest_path. apply join_normal. by split_and!. Qed.

Lemma manifest_not_declared fs : wf_filesystem fs -> manifest_path fs ∉ (declared_nodes fs).*1.
Proof.
  intros Hwf ([q n] & Hq & Hin)%list_elem_of_fmap. simpl in Hq. subst q. rewrite manifest_path_eq in Hin.
  apply declared_below in Hin as (c & l & Hq & [[_ Hc] _]%Forall_cons); [|done]. apply app_inv_head in Hq. congruence.
Qed.

Lemma top_disjoint fs :
  wf_filesystem fs ->
  ForallOrdPairs (fun x y : Path * RenderedEntry => disjoint_paths x.1 y.1) (fs_entries fs).
Proof.
  intros [Hall Hnd]. induction (fs_entries fs) as [|[p e] l IH]; [constructor|]. simpl in Hnd.
  apply NoDup_cons in Hnd as [Hp Hnd]. apply Forall_cons in Hall as [[(c & Hpc & _) _] Hall].
  constructor; [|by apply IH]. rewrite Forall_forall in *. intros [p' e'] Hin. simpl in *.
  destruct (Hall _ Hin) as [(c' & Hpc' & _) _]. simpl in Hpc'. rewrite Hpc, Hpc'. apply siblings_disjoint.
  intros ->. apply Hp. rewrite Hpc, <-Hpc'. apply list_elem_of_fmap. by exists (p', e').
Qed.

Section WriteFacts.
Context `{HO : HashOrder} `{MS : ManifestSerde}.

Lemma elem_of_stale prev curr p : p ∈ stale_paths prev curr <-> p ∈ prev /\ p ∉ curr.
Proof.
  unfold stale_paths. rewrite merge_sort_Permutation, list_elem_of_filter, elem_of_entries_fst.
  rewrite lookup_gset_to_gmap. split.
  - intros [? [? (? & ?)%bind_Some]]. destruct (decide (p ∈ prev)); [done|]. by rewrite option_guard_False in * by done.
  - intros [Hp ?]. split; [done|]. rewrite option_guard_True by done. by eexists.
Qed.

(** What the manifest makes the code consider its own *)
Definition managed_set (fs : FileSystem) (l : list string) : gset Path :=
  list_to_set (components <$>
    filter (fun p => ~ (is_absolute p = true /\ components p = manifest_path fs) /\
                     is_within_base p (base_dir fs) = true) l).

Lemma managed_within fs l p : p ∈ managed_set fs l -> base_dir fs `prefix_of` p /\ p <> manifest_path fs.
Proof.
  unfold managed_set. rewrite elem_of_list_to_set. intros (s & -> & [[Hno Hw] _]%list_elem_of_filter)%list_elem_of_fmap.
  unfold is_within_base in Hw. apply andb_true_iff in Hw as [[_ Ha]%andb_true_iff Hp%bool_decide_eq_true].
  split; [done|]. intros E. by apply Hno.
Qed.

Lemma manifest_save_spec l base name h r h' :
  manifest_save l (base ++ [name]) h = (r, h') ->
  (forall q, q <> base ++ [name] -> nodes h' !! q = nodes h !! q \/
     (q `prefix_of` base /\ nodes h !! q = None /\ nodes h' !! q = Some DirNode)) /\
  (no_host_fault h -> no_host_fault h' /\
   (clear_way h base -> is_dir h (base ++ [name]) = false ->
    forall t, manifest_to_vec l = Ok t -> nodes h' !! (base ++ [name]) = Some (FileNode t))).
Proof.
  unfold manifest_save. destruct (base ++ [name]) as [|c0 p0] eqn:Ep; [by destruct base|]. rewrite <-Ep. clear c0 p0 Ep.
  rewrite parent_snoc. unfold_effects. destruct (dir_builder_create base h) as [r1 h1] eqn:E1.
  apply dir_builder_create_spec in E1 as (Ha & Hd & Hg). destruct r1 as [[]|e].
  2:{ intros [= <- <-]. split; [intros q _; apply Ha|]. intros HG. destruct (Hg HG) as [? Hok]. split; [done|]. intros Hw. by discriminate Hok. }
  destruct (manifest_to_vec l) as [t|e].
  2:{ intros [= <- <-]. split; [intros q _; apply Ha|]. intros HG. split; [by apply Hg|done]. }
  intros (W1 & _ & W3 & W4)%raw_write_spec. split.
  - intros q Hq. rewrite W1 by done. apply Ha.
  - intros HG. destruct (Hg HG) as [HG1 _]. destruct (W4 HG1) as [HG2 Hok]. split; [done|]. intros Hw Hnd t' [= <-].
    apply W3, Hok; [rewrite parent_snoc; by apply Hd|]. apply not_true_iff_false in Hnd. apply not_true_iff_false. intros Hdir. apply Hnd.
    rewrite is_dir_nodes in * by by destruct base. destruct (Ha (base ++ [name])) as [<-|(Hp & _)]; [done|].
    apply prefix_length in Hp. rewrite length_app in Hp. simpl in Hp. lia.
Qed.

Lemma entries_write_spec fs h r h' :
  wf_filesystem fs -> for_entries (fun path e => entry_write e path) (fs_entries fs) h = (r, h') ->
  (forall q, q ∉ (declared_nodes fs).*1 -> nodes h' !! q = nodes h !! q \/
     (q `prefix_of` base_dir fs /\ nodes h !! q = None /\ nodes h' !! q = Some DirNode)) /\
  (r = Ok tt -> forall q n, (q, n) ∈ declared_nodes fs -> nodes h' !! q = Some n) /\
  (no_host_fault h -> no_host_fault h' /\
    (validate_path (base_dir fs) = Ok tt -> clear_way h (base_dir fs) -> compatible h (declared_nodes fs) -> r = Ok tt)).
Proof.
  intros Hwf E. pose proof Hwf as [Hall _]. rewrite Forall_forall in Hall.
  apply (for_entries_writes _ (fun p _ => p) (fun p e => tree_nodes e p)) in E as (F1 & F2 & F3); [| | |by apply top_disjoint].
  - split_and!; [|exact F2|].
    + intros q Hq. destruct (F1 q Hq) as [?|(([p e] & Hp & Hqp) & ? & ?)]; [by left|right]. split_and!; [|done..]. simpl in Hqp.
      destruct (Hall _ Hp) as [(c & Hpc & _) _]. simpl in Hpc. subst p. apply prefix_snoc in Hqp as [?| ->]; [done|]. destruct Hq.
      destruct (tree_nodes_root e (base_dir fs ++ [c])) as (n & l & Hfl). apply list_elem_of_fmap.
      exists (base_dir fs ++ [c], n). split; [done|]. apply list_elem_of_In, in_flat_map.
      exists (base_dir fs ++ [c], e). split; [by apply list_elem_of_In|]. simpl. rewrite Hfl. by left.
    + intros HG. destruct (F3 HG) as [? Hok]. split; [done|]. intros Hv Hw Hc. apply Hok; [|done]. intros [p e] Hp. simpl.
      destruct (Hall _ Hp) as [(c & Hpc & (Hn & _)) _]. simpl in Hpc. rewrite Hpc, parent_snoc. split; [|done].
      apply validate_app. split; [done|]. apply validate_names. repeat constructor. apply Hn.
  - intros p e h0 r0 h0' Hp. apply entry_write_spec; [by apply (Hall (p, e))|].
    destruct (Hall _ Hp) as [(c & Hpc & _) _]. simpl in Hpc. rewrite Hpc. by destruct (base_dir fs).
  - intros p e q n Hp Hq. destruct (tree_nodes_below _ _ _ _ (proj2 (Hall _ Hp)) Hq) as (l & -> & _). by apply prefix_app_r.
Qed.

Definition previously_managed (fs : FileSystem) (h : Host) : gset Path :=
  match nodes h !! manifest_path fs with
  | Some (FileNode t) => match manifest_from_slice t with Ok l => managed_set fs l | Err _ => ∅ end
  | _ => ∅
  end.

Lemma read_manifest_managed fs h prev h' :
  read_manifest fs h = (prev, h') ->
  nodes h' = nodes h /\ (prev = previously_managed fs h \/ prev = ∅) /\
  (no_host_fault h -> no_host_fault h' /\ prev = previously_managed fs h).
Proof.
  unfold read_manifest, manifest_load, raw_read. unfold_effects.
  destruct (next_host_fault h) as [f h1] eqn:Hf. apply next_host_fault_spec in Hf as (Hn & Hg).
  intros [= <- <-]. split; [done|]. unfold node_at, previously_managed.
  destruct (manifest_path fs) as [|c p] eqn:Em; [by rewrite manifest_path_eq in Em; destruct (base_dir fs)|].
  rewrite <-Em, Hn. destruct f as [f|].
  - split; [by right|]. by intros [_ ?]%Hg.
  - destruct (nodes h !! manifest_path fs) as [[t|]|]; [destruct (manifest_from_slice t)|..];
      (split; [by left|]); intros [? _]%Hg; done.
Qed.

(** The steps of [write]: [hd] after the deletions, [he] after the entries *)
Lemma write_stages fs h r h' :
  wf_filesystem fs -> filesystem_write fs h = (r, h') ->
  exists hd he,
    only_removes (fun q => exists p, p ∈ previously_managed fs h /\ (p ∉ collect_declared_paths fs) /\ p `prefix_of` q) h hd /\
    for_entries (fun path e => entry_write e path) (fs_entries fs) hd = (r, he) /\
    (r <> Ok tt -> h' = he) /\
    (r = Ok tt -> exists r', manifest_save (show_path <$> merge_sort path_le (elements (collect_declared_paths fs)))
                               (base_dir fs ++ [MANAGED_PATHS_MANIFEST_FILENAME]) he = (r', h')) /\
    (no_host_fault h -> no_host_fault hd /\
       forall p, p ∈ previously_managed fs h -> p ∉ collect_declared_paths fs -> p <> [] -> nodes hd !! p = None).
Proof.
  intros Hwf. unfold filesystem_write, bind. destruct (read_manifest fs h) as [prev h0] eqn:E0.
  apply read_manifest_managed in E0 as (Hn0 & Hprev & Hg0).
  destruct (for_each (stale_paths prev (collect_declared_paths fs)) delete_stale h0) as [[] hd] eqn:Ed.
  apply delete_stale_spec in Ed as [Hrm Hgd]. unfold bind_try, ret.
  destruct (for_entries (fun path e => entry_write e path) (fs_entries fs) hd) as [r1 he] eqn:Ee.
  intros E. exists hd, he.
  assert (r = r1 /\ (r <> Ok tt -> h' = he) /\
    (r = Ok tt -> exists r', manifest_save (show_path <$> merge_sort path_le (elements (collect_declared_paths fs)))
                               (base_dir fs ++ [MANAGED_PATHS_MANIFEST_FILENAME]) he = (r', h'))) as (-> & Herr & Hok).
  { destruct r1 as [[]|e]; [|by injection E as <- <-]. rewrite manifest_path_eq in E.
    destruct (manifest_save _ _ he) as [r' h2] eqn:Es. injection E as <- <-. split_and!; [done..|]. intros _. by exists r'. }
  split_and!; [|done..|].
  - intros q. rewrite <-Hn0. destruct (Hrm q) as [?|[(p & [Hp ?]%elem_of_stale & Hq) ?]]; [by left|right]. split; [|done].
    exists p. split_and!; [|done..]. destruct Hprev as [<-| ->]; [done|set_solver].
  - intros HG. destruct (Hg0 HG) as [HG0 Hp]. destruct (Hgd HG0) as [? Hgone]. split; [done|]. intros p Hin Hnd. apply Hgone.
    apply elem_of_stale. by rewrite Hp.
Qed.

Lemma previously_below fs h p : p ∈ previously_managed fs h -> base_dir fs `prefix_of` p /\ p <> manifest_path fs.
Proof.
  unfold previously_managed. destruct (nodes h !! manifest_path fs) as [[t|]|]; [|set_solver..].
  destruct (manifest_from_slice t); [apply managed_within|set_solver].
Qed.

Lemma declared_not_above fs q : wf_filesystem fs -> ~ base_dir fs `prefix_of` q -> q ∉ (declared_nodes fs).*1.
Proof.
  intros Hwf Hq ([q' n] & -> & Hin)%list_elem_of_fmap. apply Hq.
  apply declared_below in Hin as (c & l & Hc & _); [|done]. simpl. rewrite Hc. by apply prefix_app_r.
Qed.

Lemma filesystem_write_changes fs h r h' :
  wf_filesystem fs -> filesystem_write fs h = (r, h') -> changes_below (base_dir fs) h h'.
Proof.
  intros Hwf E. apply write_stages in E as (hd & he & Hrm & Ee & Herr & Hok & _); [|done].
  apply entries_write_spec in Ee as (F1 & _ & _); [|done].
  assert (changes_below (base_dir fs) h he) as Hhe.
  { apply changes_trans with hd.
    - apply only_removes_changes. eapply only_removes_weaken; [|exact Hrm]. simpl.
      intros q (p & [Hp _]%previously_below & _ & Hq). by transitivity p.
    - intros q Hq. apply F1. by apply declared_not_above. }
  destruct (decide (r = Ok tt)) as [Hr|Hr]; [|by rewrite Herr]. destruct (Hok Hr) as (r' & Es).
  apply manifest_save_spec in Es as [Hs _]. apply changes_trans with he; [done|]. intros q Hq. apply Hs. intros ->.
  apply Hq. by apply prefix_app_r.
Qed.

(** Whatever the manifest on the disk says and however the write ends, nothing outside the
    sub-agent's directory changes, but for directories made on the way to it: the manifest can be
    written by the agent, and its entries outside the directory are ignored. *)
Theorem filesystem_write_confined fs h r h' :
  wf_filesystem fs -> filesystem_write fs h = (r, h') -> changes_below (base_dir fs) h h'.
Proof. apply filesystem_write_changes. Qed.

(** A successful write: what is declared is there; the rest is as it was, but for what was managed
    before and is no longer declared. *)
Lemma filesystem_write_ok fs h h' :
  wf_filesystem fs -> filesystem_write fs h = (Ok tt, h') ->
  (forall q n, (q, n) ∈ declared_nodes fs -> nodes h' !! q = Some n) /\
  (forall q, q ∉ (declared_nodes fs).*1 -> q <> manifest_path fs ->
     (forall p, p ∈ previously_managed fs h -> p ∉ collect_declared_paths fs -> ~ p `prefix_of` q) ->
     nodes h' !! q = nodes h !! q \/ (q `prefix_of` base_dir fs /\ nodes h !! q = None /\ nodes h' !! q = Some DirNode)) /\
  (no_host_fault h -> no_host_fault h' /\
    (forall p, p ∈ previously_managed fs h -> p ∉ collect_declared_paths fs -> p <> base_dir fs -> nodes h' !! p = None) /\
    (clear_way h (base_dir fs) -> is_dir h (manifest_path fs) = false -> forall t,
       manifest_to_vec (show_path <$> merge_sort path_le (elements (collect_declared_paths fs))) = Ok t ->
       nodes h' !! manifest_path fs = Some (FileNode t))).
Proof.
  intros Hwf E. apply write_stages in E as (hd & he & Hrm & Ee & _ & Hok & Hgd); [|done].
  apply entries_write_spec in Ee as (F1 & F2 & F3); [|done]. specialize (F2 eq_refl).
  destruct (Hok eq_refl) as (r' & Es). apply manifest_save_spec in Es as [Hs1 Hs2].
  pose proof (manifest_not_declared fs Hwf) as Hmd. rewrite manifest_path_eq in *.
  set (mp := base_dir fs ++ [MANAGED_PATHS_MANIFEST_FILENAME]) in *. split_and!.
  - intros q n Hin. specialize (F2 _ _ Hin). destruct (Hs1 q) as [->|(_ & ? & _)]; [|done|congruence].
    intros ->. apply Hmd, list_elem_of_fmap. by exists (mp, n).
  - intros q Hq Hqm Hst. assert (nodes hd !! q = nodes h !! q) as Hd.
    { destruct (Hrm q) as [?|[(p & Hp & Hnd & Hpq) _]]; [done|]. by destruct (Hst p Hp Hnd). }
    rewrite <-Hd. destruct (Hs1 q Hqm) as [->|(? & Hn & ?)]; [by apply F1|]. right. split_and!; [done| |done].
    destruct (F1 q Hq) as [<-|(_ & ? & _)]; done.
  - intros HG. destruct (Hgd HG) as [HGd Hgone]. destruct (F3 HGd) as [HGe _]. destruct (Hs2 HGe) as [HG' Hman]. split_and!; [done| |].
    + intros p Hp Hnd Hne. destruct (previously_below _ _ _ Hp) as [Hb Hm]. rewrite manifest_path_eq in Hm.
      assert (~ p `prefix_of` base_dir fs) as Hnb by (intros ?; apply Hne; by apply (anti_symm prefix)).
      assert (p <> []) as Hnil by (intros ->; apply Hnb, prefix_nil).
      destruct (Hs1 p Hm) as [->|(? & _)]; [|done]. destruct (F1 p) as [->|(? & _)]; [by rewrite <-elem_of_declared|by apply Hgone|done].
    + intros Hw Hnd. apply Hman.
      * intros q Hq. specialize (Hw q Hq). apply (only_removes_file _ _ _ _ Hrm) in Hw. unfold node_at in *. destruct q as [|c q]; [done|].
        destruct (F1 (c :: q)) as [->|(_ & _ & ->)]; [|done..]. intros ([q' n] & Eq & Hin)%list_elem_of_fmap. simpl in Eq. subst q'.
        apply declared_below in Hin as (c' & l & Hc' & _); [|done]. rewrite Hc' in Hq. apply prefix_length in Hq. rewrite length_app in Hq. simpl in Hq. lia.
      * unfold is_dir, node_at in *. apply bool_decide_eq_false. apply bool_decide_eq_false in Hnd.
        destruct mp as [|c l] eqn:Emp; [by destruct (base_dir fs)|]. rewrite <-Emp in *. intros Hdir.
        destruct (F1 mp Hmd) as [E1|(Hp & _)].
        -- rewrite E1 in Hdir. destruct (Hrm mp) as [E2|[_ E2]]; rewrite E2 in Hdir; done.
        -- apply prefix_length in Hp. unfold mp in Hp. rewrite length_app in Hp. simpl in Hp. lia.
Qed.

(** A path of plain names is read back from its text. *)
Lemma split_show q : q <> [] -> Forall normal_name q -> split "/" (show_path q) = "" :: q.
Proof.
  induction q as [|c q IH]; [done|]. intros _ [(H1 & H2 & H3 & Hc) Hq]%Forall_cons.
  change (show_path (c :: q)) with (String "/" (c +:+ show_path q)). cbn [split].
  change (Ascii.eqb "/" "/") with true. cbv iota. f_equal. destruct q as [|d q].
  - change (show_path []) with "". rewrite str_app_nil_r. by apply split_no_sep.
  - change (show_path (d :: q)) with (String "/" (d +:+ show_path q)) in *. rewrite split_app by done. f_equal.
    specialize (IH ltac:(done) Hq). cbn [split] in IH. change (Ascii.eqb "/" "/") with true in IH. cbv iota in IH. by injection IH.
Qed.

Lemma components_show q : q <> [] -> Forall normal_name q -> components (show_path q) = q.
Proof.
  intros Hne Hq. unfold components. rewrite split_show by done. rewrite filter_cons_False by naive_solver.
  induction Hq as [|c l (H1 & H2 & _) Hl IH]; [done|]. rewrite filter_cons_True by done. f_equal.
  destruct l; [done|by apply IH].
Qed.

Lemma show_within base q :
  Forall normal_name q -> base `prefix_of` q -> q <> [] ->
  is_absolute (show_path q) = true /\ is_within_base (show_path q) base = true.
Proof.
  intros Hq Hb Hne. assert (is_absolute (show_path q) = true) as Ha by (destruct q as [|c0 q0]; [done|apply (starts_with_app "/")]).
  split; [done|]. unfold is_within_base. rewrite components_show, Ha by done. rewrite bool_decide_eq_true_2 by done.
  rewrite !andb_true_r. apply negb_true_iff, not_true_iff_false. intros (c & Hc%list_elem_of_In & ->%bool_decide_eq_true)%existsb_exists.
  unfold path_components in Hc. rewrite Ha, split_show in Hc by done. apply elem_of_cons in Hc as [?|Hc]; [done|].
  cbn in Hc. apply list_elem_of_omap in Hc as (x & Hx & Hc). rewrite Forall_forall in Hq. destruct (Hq _ Hx) as (_ & _ & H3 & _).
  unfold component_of in Hc. destruct (String.eqb x ""); [done|]. destruct (String.eqb x "."); [done|].
  by destruct (String.eqb_spec x "..").
Qed.

(** The manifest of one tree, read by the next *)
Lemma managed_of_declared fs fs' :
  wf_filesystem fs -> base_dir fs' = base_dir fs -> Forall normal_name (base_dir fs) ->
  managed_set fs' (show_path <$> merge_sort path_le (elements (collect_declared_paths fs))) = collect_declared_paths fs.
Proof.
  intros Hwf Hbase Hnorm. apply set_eq. intros q. unfold managed_set. rewrite elem_of_list_to_set, list_elem_of_fmap.
  assert (forall q, q ∈ collect_declared_paths fs -> Forall normal_name q /\ base_dir fs `prefix_of` q /\ q <> [] /\ q <> manifest_path fs) as Hdecl.
  { intros q' Hq. rewrite elem_of_declared in Hq. split_and!.
    - apply list_elem_of_fmap in Hq as ([q'' n] & -> & Hin). apply declared_below in Hin as (c & l & -> & Hg); [|done].
      apply Forall_app. split; [done|]. eapply Forall_impl; [exact Hg|]. by intros x [? _].
    - destruct (decide (base_dir fs `prefix_of` q')) as [|Hno]; [done|]. by destruct (declared_not_above _ _ Hwf Hno).
    - intros ->. apply list_elem_of_fmap in Hq as ([q'' n] & Eq & Hin). apply declared_below in Hin as (c & l & E & _); [|done].
      simpl in Eq. subst q''. by destruct (base_dir fs).
    - intros ->. by apply (manifest_not_declared fs Hwf). }
  assert (manifest_path fs' = manifest_path fs) as Hm by (rewrite !manifest_path_eq; congruence). split.
  - intros (s & -> & [_ Hs]%list_elem_of_filter). apply list_elem_of_fmap in Hs as (q' & -> & Hq').
    rewrite merge_sort_Permutation, elem_of_elements in Hq'. destruct (Hdecl _ Hq') as (? & ? & ? & ?). by rewrite components_show.
  - intros Hq. destruct (Hdecl _ Hq) as (Hn & Hb & Hne & Hnm). exists (show_path q). split; [by rewrite components_show|].
    apply list_elem_of_filter. split.
    + destruct (show_within (base_dir fs) q) as [Ha Hw]; [done..|]. rewrite Hbase, Hm, components_show by done. split; [|done]. by intros [_ ?].
    + apply list_elem_of_fmap. exists q. split; [done|]. by rewrite merge_sort_Permutation, elem_of_elements.
Qed.


(** When the disk accepts every operation and nothing of another kind is where a declared file
    or directory goes, the tree is written. *)
Theorem filesystem_write_succeeds fs h :
  wf_filesystem fs -> validate_path (base_dir fs) = Ok tt -> no_host_fault h ->
  clear_way h (base_dir fs) -> compatible h (declared_nodes fs) ->
  exists h', filesystem_write fs h = (Ok tt, h') /\ no_host_fault h' /\
    forall q n, (q, n) ∈ declared_nodes fs -> nodes h' !! q = Some n.
Proof.
  intros Hwf Hv HG Hw Hc. destruct (filesystem_write fs h) as [r h'] eqn:E. pose proof E as E'.
  apply write_stages in E as (hd & he & Hrm & Ee & _ & _ & Hgd); [|done]. destruct (Hgd HG) as [HGd _].
  apply entries_write_spec in Ee as (_ & _ & F3); [|done]. destruct (F3 HGd) as [_ Hok].
  assert (r = Ok tt) as ->.
  { apply Hok; [done| |].
    - intros q Hq. eapply only_removes_file; [exact Hrm|by apply Hw].
    - intros q n Hq. specialize (Hc q n Hq). destruct (Hrm q) as [->|[_ ->]]; [done|by destruct n]. }
  apply filesystem_write_ok in E' as (H1 & _ & H2); [|done]. exists h'. split_and!; [done|by apply H2|done].
Qed.
End WriteFacts.

(** ** Stopping a sub-agent *)

(** The entries to delete: on each branch, the first that is not persistent *)
Fixpoint ephemeral_roots (e : RenderedEntry) (path : Path) : list Path :=
  if negb (persistent e) then [path]
  else match e with
       | RenderedDir children _ => flat_map (fun kv => ephemeral_roots kv.2 (join_path path kv.1)) children
       | _ => []
       end.

(** The entries to keep: persistent, and so are all above them *)
Fixpoint kept_paths (e : RenderedEntry) (path : Path) : list Path :=
  if negb (persistent e) then []
  else path :: match e with
       | RenderedDir children _ => flat_map (fun kv => kept_paths kv.2 (join_path path kv.1)) children
       | _ => []
       end.

(** A call that deletes what is at [roots] *)
Definition deletes (roots : list Path) (h : Host) (r : result unit FileSystemEntriesError) (h' : Host) : Prop :=
  only_removes (fun q => exists p, p ∈ roots /\ p `prefix_of` q) h h' /\
  (r = Ok tt -> forall p, p ∈ roots -> p <> [] -> nodes h' !! p = None) /\
  (no_host_fault h -> no_host_fault h' /\ r = Ok tt).

Lemma for_entries_deletes {A B} (f : A -> B -> M Host (result unit FileSystemEntriesError))
    (roots : A -> B -> list Path) l h r h' :
  (forall a b h r h', (a, b) ∈ l -> f a b h = (r, h') -> deletes (roots a b) h r h') ->
  for_entries f l h = (r, h') -> deletes (flat_map (fun kv => roots kv.1 kv.2) l) h r h'.
Proof.
  intros Hf. revert h r h'. induction l as [|[a b] l IH]; intros h r h'; cbn [for_entries].
  { intros [= <- <-]. split_and!; [apply only_removes_refl|by intros _ p ?%not_elem_of_nil|done]. }
  unfold bind_try. destruct (f a b h) as [r1 h1] eqn:E1. apply Hf in E1 as (R1 & O1 & G1); [|by left]. cbn.
  assert (forall q, (exists p, p ∈ roots a b /\ p `prefix_of` q) ->
            exists p, p ∈ roots a b ++ flat_map (fun kv => roots kv.1 kv.2) l /\ p `prefix_of` q) as Hl.
  { intros q (p & ? & ?). exists p. split; [apply elem_of_app; by left|done]. }
  destruct r1 as [[]|e].
  2:{ intros [= <- <-]. split_and!; [exact (only_removes_weaken _ _ _ _ Hl R1)|done|]. intros [_ ?]%G1. done. }
  intros E. apply IH in E as (R2 & O2 & G2); [|intros; eapply Hf; [by right|done]]. split_and!.
  - eapply only_removes_trans; (eapply only_removes_weaken; [|eassumption]); [done|].
    intros q (p & ? & ?). exists p. split; [apply elem_of_app; by right|done].
  - intros Hr p [Hp|Hp]%elem_of_app Hne; [|by apply O2]. eapply only_removes_none; [exact R2|by apply O1].
  - intros [HG1 _]%G1. by apply G2.
Qed.

Lemma entry_delete_ephemeral_spec e path h r h' :
  entry_delete_ephemeral e path h = (r, h') -> deletes (ephemeral_roots e path) h r h'.
Proof.
  assert (forall p h r h', (if exists_path h p then delete_path p h else (Ok tt, h)) = (r, h') -> deletes [p] h r h') as Hdel.
  { intros p h0 r0 h0'. destruct (exists_path h0 p) eqn:Hex.
    - intros (H1 & H2 & _ & H3)%delete_path_spec. split_and!.
      + eapply only_removes_weaken; [|exact H1]. intros q Hq. exists p. split; [by left|done].
      + intros Hr p' ->%list_elem_of_singleton. by apply H2.
      + intros HG. destruct (H3 HG) as [? Hok]. split; [done|by apply Hok].
    - intros [= <- <-]. split_and!; [apply only_removes_refl| |done]. intros _ p' ->%list_elem_of_singleton Hne. by apply not_exists_none. }
  revert path h r h'. induction e as [c p|ch p IH|fs] using entry_ind'; intros path h r h'; cbn.
  - destruct p; cbn; [|apply Hdel]. intros [= <- <-]. split_and!; [apply only_removes_refl|by intros _ p ?%not_elem_of_nil|done].
  - destruct p; cbn; [|apply Hdel]. rewrite Forall_forall in IH.
    apply (for_entries_deletes _ (fun k e => ephemeral_roots e (join_path path k))). intros k e h0 r0 h0' Hk. by apply (IH (k, e)).
  - apply Hdel.
Qed.

Lemma roots_below e path q : wf_entry e -> q ∈ ephemeral_roots e path -> path `prefix_of` q.
Proof.
  intros Hwf. revert path. induction e as [c p|ch p IH|fs] using entry_ind'; intros path; cbn.
  - destruct p; cbn; [by intros ?%not_elem_of_nil|by intros ->%list_elem_of_singleton].
  - destruct p; cbn; [|by intros ->%list_elem_of_singleton]. inversion Hwf as [|? ? _ Hall|]; subst.
    intros ([k e] & Hk%list_elem_of_In & Hq%list_elem_of_In)%list_elem_of_In%in_flat_map. rewrite Forall_forall in IH, Hall.
    destruct (Hall _ Hk) as [Hs He]. apply (IH _ Hk He) in Hq. simpl in Hq. destruct (join_safe path k Hs) as (c & Hj & _).
    rewrite Hj in Hq. etransitivity; [|exact Hq]. by apply prefix_app_r.
  - by intros ->%list_elem_of_singleton.
Qed.

Lemma kept_below e path q : wf_entry e -> q ∈ kept_paths e path -> path `prefix_of` q.
Proof.
  intros Hwf. revert path. induction e as [c p|ch p IH|fs] using entry_ind'; intros path; cbn.
  - destruct p; cbn; [by intros ->%list_elem_of_singleton|by intros ?%not_elem_of_nil].
  - destruct p; cbn; [|by intros ?%not_elem_of_nil]. inversion Hwf as [|? ? _ Hall|]; subst.
    intros [->|([k e] & Hk%list_elem_of_In & Hq%list_elem_of_In)%list_elem_of_In%in_flat_map]%elem_of_cons; [done|].
    rewrite Forall_forall in IH, Hall. destruct (Hall _ Hk) as [Hs He]. apply (IH _ Hk He) in Hq. simpl in Hq.
    destruct (join_safe path k Hs) as (c & Hj & _). rewrite Hj in Hq. etransitivity; [|exact Hq]. by apply prefix_app_r.
  - by intros ?%not_elem_of_nil.
Qed.

(** In a list whose elements are at disjoint paths, what is below two of them is below one. *)
Lemma below_same {A} (pth : A -> Path) l x y q :
  ForallOrdPairs (fun x y => disjoint_paths (pth x) (pth y)) l -> x ∈ l -> y ∈ l ->
  pth x `prefix_of` q -> pth y `prefix_of` q -> x = y.
Proof.
  induction 1 as [|a l Ha _ IH]; [by intros ?%not_elem_of_nil|]. rewrite Forall_forall in Ha.
  intros [->|Hx]%elem_of_cons [->|Hy]%elem_of_cons Hpx Hpy; [done|..|by apply IH].
  - by destruct (disjoint_below _ _ _ (Ha _ Hy) Hpx).
  - by destruct (disjoint_below _ _ _ (Ha _ Hx) Hpy).
Qed.

Lemma kept_not_deleted e path q p :
  wf_entry e -> q ∈ kept_paths e path -> p ∈ ephemeral_roots e path -> ~ p `prefix_of` q.
Proof.
  intros Hwf. revert path. induction e as [c b|ch b IH|fs] using entry_ind'; intros path; cbn.
  - destruct b; cbn; [by intros _ ?%not_elem_of_nil|by intros ?%not_elem_of_nil].
  - destruct b; cbn; [|by intros ?%not_elem_of_nil]. inversion Hwf as [|? ? Hnd Hall|]; subst.
    assert (Forall (fun kv => safe_key kv.1) ch) as Hsafe by (eapply Forall_impl; [exact Hall|by intros ? [? _]]).
    pose proof (keys_disjoint path ch Hnd Hsafe) as Hdis. rewrite Forall_forall in IH, Hall.
    intros Hq ([k e] & Hk%list_elem_of_In & Hp%list_elem_of_In)%list_elem_of_In%in_flat_map. simpl in Hp.
    destruct (Hall _ Hk) as [Hs He]. pose proof (roots_below _ _ _ He Hp) as Hb. destruct (join_safe path k Hs) as (c & Hj & _).
    apply elem_of_cons in Hq as [->|([k' e'] & Hk'%list_elem_of_In & Hq%list_elem_of_In)%list_elem_of_In%in_flat_map].
    + intros Hpq. simpl in Hb. rewrite Hj in Hb. apply prefix_length in Hb, Hpq. rewrite length_app in Hb. simpl in Hb. lia.
    + simpl in Hq. destruct (Hall _ Hk') as [_ He']. pose proof (kept_below _ _ _ He' Hq) as Hb'. intros Hpq.
      assert ((k, e) = (k', e')) as [= <- <-].
      { apply (below_same (fun kv => join_path path kv.1) ch _ _ q); [done..|by transitivity p|done]. }
      by apply (IH _ Hk He _ Hq Hp).
  - by intros ?%not_elem_of_nil.
Qed.

Definition fs_ephemeral (fs : FileSystem) : list Path := flat_map (fun pe => ephemeral_roots pe.2 pe.1) (fs_entries fs).
Definition fs_kept (fs : FileSystem) : list Path := flat_map (fun pe => kept_paths pe.2 pe.1) (fs_entries fs).

(** Stopping a sub-agent deletes exactly its ephemeral entries: with a disk that accepts every
    operation they are gone, whatever was below them; a persistent entry below persistent ones
    is kept, and nothing else changes, also when the deletion fails half way. *)
Theorem delete_ephemeral_exact fs h r h' :
  wf_filesystem fs -> filesystem_delete_ephemeral fs h = (r, h') ->
  (no_host_fault h -> r = Ok tt) /\
  (r = Ok tt -> forall p, p ∈ fs_ephemeral fs -> nodes h' !! p = None) /\
  (forall q, q ∈ fs_kept fs -> nodes h' !! q = nodes h !! q) /\
  (forall q, (forall p, p ∈ fs_ephemeral fs -> ~ p `prefix_of` q) -> nodes h' !! q = nodes h !! q).
Proof.
  intros Hwf E. pose proof Hwf as [Hall _]. rewrite Forall_forall in Hall.
  apply (for_entries_deletes _ (fun p e => ephemeral_roots e p)) in E as (R & O & G);
    [|intros; by eapply entry_delete_ephemeral_spec]. fold (fs_ephemeral fs) in R, O.
  assert (forall p, p ∈ fs_ephemeral fs -> exists pe, pe ∈ fs_entries fs /\ p ∈ ephemeral_roots pe.2 pe.1) as Hin.
  { intros p (pe & ?%list_elem_of_In & ?%list_elem_of_In)%list_elem_of_In%in_flat_map. by exists pe. }
  assert (forall q, (forall p, p ∈ fs_ephemeral fs -> ~ p `prefix_of` q) -> nodes h' !! q = nodes h !! q) as Hframe.
  { intros q Hq. destruct (R q) as [?|[(p & Hp & Hpq) _]]; [done|]. by destruct (Hq p). }
  split_and!; [intros HG; by apply G| |  |exact Hframe].
  - intros Hr p Hp. apply O; [done|done|]. destruct (Hin p Hp) as ([d e] & Hd & He). destruct (Hall _ Hd) as [(c & Hc & _) Hwe].
    apply roots_below in He; [|done]. simpl in *. intros ->. apply prefix_nil_inv in He. subst d. by destruct (base_dir fs).
  - intros q (pe & Hpe%list_elem_of_In & Hq%list_elem_of_In)%list_elem_of_In%in_flat_map. apply Hframe. intros p Hp Hpq.
    destruct (Hin p Hp) as (pe' & Hpe' & Hp'). destruct (Hall _ Hpe) as [_ He], (Hall _ Hpe') as [_ He'].
    pose proof (kept_below _ _ _ He Hq) as H1. pose proof (roots_below _ _ _ He' Hp') as H2.
    assert (pe = pe') as <-.
    { apply (below_same (fun x : Path * RenderedEntry => x.1) (fs_entries fs) _ _ q); [by apply top_disjoint|done..|by transitivity p]. }
    by apply (kept_not_deleted _ _ _ _ He Hq Hp').
Qed.

(** ** Examples *)

#[export] Instance bits_manifest : ManifestSerde | 100 := {|
  manifest_to_vec l := Ok (bits (encode l));
  manifest_from_slice t := match decode (unbits t) with Some l => Ok l | None => Err "malformed" end;
|}.

#[export] Instance bits_manifest_laws : ManifestSerdeLaws | 100.
Proof. split. intros l. exists (bits (encode l)). split; [done|]. cbn. by rewrite unbits_bits, decode_encode. Qed.

Definition example_dir : Path := ["data"; "agent"].

Definition example_fs1 : FileSystem := {|
  base_dir := example_dir;
  fs_entries := [(example_dir ++ ["config"], RenderedDir [("a.yaml", RenderedFile "a" false)] true);
                 (example_dir ++ ["old"], RenderedFile "old" false)];
|}.

Definition example_fs2 : FileSystem := {|
  base_dir := example_dir;
  fs_entries := [(example_dir ++ ["config"], RenderedDir [("a.yaml", RenderedFile "b" false)] true)];
|}.

Definition example_host : Host := {| nodes := ∅; host_faults := [] |}.

Lemma example_wf1 : wf_filesystem example_fs1.
Proof.
  split; [|vm_compute; repeat constructor; set_solver].
  repeat apply Forall_cons_2; [| |apply Forall_nil; done].
  - split; [exists "config"; split; [done|by split; [split_and!|]]|].
    apply wf_dir; [apply NoDup_singleton|]. apply Forall_singleton. split; [done|apply wf_file].
  - split; [exists "old"; split; [done|by split; [split_and!|]]|apply wf_file].
Qed.

Lemma example_wf2 : wf_filesystem example_fs2.
Proof.
  split; [|apply NoDup_singleton]. apply Forall_singleton. split; [exists "config"; split; [done|by split; [split_and!|]]|].
  apply wf_dir; [apply NoDup_singleton|]. apply Forall_singleton. split; [done|apply wf_file].
Qed.

Definition example_kinds (dir : bool) : FileSystem := {|
  base_dir := example_dir;
  fs_entries := [(example_dir ++ ["store"], if dir then RenderedDir [] true else RenderedFile "x" true)];
|}.

(** A persistent entry that turns from a file into a directory in a new version of the agent
    type is never reconciled: its path is still declared, so the file is not deleted, and this
    write and every later one fails. *)
Theorem kind_change_blocks_write :
  let h1 := (filesystem_write (example_kinds false) example_host).2 in
  let h2 := (filesystem_write (example_kinds true) h1).2 in
  (filesystem_write (example_kinds false) example_host).1 = Ok tt /\
  is_ok (filesystem_write (example_kinds true) h1).1 = false /\
  nodes (filesystem_delete_ephemeral (example_kinds false) h1).2 !! (example_dir ++ ["store"]) = Some (FileNode "x") /\
  is_ok (filesystem_write (example_kinds true) h2).1 = false.
Proof. vm_compute. split_and!; reflexivity. Qed.

Definition run_fs (fs : FileSystem) (h : Host) : Host := (filesystem_write fs h).2.

(** A manifest that names a file of another agent. *)
Definition hostile_host : Host := {|
  nodes := <[["data"; "other"] := FileNode "secret"]>
           (<[["data"] := DirNode]> (<[example_dir := DirNode]>
           {[ example_dir ++ [MANAGED_PATHS_MANIFEST_FILENAME] := FileNode (bits (encode ["/data/other"])) ]}));
  host_faults := [];
|}.

Lemma filesystem_write_confined_witness :
  changes_below example_dir hostile_host (run_fs example_fs2 hostile_host) /\
  nodes (run_fs example_fs2 hostile_host) !! ["data"; "other"] = Some (FileNode "secret").
Proof.
  split; [|vm_compute; reflexivity].
  apply (filesystem_write_confined example_fs2 hostile_host (Ok tt)); [apply example_wf2|].
  apply run_result. vm_compute. reflexivity.
Defined.


Lemma filesystem_write_succeeds_witness :
  exists h', filesystem_write example_fs1 example_host = (Ok tt, h').
Proof.
  destruct (filesystem_write_succeeds example_fs1 example_host) as (h' & H & _).
  - apply example_wf1.
  - reflexivity.
  - apply Forall_nil. done.
  - intros q _. unfold node_at. by destruct q.
  - intros q n _. done.
  - by exists h'.
Defined.

Lemma delete_ephemeral_exact_witness :
  let h := run_fs example_fs1 example_host in
  let h' := (filesystem_delete_ephemeral example_fs1 h).2 in
  nodes h' !! (example_dir ++ ["old"]) = None /\ nodes h' !! (example_dir ++ ["config"; "a.yaml"]) = None /\
  nodes h' !! (example_dir ++ ["config"]) = Some DirNode.
Proof.
  intros h h'.
  destruct (delete_ephemeral_exact example_fs1 h (Ok tt) h') as (_ & H1 & H2 & _).
  - apply example_wf1.
  - apply run_result. vm_compute. reflexivity.
  - split_and!; [apply H1; [done|]|apply H1; [done|]|rewrite H2; [vm_compute; reflexivity|]];
      apply (bool_decide_unpack _); vm_compute; exact I.
Defined.
