(* ===== verification/InstanceId.v ===== *)
(** * Instance identifiers

    Models [opamp/instance_id/getter.rs] and [opamp/instance_id/storer.rs]: the identifier an
    agent has towards the backend, created once for the identifiers of the host or cluster
    and kept in the data store.  [InstanceIDStorer] is the interface between the two, with its
    laws; the storer on the file store keeps them.

    Identifiers of instances are created by a library; [create_uid n] is the [n]-th one. *)

From Stdlib Require Import String.
From stdpp Require Import base option list strings gmap.
From S2P Require Import Prelude RustString AgentId FileStore.

Definition InstanceID : Type := string.

(** [getter.rs] *)
Record DataStored (I : Type) : Type := { instance_id : InstanceID; identifiers : I }.
Arguments instance_id {I} _.
Arguments identifiers {I} _.
Arguments Build_DataStored {I} _ _.

Inductive StorerError : Type :=
| StorerIo (e : string)
| StorerK8s (e : string).

Inductive GetterError : Type := GetterStorer (e : StorerError).

(** ** The interface of the storer *)

Class InstanceIDStorer (S I : Type) : Type := {
  st_set : AgentID -> DataStored I -> M S (result unit StorerError);
  st_get : AgentID -> M S (result (option (DataStored I)) StorerError);
  st_delete : AgentID -> M S (result unit StorerError);
}.

(** Reading returns what is stored; a write that succeeds is seen by later reads; agents with
    another name are never touched. *)
Class InstanceIDStorerLaws (S I : Type) `{!InstanceIDStorer S I} : Type := {
  stored : S -> AgentID -> option (DataStored I);
  st_reliable : S -> Prop;
  st_get_spec s id r s' :
    st_get id s = (r, s') ->
    (forall i, stored s' i = stored s i) /\ (forall o, r = Ok o -> o = stored s id) /\
    (st_reliable s -> st_reliable s' /\ is_ok r = true);
  st_set_spec s id data r s' :
    st_set id data s = (r, s') ->
    (forall i, as_str i <> as_str id -> stored s' i = stored s i) /\
    (r = Ok tt -> stored s' id = Some data) /\
    (wf_agent_id id -> st_reliable s -> st_reliable s' /\ r = Ok tt);
  st_delete_spec s id r s' :
    st_delete id s = (r, s') ->
    (forall i, as_str i <> as_str id -> stored s' i = stored s i) /\
    (r = Ok tt -> stored s' id = None) /\ (st_reliable s -> st_reliable s' /\ r = Ok tt);
}.

(** ** The getter *)

Record GetterWorld (S : Type) : Type := { storer : S; next_uid : nat }.
Arguments storer {S} _.
Arguments next_uid {S} _.

Section Getter.
Context {S I : Type} `{EqDecision I} `{ST : !InstanceIDStorer S I}.
Context (create_uid : nat -> InstanceID).

Definition on_storer {A} (m : M S A) : M (GetterWorld S) A := fun w =>
  let '(a, s) := m (storer w) in (a, {| storer := s; next_uid := next_uid w |}).

(** [InstanceID::create] *)
Definition create_instance_id : M (GetterWorld S) InstanceID := fun w =>
  (create_uid (next_uid w), {| storer := storer w; next_uid := Datatypes.S (next_uid w) |}).

(** [InstanceIDWithIdentifiersGetter::get] *)
Definition getter_get (own : I) (agent_id : AgentID) :
  M (GetterWorld S) (result InstanceID GetterError) :=
  let*? data := map_err_m GetterStorer (on_storer (st_get agent_id)) in
  let create :=
    (let* i := create_instance_id in
     let new_data := {| instance_id := i; identifiers := own |} in
     let*? _ := map_err_m GetterStorer (on_storer (st_set agent_id new_data)) in
     ret (Ok (instance_id new_data))) in
  match data with
  | None => create
  | Some d => if decide (identifiers d = own) then ret (Ok (instance_id d)) else create
  end.

(** The calls of a program, one after the other: the getter holds a lock. *)
Fixpoint gets (own : I) (l : list AgentID) : M (GetterWorld S) (list (result InstanceID GetterError)) :=
  match l with
  | [] => ret []
  | a :: l => let* r := getter_get own a in let* rs := gets own l in ret (r :: rs)
  end.

Context `{SL : !InstanceIDStorerLaws S I}.

(** Every stored identifier was created before, and wellformed agents have different ones. *)
Definition ids_inv (w : GetterWorld S) : Prop :=
  (forall a d, wf_agent_id a -> stored (storer w) a = Some d ->
     exists n, n < next_uid w /\ instance_id d = create_uid n) /\
  (forall a b da db, wf_agent_id a -> wf_agent_id b ->
     stored (storer w) a = Some da -> stored (storer w) b = Some db ->
     instance_id da = instance_id db -> a = b).

(** The data an agent has from now on, with these identifiers. *)
Definition has_id (own : I) (a : AgentID) (i : InstanceID) (w : GetterWorld S) : Prop :=
  stored (storer w) a = Some {| instance_id := i; identifiers := own |}.

Lemma getter_get_reliable own a w :
  wf_agent_id a -> st_reliable (storer w) ->
  exists i w', getter_get own a w = (Ok i, w') /\ st_reliable (storer w') /\ has_id own a i w' /\
    next_uid w <= next_uid w' /\
    (forall b, as_str b <> as_str a -> stored (storer w') b = stored (storer w) b) /\
    ((exists d, stored (storer w) a = Some d /\ identifiers d = own /\ instance_id d = i /\
        next_uid w' = next_uid w) \/
     (i = create_uid (next_uid w) /\ next_uid w' = Datatypes.S (next_uid w) /\
      forall d, stored (storer w) a = Some d -> identifiers d <> own)).
Proof.
  intros Hid Hr. unfold getter_get, create_instance_id, on_storer, has_id. unfold_effects.
  destruct (st_get a (storer w)) as [r1 s1] eqn:Hg.
  apply st_get_spec in Hg as (Hs1 & Ho & Hrel). destruct (Hrel Hr) as [Hr1 Hok].
  destruct r1 as [o|]; [|done]. specialize (Ho o eq_refl). simpl.
  assert (forall i, exists w', (let '(a0, s) := st_set a {| instance_id := i; identifiers := own |} s1 in
     (match a0 with Ok _ => Ok i | Err e => Err (GetterStorer e) end,
      {| storer := s; next_uid := Datatypes.S (next_uid w) |})) = (Ok i, w') /\
     st_reliable (storer w') /\ has_id own a i w' /\ next_uid w' = Datatypes.S (next_uid w) /\
     (forall b, as_str b <> as_str a -> stored (storer w') b = stored (storer w) b)) as Hset.
  { intros i. destruct (st_set a _ s1) as [r2 s2] eqn:E. apply st_set_spec in E as (Hf & Hs & Hrel2).
    destruct (Hrel2 Hid Hr1) as [Hr2 ->]. eexists. split; [done|]. simpl. split_and!; [done|by apply Hs|done|].
    intros b Hb. by rewrite Hf, Hs1. }
  destruct o as [[i own']|]; simpl.
  - destruct (decide (own' = own)) as [->|]; simpl.
    + eexists i, _. split; [done|]. simpl. split_and!; [done|by rewrite Hs1|lia|done|].
      left. by eexists.
    + destruct (Hset (create_uid (next_uid w))) as (w' & Hw & ? & ? & Hn & ?).
      destruct (st_set a _ s1) as [[[]|] s2]; simplify_eq/=. eexists _, _.
      split; [done|]. split_and!; [done..|simpl; lia|done|right]. split_and!; [done..|].
      intros d Hd. rewrite Hd in Ho. by simplify_eq.
  - destruct (Hset (create_uid (next_uid w))) as (w' & Hw & ? & ? & Hn & ?).
    destruct (st_set a _ s1) as [[[]|] s2]; simplify_eq/=. eexists _, _.
    split; [done|]. split_and!; [done..|simpl; lia|done|right]. split_and!; [done..|].
    intros d Hd. congruence.
Qed.

Lemma getter_get_keeps own a b i w :
  wf_agent_id a -> wf_agent_id b -> st_reliable (storer w) -> has_id own a i w ->
  has_id own a i (getter_get own b w).2.
Proof.
  intros Ha Hb Hr Hid.
  destruct (getter_get_reliable own b w Hb Hr) as (j & w' & -> & _ & Hj & _ & Hf & Hcase). simpl.
  destruct (decide (b = a)) as [->|Hne].
  - destruct Hcase as [(d & Hd & _ & <- & _)|(_ & _ & Hn)].
    + unfold has_id in *. rewrite Hj. by simplify_eq/=.
    + by destruct (Hn _ Hid).
  - unfold has_id. rewrite Hf; [done|]. intros E. destruct Hne. symmetry. by apply as_str_inj.
Qed.

Context `{!Inj (=) (=) create_uid}.

Lemma getter_get_inv own a w :
  wf_agent_id a -> st_reliable (storer w) -> ids_inv w -> ids_inv (getter_get own a w).2.
Proof using All.
  intros Ha Hr (Hold & Huniq).
  destruct (getter_get_reliable own a w Ha Hr) as (i & w' & -> & _ & Hi & Hn & Hf & Hcase). simpl.
  assert (forall b, wf_agent_id b -> b <> a -> stored (storer w') b = stored (storer w) b) as Hother.
  { intros b Hb Hne. apply Hf. intros E. by destruct Hne; apply as_str_inj. }
  assert (forall b d, wf_agent_id b -> b <> a -> stored (storer w) b = Some d -> instance_id d <> i) as Hnew.
  { intros b d Hb Hne Hd Ei. destruct Hcase as [(da & Hda & _ & <- & _)|(-> & _ & _)].
    - by destruct Hne; eapply Huniq.
    - destruct (Hold b d Hb Hd) as (n & Hlt & E). rewrite E in Ei. apply (inj create_uid) in Ei. lia. }
  unfold has_id in Hi. split.
  - intros b d Hb. destruct (decide (b = a)) as [->|Hne].
    + rewrite Hi. intros [= <-]. destruct Hcase as [(da & Hda & _ & <- & Hn')|(-> & -> & _)].
      * rewrite Hn'. by apply (Hold a da).
      * exists (next_uid w). split; [lia|done].
    + rewrite Hother by done. intros (n & ? & ?)%Hold; [|done]. exists n. split; [lia|done].
  - intros b c db dc Hb Hc. destruct (decide (b = a)) as [->|Hba], (decide (c = a)) as [->|Hca];
      rewrite ?Hi, ?Hother by done; try done.
    + intros [= <-] Hd E. simpl in E. by destruct (Hnew c dc).
    + intros Hd [= <-] E. simpl in E. by destruct (Hnew b db).
    + by apply Huniq.
Qed.

Lemma gets_keeps own l a i w :
  wf_agent_id a -> Forall wf_agent_id l -> st_reliable (storer w) -> has_id own a i w ->
  has_id own a i (gets own l w).2.
Proof using All.
  intros Ha Hl. revert w. induction Hl as [|b l Hb _ IH]; intros w Hr Hid; [done|].
  simpl. unfold_effects. pose proof (getter_get_keeps own a b i w Ha Hb Hr Hid) as Hk.
  destruct (getter_get_reliable own b w Hb Hr) as (j & w' & E & Hr' & _). rewrite E in Hk |- *. simpl in Hk.
  specialize (IH w' Hr' Hk). by destruct (gets own l w').
Qed.

Lemma gets_spec own l w :
  Forall wf_agent_id l -> st_reliable (storer w) -> ids_inv w ->
  ids_inv (gets own l w).2 /\
  (forall j a, l !! j = Some a ->
     exists i, (gets own l w).1 !! j = Some (Ok i) /\ has_id own a i (gets own l w).2).
Proof using All.
  intros Hl. revert w. induction Hl as [|b l Hb Hl IH]; intros w Hr Hinv; [done|].
  simpl. unfold_effects. pose proof (getter_get_inv own b w Hb Hr Hinv) as Hi.
  destruct (getter_get_reliable own b w Hb Hr) as (i & w' & E & Hr' & Hid & _).
  rewrite E in Hi |- *. simpl in Hi. destruct (IH w' Hr' Hi) as [Hinv' Hall].
  pose proof (gets_keeps own l b i w' Hb Hl Hr' Hid) as Hk.
  destruct (gets own l w') as [rs w2]. simpl in *. split; [done|].
  intros [|j] a; simpl; [intros [= <-]; by exists i|apply Hall].
Qed.

End Getter.

(** ** The storer on the file store ([storer.rs]) *)

Class IdSerde (I : Type) : Type := {
  print_id : DataStored I -> result string string;
  parse_id : string -> result (DataStored I) string;
}.

Class IdSerdeLaws (I : Type) `{!IdSerde I} : Prop := {
  print_id_ok : forall d, is_ok (print_id d) = true;
  parse_print_id : forall d t, print_id d = Ok t -> parse_id t = Ok d;
}.

Section FileStorer.
Context {I : Type} `{IS : !IdSerde I}.

Definition id_path (s : FileStore) (id : AgentID) : list string :=
  remote_file_path (remote_dir s) id STORE_KEY_INSTANCE_ID.

Definition storer_set (id : AgentID) (data : DataStored I) : M FileStore (result unit StorerError) :=
  fun s => map_err_m StorerIo (io (file_set print_id (id_path s id) data)) s.

Definition storer_get (id : AgentID) : M FileStore (result (option (DataStored I)) StorerError) :=
  fun s => map_err_m StorerIo (io (file_get parse_id (id_path s id))) s.

Definition storer_delete (id : AgentID) : M FileStore (result unit StorerError) :=
  fun s => map_err_m StorerIo (io (file_delete (id_path s id))) s.

#[export] Instance file_storer : InstanceIDStorer FileStore I := {|
  st_set := storer_set; st_get := storer_get; st_delete := storer_delete;
|}.

Context `{IL : !IdSerdeLaws I}.

Definition fs_stored (s : FileStore) (id : AgentID) : option (DataStored I) :=
  files (disk s) !! id_path s id ≫= (fun t => ok (parse_id t)).

Definition fs_ids_reliable (s : FileStore) : Prop :=
  good (disk s) /\ validate_path (remote_dir s) = Ok tt /\
  (forall id t, files (disk s) !! id_path s id = Some t -> is_ok (parse_id (I := I) t) = true).

Lemma storer_io_spec {A} (m : M Disk (result A IoError)) s r s' :
  map_err_m StorerIo (io m) s = (r, s') ->
  exists r0 d', m (disk s) = (r0, d') /\ r = map_err (fun e => StorerIo (io_text e)) r0 /\
    s' = {| disk := d'; local_dir := local_dir s; remote_dir := remote_dir s |}.
Proof.
  unfold map_err_m. destruct (io m s) as [r1 s1] eqn:E.
  apply io_spec in E as (r0 & d' & Hm & -> & ->). intros [= <- <-]. exists r0, d'. by destruct r0.
Qed.

Lemma id_file_frame s s' id :
  remote_dir s' = remote_dir s ->
  (forall q, q <> id_path s id -> files (disk s') !! q = files (disk s) !! q) ->
  (forall i, as_str i <> as_str id -> fs_stored s' i = fs_stored s i) /\
  (fs_ids_reliable s -> good (disk s') ->
   (forall t, files (disk s') !! id_path s id = Some t -> is_ok (parse_id (I := I) t) = true) ->
   fs_ids_reliable s').
Proof using.
  unfold fs_stored, fs_ids_reliable, id_path. intros -> Hq. split.
  - intros i Hne. rewrite Hq; [done|]. by intros [? _]%remote_path_inj.
  - intros (HG & HV & HR) Hg Hp. split_and!; [done..|]. intros i t.
    destruct (decide (remote_file_path (remote_dir s) i STORE_KEY_INSTANCE_ID =
      remote_file_path (remote_dir s) id STORE_KEY_INSTANCE_ID)) as [->|Hne]; [apply Hp|].
    rewrite Hq by done. apply HR.
Qed.

#[export] Program Instance file_storer_laws : InstanceIDStorerLaws FileStore I := {|
  stored := fs_stored; st_reliable := fs_ids_reliable;
|}.
Next Obligation.
  intros s id r s' (r0 & d' & (Hf & Ho & Hg)%file_get_spec & -> & ->)%storer_io_spec.
  unfold fs_stored, fs_ids_reliable, id_path; simpl. rewrite Hf. split_and!; [done| |].
  - intros o. destruct r0; simpl; [|done]. intros [= ->]. by apply Ho.
  - intros (HG & HV & HR). destruct (Hg HG) as [? Hok]. split; [done|].
    specialize (Hok (HR id)). by destruct r0.
Qed.
Next Obligation.
  intros s id data r s' (r0 & d' & Hset & -> & ->)%storer_io_spec.
  apply file_set_spec in Hset as (Hq & Hok & Hg); [|apply remote_path_parent].
  set (s' := {| disk := d'; local_dir := local_dir s; remote_dir := remote_dir s |}).
  destruct (id_file_frame s s' id eq_refl Hq) as (Hr & Hrel). split_and!; [done| |].
  - destruct r0 as [[]|]; [|done]. intros _. destruct (Hok eq_refl) as (t & Hp & Hf).
    unfold fs_stored. change (files (disk s') !! id_path s' id) with (files d' !! id_path s id).
    rewrite Hf. simpl. by rewrite (parse_print_id _ _ Hp).
  - intros Hid HR. pose proof HR as (Hg0 & HV & _).
    destruct (Hg (remote_path_valid _ id Hid HV) Hg0 (print_id_ok data)) as [HG ->]. split; [|done].
    apply Hrel; [done..|]. intros t. destruct (Hok eq_refl) as (t' & Hp & Hf).
    change (disk s') with d'. rewrite Hf. intros [= <-]. by rewrite (parse_print_id _ _ Hp).
Qed.
Next Obligation.
  intros s id r s' (r0 & d' & (Hq & Hok & Hg & _)%file_delete_spec & -> & ->)%storer_io_spec.
  set (s' := {| disk := d'; local_dir := local_dir s; remote_dir := remote_dir s |}).
  destruct (id_file_frame s s' id eq_refl Hq) as (Hr & Hrel). split_and!; [done| |].
  - destruct r0 as [[]|]; [|done]. intros _. unfold fs_stored.
    change (files (disk s') !! id_path s' id) with (files d' !! id_path s id). by rewrite (Hok eq_refl).
  - intros HR. destruct (Hg (proj1 HR)) as [HG ->]. split; [|done].
    apply Hrel; [done..|]. intros t. change (disk s') with d'. by rewrite (Hok eq_refl).
Qed.

End FileStorer.

(** ** Properties *)


(** ** A concrete storer *)

#[export] Instance bits_id_serde : IdSerde string | 100 := {|
  print_id := fun d => Ok (bits (encode (instance_id d, identifiers d)));
  parse_id := fun t =>
    ok_or ((fun p => {| instance_id := p.1; identifiers := p.2 |}) <$> decode (unbits t)) "invalid data";
|}.

#[export] Instance bits_id_serde_laws : IdSerdeLaws string | 100.
Proof. split; [done|]. intros [i o] t [= <-]. simpl. by rewrite unbits_bits, decode_encode. Qed.

Definition example_uid (n : nat) : InstanceID := bits (Pos.of_succ_nat n).

#[export] Instance example_uid_inj : Inj (=) (=) example_uid.
Proof.
  intros a b E. apply (f_equal unbits) in E. unfold example_uid in E.
  rewrite !unbits_bits in E. by apply SuccNat2Pos.inj.
Qed.

Definition example_getter : GetterWorld FileStore := {|
  storer := {| disk := {| files := ∅; dirs := ∅; disk_faults := [] |};
               local_dir := ["etc"]; remote_dir := ["var"] |};
  next_uid := 0;
|}.

Definition example_gets :=
  (gets example_uid "host" [AgentId.SubAgent "a"; AgentId.AgentControl; AgentId.SubAgent "a"]
     example_getter).1.

Lemma example_getter_none a : fs_stored (I := string) (storer example_getter) a = None.
Proof. unfold fs_stored. simpl. by rewrite lookup_empty. Qed.

