(* ===== verification/OnHostCleaner.v ===== *)
(** * The on-host resource cleaner

    Models [agent_control/resource_cleaner/on_host.rs]: the removal of what is stored for a
    sub-agent that left the fleet, and the purge of stale agents when the program starts.  It
    works on any configuration repository and instance id storer that keep their laws.  Of
    the disk it sees the names of the directories under its two base directories. *)

From Stdlib Require Import String.
From stdpp Require Import base option list strings gmap.
From S2P Require Import Prelude RustString AgentId AgentTypeId ConfigRepo FileStore InstanceId.

Inductive OnHostCleanerError : Type :=
| AgentControlId
| CleanInstanceId (e : StorerError)
| CleanRemoteConfig (e : ConfigRepositoryError)
| Filesystem (path : string) (source : string).

(** The directories per agent; the next entry of [dir_faults] tells whether a call fails. *)
Record AgentDirs : Type := {
  filesystem_dirs : gset string;
  fleet_dirs : gset string;
  dir_faults : list (option string);
}.

Inductive BaseDir : Type := AgentFilesystemBase | FleetDataBase.

Definition next_dir_fault : M AgentDirs (option string) := fun d =>
  (mjoin (head (dir_faults d)),
   {| filesystem_dirs := filesystem_dirs d; fleet_dirs := fleet_dirs d;
      dir_faults := tail (dir_faults d) |}).

(** [DirectoryManager::list]: the children of a base directory, in some order *)
Definition list_dirs (base : BaseDir) : M AgentDirs (result (list string) string) :=
  let* f := next_dir_fault in
  match f with
  | Some e => ret (Err e)
  | None => fun d =>
      (Ok (elements (match base with AgentFilesystemBase => filesystem_dirs d | FleetDataBase => fleet_dirs d end)), d)
  end.

(** [DirectoryManager::delete] on a directory of the agent filesystem base *)
Definition delete_dir (name : string) : M AgentDirs (result unit string) :=
  let*? _ := ret (map_err io_text (validate_path [name])) in
  let* f := next_dir_fault in
  match f with
  | Some e => ret (Err e)
  | None => fun d =>
      (Ok tt, {| filesystem_dirs := filesystem_dirs d ∖ {[name]}; fleet_dirs := fleet_dirs d;
                 dir_faults := dir_faults d |})
  end.

Record CleanerWorld (R S : Type) : Type := {
  cl_repo : R;
  cl_ids : S;
  cl_dirs : AgentDirs;
}.
Arguments cl_repo {R S} _.
Arguments cl_ids {R S} _.
Arguments cl_dirs {R S} _.

Section Cleaner.
Context `{SV : SemVer} `{HO : HashOrder} {R S I : Type}.
Context `{CR : !ConfigRepository R} `{ST : !InstanceIDStorer S I}.

Definition on_repo {A} (m : M R A) : M (CleanerWorld R S) A := fun w =>
  let '(a, r) := m (cl_repo w) in (a, {| cl_repo := r; cl_ids := cl_ids w; cl_dirs := cl_dirs w |}).

Definition on_ids {A} (m : M S A) : M (CleanerWorld R S) A := fun w =>
  let '(a, s) := m (cl_ids w) in (a, {| cl_repo := cl_repo w; cl_ids := s; cl_dirs := cl_dirs w |}).

Definition on_dirs {A} (m : M AgentDirs A) : M (CleanerWorld R S) A := fun w =>
  let '(a, d) := m (cl_dirs w) in (a, {| cl_repo := cl_repo w; cl_ids := cl_ids w; cl_dirs := d |}).

Definition remove_agent_resources (agent_id : AgentID) :
  M (CleanerWorld R S) (result unit OnHostCleanerError) :=
  let*? _ := map_err_m CleanRemoteConfig (on_repo (delete_remote agent_id)) in
  let*? _ := map_err_m CleanInstanceId (on_ids (st_delete agent_id)) in
  map_err_m (Filesystem (as_str agent_id)) (on_dirs (delete_dir (as_str agent_id))).

(** [ResourceCleaner::clean] *)
Definition clean (agent_id : AgentID) (agent_type : AgentTypeID) :
  M (CleanerWorld R S) (result unit OnHostCleanerError) :=
  if decide (agent_id = AgentId.AgentControl) then ret (Err AgentControlId)
  else remove_agent_resources agent_id.

(** A listing error counts as an empty directory. *)
Definition agent_dir_names (base : BaseDir) : M (CleanerWorld R S) (list string) :=
  let* r := on_dirs (list_dirs base) in
  ret (match r with Ok names => names | Err _ => [] end).

Definition purge_name (skip : list string) (name : string) : M (CleanerWorld R S) unit :=
  if bool_decide (name ∈ skip) then ret tt
  else match AgentId.try_from name with
       | Err _ => ret tt
       | Ok agent_id => let* _ := remove_agent_resources agent_id in ret tt
       end.

Definition purge_stale_agents (configured_agent_ids : list string) : M (CleanerWorld R S) unit :=
  let skip := configured_agent_ids ++ RESERVED_AGENT_IDS in
  let* names1 := agent_dir_names AgentFilesystemBase in
  let* names2 := agent_dir_names FleetDataBase in
  let names : gmap string unit := list_to_map ((fun n => (n, tt)) <$> names1 ++ names2) in
  for_each (entries names).*1 (purge_name skip).

Context `{CL : !ConfigRepositoryLaws R} `{SL : !InstanceIDStorerLaws S I}.

(** What the program keeps for agents: configuration, identifier and directory. *)
Definition keeps (P : string -> Prop) (w w' : CleanerWorld R S) : Prop :=
  (forall b, P (as_str b) -> remote_of (cl_repo w') b = remote_of (cl_repo w) b) /\
  (forall b, P (as_str b) -> stored (cl_ids w') b = stored (cl_ids w) b) /\
  (forall n, P n -> n ∈ filesystem_dirs (cl_dirs w') <-> n ∈ filesystem_dirs (cl_dirs w)).

Definition all_work (w : CleanerWorld R S) : Prop :=
  reliable (cl_repo w) /\ st_reliable (cl_ids w) /\
  Forall (fun f => f = None) (dir_faults (cl_dirs w)).

(** Nothing is left of an agent. *)
Definition reclaimed (a : AgentID) (w : CleanerWorld R S) : Prop :=
  remote_of (cl_repo w) a = None /\ stored (cl_ids w) a = None /\
  as_str a ∉ filesystem_dirs (cl_dirs w).

Lemma keeps_refl P w : keeps P w w.
Proof. done. Qed.

Lemma keeps_trans P w1 w2 w3 : keeps P w1 w2 -> keeps P w2 w3 -> keeps P w1 w3.
Proof.
  intros (H1 & H2 & H3) (H4 & H5 & H6). split_and!; intros b Hb.
  - by rewrite H4, H1.
  - by rewrite H5, H2.
  - by rewrite H6, H3.
Qed.

Lemma next_dir_fault_spec d f d' :
  next_dir_fault d = (f, d') ->
  filesystem_dirs d' = filesystem_dirs d /\ fleet_dirs d' = fleet_dirs d /\
  (Forall (fun f => f = None) (dir_faults d) -> Forall (fun f => f = None) (dir_faults d') /\ f = None).
Proof.
  unfold next_dir_fault. intros [= <- <-]. simpl. split_and!; [done..|].
  destruct (dir_faults d) as [|o l]; simpl; [done|]. by intros [-> Hl]%Forall_cons.
Qed.

Lemma delete_dir_spec name d r d' :
  delete_dir name d = (r, d') ->
  (forall n, n <> name -> n ∈ filesystem_dirs d' <-> n ∈ filesystem_dirs d) /\
  (r = Ok tt -> name ∉ filesystem_dirs d') /\
  (name <> ".." -> Forall (fun f => f = None) (dir_faults d) ->
   Forall (fun f => f = None) (dir_faults d') /\ r = Ok tt).
Proof.
  unfold delete_dir, validate_path. unfold_effects.
  destruct (existsb (String.eqb "..") [name]) eqn:Hn.
  { intros [= <- <-]. split_and!; [done..|]. intros Hne. cbn [existsb] in Hn.
    rewrite orb_false_r, String.eqb_eq in Hn. done. }
  destruct (next_dir_fault d) as [f d1] eqn:E.
  apply next_dir_fault_spec in E as (Hf & _ & Hg).
  destruct f; intros [= <- <-]; simpl;
    (split_and!; [set_solver|set_solver|]); intros _ [? ?]%Hg; done.
Qed.

Lemma remove_agent_resources_spec a w r w' :
  remove_agent_resources a w = (r, w') ->
  keeps (fun n => n <> as_str a) w w' /\
  (wf_agent_id a -> all_work w -> all_work w' /\ r = Ok tt /\ reclaimed a w').
Proof.
  unfold remove_agent_resources, on_repo, on_ids, on_dirs. unfold_effects.
  destruct (delete_remote a (cl_repo w)) as [r1 s1] eqn:E1.
  apply delete_remote_spec in E1 as (_ & _ & Hf1 & Hs1 & Hr1).
  destruct r1 as [[]|e1]; simpl.
  2:{ intros [= <- <-]. split; [done|]. intros Hid (HR & _). by destruct (Hr1 HR). }
  destruct (st_delete a (cl_ids w)) as [r2 s2] eqn:E2.
  apply st_delete_spec in E2 as (Hf2 & Hs2 & Hr2). destruct r2 as [[]|e2]; simpl.
  2:{ intros [= <- <-]. split; [done|]. intros Hid (_ & HS & _). by destruct (Hr2 HS). }
  destruct (delete_dir (as_str a) (cl_dirs w)) as [r3 s3] eqn:E3.
  apply delete_dir_spec in E3 as (Hf3 & Hs3 & Hr3).
  destruct r3 as [[]|e3]; simpl; intros [= <- <-]; (split; [done|]);
    intros Hid (HR & HS & HD); apply agent_name_not_parent in Hid.
  - destruct (Hr1 HR), (Hr2 HS), (Hr3 Hid HD). unfold all_work, reclaimed; simpl. auto 10.
  - by destruct (Hr3 Hid HD).
Qed.

Lemma try_from_name name a : AgentId.try_from name = Ok a -> as_str a = name /\ wf_agent_id a.
Proof.
  intros E. pose proof E as E'. unfold AgentId.try_from, and_then in E'.
  destruct (agent_id_not_reserved_and_valid name); [|done]. by simplify_eq/=.
Qed.

Lemma purge_name_spec skip name w :
  let w' := (purge_name skip name w).2 in
  keeps (fun n => n ∈ skip) w w' /\ 
  (forall b, wf_agent_id b -> reclaimed b w -> all_work w -> reclaimed b w') /\
  (all_work w -> all_work w' /\
    (name ∉ skip -> forall a, AgentId.try_from name = Ok a -> reclaimed a w')).
Proof.
  unfold purge_name. unfold_effects. case_bool_decide as Hin; [done|].
  destruct (AgentId.try_from name) as [a|e] eqn:E; [|simpl; split_and!; [done..|]; by intros].
  apply try_from_name in E as [E Ha]. destruct (remove_agent_resources a w) as [r w'] eqn:Hr. simpl.
  apply remove_agent_resources_spec in Hr as (Hk & Hw). subst name. split_and!.
  - destruct Hk as (H1 & H2 & H3). split_and!; intros n Hn; [apply H1|apply H2|apply H3]; intros E; by rewrite E in Hn.
  - intros b Hb Hrec Hall. destruct (Hw Ha Hall) as (_ & _ & Hrec').
    destruct (decide (as_str b = as_str a)) as [->%as_str_inj|Hne]; [done..|].
    destruct Hk as (H1 & H2 & H3). unfold reclaimed. by rewrite H1, H2, H3 by done.
  - intros Hall. destruct (Hw Ha Hall) as (? & _ & ?). split; [done|]. intros _ a' [= <-]. done.
Qed.

Lemma purge_names_spec skip names w :
  let w' := (for_each names (purge_name skip) w).2 in
  keeps (fun n => n ∈ skip) w w' /\
  (all_work w -> all_work w' /\ (forall b, wf_agent_id b -> reclaimed b w -> reclaimed b w') /\
    forall name a, name ∈ names -> name ∉ skip -> AgentId.try_from name = Ok a -> reclaimed a w').
Proof.
  revert w. induction names as [|name names IH]; intros w; simpl; unfold_effects;
    [split; [done|]; intros ?; split_and!; [done..|]; set_solver|].
  pose proof (purge_name_spec skip name w) as (Hk & Hrec & Hw).
  destruct (purge_name skip name w) as [[] w1]. simpl in *. destruct (IH w1) as [Hk' Hw'].
  split; [by eapply keeps_trans|]. intros Hall. destruct (Hw Hall) as [Hall1 Hname].
  destruct (Hw' Hall1) as (Hall2 & Hkeep & Hnames). split_and!; [done|auto|].
  intros n a [->|Hin]%elem_of_cons Hskip Ha; [|by eapply Hnames].
  apply Hkeep; [by eapply try_from_name|]. by apply Hname.
Qed.

Lemma agent_dir_names_spec base w :
  let '(names, w') := agent_dir_names base w in
  cl_repo w' = cl_repo w /\ cl_ids w' = cl_ids w /\
  filesystem_dirs (cl_dirs w') = filesystem_dirs (cl_dirs w) /\
  fleet_dirs (cl_dirs w') = fleet_dirs (cl_dirs w) /\
  (all_work w -> all_work w' /\
    forall n, n ∈ names <-> n ∈ match base with AgentFilesystemBase => filesystem_dirs (cl_dirs w)
                                           | FleetDataBase => fleet_dirs (cl_dirs w) end).
Proof.
  unfold agent_dir_names, on_dirs, list_dirs. unfold_effects.
  destruct (next_dir_fault (cl_dirs w)) as [f d] eqn:E.
  apply next_dir_fault_spec in E as (Hf & Hl & Hg). destruct f; simpl; split_and!; try done.
  - intros (_ & _ & [_ ?]%Hg). done.
  - intros (? & ? & [? _]%Hg). split; [done|]. intros n. rewrite elem_of_elements.
    destruct base; by rewrite ?Hf, ?Hl.
Qed.

End Cleaner.

(** ** Properties *)

Section CleanerProperties.
Context `{SV : SemVer} `{HO : HashOrder} {R S I : Type}.
Context `{CR : !ConfigRepository R} `{ST : !InstanceIDStorer S I}.
Context `{CL : !ConfigRepositoryLaws R} `{SL : !InstanceIDStorerLaws S I}.

(** The purge at start reclaims exactly the stale agents.  Whatever fails on the way,
    nothing of a configured agent or of Agent Control is touched.  When nothing fails,
    afterwards no configuration, identifier or directory is left of any other agent that had
    a directory. *)
Theorem purge_reclaims_stale configured (w : CleanerWorld R S) :
  let w' := (purge_stale_agents configured w).2 in
  keeps (fun n => n ∈ configured \/ n = AGENT_CONTROL_ID) w w' /\
  (all_work w -> forall name a,
     name ∈ filesystem_dirs (cl_dirs w) ∪ fleet_dirs (cl_dirs w) -> name ∉ configured ->
     AgentId.try_from name = Ok a -> reclaimed a w').
Proof.
  unfold purge_stale_agents. unfold_effects.
  pose proof (agent_dir_names_spec AgentFilesystemBase w) as H1.
  destruct (agent_dir_names AgentFilesystemBase w) as [n1 w1].
  pose proof (agent_dir_names_spec FleetDataBase w1) as H2.
  destruct (agent_dir_names FleetDataBase w1) as [n2 w2]. simpl.
  destruct H1 as (Hr1 & Hi1 & Hd1 & Hl1 & Hw1), H2 as (Hr2 & Hi2 & Hd2 & Hl2 & Hw2).
  set (names := (entries (list_to_map ((fun n => (n, tt)) <$> n1 ++ n2) : gmap string unit)).*1).
  destruct (purge_names_spec (configured ++ RESERVED_AGENT_IDS) names w2) as [Hk Hw]. split.
  - destruct Hk as (K1 & K2 & K3). split_and!; intros b Hb.
    + rewrite K1 by set_solver. by rewrite Hr2, Hr1.
    + rewrite K2 by set_solver. by rewrite Hi2, Hi1.
    + rewrite K3 by set_solver. by rewrite Hd2, Hd1.
  - intros Hall name a Hin Hc Ha. destruct (Hw1 Hall) as [Hall1 Hn1], (Hw2 Hall1) as [Hall2 Hn2].
    destruct (Hw Hall2) as (_ & _ & Hrec). apply (Hrec name); [|  |done].
    + apply elem_of_entries_fst. destruct (list_to_map _ !! name) eqn:E; [by eexists|].
      apply not_elem_of_list_to_map in E. destruct E.
      apply list_elem_of_fmap. exists (name, tt). split; [done|]. apply list_elem_of_fmap.
      exists name. split; [done|]. apply elem_of_app. rewrite Hn1, Hn2, Hl1. set_solver.
    + intros [?|E]%elem_of_app; [done|]. apply list_elem_of_singleton in E. subst name. done.
Qed.

(** Cleaning a removed sub-agent touches nothing of the others, refuses Agent Control
    without touching anything, and when nothing fails leaves nothing of the sub-agent. *)
Theorem clean_only_the_agent a t (w : CleanerWorld R S) :
  let '(r, w') := clean a t w in
  keeps (fun n => n <> as_str a) w w' /\
  (a = AgentId.AgentControl -> r = Err AgentControlId /\ w' = w) /\
  (a <> AgentId.AgentControl -> wf_agent_id a -> all_work w -> r = Ok tt /\ reclaimed a w').
Proof.
  unfold clean. destruct (decide (a = AgentId.AgentControl)) as [->|Hne]; [by split_and!|].
  destruct (remove_agent_resources a w) as [r w'] eqn:E.
  apply remove_agent_resources_spec in E as [Hk Hw]. split_and!; [done..|].
  intros _ Ha Hall. by destruct (Hw Ha Hall) as (_ & -> & ?).
Qed.

End CleanerProperties.
