(* ===== verification/GarbageCollector.v ===== *)
(** * The Kubernetes garbage collector

    Models [agent_control/resource_cleaner/k8s_garbage_collector.rs], [k8s/labels.rs] and
    [k8s/annotations.rs]: which objects of the cluster belong to sub-agents that left the
    fleet or changed their type, and their deletion.

    The cluster answers as a function of the calls made so far.  The log has the deletions
    and the answers to the listings, newest first. *)

From Stdlib Require Import String.
From stdpp Require Import base option list strings gmap.
From S2P Require Import Prelude RustString AgentId AgentTypeId.

(** ** Labels and annotations *)

Definition MANAGED_BY_KEY : string := "app.kubernetes.io/managed-by".
Definition MANAGED_BY_VAL : string := "newrelic-agent-control".
Definition AGENT_ID_LABEL_KEY : string := "newrelic.io/agent-id".

Definition AGENT_TYPE_ID_ANNOTATION_KEY : string := "newrelic.io/agent-type-id".
Definition OWNED_BY_ANNOTATION_KEY : string := "newrelic.io/owned-by".
Definition OWNED_BY_AGENT_CONTROL : string := "agent-control".
Definition OWNED_BY_SUB_AGENT : string := "sub-agent".

(** [Labels::default] and [Labels::new] *)
Definition default_labels : gmap string string := {[MANAGED_BY_KEY := MANAGED_BY_VAL]}.

Definition new_labels (agent_id : AgentID) : gmap string string :=
  <[AGENT_ID_LABEL_KEY := as_str agent_id]> default_labels.

(** The labels that are there already win. *)
Definition append_extra_labels (labels extra : gmap string string) : gmap string string :=
  labels ∪ extra.

(** [Labels::selector] on the default labels, the only ones it is printed for *)
Definition default_selector : string := MANAGED_BY_KEY +:+ "==" +:+ MANAGED_BY_VAL.

Definition is_managed_by_agent_control (labels : gmap string string) : bool :=
  bool_decide (labels !! MANAGED_BY_KEY = Some MANAGED_BY_VAL).

Definition get_agent_id (labels : gmap string string) : option string :=
  labels !! AGENT_ID_LABEL_KEY.

Definition get_agent_type_id_value (annotations : gmap string string) : option string :=
  annotations !! AGENT_TYPE_ID_ANNOTATION_KEY.

Definition get_owned_by_value (annotations : gmap string string) : option string :=
  annotations !! OWNED_BY_ANNOTATION_KEY.

Definition is_owned_by_agent_control (annotations : gmap string string) : bool :=
  bool_decide (get_owned_by_value annotations = Some OWNED_BY_AGENT_CONTROL).

Definition is_owned_by_sub_agent (annotations : gmap string string) : bool :=
  bool_decide (get_owned_by_value annotations = Some OWNED_BY_SUB_AGENT).

(** [kube]'s [ObjectMeta] and [TypeMeta], the fields that are used *)
Record ObjectMeta : Type := {
  meta_name : option string;
  meta_namespace : option string;
  meta_labels : option (gmap string string);
  meta_annotations : option (gmap string string);
}.

Record TypeMeta : Type := { api_version : string; type_kind : string }.

(** [k8s/error.rs]; the errors of the libraries are their text, and [OtherK8s] is an error of the
    watchers or of the setup of the client. *)
Inductive K8sError : Type :=
| Generic (e : string)
| KubeRs (e : string)
| CommitError (e : string)
| PatchError (name e : string)
| MissingResourceKind
| MissingResourceName
| MissingResourceNamespace
| MissingName (kind : string)
| GetDynamic (e : string)
| ParseDynamic (e kind : string)
| FailedToParseYaml (e : string)
| FailedToSerializeYaml (e : string)
| MissingAPIResource (e : string)
| OtherK8s (e : string).

Definition show_k8s_error (e : K8sError) : string :=
  match e with
  | Generic e | OtherK8s e => e
  | KubeRs e => "the kube client returned an error: " +:+ e
  | CommitError e => "cannot post object " +:+ e
  | PatchError name e => "cannot patch object " +:+ name +:+ " with " +:+ e
  | MissingResourceKind => "the kind of the resource is missing"
  | MissingResourceName => "the name of the resource is missing"
  | MissingResourceNamespace => "the namespace of the resource is missing"
  | MissingName kind => kind +:+ " does not have .metadata.name"
  | GetDynamic e => "while getting dynamic resource: " +:+ e
  | ParseDynamic e kind => "parsing dynamicObject into concrete Object: " +:+ e +:+ ", Kind: " +:+ kind
  | FailedToParseYaml e => "failed to parse yaml: " +:+ e
  | FailedToSerializeYaml e => "failed to serialize yaml: " +:+ e
  | MissingAPIResource e => "api resource kind not present in the cluster: " +:+ e
  end.

Inductive K8sGarbageCollectorError : Type :=
| GcGeneric (e : K8sError)
| MissingLabels
| MissingAnnotations
| GcAgentControlId.

Section Collector.
Context `{SV : SemVer} `{HO : HashOrder}.

Definition sub_agent_owned_with_type (t : AgentTypeID) : gmap string string :=
  <[AGENT_TYPE_ID_ANNOTATION_KEY := to_string t]> {[OWNED_BY_ANNOTATION_KEY := OWNED_BY_SUB_AGENT]}.

Inductive K8sGarbageCollectorMode : Type :=
| RetainConfig (active : gmap AgentID AgentTypeID)
| Collect (id : AgentID) (t : AgentTypeID).

Record K8sGarbageCollector : Type := {
  gc_namespace : string;
  namespace_agents : string;
  cr_type_meta : list TypeMeta;
}.

Inductive GcEffect : Type :=
| ListedConfigMaps (ns query : string) (metas : list ObjectMeta)
| DeletedConfigMap (ns name : string)
| ListedObjects (tm : TypeMeta) (ns : string) (metas : list ObjectMeta)
| DeletedObject (tm : TypeMeta) (name ns : string).

Record Cluster : Type := {
  answer_configmaps : list GcEffect -> string -> string -> result (list ObjectMeta) K8sError;
  answer_objects : list GcEffect -> TypeMeta -> string -> result (list ObjectMeta) K8sError;
  answer_delete : list GcEffect -> GcEffect -> result unit K8sError;
}.

Context (cluster : Cluster) (self : K8sGarbageCollector).

Definition list_configmaps (ns query : string) : M (list GcEffect) (result (list ObjectMeta) K8sError) :=
  fun log => match answer_configmaps cluster log ns query with
             | Ok metas => (Ok metas, ListedConfigMaps ns query metas :: log)
             | Err e => (Err e, log)
             end.

Definition list_dynamic_objects (tm : TypeMeta) (ns : string) :
  M (list GcEffect) (result (list ObjectMeta) K8sError) :=
  fun log => match answer_objects cluster log tm ns with
             | Ok metas => (Ok metas, ListedObjects tm ns metas :: log)
             | Err e => (Err e, log)
             end.

(** A deletion is logged whether it succeeds or not. *)
Definition delete_call (e : GcEffect) : M (list GcEffect) (result unit K8sError) :=
  fun log => (answer_delete cluster log e, e :: log).

Definition label_selector_query (mode : K8sGarbageCollectorMode) : string :=
  match mode with
  | RetainConfig active =>
      default_selector +:+ ", " +:+ AGENT_ID_LABEL_KEY +:+ " notin (" +:+
      fold_left (fun acc kv => acc +:+ "," +:+ as_str kv.1) (entries active) AGENT_CONTROL_ID +:+ ")"
  | Collect id _ =>
      default_selector +:+ ", " +:+ AGENT_ID_LABEL_KEY +:+ " in (" +:+ as_str id +:+ ")"
  end.

Definition retrieve_annotated_agent_type_id (meta : ObjectMeta) :
  result string K8sGarbageCollectorError :=
  ok_or (get_agent_type_id_value (default ∅ (meta_annotations meta))) MissingAnnotations.

Definition should_delete_agent_id (mode : K8sGarbageCollectorMode) (agent_id : AgentID)
    (meta : ObjectMeta) : result bool K8sGarbageCollectorError :=
  match mode with
  | RetainConfig active =>
      match active !! agent_id with
      | Some t =>
          match retrieve_annotated_agent_type_id meta with
          | Ok annotated => Ok (negb (String.eqb annotated (to_string t)))
          | Err MissingAnnotations => Ok false
          | Err e => Err e
          end
      | None => Ok true
      end
  | Collect id t =>
      if decide (agent_id = id) then
        match retrieve_annotated_agent_type_id meta with
        | Ok annotated => Ok (String.eqb annotated (to_string t))
        | Err MissingAnnotations => Ok false
        | Err e => Err e
        end
      else Ok false
  end.

Definition should_delete_dynamic_object (meta : ObjectMeta) (mode : K8sGarbageCollectorMode) :
  result bool K8sGarbageCollectorError :=
  let labels := default ∅ (meta_labels meta) in
  let annotations := default ∅ (meta_annotations meta) in
  if negb (is_managed_by_agent_control labels) then Ok false
  else if negb (is_owned_by_sub_agent annotations) then Ok false
  else
    let? agent_id_from_labels := ok_or (get_agent_id labels) MissingLabels in
    match AgentId.try_from agent_id_from_labels with
    | Ok id => should_delete_agent_id mode id meta
    | Err (Reserved _) => Ok false
    | Err _ => Ok false
    end.

Definition garbage_collect_agent_control_resources (mode : K8sGarbageCollectorMode) :
  M (list GcEffect) (result unit K8sGarbageCollectorError) :=
  let*? cms := map_err_m GcGeneric (list_configmaps (gc_namespace self) (label_selector_query mode)) in
  try_for_each
    (List.filter (fun cm => is_owned_by_agent_control (default ∅ (meta_annotations cm))) cms)
    (fun cm =>
      match meta_name cm with
      | Some name => map_err_m GcGeneric (delete_call (DeletedConfigMap (gc_namespace self) name))
      | None => ret (Ok tt)
      end).

(** The body of the loop over the objects of a type. *)
Definition collect_object (mode : K8sGarbageCollectorMode) (tm : TypeMeta) (d : ObjectMeta) :
  M (list GcEffect) (result unit K8sGarbageCollectorError) :=
  let*? b := ret (should_delete_dynamic_object d mode) in
  if (b : bool) then
    let*? name := ret (ok_or (meta_name d) (GcGeneric MissingResourceName)) in
    let*? ns := ret (ok_or (meta_namespace d) (GcGeneric MissingResourceNamespace)) in
    map_err_m GcGeneric (delete_call (DeletedObject tm name ns))
  else ret (Ok tt).

(** The body of the loop over the types. *)
Definition collect_type (mode : K8sGarbageCollectorMode) (ns : string) (tm : TypeMeta) :
  M (list GcEffect) (result unit K8sGarbageCollectorError) :=
  let* r := list_dynamic_objects tm ns in
  match r with
  | Ok dyn_objs => try_for_each dyn_objs (collect_object mode tm)
  | Err (MissingAPIResource _) => ret (Ok tt)
  | Err e => ret (Err (GcGeneric e))
  end.

Definition garbage_collect_sub_agent_resources (mode : K8sGarbageCollectorMode) (ns : string) :
  M (list GcEffect) (result unit K8sGarbageCollectorError) :=
  try_for_each (cr_type_meta self) (collect_type mode ns).

(** The three steps [retain] and [collect] share. *)
Definition garbage_collect (mode : K8sGarbageCollectorMode) :
  M (list GcEffect) (result unit K8sGarbageCollectorError) :=
  let*? _ := garbage_collect_agent_control_resources mode in
  let*? _ := garbage_collect_sub_agent_resources mode (namespace_agents self) in
  garbage_collect_sub_agent_resources mode (gc_namespace self).

Definition retain (active : gmap AgentID AgentTypeID) := garbage_collect (RetainConfig active).

Definition collect (id : AgentID) (t : AgentTypeID) :
  M (list GcEffect) (result unit K8sGarbageCollectorError) :=
  if decide (id = AgentId.AgentControl) then ret (Err GcAgentControlId)
  else garbage_collect (Collect id t).

(** ** Which objects are stale *)

(** The agent left the fleet or has another type now ([RetainConfig]), or it is the one to
    remove, with that type ([Collect]). *)
Definition affects (mode : K8sGarbageCollectorMode) (a : AgentID) (annotations : gmap string string) : Prop :=
  match mode with
  | RetainConfig active =>
      match active !! a with
      | None => True
      | Some t => exists t', annotations !! AGENT_TYPE_ID_ANNOTATION_KEY = Some t' /\ t' <> to_string t
      end
  | Collect id t => a = id /\ annotations !! AGENT_TYPE_ID_ANNOTATION_KEY = Some (to_string t)
  end.

(** An object that Agent Control manages and a sub-agent the mode affects owns. *)
Definition stale (mode : K8sGarbageCollectorMode) (m : ObjectMeta) : Prop :=
  let labels := default ∅ (meta_labels m) in
  let annotations := default ∅ (meta_annotations m) in
  labels !! MANAGED_BY_KEY = Some MANAGED_BY_VAL /\
  annotations !! OWNED_BY_ANNOTATION_KEY = Some OWNED_BY_SUB_AGENT /\
  exists name a, labels !! AGENT_ID_LABEL_KEY = Some name /\ AgentId.try_from name = Ok a /\
    affects mode a annotations.

Lemma should_delete_agent_id_spec mode a m :
  should_delete_agent_id mode a m = Ok true <-> affects mode a (default ∅ (meta_annotations m)).
Proof using.
  unfold affects, should_delete_agent_id, retrieve_annotated_agent_type_id, get_agent_type_id_value.
  destruct mode as [active|id t].
  - destruct (active !! a) as [t|]; [|done].
    destruct (default ∅ (meta_annotations m) !! AGENT_TYPE_ID_ANNOTATION_KEY) as [t'|]; simpl.
    + destruct (String.eqb_spec t' (to_string t)); simpl; naive_solver.
    + naive_solver.
  - destruct (decide (a = id)); [|naive_solver].
    destruct (default ∅ (meta_annotations m) !! AGENT_TYPE_ID_ANNOTATION_KEY) as [t'|]; simpl.
    + destruct (String.eqb_spec t' (to_string t)); naive_solver.
    + naive_solver.
Qed.

Lemma should_delete_spec mode m :
  should_delete_dynamic_object m mode = Ok true <-> stale mode m.
Proof using.
  unfold should_delete_dynamic_object, stale, is_managed_by_agent_control, is_owned_by_sub_agent,
    get_owned_by_value, get_agent_id, and_then. cbn zeta.
  case_bool_decide as Hm; simpl; [|naive_solver]. case_bool_decide as Ho; simpl; [|naive_solver].
  destruct (default ∅ (meta_labels m) !! AGENT_ID_LABEL_KEY) as [name|]; simpl; [|naive_solver].
  destruct (AgentId.try_from name) as [a|e] eqn:E; 
    [|split; [by destruct e|]; intros (_ & _ & n & a & [= <-] & E' & _); congruence].
  rewrite should_delete_agent_id_spec. split; [intros ?; by split_and!; [..|exists name, a]|].
  intros (_ & _ & n & a' & [= <-] & E' & Hm'). assert (a' = a) as -> by congruence. done.
Qed.

(** An object with the marks Agent Control gives those of a sub-agent *)
Lemma retain_deletes_owned m name t active :
  wf_agent_id (AgentId.SubAgent name) ->
  default ∅ (meta_labels m) !! MANAGED_BY_KEY = Some MANAGED_BY_VAL ->
  default ∅ (meta_labels m) !! AGENT_ID_LABEL_KEY = Some name ->
  default ∅ (meta_annotations m) !! OWNED_BY_ANNOTATION_KEY = Some OWNED_BY_SUB_AGENT ->
  default ∅ (meta_annotations m) !! AGENT_TYPE_ID_ANNOTATION_KEY = Some (to_string t) ->
  should_delete_dynamic_object m (RetainConfig active) = Ok true <->
  to_string <$> active !! AgentId.SubAgent name <> Some (to_string t).
Proof using.
  intros Hid H1 H2 H3 H4. rewrite should_delete_spec. unfold stale. cbn [affects]. rewrite H1, H2, H3, H4. split.
  - intros (_ & _ & n & a & [= <-] & Hn & Haff). cbn in Hid. rewrite Hid in Hn. injection Hn as <-.
    destruct (active !! AgentId.SubAgent name); [|done]. destruct Haff as (? & [= <-] & Hne). intros [= E]. by apply Hne.
  - intros Hne. split_and!; [done..|]. exists name, (AgentId.SubAgent name). split_and!; [done..|].
    destruct (active !! AgentId.SubAgent name) as [t'|]; [|done]. eexists. split; [done|]. intros E. apply Hne. simpl. by rewrite E.
Qed.

Lemma new_labels_managed id : new_labels id !! MANAGED_BY_KEY = Some MANAGED_BY_VAL.
Proof using. unfold new_labels. rewrite lookup_insert_ne by done. apply lookup_insert_eq. Qed.

Lemma new_labels_id id : new_labels id !! AGENT_ID_LABEL_KEY = Some (as_str id).
Proof using. apply lookup_insert_eq. Qed.

Lemma sub_agent_owned t : sub_agent_owned_with_type t !! OWNED_BY_ANNOTATION_KEY = Some OWNED_BY_SUB_AGENT.
Proof using. unfold sub_agent_owned_with_type. rewrite lookup_insert_ne by done. apply lookup_insert_eq. Qed.

Lemma sub_agent_owned_type t : sub_agent_owned_with_type t !! AGENT_TYPE_ID_ANNOTATION_KEY = Some (to_string t).
Proof using. apply lookup_insert_eq. Qed.

(** ** What a run has done *)

Definition deleted (mode : K8sGarbageCollectorMode) (tm : TypeMeta) (m : ObjectMeta)
    (log : list GcEffect) : Prop :=
  stale mode m -> exists name ns,
    meta_name m = Some name /\ meta_namespace m = Some ns /\ DeletedObject tm name ns ∈ log.

(** Only stale objects and ConfigMaps of Agent Control that the query selected are deleted. *)
Definition safe (mode : K8sGarbageCollectorMode) (log : list GcEffect) : Prop :=
  (forall tm name ns, DeletedObject tm name ns ∈ log ->
     exists ns0 metas m, ListedObjects tm ns0 metas ∈ log /\ m ∈ metas /\
       meta_name m = Some name /\ meta_namespace m = Some ns /\ stale mode m) /\
  (forall ns name, DeletedConfigMap ns name ∈ log ->
     exists metas m, ListedConfigMaps ns (label_selector_query mode) metas ∈ log /\ m ∈ metas /\
       meta_name m = Some name /\ is_owned_by_agent_control (default ∅ (meta_annotations m)) = true).

Definition complete (mode : K8sGarbageCollectorMode) (log log' : list GcEffect) : Prop :=
  forall tm ns metas, ListedObjects tm ns metas ∈ log' ->
    ListedObjects tm ns metas ∈ log \/ forall m, m ∈ metas -> deleted mode tm m log'.

Definition monotone (P : list GcEffect -> Prop) : Prop :=
  forall log log', log ⊆ log' -> P log -> P log'.

Definition runs (mode : K8sGarbageCollectorMode) (Pre : list GcEffect -> Prop)
    (m : M (list GcEffect) (result unit K8sGarbageCollectorError)) (Post : list GcEffect -> Prop) : Prop :=
  forall log r log', safe mode log -> Pre log -> m log = (r, log') ->
    safe mode log' /\ log ⊆ log' /\ (r = Ok tt -> complete mode log log' /\ Post log').

Lemma deleted_monotone mode tm m : monotone (deleted mode tm m).
Proof using. intros log log' Hs Hd Hst. destruct (Hd Hst) as (n & ns & ? & ? & ?). exists n, ns. set_solver. Qed.

Lemma complete_trans mode l1 l2 l3 :
  l2 ⊆ l3 -> complete mode l1 l2 -> complete mode l2 l3 -> complete mode l1 l3.
Proof using.
  intros Hs H1 H2 tm ns metas Hin. destruct (H2 _ _ _ Hin) as [Hin'|]; [|by right].
  destruct (H1 _ _ _ Hin') as [|Hd]; [by left|]. right. intros m Hm.
  eapply deleted_monotone; [done|by apply Hd].
Qed.

Lemma runs_seq mode Pre P Q (m k : M (list GcEffect) (result unit K8sGarbageCollectorError)) :
  monotone Pre -> monotone P -> runs mode Pre m P -> runs mode Pre k Q ->
  runs mode Pre (bind_try m (fun _ => k)) (fun log => P log /\ Q log).
Proof using.
  intros HPre HP Hm Hk log r log' Hs Hp. unfold bind_try. destruct (m log) as [r1 log1] eqn:E1.
  destruct (Hm _ _ _ Hs Hp E1) as (Hs1 & Hsub1 & Hok1). destruct r1 as [[]|e].
  - intros E2. destruct (Hk _ _ _ Hs1 (HPre _ _ Hsub1 Hp) E2) as (Hs2 & Hsub2 & Hok2).
    split_and!; [done|set_solver|]. intros ->. destruct (Hok1 eq_refl), (Hok2 eq_refl).
    split; [by eapply complete_trans|]. split; [by eapply HP|done].
  - intros [= <- <-]. split_and!; [done..|discriminate].
Qed.

Lemma runs_try_for_each {A} mode Pre (D : A -> list GcEffect -> Prop) l body :
  monotone Pre -> (forall a, monotone (D a)) ->
  (forall a, a ∈ l -> runs mode Pre (body a) (D a)) ->
  runs mode Pre (try_for_each l body) (fun log => forall a, a ∈ l -> D a log).
Proof using.
  intros HPre HD. induction l as [|a l IH]; intros Hb.
  - intros log r log' Hs _ [= <- <-]. split_and!; [done..|]. intros _. split; [by left|set_solver].
  - intros log r log' Hs Hp E. simpl in E.
    destruct (runs_seq mode Pre (D a) (fun log => forall a, a ∈ l -> D a log) (body a) (try_for_each l body)
      HPre (HD a) (Hb a ltac:(left)) (IH ltac:(set_solver)) log r log' Hs Hp E) as (? & ? & Hok).
    split_and!; [done..|]. intros ->. destruct (Hok eq_refl) as (? & ? & ?). split; [done|].
    intros a' [->|]%elem_of_cons; auto.
Qed.

(** ** The steps *)

Lemma safe_listed mode e log :
  (forall tm name ns, e <> DeletedObject tm name ns) -> (forall ns name, e <> DeletedConfigMap ns name) ->
  safe mode log -> safe mode (e :: log).
Proof using.
  intros H1 H2 (Ho & Hc). split.
  - intros tm name ns [E|Hin]%elem_of_cons; [by destruct (H1 tm name ns)|].
    destruct (Ho _ _ _ Hin) as (ns0 & metas & m & ? & ?). exists ns0, metas, m. split; [by right|done].
  - intros ns name [E|Hin]%elem_of_cons; [by destruct (H2 ns name)|].
    destruct (Hc _ _ Hin) as (metas & m & ? & ?). exists metas, m. split; [by right|done].
Qed.

(** The object was listed. *)
Definition listed (tm : TypeMeta) (m : ObjectMeta) (log : list GcEffect) : Prop :=
  exists ns0 metas, ListedObjects tm ns0 metas ∈ log /\ m ∈ metas.

Lemma listed_monotone tm m : monotone (listed tm m).
Proof using. intros log log' Hs (ns0 & metas & ? & ?). exists ns0, metas. set_solver. Qed.

(** A deletion of a listed stale object. *)
Lemma safe_deleted mode tm name ns m log :
  meta_name m = Some name -> meta_namespace m = Some ns -> stale mode m -> listed tm m log ->
  safe mode log -> safe mode (DeletedObject tm name ns :: log).
Proof using.
  intros Hn Hns Hst (ns0 & metas & Hl & Hm) (Ho & Hc). split.
  - intros tm' name' ns' [[= -> -> ->]|Hin]%elem_of_cons.
    + exists ns0, metas, m. split_and!; [by right|done..].
    + destruct (Ho _ _ _ Hin) as (? & ? & ? & ? & ?). do 3 eexists. split; [by right|done].
  - intros ns' name' [E|Hin]%elem_of_cons; [done|].
    destruct (Hc _ _ Hin) as (? & ? & ? & ?). do 2 eexists. split; [by right|done].
Qed.

Lemma runs_collect_object mode tm m :
  runs mode (listed tm m) (collect_object mode tm m) (deleted mode tm m).
Proof using.
  intros log r log' Hs Hl. unfold collect_object, delete_call. unfold_effects.
  destruct (should_delete_dynamic_object m mode) as [[]|e] eqn:E.
  - pose proof (proj1 (should_delete_spec _ _) E) as Hst.
    destruct (meta_name m) as [name|] eqn:Hn; simpl; [|by intros [= <- <-]].
    destruct (meta_namespace m) as [ns|] eqn:Hns; simpl; [|by intros [= <- <-]].
    intros [= <- <-]. split_and!; [by eapply safe_deleted|set_solver|]. intros _. split.
    + intros tm' ns' metas [?|?]%elem_of_cons; [done|by left].
    + intros _. exists name, ns. split_and!; [done..|by left].
  - intros [= <- <-]. split_and!; [done..|]. intros _. split; [by left|].
    intros Hst%should_delete_spec. congruence.
  - by intros [= <- <-].
Qed.

(** A fixed listing, from which every object is taken. *)
Lemma runs_collect_objects mode tm ns metas :
  runs mode (fun log => ListedObjects tm ns metas ∈ log)
    (try_for_each metas (collect_object mode tm)) (fun log => forall m, m ∈ metas -> deleted mode tm m log).
Proof using.
  apply runs_try_for_each; [intros log log' Hsub Hin; by apply Hsub|intros m; apply deleted_monotone|].
  intros m Hm log r log' Hs Hp. apply runs_collect_object; [done|]. by exists ns, metas.
Qed.

Lemma runs_collect_type mode ns tm :
  runs mode (fun _ => True) (collect_type mode ns tm) (fun _ => True).
Proof using.
  intros log r log' Hs _. unfold collect_type, list_dynamic_objects. unfold_effects.
  destruct (answer_objects cluster log tm ns) as [metas|e].
  - intros E. assert (safe mode (ListedObjects tm ns metas :: log)) as Hs' by by apply safe_listed.
    destruct (runs_collect_objects mode tm ns metas _ _ _ Hs' ltac:(left) E) as (Hs2 & Hsub & Hok).
    split_and!; [done|set_solver|]. intros ->. destruct (Hok eq_refl) as [Hc Hd]. split; [|done].
    intros tm' ns' metas' Hin. destruct (Hc _ _ _ Hin) as [[[= -> -> ->]|]%elem_of_cons|]; auto.
  - destruct e; intros [= <- <-]; split_and!; try done; intros _; split; try done; by left.
Qed.

Lemma runs_sub_agent_resources mode ns :
  runs mode (fun _ => True) (garbage_collect_sub_agent_resources mode ns) (fun _ => True).
Proof using.
  intros log r log' Hs _ E.
  destruct (runs_try_for_each mode (fun _ => True) (fun _ _ => True) (cr_type_meta self)
    (collect_type mode ns) ltac:(done) ltac:(done) (fun tm _ => runs_collect_type mode ns tm)
    log r log' Hs I E) as (? & ? & Hok).
  split_and!; [done..|]. intros ->. by destruct (Hok eq_refl).
Qed.

(** Deleting a ConfigMap that was listed with the query of the mode. *)
Lemma runs_delete_configmap mode metas m :
  m ∈ metas -> is_owned_by_agent_control (default ∅ (meta_annotations m)) = true ->
  runs mode (fun log => ListedConfigMaps (gc_namespace self) (label_selector_query mode) metas ∈ log)
    (match meta_name m with
     | Some name => map_err_m GcGeneric (delete_call (DeletedConfigMap (gc_namespace self) name))
     | None => ret (Ok tt)
     end) (fun _ => True).
Proof using.
  intros Hm Ho log r log' (Hso & Hsc) Hl. unfold delete_call. unfold_effects.
  destruct (meta_name m) as [name|] eqn:Hn; intros [= <- <-];
    [|split_and!; [done..|]; intros _; split; [by left|done]].
  split_and!; [|set_solver|].
  - split.
    + intros tm n ns [E|Hin]%elem_of_cons; [done|].
      destruct (Hso _ _ _ Hin) as (? & ? & ? & ? & ?). do 3 eexists. split; [by right|done].
    + intros ns n [[= -> ->]|Hin]%elem_of_cons.
      * exists metas, m. split_and!; [by right|done..].
      * destruct (Hsc _ _ Hin) as (? & ? & ? & ?). do 2 eexists. split; [by right|done].
  - intros _. split; [|done]. intros tm ns ms [E|Hin]%elem_of_cons; [done|by left].
Qed.

Lemma runs_agent_control_resources mode :
  runs mode (fun _ => True) (garbage_collect_agent_control_resources mode) (fun _ => True).
Proof using.
  intros log r log' Hs _. unfold garbage_collect_agent_control_resources, list_configmaps.
  unfold bind_try, map_err_m.
  destruct (answer_configmaps cluster log _ _) as [metas|e]; simpl;
    [|intros [= <- <-]; by split_and!].
  intros E. assert (safe mode (ListedConfigMaps (gc_namespace self) (label_selector_query mode) metas :: log))
    as Hs' by by apply safe_listed.
  eapply (runs_try_for_each mode
    (fun log => ListedConfigMaps (gc_namespace self) (label_selector_query mode) metas ∈ log)
    (fun _ _ => True)) in E; [|intros ?? Hsub Hin; by apply Hsub|done| |done|by left].
  - destruct E as (Hs2 & Hsub & Hok). split_and!; [done|set_solver|]. intros ->.
    destruct (Hok eq_refl) as [Hc _]. split; [|done].
    intros tm ns ms Hin. destruct (Hc _ _ _ Hin) as [[?|?]%elem_of_cons|]; [done|by left|by right].
  - intros m [Ho Hm]%list_elem_of_In%filter_In%and_comm. apply runs_delete_configmap; [|done].
    by apply list_elem_of_In.
Qed.

Lemma runs_garbage_collect mode :
  runs mode (fun _ => True) (garbage_collect mode) (fun _ => True).
Proof using.
  intros log r log' Hs _ E.
  destruct (runs_seq mode (fun _ => True) (fun _ => True) (fun _ => True /\ True) _ _
    ltac:(done) ltac:(done) (runs_agent_control_resources mode)
    (runs_seq mode (fun _ => True) (fun _ => True) (fun _ => True) _ _ ltac:(done) ltac:(done)
       (runs_sub_agent_resources mode (namespace_agents self))
       (runs_sub_agent_resources mode (gc_namespace self))) log r log' Hs I E) as (? & ? & Hok).
  split_and!; [done..|]. intros ->. by destruct (Hok eq_refl).
Qed.

(** ** Properties *)

(** C33: the garbage collector deletes exactly the stale objects.  Whatever the cluster
    answers, every object deleted was listed, is managed by Agent Control and belongs to a
    sub-agent that is no longer configured or has another type, and every ConfigMap deleted is
    owned by Agent Control and was selected by the query; when it returns without error, every
    stale object that was listed has been deleted. *)
Theorem gc_deletes_exactly_stale mode :
  let '(r, log) := garbage_collect mode [] in
  safe mode log /\
  (r = Ok tt -> forall tm ns metas m, ListedObjects tm ns metas ∈ log -> m ∈ metas ->
     deleted mode tm m log).
Proof using.
  assert (safe mode []) as Hs by (split; set_solver).
  destruct (garbage_collect mode []) as [r log] eqn:E.
  destruct (runs_garbage_collect mode [] r log Hs I E) as (Hs' & _ & Hok). split; [done|].
  intros -> tm ns metas m Hin Hm. destruct (Hok eq_refl) as [Hc _].
  destruct (Hc _ _ _ Hin) as [?|Hd]; [set_solver|auto].
Qed.

(** What Agent Control creates for the sub-agents that are configured is never stale:
    an object with the labels of an agent and the annotations of its type is kept as long as
    the agent is configured with that type, and is stale as soon as it is not. *)
Theorem created_objects_stale_iff_unconfigured active s t m :
  AgentId.try_from s = Ok (AgentId.SubAgent s) ->
  meta_labels m = Some (new_labels (AgentId.SubAgent s)) ->
  meta_annotations m = Some (sub_agent_owned_with_type t) ->
  stale (RetainConfig active) m <->
  forall t', active !! AgentId.SubAgent s = Some t' -> to_string t' <> to_string t.
Proof using.
  intros Hs Hl Ha. unfold stale, affects. rewrite Hl, Ha. simpl default. unfold new_labels, sub_agent_owned_with_type.
  rewrite lookup_insert_eq. split.
  - intros (_ & _ & n & a & [= <-] & Htry & Haff) t' Ht'. rewrite Hs in Htry. simplify_eq/=.
    rewrite Ht' in Haff. destruct Haff as (t2 & E & Hne). rewrite lookup_insert_eq in E. congruence.
  - intros Hne. split_and!; [done..|]. exists s, (AgentId.SubAgent s). split_and!; [done..|].
    destruct (active !! AgentId.SubAgent s) as [t'|] eqn:E; [|done].
    exists (to_string t). split; [by rewrite lookup_insert_eq|]. intros E2. by apply (Hne t').
Qed.

End Collector.

(** ** A concrete object *)

Definition example_object : ObjectMeta := {|
  meta_name := Some "a"; meta_namespace := Some "ns";
  meta_labels := Some (new_labels (AgentId.SubAgent "a"));
  meta_annotations := Some (sub_agent_owned_with_type example_id);
|}.

Lemma created_objects_stale_iff_unconfigured_witness : stale (RetainConfig ∅) example_object.
Proof.
  refine (proj2 (created_objects_stale_iff_unconfigured ∅ "a" example_id example_object
    eq_refl eq_refl eq_refl) _).
  intros t' Ht'. by rewrite lookup_empty in Ht'.
Defined.
