(* ===== verification/K8sStore.v ===== *)
(** * The data store in Kubernetes

    Models [k8s/configmap_store.rs] and the operations on ConfigMaps of [k8s/client.rs]: the
    configurations and instance identifiers of an agent are the entries of one ConfigMap.  The
    store is an instance of the interface of data stores of [ConfigRepo] and of the interface of
    [InstanceId], and keeps the laws of both, so what is proved of the repository and of the
    instance identifiers holds on it.  The ConfigMaps are among the objects [GarbageCollector]
    removes: the last part is on the two together.

    A call to the API fails when the next entry of [api_faults] says so; a failed write may have
    been done.  The lock of the store makes its operations one after the other. *)

From Stdlib Require Import String.
From stdpp Require Import base option list strings gmap.
From S2P Require Import Prelude RustString AgentId AgentTypeId RemoteConfig YamlConfig ConfigRepo.
From S2P Require Import RemoteConfigParser FileStore InstanceId GarbageCollector.

(** ** ConfigMaps and the API *)

Record ConfigMap : Type := {
  cm_labels : option (gmap string string);
  cm_annotations : option (gmap string string);
  cm_data : option (gmap string string);
}.

Record ApiFault : Type := { api_error : string; api_done : bool }.

(** The ConfigMaps by namespace and name *)
Record Kube : Type := {
  configmaps : gmap (string * string) ConfigMap;
  api_faults : list (option ApiFault);
}.

Definition next_api_fault : M Kube (option ApiFault) := fun k =>
  (mjoin (head (api_faults k)), {| configmaps := configmaps k; api_faults := tail (api_faults k) |}).

(** [Api::get_opt], and [Api::entry], which calls it *)
Definition get_opt (ns name : string) : M Kube (result (option ConfigMap) K8sError) :=
  let* f := next_api_fault in
  fun k => (match f with Some f => Err (KubeRs (api_error f)) | None => Ok (configmaps k !! (ns, name)) end, k).

(** [commit] of an entry *)
Definition commit (ns name : string) (cm : ConfigMap) : M Kube (result unit K8sError) :=
  let* f := next_api_fault in
  fun k =>
    let done := {| configmaps := <[(ns, name) := cm]> (configmaps k); api_faults := api_faults k |} in
    match f with
    | Some f => (Err (CommitError (api_error f)), if api_done f then done else k)
    | None => (Ok tt, done)
    end.

(** ** The client ([client.rs]) *)

Definition get_configmap_key (name ns key : string) : M Kube (result (option string) K8sError) :=
  let*? o := get_opt ns name in
  ret (Ok (match o with
           | None => None
           | Some cm => match cm_data cm with None => None | Some data => data !! key end
           end)).

Definition set_configmap_key (name ns : string) (labels annotations : gmap string string) (key value : string) :
  M Kube (result unit K8sError) :=
  let*? o := get_opt ns name in
  let cm := default {| cm_labels := Some labels; cm_annotations := None; cm_data := None |} o in
  commit ns name {|
    cm_labels := Some labels;
    cm_annotations := Some (annotations ∪ default ∅ (cm_annotations cm));
    cm_data := Some (<[key := value]> (default ∅ (cm_data cm)));
  |}.

Definition delete_configmap_key (name ns key : string) : M Kube (result unit K8sError) :=
  let*? o := get_opt ns name in
  match o with
  | Some cm =>
      commit ns name {| cm_labels := cm_labels cm; cm_annotations := cm_annotations cm;
                        cm_data := delete key <$> cm_data cm |}
  | None => ret (Ok tt)
  end.

(** ** The store ([configmap_store.rs]) *)

Record ConfigMapStore : Type := { kube : Kube; store_namespace : string }.

Definition on_kube {A} (m : M Kube A) : M ConfigMapStore A := fun s =>
  let '(a, k) := m (kube s) in (a, {| kube := k; store_namespace := store_namespace s |}).

Definition build_cm_name (agent_id : AgentID) (prefix : string) : string := prefix +:+ "-" +:+ as_str agent_id.

(** [ConfigMapStore::get] *)
Definition cms_get {T} (parse : string -> result T string) (agent_id : AgentID) (prefix key : string) :
  M ConfigMapStore (result (option T) K8sError) := fun s =>
  (let*? o := on_kube (get_configmap_key (build_cm_name agent_id prefix) (store_namespace s) key) in
   match o with
   | Some data => ret (let? ds := map_err FailedToParseYaml (parse data) in Ok (Some ds))
   | None => ret (Ok None)
   end) s.

Section Store.
Context `{SV : SemVer}.

(** [Annotations::new_agent_control_owned], [new_sub_agent_owned_with_type] *)
Definition ownership_annotations (o : ResourceOwnership) : gmap string string :=
  match o with
  | OwnedBySubAgent agent_type_id => sub_agent_owned_with_type agent_type_id
  | OwnedByAgentControl => {[OWNED_BY_ANNOTATION_KEY := OWNED_BY_AGENT_CONTROL]}
  end.

(** [DataStore::set_remote_data] *)
Definition cms_set {T} (print : T -> result string string) (agent_id : AgentID) (ownership : ResourceOwnership)
    (key : string) (data : T) : M ConfigMapStore (result unit K8sError) := fun s =>
  (let*? data_as_string := ret (map_err FailedToSerializeYaml (print data)) in
   on_kube (set_configmap_key (build_cm_name agent_id FOLDER_NAME_FLEET_DATA) (store_namespace s)
     (new_labels agent_id) (ownership_annotations ownership) key data_as_string)) s.

(** [DataStore::delete_remote_data] *)
Definition cms_delete (agent_id : AgentID) (key : string) : M ConfigMapStore (result unit K8sError) := fun s =>
  on_kube (delete_configmap_key (build_cm_name agent_id FOLDER_NAME_FLEET_DATA) (store_namespace s) key) s.

Context `{FS : FileSerde}.

#[export] Instance configmap_store : DataStore ConfigMapStore := {|
  get_remote_data id := map_err_m show_k8s_error (cms_get parse_remote id FOLDER_NAME_FLEET_DATA STORE_KEY_OPAMP_DATA_CONFIG);
  get_local_data id := map_err_m show_k8s_error (cms_get parse_local id FOLDER_NAME_LOCAL_DATA STORE_KEY_LOCAL_DATA_CONFIG);
  set_remote_data id o rc := map_err_m show_k8s_error (cms_set print_remote id o STORE_KEY_OPAMP_DATA_CONFIG rc);
  delete_remote_data id := map_err_m show_k8s_error (cms_delete id STORE_KEY_OPAMP_DATA_CONFIG);
|}.

Context {I : Type} `{IS : !IdSerde I}.

(** [Storer] on this store ([storer.rs]) *)
#[export] Instance configmap_storer : InstanceIDStorer ConfigMapStore I := {|
  st_set id data := map_err_m (fun e => StorerK8s (show_k8s_error e)) (cms_set print_id id OwnedByAgentControl STORE_KEY_INSTANCE_ID data);
  st_get id := map_err_m (fun e => StorerK8s (show_k8s_error e)) (cms_get parse_id id FOLDER_NAME_FLEET_DATA STORE_KEY_INSTANCE_ID);
  st_delete id := map_err_m (fun e => StorerK8s (show_k8s_error e)) (cms_delete id STORE_KEY_INSTANCE_ID);
|}.

End Store.

(** ** Lemmas on the entries *)

(** No call fails from here on. *)
Definition kube_good (k : Kube) : Prop := Forall (fun f => f = None) (api_faults k).

Definition data_at (o : option ConfigMap) (key : string) : option string :=
  match o with
  | None => None
  | Some cm => match cm_data cm with None => None | Some data => data !! key end
  end.

(** The text of an entry *)
Definition entry_of (s : ConfigMapStore) (prefix : string) (id : AgentID) (key : string) : option string :=
  data_at (configmaps (kube s) !! (store_namespace s, build_cm_name id prefix)) key.

Lemma next_api_fault_spec k f k' :
  next_api_fault k = (f, k') -> configmaps k' = configmaps k /\ (kube_good k -> kube_good k' /\ f = None).
Proof.
  intros [= <- <-]. split; [done|]. unfold kube_good. simpl. destruct (api_faults k) as [|o l]; [done|].
  intros [-> Hl]%Forall_cons. done.
Qed.

Lemma get_opt_spec ns name k r k' :
  get_opt ns name k = (r, k') ->
  configmaps k' = configmaps k /\ (forall o, r = Ok o -> o = configmaps k !! (ns, name)) /\
  (kube_good k -> kube_good k' /\ is_ok r = true).
Proof.
  unfold get_opt, bind. destruct (next_api_fault k) as [f k1] eqn:E. apply next_api_fault_spec in E as [Hc Hg].
  intros [= <- <-]. split_and!; [done| |].
  - intros o. destruct f; [done|]. intros [= <-]. by rewrite Hc.
  - intros HG. by destruct (Hg HG) as [? ->].
Qed.

Lemma commit_spec ns name cm k r k' :
  commit ns name cm k = (r, k') ->
  (configmaps k' = configmaps k \/ configmaps k' = <[(ns, name) := cm]> (configmaps k)) /\
  (r = Ok tt -> configmaps k' = <[(ns, name) := cm]> (configmaps k)) /\
  (kube_good k -> kube_good k' /\ r = Ok tt).
Proof.
  unfold commit, bind. destruct (next_api_fault k) as [f k1] eqn:E. apply next_api_fault_spec in E as [Hc Hg].
  destruct f as [f|]; intros [= <- <-].
  - split_and!; [|done|intros HG; by destruct (Hg HG)]. destruct (api_done f); simpl; rewrite Hc; auto.
  - rewrite <-Hc. simpl. split_and!; [by right|done|]. intros HG. by destruct (Hg HG).
Qed.

Lemma cm_name_inj prefix prefix' id id' :
  prefix ∈ [FOLDER_NAME_FLEET_DATA; FOLDER_NAME_LOCAL_DATA] -> prefix' ∈ [FOLDER_NAME_FLEET_DATA; FOLDER_NAME_LOCAL_DATA] ->
  build_cm_name id prefix = build_cm_name id' prefix' -> prefix = prefix' /\ as_str id = as_str id'.
Proof.
  unfold build_cm_name. intros [->|[->|[]%not_elem_of_nil]%elem_of_cons]%elem_of_cons
    [->|[->|[]%not_elem_of_nil]%elem_of_cons]%elem_of_cons E; try discriminate E; (split; [done|]); by injection E.
Qed.

(** A change of one ConfigMap at one key *)
Definition entry_frame (s s' : ConfigMapStore) (id : AgentID) (key : string) : Prop :=
  forall prefix' id' key', prefix' ∈ [FOLDER_NAME_FLEET_DATA; FOLDER_NAME_LOCAL_DATA] ->
    prefix' = FOLDER_NAME_LOCAL_DATA \/ as_str id' <> as_str id \/ key' <> key ->
    entry_of s' prefix' id' key' = entry_of s prefix' id' key'.

Lemma entry_frame_same s s' id key :
  store_namespace s' = store_namespace s -> configmaps (kube s') = configmaps (kube s) -> entry_frame s s' id key.
Proof. intros Hn Hk p i k _ _. unfold entry_of. by rewrite Hn, Hk. Qed.

Lemma entry_frame_commit s s' id key cm :
  let name := (store_namespace s, build_cm_name id FOLDER_NAME_FLEET_DATA) in
  store_namespace s' = store_namespace s ->
  (configmaps (kube s') = configmaps (kube s) \/ configmaps (kube s') = <[name := cm]> (configmaps (kube s))) ->
  (forall key', key' <> key -> data_at (Some cm) key' = data_at (configmaps (kube s) !! name) key') ->
  entry_frame s s' id key.
Proof.
  intros name Hns Hc Hk prefix' id' key' Hp Hd. unfold entry_of. rewrite Hns. destruct Hc as [->| ->]; [done|].
  destruct (decide (name = (store_namespace s, build_cm_name id' prefix'))) as [E|Hne]; [|by rewrite lookup_insert_ne].
  rewrite <-E, lookup_insert_eq. apply Hk. injection E as [E1 E2]%cm_name_inj; [|by left|done].
  destruct Hd as [->|[?|?]]; [discriminate E1|congruence|done].
Qed.

Lemma cms_get_spec {T} (parse : string -> result T string) id prefix key s r s' :
  cms_get parse id prefix key s = (r, s') ->
  store_namespace s' = store_namespace s /\ configmaps (kube s') = configmaps (kube s) /\
  (forall o, r = Ok o -> o = entry_of s prefix id key ≫= (fun t => ok (parse t))) /\
  (kube_good (kube s) -> (forall t, entry_of s prefix id key = Some t -> is_ok (parse t) = true) ->
   kube_good (kube s') /\ is_ok r = true).
Proof.
  unfold cms_get, get_configmap_key, on_kube. unfold_effects.
  destruct (get_opt _ _ (kube s)) as [r1 k1] eqn:E. apply get_opt_spec in E as (Hc & Ho & Hg).
  destruct r1 as [o|e].
  - specialize (Ho o eq_refl). subst o. fold (data_at (configmaps (kube s) !! (store_namespace s, build_cm_name id prefix)) key).
    fold (entry_of s prefix id key). destruct (entry_of s prefix id key) as [t|]; intros [= <- <-]; (split_and!; [done..| |]).
    + intros o. simpl. destruct (parse t); simpl; [by intros [= <-]|done].
    + intros HG Hp. destruct (Hg HG) as [? _]. split; [done|]. specialize (Hp t eq_refl). by destruct (parse t).
    + by intros o [= <-].
    + intros HG _. by destruct (Hg HG).
  - intros [= <- <-]. split_and!; [done..|]. intros HG. by destruct (Hg HG).
Qed.

Lemma cms_set_spec `{SV : SemVer} {T} (print : T -> result string string) id o key data s r s' :
  cms_set print id o key data s = (r, s') ->
  store_namespace s' = store_namespace s /\ entry_frame s s' id key /\
  (r = Ok tt -> exists t, print data = Ok t /\ entry_of s' FOLDER_NAME_FLEET_DATA id key = Some t) /\
  (kube_good (kube s) -> is_ok (print data) = true -> kube_good (kube s') /\ r = Ok tt).
Proof.
  unfold cms_set, set_configmap_key, on_kube. unfold_effects.
  destruct (print data) as [t|e]; [|intros [= <- <-]; split_and!; [done|by apply entry_frame_same|done|done]]. cbn [map_err].
  set (name := build_cm_name id FOLDER_NAME_FLEET_DATA). set (ns := store_namespace s).
  destruct (get_opt ns name (kube s)) as [r1 k1] eqn:E1. apply get_opt_spec in E1 as (Hc & Ho & Hg).
  destruct r1 as [cm0|e].
  2:{ intros (<- & <-)%pair_equal_spec. split_and!; [done|by apply entry_frame_same|done|intros HG; by destruct (Hg HG)]. }
  specialize (Ho _ eq_refl). subst cm0. set (cm := {| cm_labels := _; cm_annotations := _; cm_data := _ |}).
  destruct (commit ns name cm k1) as [r2 k2] eqn:E2. apply commit_spec in E2 as (Hw & Hok & Hg2). rewrite Hc in Hw, Hok.
  intros (<- & <-)%pair_equal_spec. split_and!; [done| | |].
  - eapply (entry_frame_commit _ _ _ _ cm); [done|exact Hw|]. intros key' Hne. simpl. rewrite lookup_insert_ne by done.
    fold name ns. destruct (configmaps (kube s) !! (ns, name)) as [cm0|]; simpl; [|apply lookup_empty].
    destruct (cm_data cm0); simpl; [done|apply lookup_empty].
  - intros ->. exists t. split; [done|]. unfold entry_of. simpl. fold name ns. rewrite (Hok eq_refl), lookup_insert_eq. apply lookup_insert_eq.
  - intros HG _. destruct (Hg HG) as [HG1 _]. destruct (Hg2 HG1) as [? ->]. done.
Qed.

Lemma cms_delete_spec id key s r s' :
  cms_delete id key s = (r, s') ->
  store_namespace s' = store_namespace s /\ entry_frame s s' id key /\
  (r = Ok tt -> entry_of s' FOLDER_NAME_FLEET_DATA id key = None) /\
  (kube_good (kube s) -> kube_good (kube s') /\ r = Ok tt).
Proof.
  unfold cms_delete, delete_configmap_key, on_kube. unfold_effects.
  set (name := build_cm_name id FOLDER_NAME_FLEET_DATA). set (ns := store_namespace s).
  destruct (get_opt ns name (kube s)) as [r1 k1] eqn:E1. apply get_opt_spec in E1 as (Hc & Ho & Hg).
  destruct r1 as [[cm0|]|e].
  - specialize (Ho _ eq_refl). set (cm := {| cm_labels := _; cm_annotations := _; cm_data := _ |}).
    destruct (commit ns name cm k1) as [r2 k2] eqn:E2. apply commit_spec in E2 as (Hw & Hok & Hg2). rewrite Hc in Hw, Hok.
    intros [= <- <-]. split_and!; [done| | |].
    + eapply (entry_frame_commit _ _ _ _ cm); [done|exact Hw|]. intros key' Hne. fold name ns. rewrite <-Ho. simpl.
      destruct (cm_data cm0); simpl; [by apply lookup_delete_ne|done].
    + intros ->. unfold entry_of. simpl. fold name ns. rewrite (Hok eq_refl), lookup_insert_eq. simpl.
      destruct (cm_data cm0); simpl; [apply lookup_delete_eq|done].
    + intros HG. destruct (Hg HG) as [HG1 _]. by apply Hg2.
  - specialize (Ho _ eq_refl). intros [= <- <-]. split_and!; [done|by apply entry_frame_same| |intros HG; by destruct (Hg HG)].
    intros _. unfold entry_of. simpl. fold name ns. by rewrite Hc, <-Ho.
  - intros [= <- <-]. split_and!; [done|by apply entry_frame_same|done|]. intros HG. by destruct (Hg HG).
Qed.

(** ** The laws of the two interfaces *)

Lemma map_err_run {S A E F} (f : E -> F) (m : M S (result A E)) s r s' :
  map_err_m f m s = (r, s') -> exists r0, m s = (r0, s') /\ r = map_err f r0.
Proof. unfold map_err_m. destruct (m s) as [r0 s0]. intros [= <- <-]. by exists r0. Qed.

Section StoreLaws.
Context `{SV : SemVer} `{FS : FileSerde} `{FL : !FileSerdeLaws}.

Definition cms_remote_data (s : ConfigMapStore) (id : AgentID) : option RemoteConfig :=
  entry_of s FOLDER_NAME_FLEET_DATA id STORE_KEY_OPAMP_DATA_CONFIG ≫= (fun t => ok (parse_remote t)).

Definition cms_local_data (s : ConfigMapStore) (id : AgentID) : option YAMLConfig :=
  entry_of s FOLDER_NAME_LOCAL_DATA id STORE_KEY_LOCAL_DATA_CONFIG ≫= (fun t => ok (parse_local t)).

(** The API does not fail and what is stored can be read. *)
Definition cms_reliable (s : ConfigMapStore) : Prop :=
  kube_good (kube s) /\
  (forall id t, entry_of s FOLDER_NAME_FLEET_DATA id STORE_KEY_OPAMP_DATA_CONFIG = Some t -> is_ok (parse_remote t) = true) /\
  (forall id t, entry_of s FOLDER_NAME_LOCAL_DATA id STORE_KEY_LOCAL_DATA_CONFIG = Some t -> is_ok (parse_local t) = true).

Lemma same_entries s s' :
  store_namespace s' = store_namespace s -> configmaps (kube s') = configmaps (kube s) ->
  cms_remote_data s' = cms_remote_data s /\ cms_local_data s' = cms_local_data s /\
  (kube_good (kube s') -> cms_reliable s -> cms_reliable s').
Proof using.
  intros Hn Hk. unfold cms_remote_data, cms_local_data, cms_reliable, entry_of. rewrite Hn, Hk. naive_solver.
Qed.

Lemma entry_of_name s prefix id id' key : as_str id = as_str id' -> entry_of s prefix id key = entry_of s prefix id' key.
Proof using. unfold entry_of, build_cm_name. by intros ->. Qed.

(** What a write at the configuration of one agent keeps. *)
Lemma config_frame s s' id :
  entry_frame s s' id STORE_KEY_OPAMP_DATA_CONFIG ->
  (forall i, cms_local_data s' i = cms_local_data s i) /\
  (forall id', as_str id' <> as_str id -> cms_remote_data s' id' = cms_remote_data s id') /\
  (cms_reliable s -> kube_good (kube s') ->
   (forall t, entry_of s' FOLDER_NAME_FLEET_DATA id STORE_KEY_OPAMP_DATA_CONFIG = Some t -> is_ok (parse_remote t) = true) ->
   cms_reliable s').
Proof using.
  intros Hf. unfold cms_local_data, cms_remote_data, cms_reliable. split_and!.
  - intros i. rewrite Hf; [done|by right; left|by left].
  - intros i Hi. rewrite Hf; [done|by left|by right; left].
  - intros (_ & HR & HL) HG Hp. split_and!; [done| |].
    + intros i t. destruct (decide (as_str i = as_str id)) as [E|Hne]; [rewrite (entry_of_name _ _ _ _ _ E); apply Hp|].
      rewrite Hf; [apply HR|by left|by right; left].
    + intros i t. rewrite Hf; [apply HL|by right; left|by left].
Qed.

#[export] Program Instance configmap_store_laws : DataStoreLaws ConfigMapStore := {|
  remote_data := cms_remote_data;
  local_data := cms_local_data;
  data_reliable := cms_reliable;
|}.
Next Obligation.
  intros s id r s' (r0 & (Hn & Hk & Ho & Hg)%cms_get_spec & ->)%map_err_run.
  destruct (same_entries s s' Hn Hk) as (H1 & H2 & H3). split_and!; [done..| |].
  - intros o. destruct r0; simpl; [|done]. intros [= ->]. by apply Ho.
  - intros HR. destruct (Hg (proj1 HR) (proj1 (proj2 HR) id)) as [HG Hok]. split; [auto|]. by destruct r0.
Qed.
Next Obligation.
  intros s id r s' (r0 & (Hn & Hk & Ho & Hg)%cms_get_spec & ->)%map_err_run.
  destruct (same_entries s s' Hn Hk) as (H1 & H2 & H3). split_and!; [done..| |].
  - intros o. destruct r0; simpl; [|done]. intros [= ->]. by apply Ho.
  - intros HR. destruct (Hg (proj1 HR) (proj2 (proj2 HR) id)) as [HG Hok]. split; [auto|]. by destruct r0.
Qed.
Next Obligation.
  intros s id o rc r s' (r0 & (Hn & Hf & Ho & Hg)%cms_set_spec & ->)%map_err_run.
  destruct (config_frame s s' id Hf) as (H1 & H2 & H3). split_and!; [done..| |].
  - destruct r0 as [[]|]; [|done]. intros _. destruct (Ho eq_refl) as (t & Hp & Ht).
    unfold cms_remote_data. rewrite Ht. simpl. by rewrite (parse_print_remote _ _ Hp).
  - intros _ HR. destruct (Hg (proj1 HR) (print_remote_ok rc)) as [HG ->]. split; [|done].
    apply H3; [done..|]. intros t. destruct (Ho eq_refl) as (t' & Hp & ->). intros [= <-]. by rewrite (parse_print_remote _ _ Hp).
Qed.
Next Obligation.
  intros s id r s' (r0 & (Hn & Hf & Ho & Hg)%cms_delete_spec & ->)%map_err_run.
  destruct (config_frame s s' id Hf) as (H1 & H2 & H3). split_and!; [done..| |].
  - destruct r0 as [[]|]; [|done]. intros _. unfold cms_remote_data. by rewrite Ho.
  - intros HR. destruct (Hg (proj1 HR)) as [HG ->]. split; [|done]. apply H3; [done..|]. intros t. by rewrite Ho.
Qed.

End StoreLaws.

Section StorerLaws.
Context `{SV : SemVer} {I : Type} `{IS : !IdSerde I} `{IL : !IdSerdeLaws I}.

Definition cms_stored (s : ConfigMapStore) (id : AgentID) : option (DataStored I) :=
  entry_of s FOLDER_NAME_FLEET_DATA id STORE_KEY_INSTANCE_ID ≫= (fun t => ok (parse_id t)).

Definition cms_ids_reliable (s : ConfigMapStore) : Prop :=
  kube_good (kube s) /\
  (forall id t, entry_of s FOLDER_NAME_FLEET_DATA id STORE_KEY_INSTANCE_ID = Some t -> is_ok (parse_id (I := I) t) = true).

Lemma id_frame s s' id :
  entry_frame s s' id STORE_KEY_INSTANCE_ID ->
  (forall i, as_str i <> as_str id -> cms_stored s' i = cms_stored s i) /\
  (cms_ids_reliable s -> kube_good (kube s') ->
   (forall t, entry_of s' FOLDER_NAME_FLEET_DATA id STORE_KEY_INSTANCE_ID = Some t -> is_ok (parse_id (I := I) t) = true) ->
   cms_ids_reliable s').
Proof using.
  intros Hf. unfold cms_stored, cms_ids_reliable. split.
  - intros i Hi. rewrite Hf; [done|by left|by right; left].
  - intros (_ & HR) HG Hp. split; [done|]. intros i t.
    destruct (decide (as_str i = as_str id)) as [E|Hne]; [rewrite (entry_of_name _ _ _ _ _ E); apply Hp|].
    rewrite Hf; [apply HR|by left|by right; left].
Qed.

#[export] Program Instance configmap_storer_laws : InstanceIDStorerLaws ConfigMapStore I := {|
  stored := cms_stored; st_reliable := cms_ids_reliable;
|}.
Next Obligation.
  intros s id r s' (r0 & (Hn & Hk & Ho & Hg)%cms_get_spec & ->)%map_err_run. split_and!.
  - intros i. unfold cms_stored, entry_of. by rewrite Hn, Hk.
  - intros o. destruct r0; simpl; [|done]. intros [= ->]. by apply Ho.
  - intros HR. destruct (Hg (proj1 HR) (proj2 HR id)) as [HG Hok]. split; [|by destruct r0].
    split; [done|]. unfold entry_of. rewrite Hn, Hk. apply HR.
Qed.
Next Obligation.
  intros s id data r s' (r0 & (Hn & Hf & Ho & Hg)%cms_set_spec & ->)%map_err_run.
  destruct (id_frame s s' id Hf) as (H1 & H2). split_and!; [done| |].
  - destruct r0 as [[]|]; [|done]. intros _. destruct (Ho eq_refl) as (t & Hp & Ht).
    unfold cms_stored. rewrite Ht. simpl. by rewrite (parse_print_id _ _ Hp).
  - intros _ HR. destruct (Hg (proj1 HR) (print_id_ok data)) as [HG ->]. split; [|done].
    apply H2; [done..|]. intros t. destruct (Ho eq_refl) as (t' & Hp & ->). intros [= <-]. by rewrite (parse_print_id _ _ Hp).
Qed.
Next Obligation.
  intros s id r s' (r0 & (Hn & Hf & Ho & Hg)%cms_delete_spec & ->)%map_err_run.
  destruct (id_frame s s' id Hf) as (H1 & H2). split_and!; [done| |].
  - destruct r0 as [[]|]; [|done]. intros _. unfold cms_stored. by rewrite Ho.
  - intros HR. destruct (Hg (proj1 HR)) as [HG ->]. split; [|done]. apply H2; [done..|]. intros t. by rewrite Ho.
Qed.

End StorerLaws.

(** ** Properties *)

(** The ConfigMap of an agent, and what the garbage collector sees of it *)
Definition fleet_name (s : ConfigMapStore) (id : AgentID) : string * string :=
  (store_namespace s, build_cm_name id FOLDER_NAME_FLEET_DATA).

Definition cm_meta (name : string * string) (cm : ConfigMap) : ObjectMeta := {|
  meta_name := Some name.2;
  meta_namespace := Some name.1;
  meta_labels := cm_labels cm;
  meta_annotations := cm_annotations cm;
|}.

Lemma cms_set_meta `{SV : SemVer} {T} (print : T -> result string string) id o key data s s' :
  cms_set print id o key data s = (Ok tt, s') ->
  exists cm, configmaps (kube s') !! fleet_name s id = Some cm /\ cm_labels cm = Some (new_labels id) /\
    cm_annotations cm = Some (ownership_annotations o ∪
      default ∅ (configmaps (kube s) !! fleet_name s id ≫= cm_annotations)).
Proof.
  unfold cms_set, set_configmap_key, on_kube, fleet_name. unfold_effects. destruct (print data) as [t|e]; [|done]. cbn [map_err].
  destruct (get_opt _ _ (kube s)) as [r1 k1] eqn:E1. apply get_opt_spec in E1 as (Hc & Ho & _).
  destruct r1 as [o1|]; [|done]. specialize (Ho _ eq_refl). destruct (commit _ _ _ k1) as [r2 k2] eqn:E2.
  apply commit_spec in E2 as (_ & Hok & _). intros [= -> <-]. simpl. rewrite (Hok eq_refl), lookup_insert_eq.
  eexists. split_and!; [done..|]. rewrite <-Ho. simpl. by destruct o1.
Qed.

Section Properties.
Context `{SV : SemVer} `{FS : FileSerde} `{FL : !FileSerdeLaws} {I : Type} `{IS : !IdSerde I} `{IL : !IdSerdeLaws I}.

(** C35: The configuration repository and the instance identifiers on the same ConfigMaps.
    Whatever the API does, a write that was done although its call failed included: a
    configuration that was stored successfully is the one loaded next, a deletion that succeeded
    leaves none, an instance identifier that was stored is the one read, and no write changes the
    local configurations, the data of agents with another name, or the other entry of the same
    agent. *)
Theorem configmap_store_keeps_entries (s s1 s2 s3 : ConfigMapStore) id o rc (data : DataStored I) res1 res2 res3 :
  set_remote_data id o rc s = (res1, s1) -> st_set id data s1 = (res2, s2) -> delete_remote_data id s2 = (res3, s3) ->
  (res1 = Ok tt -> remote_data s1 id = Some rc) /\
  (forall i, remote_data s2 i = remote_data s1 i) /\
  (res2 = Ok tt -> stored s2 id = Some data) /\
  (forall i, stored (I := I) s3 i = stored s2 i) /\
  (res3 = Ok tt -> remote_data s3 id = None) /\
  (forall i, stored (I := I) s1 i = stored s i) /\
  (forall i, local_data s3 i = local_data s i) /\
  (forall i, as_str i <> as_str id -> remote_data s3 i = remote_data s i /\ stored (I := I) s3 i = stored s i).
Proof using FL IL.
  intros E1 E2 E3. pose proof E1 as (Hl1 & Hr1 & Hs1 & _)%set_remote_data_spec. pose proof E2 as (Ho2 & Hs2 & _)%st_set_spec.
  pose proof E3 as (Hl3 & Hr3 & Hs3 & _)%delete_remote_data_spec.
  apply map_err_run in E1 as (? & (_ & Hf1 & _)%cms_set_spec & _). apply map_err_run in E2 as (? & (_ & Hf2 & _)%cms_set_spec & _).
  apply map_err_run in E3 as (? & (_ & Hf3 & _)%cms_delete_spec & _).
  assert (forall s s' i, entry_frame s s' id STORE_KEY_OPAMP_DATA_CONFIG -> stored (I := I) s' i = stored s i) as Hids.
  { intros t t' i Hf. cbn. unfold cms_stored. rewrite Hf; [done|by left|by right; right]. }
  assert (forall i, remote_data s2 i = remote_data s1 i) as Hcfg2.
  { intros i. cbn. unfold cms_remote_data. rewrite Hf2; [done|by left|by right; right]. }
  assert (forall i, local_data s2 i = local_data s1 i) as Hloc2.
  { intros i. cbn. unfold cms_local_data. rewrite Hf2; [done|by right; left|by left]. }
  split_and!; [done|done|done|by intros i; apply Hids|done|by intros i; apply Hids| |].
  - intros i. by rewrite Hl3, Hloc2, Hl1.
  - intros i Hi. rewrite Hr3, Hcfg2, Hr1 by done. split; [done|]. rewrite (Hids _ _ i Hf3), Ho2 by done. by apply Hids.
Qed.

(** The ConfigMap a sub-agent's configuration is stored in is removed by the garbage collector
    exactly when the sub-agent is not one of the active ones or is active with another type than
    the one the configuration was stored for, whatever was in the ConfigMap before. *)
Theorem stored_config_collected_exactly (s s' : ConfigMapStore) name t rc active :
  wf_agent_id (SubAgent name) -> set_remote_data (SubAgent name) (OwnedBySubAgent t) rc s = (Ok tt, s') ->
  exists cm, configmaps (kube s') !! fleet_name s (SubAgent name) = Some cm /\
    (should_delete_dynamic_object (cm_meta (fleet_name s (SubAgent name)) cm) (RetainConfig active) = Ok true <->
     to_string <$> active !! SubAgent name <> Some (to_string t)).
Proof using.
  intros Hid E. apply map_err_run in E as (r0 & E & Hr). destruct r0 as [[]|]; [|done].
  apply cms_set_meta in E as (cm & Hcm & Hl & Ha). exists cm. split; [done|].
  apply retain_deletes_owned; [done|..]; cbn [cm_meta meta_labels meta_annotations]; rewrite ?Hl, ?Ha; cbn [from_option Datatypes.id].
  - apply new_labels_managed.
  - apply new_labels_id.
  - apply lookup_union_Some_l, sub_agent_owned.
  - apply lookup_union_Some_l, sub_agent_owned_type.
Qed.

(** C36: Storing an instance identifier marks the ConfigMap, with the configuration it still holds,
    as owned by Agent Control: then the garbage collector does not take it for an object of the
    sub-agent any more and keeps the configuration of the old type of a sub-agent whose type
    changed. *)
Theorem instance_id_keeps_stale_config (s s1 s2 : ConfigMapStore) name t rc (data : DataStored I) :
  set_remote_data (SubAgent name) (OwnedBySubAgent t) rc s = (Ok tt, s1) -> st_set (SubAgent name) data s1 = (Ok tt, s2) ->
  remote_data s2 (SubAgent name) = Some rc /\
  exists cm, configmaps (kube s2) !! fleet_name s (SubAgent name) = Some cm /\
    default ∅ (cm_annotations cm) !! AGENT_TYPE_ID_ANNOTATION_KEY = Some (to_string t) /\
    forall mode, should_delete_dynamic_object (cm_meta (fleet_name s (SubAgent name)) cm) mode = Ok false.
Proof using FL.
  intros E1 E2. pose proof E1 as (_ & _ & Hs1 & _)%set_remote_data_spec. apply map_err_run in E1 as ([[]|] & E1 & Hr1); [|done].
  apply map_err_run in E2 as ([[]|] & E2 & Hr2); [|done]. pose proof E1 as (Hn & _ & _)%cms_set_spec. pose proof E2 as (_ & Hf2 & _)%cms_set_spec. split.
  { rewrite <-(Hs1 eq_refl). cbn. unfold cms_remote_data. rewrite Hf2; [done|by left|by right; right]. }
  apply cms_set_meta in E1 as (cm1 & Hcm1 & _ & Ha1). apply cms_set_meta in E2 as (cm & Hcm & _ & Ha).
  unfold fleet_name in *. rewrite Hn, Hcm1 in *. exists cm. split; [done|]. rewrite Ha. cbn [from_option Datatypes.id mbind option_bind]. rewrite Ha1.
  cbn [from_option Datatypes.id ownership_annotations].
  set (a := _ ∪ _). assert (a !! OWNED_BY_ANNOTATION_KEY = Some OWNED_BY_AGENT_CONTROL) as Ho by (apply lookup_union_Some_l; apply lookup_insert_eq).
  split.
  - unfold a. rewrite lookup_union_r by (by rewrite lookup_singleton_ne). apply lookup_union_Some_l, sub_agent_owned_type.
  - intros mode. unfold should_delete_dynamic_object. cbn [cm_meta meta_labels meta_annotations]. rewrite Ha.
    cbn [from_option Datatypes.id mbind option_bind]. rewrite Ha1. cbn [from_option Datatypes.id ownership_annotations]. fold a.
    unfold is_owned_by_sub_agent, get_owned_by_value. rewrite Ho. by destruct (is_managed_by_agent_control _).
Qed.

End Properties.

(** ** Examples *)

(** The write of the instance identifier is done although its call fails. *)
Definition example_cm_store (faults : list (option ApiFault)) : ConfigMapStore := {|
  kube := {| configmaps := ∅; api_faults := faults |};
  store_namespace := "newrelic";
|}.

Definition example_rc : RemoteConfig := {| config := ∅; hash := "h"; state := Applied |}.
Definition example_data : DataStored string := {| instance_id := "01J"; identifiers := "cluster-a" |}.

Definition late_fault : list (option ApiFault) := [None; None; None; Some {| api_error := "timeout"; api_done := true |}].

Definition example_store1 := set_remote_data (H := plain_semver) (SubAgent "a") OwnedByAgentControl example_rc (example_cm_store late_fault).
Definition example_store2 := st_set (InstanceIDStorer := configmap_storer (SV := plain_semver)) (SubAgent "a") example_data example_store1.2.
Definition example_store3 := delete_remote_data (H := plain_semver) (SubAgent "a") example_store2.2.

Lemma configmap_store_keeps_entries_witness :
  example_store2.1 = Err (StorerK8s "cannot post object timeout") /\
  remote_data (H := plain_semver) example_store1.2 (SubAgent "a") = Some example_rc /\
  remote_data (H := plain_semver) example_store3.2 (SubAgent "a") = None.
Proof.
  pose proof (configmap_store_keeps_entries (SV := plain_semver) (example_cm_store late_fault) _ _ _ (SubAgent "a") OwnedByAgentControl
    example_rc example_data _ _ _ (surjective_pairing example_store1) (surjective_pairing example_store2)
    (surjective_pairing example_store3)) as (H1 & _ & _ & _ & H3 & _).
  split_and!; [vm_compute; reflexivity|apply H1; vm_compute; reflexivity|apply H3; vm_compute; reflexivity].
Defined.

Definition example_type (v : string) : AgentTypeID (SV := plain_semver) := {| name := "infra"; namespace := "newrelic"; version := v |}.

Lemma pair_fst {A B} (p : A * B) a : p.1 = a -> p = (a, p.2).
Proof. destruct p. simpl. by intros ->. Qed.

Definition example_owned (v : string) := set_remote_data (H := plain_semver) (SubAgent "a") (OwnedBySubAgent (example_type v)) example_rc (example_cm_store []).

(** The sub-agent has another type now. *)
Lemma stored_config_collected_exactly_witness :
  exists cm, configmaps (kube (example_owned "1.0").2) !! ("newrelic", "fleet-data-a") = Some cm /\
    should_delete_dynamic_object (SV := plain_semver) (cm_meta ("newrelic", "fleet-data-a") cm)
      (RetainConfig {[SubAgent "a" := example_type "2.0"]}) = Ok true.
Proof.
  destruct (stored_config_collected_exactly (SV := plain_semver) (example_cm_store []) (example_owned "1.0").2 "a" (example_type "1.0") example_rc
    {[SubAgent "a" := example_type "2.0"]}) as (cm & Hcm & Hd);
    [vm_compute; reflexivity|exact (pair_fst (example_owned "1.0") (Ok tt) ltac:(vm_compute; reflexivity))|].
  exists cm. split; [exact Hcm|]. apply Hd. vm_compute. discriminate.
Defined.

Definition example_renamed := st_set (InstanceIDStorer := configmap_storer (SV := plain_semver)) (SubAgent "a") example_data (example_owned "1.0").2.

(** The same, after the identifiers of the cluster changed. *)
Lemma instance_id_keeps_stale_config_witness :
  remote_data (H := plain_semver) example_renamed.2 (SubAgent "a") = Some example_rc /\
  exists cm, configmaps (kube example_renamed.2) !! ("newrelic", "fleet-data-a") = Some cm /\
    should_delete_dynamic_object (SV := plain_semver) (cm_meta ("newrelic", "fleet-data-a") cm)
      (RetainConfig {[SubAgent "a" := example_type "2.0"]}) = Ok false.
Proof.
  destruct (instance_id_keeps_stale_config (SV := plain_semver) (example_cm_store []) (example_owned "1.0").2 example_renamed.2 "a"
    (example_type "1.0") example_rc example_data) as [H (cm & Hcm & _ & Hd)];
    [exact (pair_fst (example_owned "1.0") (Ok tt) ltac:(vm_compute; reflexivity))
    |exact (pair_fst example_renamed (Ok tt) ltac:(vm_compute; reflexivity))|].
  split; [exact H|]. exists cm. split; [exact Hcm|apply Hd].
Defined.
