(* ===== verification/DynamicConfig.v ===== *)
(** * The dynamic configuration of Agent Control

    Models the dynamic part of [agent_control/config.rs] (which agents run, and the
    versions of Agent Control itself), how it is read from a remote configuration, and
    [agent_control/config_repository/store.rs], which keeps it. *)

From Stdlib Require Import Ascii String.
From stdpp Require Import base option list strings gmap.
From S2P Require Import Prelude RustString Json OciTypes AgentId AgentTypeId RemoteConfig YamlConfig.
From S2P Require Import RemoteConfigParser ConfigRepo.

(** ** Data *)

Definition AGENTS_KEY : string := "agents".

(** The text of an [AgentControlConfigError]. *)
Definition AgentControlConfigError : Type := string.

Section Data.
Context `{SV : SemVer}.

Record SubAgentConfig : Type := { agent_type : AgentTypeID }.

#[export] Instance SubAgentConfig_eq_dec : EqDecision SubAgentConfig.
Proof. solve_decision. Defined.

Record AgentControlDynamicConfig : Type := {
  agents : gmap AgentID SubAgentConfig;
  ac_version : option OciTypes.Version;
  chart_version : option string;
  cd_chart_version : option string;
}.

(** [Default for AgentControlDynamicConfig] *)
Definition default_dynamic_config : AgentControlDynamicConfig :=
  {| agents := ∅; ac_version := None; chart_version := None; cd_chart_version := None |}.

(** [deserialize_version], after the optional text has been read *)
Definition deserialize_version (s : option string) : result (option OciTypes.Version) string :=
  match s with
  | None | Some EmptyString => Ok None
  | Some v => map_ok Some (version_from_str v)
  end.

(** [deserialize_chart_version], after the optional text has been read *)
Definition deserialize_chart_version (s : option string) : result (option string) string :=
  match s with
  | None | Some EmptyString => Ok None
  | Some v => Ok (Some v)
  end.

(** The serialisation libraries ([serde_json], [serde_saphyr]) at the types of this file.
    The default configuration is written as an empty [agents] mapping, since its other
    fields are skipped when they are [None]. *)
Class DynamicSerde : Type := {
  agents_from_value : value -> result (gmap AgentID SubAgentConfig) string;
  dynamic_to_yaml : AgentControlDynamicConfig -> result YAMLConfig string;
  dynamic_from_yaml : YAMLConfig -> result AgentControlDynamicConfig string;
  dynamic_to_yaml_default :
    dynamic_to_yaml default_dynamic_config = Ok {[AGENTS_KEY := Object []]};
}.

(** ** Reading a remote configuration *)

Section FromRemote.
Context `{HO : HashOrder} `{Y : Yaml} `{DS : DynamicSerde}.

(** One step of the loop of [try_append_agents]. *)
Definition append_agent (merged_agents : gmap AgentID SubAgentConfig)
    (entry : AgentID * SubAgentConfig) : result (gmap AgentID SubAgentConfig) AgentControlConfigError :=
  match merged_agents !! entry.1 with
  | Some _ => Err ("duplicated agent: " +:+ as_str entry.1)
  | None => Ok (<[entry.1 := entry.2]> merged_agents)
  end.

Definition try_append_agents (merged_agents : gmap AgentID SubAgentConfig) (agents_value : value) :
  result (gmap AgentID SubAgentConfig) AgentControlConfigError :=
  let? sub_agents_map :=
    map_err (fun err => "invalid agents: " +:+ err) (agents_from_value agents_value) in
  try_fold append_agent merged_agents (entries sub_agents_map).

(** One iteration of the loop over the configuration entries. *)
Definition append_dynamic (acc : gmap AgentID SubAgentConfig * YAMLConfig) (kv : string * string) :
  result (gmap AgentID SubAgentConfig * YAMLConfig) AgentControlConfigError :=
  let '(merged_agents, remaining_config) := acc in
  let? yaml_configuration :=
    map_err (fun err => "invalid config '" +:+ kv.1 +:+ "': " +:+ err) (yaml_config_try_from kv.2) in
  let '(agents_value, yaml_configuration) := remove_key AGENTS_KEY yaml_configuration in
  let? merged_agents :=
    match agents_value with
    | Some agents_value =>
        map_err (fun err => "appending agents from config '" +:+ kv.1 +:+ "': " +:+ err)
          (try_append_agents merged_agents agents_value)
    | None => Ok merged_agents
    end in
  let? remaining_config :=
    map_err (fun err => "appending config: " +:+ err)
      (try_append remaining_config yaml_configuration) in
  Ok (merged_agents, remaining_config).

(** [TryFrom<&OpampRemoteConfig> for AgentControlDynamicConfig] *)
Definition dynamic_try_from (c : OpampRemoteConfig) :
  result AgentControlDynamicConfig AgentControlConfigError :=
  let? remaining_config :=
    map_err (fun err => "initializing default config: " +:+ err)
      (dynamic_to_yaml default_dynamic_config) in
  let? acc := try_fold append_dynamic (∅, remaining_config) (agent_configs_iter c) in
  let '(merged_agents, remaining_config) := acc in
  let? remaining :=
    map_err (fun err => "encoding config: " +:+ err) (dynamic_from_yaml remaining_config) in
  Ok {| agents := merged_agents; ac_version := ac_version remaining;
        chart_version := chart_version remaining; cd_chart_version := cd_chart_version remaining |}.

(** [sub_agents_difference]: the entries of the first map not in the second *)
Definition sub_agents_difference (old_sub_agents new_sub_agents : gmap AgentID SubAgentConfig) :
  list (AgentID * SubAgentConfig) :=
  List.filter (fun kv => negb (bool_decide (is_Some (new_sub_agents !! kv.1))))
    (entries old_sub_agents).

(** ** Specification *)

(** The agents an entry defines. *)
Definition agents_in (y : YAMLConfig) (a : gmap AgentID SubAgentConfig) : Prop :=
  match y !! AGENTS_KEY with
  | Some v => agents_from_value v = Ok a
  | None => a = ∅
  end.

(** Every entry is readable, no agent and no other key is in two of them. *)
Definition dynamic_compatible (c : OpampRemoteConfig) : Prop :=
  (forall k content, config_map c !! k = Some content ->
     starts_with AGENT_CONFIG_PREFIX k = true ->
     exists y a, yaml_config_try_from content = Ok y /\ agents_in y a) /\
  (forall k1 k2 y1 y2 a1 a2, k1 <> k2 -> decoded c k1 y1 -> decoded c k2 y2 ->
     agents_in y1 a1 -> agents_in y2 a2 -> a1 ##ₘ a2) /\
  (forall k1 k2 y1 y2, k1 <> k2 -> decoded c k1 y1 -> decoded c k2 y2 ->
     delete AGENTS_KEY y1 ##ₘ delete AGENTS_KEY y2).

(** The agents of all the entries. *)
Definition agents_of (c : OpampRemoteConfig) (agents : gmap AgentID SubAgentConfig) : Prop :=
  forall id cfg, agents !! id = Some cfg <->
    exists k y a, decoded c k y /\ agents_in y a /\ a !! id = Some cfg.

(** The other keys of all the entries, with the empty [agents] of the default. *)
Definition remaining_of (c : OpampRemoteConfig) (remaining : YAMLConfig) : Prop :=
  forall key v, remaining !! key = Some v <->
    (key = AGENTS_KEY /\ v = Object []) \/
    (key <> AGENTS_KEY /\ exists k y, decoded c k y /\ y !! key = Some v).

(** ** Facts *)

Definition dec_agents (kv : string * string) : option (gmap AgentID SubAgentConfig) :=
  match yaml_config_try_from kv.2 with
  | Ok y => match y !! AGENTS_KEY with Some v => ok (agents_from_value v) | None => Some ∅ end
  | Err _ => None
  end.

Definition dec_remaining (kv : string * string) : option YAMLConfig :=
  match yaml_config_try_from kv.2 with
  | Ok y => Some (delete AGENTS_KEY y)
  | Err _ => None
  end.

(** The two halves of an iteration. *)
Definition step_agents (a : gmap AgentID SubAgentConfig) (kv : string * string) :
  result (gmap AgentID SubAgentConfig) string :=
  let? y := yaml_config_try_from kv.2 in
  match y !! AGENTS_KEY with Some v => try_append_agents a v | None => Ok a end.

Definition step_remaining (r : YAMLConfig) (kv : string * string) : result YAMLConfig string :=
  let? y := yaml_config_try_from kv.2 in try_append r (delete AGENTS_KEY y).

Lemma append_agents_ok l a r :
  NoDup l.*1 ->
  try_fold append_agent a l = Ok r <-> a ##ₘ list_to_map l /\ r = a ∪ list_to_map l.
Proof.
  revert a. induction l as [|[k v] l IH]; intros a Hnd; simpl.
  - rewrite (right_id_L ∅ (∪)). split; [intros [= ->]|by intros [_ ->]].
    split; [apply map_disjoint_empty_r|done].
  - apply NoDup_cons in Hnd as [Hk Hnd]. unfold append_agent at 1; simpl.
    rewrite map_disjoint_insert_r.
    destruct (a !! k) as [w|] eqn:Ha; simpl; [naive_solver|].
    rewrite IH, map_disjoint_insert_l by done.
    apply not_elem_of_list_to_map_1 in Hk.
    rewrite <-insert_union_l, insert_union_r by done. naive_solver.
Qed.

Lemma try_append_agents_ok a v r :
  try_append_agents a v = Ok r <->
  exists m, agents_from_value v = Ok m /\ a ##ₘ m /\ r = a ∪ m.
Proof.
  unfold try_append_agents. destruct (agents_from_value v) as [m|e]; simpl; [|naive_solver].
  rewrite append_agents_ok by apply NoDup_fst_entries. rewrite list_to_map_entries. naive_solver.
Qed.

Lemma step_agents_ok a kv r :
  step_agents a kv = Ok r <-> exists y, dec_agents kv = Some y /\ a ##ₘ y /\ r = a ∪ y.
Proof.
  unfold step_agents, dec_agents.
  destruct (yaml_config_try_from kv.2) as [y|e]; simpl; [|naive_solver].
  destruct (y !! AGENTS_KEY) as [v|].
  - rewrite try_append_agents_ok. destruct (agents_from_value v); simpl; naive_solver.
  - split; [intros [= ->]; exists ∅|].
    + split; [done|]. split; [apply map_disjoint_empty_r|by rewrite (right_id_L ∅ (∪))].
    + intros (y' & [= <-] & _ & ->). by rewrite (right_id_L ∅ (∪)).
Qed.

Lemma step_remaining_ok a kv r :
  step_remaining a kv = Ok r <-> exists y, dec_remaining kv = Some y /\ a ##ₘ y /\ r = a ∪ y.
Proof.
  unfold step_remaining, dec_remaining.
  destruct (yaml_config_try_from kv.2) as [y|e]; simpl; [|naive_solver].
  rewrite try_append_ok. naive_solver.
Qed.

Lemma append_dynamic_ok a r kv a' r' :
  append_dynamic (a, r) kv = Ok (a', r') <->
  step_agents a kv = Ok a' /\ step_remaining r kv = Ok r'.
Proof.
  unfold append_dynamic, step_agents, step_remaining, remove_key.
  destruct (yaml_config_try_from kv.2) as [y|e]; simpl; [|naive_solver].
  destruct (y !! AGENTS_KEY) as [v|]; simpl.
  - destruct (try_append_agents a v), (try_append r (delete AGENTS_KEY y)); simpl; naive_solver.
  - destruct (try_append r (delete AGENTS_KEY y)); simpl; naive_solver.
Qed.

Lemma append_dynamic_fold_ok l a r a' r' :
  try_fold append_dynamic (a, r) l = Ok (a', r') <->
  try_fold step_agents a l = Ok a' /\ try_fold step_remaining r l = Ok r'.
Proof.
  revert a r. induction l as [|kv l IH]; intros a r; cbn [try_fold]; [naive_solver|].
  pose proof (append_dynamic_ok a r kv) as Hs.
  destruct (append_dynamic (a, r) kv) as [[a1 r1]|e]; simpl.
  - destruct (proj1 (Hs a1 r1) eq_refl) as [-> ->]; simpl. apply IH.
  - destruct (step_agents a kv) as [a1|], (step_remaining r kv) as [r1|]; simpl;
      try (split; [done|by intros [? ?]]).
    by discriminate (proj2 (Hs a1 r1) (conj eq_refl eq_refl)).
Qed.

Lemma dec_agents_Some kv a :
  dec_agents kv = Some a <-> exists y, yaml_config_try_from kv.2 = Ok y /\ agents_in y a.
Proof.
  unfold dec_agents, agents_in. destruct (yaml_config_try_from kv.2) as [y|e]; [|naive_solver].
  split.
  - intros Ha. exists y. split; [done|]. destruct (y !! AGENTS_KEY); [|naive_solver].
    destruct (agents_from_value v); naive_solver.
  - intros (y' & [= <-] & Ha). destruct (y !! AGENTS_KEY); [|naive_solver]. by rewrite Ha.
Qed.

Lemma dec_remaining_Some kv r :
  dec_remaining kv = Some r <->
  exists y, yaml_config_try_from kv.2 = Ok y /\ r = delete AGENTS_KEY y.
Proof. unfold dec_remaining. destruct (yaml_config_try_from kv.2); naive_solver. Qed.

(** The entry with the plain prefix behind a decoded name. *)
Lemma decoded_elem c k y :
  decoded c k y <->
  exists content, (k, content) ∈ agent_configs_iter c /\ yaml_config_try_from content = Ok y.
Proof.
  unfold decoded, agent_configs_iter. setoid_rewrite elem_of_prefixed. naive_solver.
Qed.

Lemma dynamic_merge_ok c :
  merge_ok dec_agents ∅ (agent_configs_iter c) /\
  merge_ok dec_remaining {[AGENTS_KEY := Object []]} (agent_configs_iter c) <->
  dynamic_compatible c.
Proof.
  unfold merge_ok, dynamic_compatible. setoid_rewrite decoded_elem.
  setoid_rewrite dec_agents_Some. setoid_rewrite dec_remaining_Some. split.
  - intros [[H1 H2] [_ H4]]. split_and!.
    + intros k content Hk Hp. destruct (H1 (k, content)) as (a & (y & Hy & Ha) & _); [|by eauto].
      by apply elem_of_prefixed.
    + intros k1 k2 y1 y2 a1 a2 Hne (c1 & Hin1 & Hy1) (c2 & Hin2 & Hy2) Ha1 Ha2.
      apply (H2 (k1, c1) (k2, c2)); eauto.
    + intros k1 k2 y1 y2 Hne (c1 & Hin1 & Hy1) (c2 & Hin2 & Hy2).
      apply (H4 (k1, c1) (k2, c2)); eauto.
  - intros (H1 & H2 & H3).
    assert (forall kv, kv ∈ agent_configs_iter c ->
      exists y a, yaml_config_try_from kv.2 = Ok y /\ agents_in y a) as Hread.
    { intros [k content] [Hk Hp]%elem_of_prefixed. by eapply H1. }
    split; split.
    + intros kv Hin. destruct (Hread kv Hin) as (y & a & Hy & Ha).
      exists a. split; [by eauto|apply map_disjoint_empty_l].
    + intros [k1 c1] [k2 c2] a1 a2 Hin1 Hin2 Hne (y1 & Hy1 & Ha1) (y2 & Hy2 & Ha2).
      apply (H2 k1 k2 y1 y2); eauto.
    + intros kv Hin. destruct (Hread kv Hin) as (y & a & Hy & Ha).
      exists (delete AGENTS_KEY y). split; [by eauto|].
      apply map_disjoint_singleton_l. by rewrite lookup_delete_eq.
    + intros [k1 c1] [k2 c2] r1 r2 Hin1 Hin2 Hne (y1 & Hy1 & ->) (y2 & Hy2 & ->).
      apply (H3 k1 k2 y1 y2); eauto.
Qed.

Lemma dynamic_agents_union c a :
  merge_union dec_agents ∅ (agent_configs_iter c) a <-> agents_of c a.
Proof.
  unfold merge_union, agents_of. setoid_rewrite decoded_elem. setoid_rewrite dec_agents_Some.
  assert (forall id cfg,
    ((∅ : gmap AgentID SubAgentConfig) !! id = Some cfg \/
      exists x y, x ∈ agent_configs_iter c /\
        (exists y0, yaml_config_try_from x.2 = Ok y0 /\ agents_in y0 y) /\ y !! id = Some cfg) <->
    (exists k y a, (exists content, (k, content) ∈ agent_configs_iter c /\
        yaml_config_try_from content = Ok y) /\ agents_in y a /\ a !! id = Some cfg)) as Heq;
    [|by setoid_rewrite Heq].
  intros id cfg. rewrite lookup_empty. split.
  - intros [?|([k content] & a' & Hin & (y & Hy & Ha) & Hid)]; [done|].
    exists k, y, a'. by eauto.
  - intros (k & y & a' & (content & Hin & Hy) & Ha & Hid). right. exists (k, content), a'. by eauto.
Qed.

Lemma dynamic_remaining_union c r :
  merge_union dec_remaining {[AGENTS_KEY := Object []]} (agent_configs_iter c) r <->
  remaining_of c r.
Proof.
  unfold merge_union, remaining_of. setoid_rewrite decoded_elem.
  setoid_rewrite dec_remaining_Some.
  assert (forall key v,
    (({[AGENTS_KEY := Object []]} : YAMLConfig) !! key = Some v \/
      exists x y, x ∈ agent_configs_iter c /\
        (exists y0, yaml_config_try_from x.2 = Ok y0 /\ y = delete AGENTS_KEY y0) /\
        y !! key = Some v) <->
    ((key = AGENTS_KEY /\ v = Object []) \/
     (key <> AGENTS_KEY /\ exists k y, (exists content, (k, content) ∈ agent_configs_iter c /\
        yaml_config_try_from content = Ok y) /\ y !! key = Some v))) as Heq;
    [|by setoid_rewrite Heq].
  intros key v. rewrite lookup_singleton_Some. split.
  - intros [[-> ->]|([k content] & y & Hin & (y0 & Hy & ->) & Hkey)]; [by left|].
    apply lookup_delete_Some in Hkey as [Hne Hkey]. right. split; [done|]. by eauto 6.
  - intros [[-> ->]|(Hne & k & y & (content & Hin & Hy) & Hkey)]; [by left|].
    right. exists (k, content), (delete AGENTS_KEY y). split; [done|]. split; [by eauto|].
    by apply lookup_delete_Some.
Qed.

Lemma dynamic_fold_ok c a r :
  try_fold append_dynamic (∅, {[AGENTS_KEY := Object []]}) (agent_configs_iter c) = Ok (a, r) <->
  dynamic_compatible c /\ agents_of c a /\ remaining_of c r.
Proof.
  rewrite append_dynamic_fold_ok.
  rewrite (merge_fold_ok dec_agents step_agents step_agents_ok) by apply prefixed_nodup.
  rewrite (merge_fold_ok dec_remaining step_remaining step_remaining_ok) by apply prefixed_nodup.
  rewrite <-dynamic_merge_ok, dynamic_agents_union, dynamic_remaining_union. tauto.
Qed.

End FromRemote.
End Data.

(** ** Properties *)

(** What a remote configuration means for Agent Control.  It is accepted exactly when
    every entry with the [agentConfig] prefix is readable, no agent and no other key is
    defined by two entries, and the remaining keys form a valid dynamic configuration.  The
    result runs exactly the agents the entries define, with the versions of the remaining
    keys; it does not depend on the iteration order of the maps. *)
Theorem dynamic_config_from_remote_spec `{SV : SemVer} `{HO : HashOrder} `{Y : Yaml}
    `{DS : !DynamicSerde} (c : OpampRemoteConfig) (d : AgentControlDynamicConfig) :
  dynamic_try_from c = Ok d <->
  dynamic_compatible c /\ agents_of c (agents d) /\
  exists remaining d0, remaining_of c remaining /\ dynamic_from_yaml remaining = Ok d0 /\
    ac_version d = ac_version d0 /\ chart_version d = chart_version d0 /\
    cd_chart_version d = cd_chart_version d0.
Proof.
  unfold dynamic_try_from. rewrite dynamic_to_yaml_default; simpl.
  pose proof (dynamic_fold_ok c) as Hfold.
  destruct (try_fold append_dynamic _ (agent_configs_iter c)) as [[a r]|e]; simpl.
  - destruct (proj1 (Hfold a r) eq_refl) as (Hc & Ha & Hr).
    assert (forall r', remaining_of c r' -> r' = r) as Hruniq.
    { intros r' Hr'. apply map_eq. intros k. apply option_eq. intros v. by rewrite (Hr' k v), (Hr k v). }
    assert (forall a', agents_of c a' -> a' = a) as Hauniq.
    { intros a' Ha'. apply map_eq. intros k. apply option_eq. intros v. by rewrite (Ha' k v), (Ha k v). }
    split.
    + destruct (dynamic_from_yaml r) as [d0|e] eqn:Hd; simpl; [|done]. intros [= <-]; simpl.
      split_and!; [done..|]. by exists r, d0.
    + intros (_ & Ha' & r' & d0 & ->%Hruniq & Hd & H1 & H2 & H3). rewrite Hd; simpl.
      apply Hauniq in Ha'. destruct d; simpl in *. by subst.
  - split; [done|]. intros (Hc & Ha & r & d0 & Hr & _).
    by discriminate (proj2 (Hfold (agents d) r) (conj Hc (conj Ha Hr))).
Qed.

(** ** A concrete notation

    Used to evaluate the definitions: a document is a list of agent names separated by
    commas, all of the same type. *)

Definition agents_text (s : string) : result (gmap AgentID SubAgentConfig) string :=
  try_fold
    (fun acc w =>
       let? id := map_err (fun _ => "invalid agent id") (AgentId.try_from w) in
       Ok (<[id := {| agent_type := example_id |}]> acc))
    ∅ (split ","%char s).

Definition agents_value (a : gmap AgentID SubAgentConfig) : value :=
  match as_str <$> (map_to_list a).*1 with
  | [] => Object []
  | id :: ids => Str (fold_left (fun acc id => acc +:+ "," +:+ id) ids id)
  end.

Definition agents_decode (v : value) : result (gmap AgentID SubAgentConfig) string :=
  match v with
  | Str s => agents_text s
  | Object [] => Ok ∅
  | _ => Err "not a list of agents"
  end.

#[export] Instance names_yaml : Yaml := {|
  parse_yaml_config := fun s => if str_is_empty s then Ok ∅ else Ok {[AGENTS_KEY := Str s]};
  yaml_to_string := fun c =>
    match c !! AGENTS_KEY with Some (Str s) => Ok s | _ => Ok "" end;
|}.

#[export] Instance names_serde : DynamicSerde := {|
  agents_from_value := agents_decode;
  dynamic_to_yaml := fun d => Ok {[AGENTS_KEY := agents_value (agents d)]};
  dynamic_from_yaml := fun c =>
    map_ok (fun a => {| agents := a; ac_version := None; chart_version := None;
                        cd_chart_version := None |})
      (match c !! AGENTS_KEY with Some v => agents_decode v | None => Ok ∅ end);
  dynamic_to_yaml_default := eq_refl;
|}.
