(* ===== verification/AgentControlStore.v ===== *)
(** * The configuration store of Agent Control

    Models [agent_control/config_repository/store.rs]: loading the configuration of Agent
    Control from the local values, the environment and the stored remote configuration, and
    keeping the remote one. *)

From Stdlib Require Import String.
From stdpp Require Import base option list strings gmap.
From S2P Require Import Prelude RustString Json AgentId AgentTypeId RemoteConfig YamlConfig.
From S2P Require Import RemoteConfigParser ConfigRepo DynamicConfig.

Section Store.
Context `{SV : SemVer}.

(** [AgentControlConfig]: the dynamic part and the static rest *)
Record AgentControlConfig (Static : Type) : Type := {
  static : Static;
  dynamic : AgentControlDynamicConfig;
}.
Arguments static {Static} _.
Arguments dynamic {Static} _.

Context {R : Type} `{CR : !ConfigRepository R} `{Y : Yaml} `{DS : !DynamicSerde} {Static : Type}.

(** The [config] crate: the configuration from the text of the local values with the
    environment variables on top; its error is the whole message. *)
Variable build_config : string -> result (AgentControlConfig Static) AgentControlConfigError.

Definition sanitize_local_dynamic_config (dynamic_config : AgentControlDynamicConfig) :
  AgentControlDynamicConfig :=
  {| agents := agents dynamic_config; ac_version := ac_version dynamic_config;
     chart_version := None; cd_chart_version := cd_chart_version dynamic_config |}.

(** The pure steps of [_load_config] on the local values. *)
Definition local_config (loaded : option Config) :
  result (AgentControlConfig Static) AgentControlConfigError :=
  let? local := ok_or loaded "missing local agent control config" in
  let? local_config_string := string_try_from (get_yaml_config local) in
  let? config := build_config local_config_string in
  Ok {| static := static config; dynamic := sanitize_local_dynamic_config (dynamic config) |}.

(** [_load_config] *)
Definition _load_config : M R (result (AgentControlConfig Static) AgentControlConfigError) :=
  let*? loaded := map_err_m
    (fun e => "loading Agent Control local config: " +:+ show_repository_error e)
    (load_local AgentControl) in
  let*? config := ret (local_config loaded) in
  let*? maybe_remote := map_err_m
    (fun e => "loading Agent Control remote config: " +:+ show_repository_error e)
    (load_remote AgentControl default_capabilities) in
  match maybe_remote with
  | Some remote_config =>
      let*? dynamic_config := ret (dynamic_from_yaml (get_yaml_config remote_config)) in
      ret (Ok {| static := static config; dynamic := dynamic_config |})
  | None => ret (Ok config)
  end.

(** [AgentControlDynamicConfigRepository for AgentControlConfigStore] *)

Definition store_load : M R (result AgentControlDynamicConfig AgentControlConfigError) :=
  let*? config := _load_config in
  ret (Ok (dynamic config)).

Definition store_store (config : RemoteConfig) : M R (result unit AgentControlConfigError) :=
  map_err_m (fun e => "storing Agent Control config: " +:+ show_repository_error e)
    (store_remote AgentControl OwnedByAgentControl config).

Definition store_update_state (st : ConfigState) : M R (result unit AgentControlConfigError) :=
  map_err_m (fun e => "updating Agent Control config: " +:+ show_repository_error e)
    (update_state AgentControl OwnedByAgentControl st).

Definition store_delete : M R (result unit AgentControlConfigError) :=
  map_err_m (fun e => "deleting Agent Control config: " +:+ show_repository_error e)
    (delete_remote AgentControl).

Definition store_get_remote_config :
  M R (result (option RemoteConfig) AgentControlConfigError) :=
  map_err_m (fun e => "loading Agent Control config: " +:+ show_repository_error e)
    (get_remote_config AgentControl).

(** ** Properties *)

Context `{CL : !ConfigRepositoryLaws R}.

(** The configuration Agent Control runs with.  With a repository that works, loading
    succeeds exactly when there is a local configuration that can be built and the stored
    remote configuration, if any, can be read.  A stored remote configuration replaces the
    dynamic part as a whole; without one, the local dynamic part is used with its
    [chart_version] removed.  Loading changes nothing that is stored. *)
Theorem load_config_spec (r : R) :
  reliable r -> remote_on r = true ->
  let '(res, r') := _load_config r in
  (forall id, remote_of r' id = remote_of r id) /\
  match local_config (LocalConfig <$> local_of r AgentControl) with
  | Err _ => is_ok res = false
  | Ok local =>
      match remote_of r AgentControl with
      | None => res = Ok local /\ chart_version (dynamic local) = None
      | Some rc =>
          res = map_ok (fun d => {| static := static local; dynamic := d |})
                  (dynamic_from_yaml (config rc))
      end
  end.
Proof.
  intros Hr Hon. unfold _load_config, bind_try, map_err_m, ret.
  destruct (load_local AgentControl r) as [res1 r1] eqn:Hl.
  apply load_local_spec in Hl as (Hv1 & _ & Hon1 & Ho1 & Hr1).
  destruct (Hr1 Hr) as [Hr1' Hok1]. destruct res1 as [o1|]; [|done]; simpl.
  rewrite (Ho1 _ eq_refl).
  destruct (local_config (LocalConfig <$> local_of r AgentControl)) as [local|e] eqn:Hlc;
    [|by split; [by rewrite Hv1|]].
  assert (chart_version (dynamic local) = None) as Hchart.
  { unfold local_config in Hlc. unfold_effects. by repeat case_match; simplify_eq/=. }
  destruct (load_remote AgentControl default_capabilities r1) as [res2 r2] eqn:Hl2.
  apply load_remote_spec in Hl2 as (Hv2 & _ & _ & Ho2 & Hr2).
  destruct (Hr2 Hr1') as [Hr2' Hok2]. destruct res2 as [o2|]; [|done]; simpl.
  rewrite (Ho2 _ eq_refl), Hon1, Hon, Hv1; simpl.
  destruct (remote_of r AgentControl) as [rc|]; simpl.
  - destruct (dynamic_from_yaml (config rc)); simpl; (split; [by rewrite Hv2, Hv1|done]).
  - split; [by rewrite Hv2, Hv1|done].
Qed.

End Store.

Arguments static {SV Static} _.
Arguments dynamic {SV Static} _.

(** ** A concrete store *)

(** The local values are the whole configuration; the environment sets nothing. *)
Definition names_build_config (s : string) : result (AgentControlConfig unit) AgentControlConfigError :=
  map_ok (fun a => {| static := tt; dynamic := {| agents := a; ac_version := None;
                        chart_version := Some "1.0.0"; cd_chart_version := None |} |})
    (if str_is_empty s then Ok ∅ else agents_text s).

Definition names_repo (remote : gmap AgentID RemoteConfig) (local : string) : ConfigRepo MemStore := {|
  opamp_data_store := {| mem_remote := remote;
                         mem_local := {[AgentControl := {[AGENTS_KEY := Str local]}]};
                         faults := [] |};
  remote_enabled := true;
|}.

Lemma load_config_spec_witness :
  let r := names_repo ∅ "a" in
  let '(res, r') := _load_config names_build_config r in
  (forall id, remote_of r' id = remote_of r id) /\
  res = Ok {| static := tt;
              dynamic := {| agents := {[AgentId.SubAgent "a" := {| agent_type := example_id |}]};
                            ac_version := None; chart_version := None; cd_chart_version := None |} |} /\
  chart_version (SV := plain_semver)
    {| agents := {[AgentId.SubAgent "a" := {| agent_type := example_id |}]};
       ac_version := None; chart_version := None; cd_chart_version := None |} = None.
Proof.
  refine (load_config_spec names_build_config (names_repo ∅ "a") _ eq_refl).
  apply Forall_nil_2.
Defined.
