(* ===== verification/Backoff.v ===== *)
(** * Backoff

    Models [utils/retry.rs], [utils/backoff_gate.rs] and
    [sub_agent/on_host/command/restart_policy.rs]: the delays between attempts, the loops
    that retry an operation, the gate that suppresses attempts, and the restart policy of
    executables.

    A [Duration] is its number of nanoseconds, at most [DURATION_MAX]; an [Instant] is a
    number of nanoseconds since some origin.  [None] stands for a panic.  Whether integer
    overflow panics or wraps depends on how the program is compiled: [checks]. *)

From Stdlib Require Import NArith Lia.
From Stdlib.Floats Require Import SpecFloat.
From stdpp Require Import base option list numbers.
From S2P Require Import Prelude.

Local Open Scope N_scope.

(** ** Machine integers and durations *)

Definition u32_max : N := 2 ^ 32 - 1.
Definition u64_max : N := 2 ^ 64 - 1.

Definition NANOS_PER_SEC : N := 1000000000.
Definition DURATION_MAX : N := u64_max * NANOS_PER_SEC + (NANOS_PER_SEC - 1).

Definition as_u32 (n : N) : N := n mod 2 ^ 32.
Definition as_u64 (n : N) : N := n mod 2 ^ 64.

(** [u32::checked_pow] and [u32::saturating_add] *)
Definition checked_pow (base exp : N) : option N :=
  if base ^ exp <=? u32_max then Some (base ^ exp) else None.

Definition saturating_add (a b : N) : N := N.min (a + b) u32_max.

(** [Duration::checked_mul] *)
Definition checked_mul (d k : N) : option N :=
  if d * k <=? DURATION_MAX then Some (d * k) else None.

(** [u32::pow], which wraps when overflow is not checked. *)
Definition pow_u32 (checks : bool) (base exp : N) : option N :=
  if checks then checked_pow base exp else Some (as_u32 (base ^ exp)).

Definition from_secs (n : N) : N := n * NANOS_PER_SEC.

(** ** Retrying ([retry.rs]) *)

Record BackoffPolicy : Type := {
  max_attempts : positive;
  base_delay : N;
  max_delay : N;
  jitter : bool;
}.

Definition delay_for_attempt (p : BackoffPolicy) (attempt : N) : N :=
  if attempt =? 0 then 0
  else
    let multiplier := default u32_max (checked_pow 2 (attempt - 1)) in
    let candidate := default (max_delay p) (checked_mul (base_delay p) multiplier) in
    N.min candidate (max_delay p).

(** [full_jitter], with the nanoseconds since the epoch, or [None] if the clock is before
    it.  The remainder by zero panics. *)
Definition full_jitter (checks : bool) (since_epoch : option N) (d : N) : option N :=
  let cap_nanos := as_u64 d in
  if cap_nanos =? 0 then Some 0
  else
    let now_nanos := default 0 (as_u64 <$> since_epoch) in
    let m := cap_nanos + 1 in
    if m <=? u64_max then Some (now_nanos mod m)
    else if checks then None
    else let wrapped := as_u64 m in
         if wrapped =? 0 then None else Some (now_nanos mod wrapped).

Definition delay_with_jitter (checks : bool) (since_epoch : option N) (p : BackoffPolicy)
    (attempt : N) : option N :=
  let delay := delay_for_attempt p attempt in
  if jitter p then full_jitter checks since_epoch delay else Some delay.

Section Retry.
Context {S T E : Type}.
Variable checks : bool.
Variable f : M S (result T E).
Variable sleep : N -> M S unit.
Variable since_epoch : M S (option N).

(** The [for] loop of [retry]; the [expect] at its end panics if no attempt was made. *)
Fixpoint retry_attempts (n : nat) (interval : N) (last_err : option E) :
  M S (option (result T E)) :=
  match n with
  | O => ret (Err <$> last_err)
  | Datatypes.S n =>
      let* r := f in
      match r with
      | Ok v => ret (Some (Ok v))
      | Err e => let* _ := sleep interval in retry_attempts n interval (Some e)
      end
  end.

Definition retry (max_attempts : nat) (interval : N) : M S (option (result T E)) :=
  retry_attempts (if Nat.eqb max_attempts 0 then 1%nat else max_attempts) interval None.

(** The [for attempt in 1..=attempts] loop, with [remaining] attempts to go. *)
Fixpoint backoff_attempts (policy : BackoffPolicy) (remaining attempt : nat) (last_err : option E) :
  M S (option (result T E)) :=
  match remaining with
  | O => ret (Err <$> last_err)
  | Datatypes.S remaining =>
      let* r := f in
      match r with
      | Ok v => ret (Some (Ok v))
      | Err e =>
          if Nat.ltb attempt (Pos.to_nat (max_attempts policy)) then
            let* now := since_epoch in
            match delay_with_jitter checks now policy (as_u32 (N.of_nat attempt)) with
            | None => ret None
            | Some d =>
                let* _ := sleep d in
                backoff_attempts policy remaining (Datatypes.S attempt) (Some e)
            end
          else backoff_attempts policy remaining (Datatypes.S attempt) (Some e)
      end
  end.

Definition retry_with_backoff (policy : BackoffPolicy) : M S (option (result T E)) :=
  backoff_attempts policy (Pos.to_nat (max_attempts policy)) 1 None.

End Retry.

(** ** The gate ([backoff_gate.rs]) *)

Inductive SuppressionReason : Type :=
| InCooldown (consecutive_failures : N)
| CapReached (consecutive_failures : N).

Section Gate.
Context {K : Type} `{!EqDecision K}.

Record GateState : Type := {
  key : option K;
  consecutive_failures : N;
  next_attempt_at : option N;
}.

Definition default_gate : GateState :=
  {| key := None; consecutive_failures := 0; next_attempt_at := None |}.

Definition reset_if_key_changed (st : GateState) (k : K) : GateState :=
  if bool_decide (key st = Some k) then st
  else {| key := Some k; consecutive_failures := 0; next_attempt_at := None |}.

Variable checks : bool.
Variable policy : BackoffPolicy.

(** The largest instant the platform represents; adding beyond it panics. *)
Variable instant_max : N.

(** [check]; the clock is read by the first guard and, if it fails, again by the second. *)
Definition check (now now' : N) (st : GateState) (k : K) : option SuppressionReason * GateState :=
  let st := reset_if_key_changed st k in
  (match next_attempt_at st with
   | Some t =>
       if (now <? t) && (Npos (max_attempts policy) <=? consecutive_failures st)
       then Some (CapReached (consecutive_failures st))
       else if now' <? t then Some (InCooldown (consecutive_failures st))
       else None
   | None => None
   end, st).

Definition record_failure (since_epoch : option N) (now : N) (st : GateState) (k : K) :
  option GateState :=
  let st := reset_if_key_changed st k in
  let failures := saturating_add (consecutive_failures st) 1 in
  match delay_with_jitter checks since_epoch policy failures with
  | None => None
  | Some delay =>
      if now + delay <=? instant_max then
        Some {| key := key st; consecutive_failures := failures;
                next_attempt_at := Some (now + delay) |}
      else None
  end.

Definition reset_gate : GateState := default_gate.

(** The readings of the clocks during a call of [guarded], in order. *)
Record Readings : Type := {
  checked_at : N;
  checked_again_at : N;
  failed_at : N;
  failed_since_epoch : option N;
}.

(** [guarded] around an operation with answer [result], which is [Some] in the result if the
    operation ran. *)
Definition guarded {T E} (now : Readings) (k : K) (op : result T E) (st : GateState) :
  option (result (result T E) SuppressionReason * GateState) :=
  let '(verdict, st) := check (checked_at now) (checked_again_at now) st k in
  match verdict with
  | Some suppression => Some (Err suppression, st)
  | None =>
      if is_ok op then Some (Ok op, reset_gate)
      else (fun st => (Ok op, st)) <$> record_failure (failed_since_epoch now) (failed_at now) st k
  end.

End Gate.
Arguments GateState K : clear implicits.

(** ** Restart policies ([restart_policy.rs]) *)

(** [runtime_config/restart_policy.rs] *)
Inductive BackoffStrategyType : Type := FixedType | LinearType | ExponentialType.

Record BackoffStrategyConfig : Type := {
  backoff_type : BackoffStrategyType;
  config_backoff_delay : N;
  config_max_retries : N;
  config_last_retry_interval : N;
}.

Definition DEFAULT_BACKOFF_DELAY : N := from_secs 2.
Definition DEFAULT_BACKOFF_MAX_RETRIES : N := 0.
Definition DEFAULT_BACKOFF_LAST_RETRY_INTERVAL : N := from_secs 600.

(** [Default for rendered::BackoffStrategyConfig] *)
Definition default_backoff_config : BackoffStrategyConfig := {|
  backoff_type := FixedType;
  config_backoff_delay := DEFAULT_BACKOFF_DELAY;
  config_max_retries := DEFAULT_BACKOFF_MAX_RETRIES;
  config_last_retry_interval := DEFAULT_BACKOFF_LAST_RETRY_INTERVAL;
|}.

Record Backoff : Type := {
  last_retry : N;
  tries : N;
  initial_delay : N;
  max_retries : N;
  last_retry_interval : N;
}.

Definition LAST_RETRY_INTERVAL : N := from_secs 30.

(** [Default for Backoff] at the given instant *)
Definition default_backoff (now : N) : Backoff := {|
  last_retry := now; tries := 0; initial_delay := from_secs 1; max_retries := 0;
  last_retry_interval := LAST_RETRY_INTERVAL;
|}.

Inductive BackoffStrategy : Type :=
| Fixed (b : Backoff)
| Linear (b : Backoff)
| Exponential (b : Backoff).

Definition realize_backoff_config (now : N) (i : BackoffStrategyConfig) : Backoff := {|
  last_retry := now; tries := 0; initial_delay := config_backoff_delay i;
  max_retries := config_max_retries i; last_retry_interval := config_last_retry_interval i;
|}.

(** [From<BackoffStrategyConfig> for BackoffStrategy] *)
Definition strategy_from (now : N) (value : BackoffStrategyConfig) : BackoffStrategy :=
  match backoff_type value with
  | FixedType => Fixed (realize_backoff_config now value)
  | LinearType => Linear (realize_backoff_config now value)
  | ExponentialType => Exponential (realize_backoff_config now value)
  end.

(** *** Delays *)

(** [f32], in the representation of the standard library *)
Definition f32_of (n : N) : spec_float := binary_normalize 24 128 (Z.of_N n) 0 false.

(** [Duration::as_secs_f32] *)
Definition as_secs_f32 (d : N) : spec_float :=
  SFadd 24 128 (f32_of (d / NANOS_PER_SEC))
    (SFdiv 24 128 (f32_of (d mod NANOS_PER_SEC)) (f32_of NANOS_PER_SEC)).

(** The quotient rounded to the nearest integer, ties to even. *)
Definition div_round (n d : N) : N :=
  let q := n / d in
  let r := n mod d in
  if 2 * r <? d then q
  else if d <? 2 * r then q + 1
  else if N.even q then q else q + 1.

(** [Duration::from_secs_f32], which panics on a negative or too large value. *)
Definition from_secs_f32 (x : spec_float) : option N :=
  match x with
  | S754_zero _ => Some 0
  | S754_finite false m e =>
      let nanos :=
        if Z.leb 0 e then Npos m * 2 ^ Z.to_N e * NANOS_PER_SEC
        else div_round (Npos m * NANOS_PER_SEC) (2 ^ Z.to_N (- e)) in
      if nanos <=? DURATION_MAX then Some nanos else None
  | _ => None
  end.

(** What each strategy passes to the sleep function. *)

Definition fixed (tries initial_delay : N) : option N := Some initial_delay.

Definition linear (tries initial_delay : N) : option N :=
  from_secs_f32 (SFmul 24 128 (f32_of tries) (as_secs_f32 initial_delay)).

Definition exponential (checks : bool) (tries initial_delay : N) : option N :=
  match pow_u32 checks 2 (N.max (as_u32 tries) 1 - 1) with
  | Some k => checked_mul initial_delay k
  | None => None
  end.

(** *** The policy *)

(** [Backoff::should_backoff] *)
Definition should_backoff (now : N) (b : Backoff) : bool * Backoff :=
  let tries' := if last_retry_interval b <? now - last_retry b then 0 else tries b in
  ((max_retries b =? 0) || (tries' <? max_retries b),
   {| last_retry := last_retry b; tries := tries'; initial_delay := initial_delay b;
      max_retries := max_retries b; last_retry_interval := last_retry_interval b |}).

(** [Backoff::backoff]: the delay, and the state when the sleep ended at [now]. *)
Definition backoff_with (checks : bool) (backoff_func : N -> N -> option N) (now : N) (b : Backoff) :
  option (N * Backoff) :=
  match backoff_func (tries b) (initial_delay b) with
  | None => None
  | Some d =>
      if (tries b + 1 <=? u64_max) || negb checks then
        Some (d, {| last_retry := now; tries := as_u64 (tries b + 1);
                    initial_delay := initial_delay b; max_retries := max_retries b;
                    last_retry_interval := last_retry_interval b |})
      else None
  end.

(** [RestartPolicy::should_retry] and [RestartPolicy::backoff] *)
Definition should_retry (now : N) (s : BackoffStrategy) : bool * BackoffStrategy :=
  match s with
  | Fixed b => let '(r, b) := should_backoff now b in (r, Fixed b)
  | Linear b => let '(r, b) := should_backoff now b in (r, Linear b)
  | Exponential b => let '(r, b) := should_backoff now b in (r, Exponential b)
  end.

Definition backoff (checks : bool) (now : N) (s : BackoffStrategy) : option (N * BackoffStrategy) :=
  match s with
  | Fixed b => (fun r => (r.1, Fixed r.2)) <$> backoff_with checks fixed now b
  | Linear b => (fun r => (r.1, Linear r.2)) <$> backoff_with checks linear now b
  | Exponential b => (fun r => (r.1, Exponential r.2)) <$> backoff_with checks (exponential checks) now b
  end.

(** ** Facts *)

Lemma checked_pow_2 n : checked_pow 2 n = if n <? 32 then Some (2 ^ n) else None.
Proof.
  unfold checked_pow, u32_max. destruct (N.ltb_spec n 32) as [Hn|Hn].
  - assert (2 ^ n <= 2 ^ 31) by (apply N.pow_le_mono_r; lia).
    destruct (N.leb_spec (2 ^ n) (2 ^ 32 - 1)); [done|]. simpl in *. lia.
  - assert (2 ^ 32 <= 2 ^ n) by (apply N.pow_le_mono_r; lia).
    destruct (N.leb_spec (2 ^ n) (2 ^ 32 - 1)); [|done]. simpl in *. lia.
Qed.

Lemma multiplier_min n : default u32_max (checked_pow 2 n) = N.min (2 ^ n) u32_max.
Proof.
  rewrite checked_pow_2. unfold u32_max. destruct (N.ltb_spec n 32) as [Hn|Hn]; simpl.
  - assert (2 ^ n <= 2 ^ 31) by (apply N.pow_le_mono_r; lia). simpl in *. lia.
  - assert (2 ^ 32 <= 2 ^ n) by (apply N.pow_le_mono_r; lia). simpl in *. lia.
Qed.

Lemma delay_for_attempt_min p attempt :
  max_delay p <= DURATION_MAX -> 0 < attempt ->
  delay_for_attempt p attempt =
    N.min (base_delay p * N.min (2 ^ (attempt - 1)) u32_max) (max_delay p).
Proof.
  intros Hmax Ha. unfold delay_for_attempt. destruct (N.eqb_spec attempt 0) as [|_]; [lia|].
  rewrite multiplier_min. unfold checked_mul.
  destruct (N.leb_spec (base_delay p * N.min (2 ^ (attempt - 1)) u32_max) DURATION_MAX); simpl; lia.
Qed.

Lemma delay_for_attempt_max p attempt : delay_for_attempt p attempt <= max_delay p.
Proof. unfold delay_for_attempt. destruct (attempt =? 0); lia. Qed.

Lemma full_jitter_spec checks since_epoch d :
  d < u64_max -> exists j, full_jitter checks since_epoch d = Some j /\ j <= d.
Proof.
  unfold full_jitter, as_u64, u64_max. intros Hd.
  rewrite (N.mod_small d) by lia. destruct (N.eqb_spec d 0); [by exists 0; split; [|apply N.le_0_l]|].
  destruct (N.leb_spec (d + 1) (2 ^ 64 - 1)); [|lia]. eexists. split; [done|].
  match goal with |- ?x mod _ <= _ => pose proof (N.mod_lt x (d + 1) ltac:(lia)); lia end.
Qed.

Lemma delay_with_jitter_spec checks since_epoch p attempt :
  max_delay p < u64_max ->
  exists d, delay_with_jitter checks since_epoch p attempt = Some d /\
    d <= delay_for_attempt p attempt /\
    (jitter p = false -> d = delay_for_attempt p attempt).
Proof.
  intros Hmax. unfold delay_with_jitter. pose proof (delay_for_attempt_max p attempt).
  destruct (jitter p); [|by eexists; split_and!; [done|apply N.le_refl|]].
  destruct (full_jitter_spec checks since_epoch (delay_for_attempt p attempt)) as (j & -> & Hj);
    [lia|]. by exists j.
Qed.

(** ** Properties: delays *)

(** The schedule of a backoff policy.  The delay before retry [n] is the base delay
    times [2^(n-1)], where the factor saturates at [u32::MAX] and the product at
    [max_delay]; no overflow changes it.  It never decreases and never exceeds
    [max_delay]; with jitter the wait is at most the computed delay (for a [max_delay]
    below 2^64 - 1 nanoseconds, about 584 years), without it exactly the delay. *)
Theorem backoff_schedule p :
  max_delay p < u64_max ->
  delay_for_attempt p 0 = 0 /\
  (forall n, 0 < n -> delay_for_attempt p n =
     N.min (base_delay p * N.min (2 ^ (n - 1)) u32_max) (max_delay p)) /\
  (forall n m, n <= m -> delay_for_attempt p n <= delay_for_attempt p m) /\
  (forall checks since_epoch n, exists d,
     delay_with_jitter checks since_epoch p n = Some d /\ d <= delay_for_attempt p n /\
     (jitter p = false -> d = delay_for_attempt p n)).
Proof.
  intros Hmax. assert (max_delay p <= DURATION_MAX) as Hd.
  { unfold DURATION_MAX, u64_max, NANOS_PER_SEC in *. lia. }
  split_and!; [done|by intros; apply delay_for_attempt_min| |].
  - intros n m Hnm. destruct (N.eq_dec n 0) as [->|Hn]; [apply N.le_0_l|].
    rewrite !delay_for_attempt_min by (done || lia).
    assert (2 ^ (n - 1) <= 2 ^ (m - 1)) by (apply N.pow_le_mono_r; lia).
    apply N.min_le_compat_r, N.mul_le_mono_l. lia.
  - intros. by apply delay_with_jitter_spec.
Qed.

(** The delays of the exponential restart strategy.  They are the initial delay for the
    first two retries and double with each further one up to the 32nd, as long as the
    result is a [Duration].  From retry 33 on the factor does not fit in 32 bits: with
    overflow checks the program panics, without them the factor wraps to zero and there is
    no delay at all. *)
Theorem exponential_delays n d checks :
  n < 2 ^ 32 ->
  exponential checks n d =
    if n <=? 32 then checked_mul d (2 ^ (N.max n 1 - 1))
    else if checks then None else Some 0.
Proof.
  intros Hn. unfold exponential, pow_u32, as_u32. rewrite (N.mod_small n) by done.
  destruct (N.leb_spec n 32).
  - assert (2 ^ (N.max n 1 - 1) <= 2 ^ 31) by (apply N.pow_le_mono_r; lia).
    rewrite checked_pow_2. destruct (N.ltb_spec (N.max n 1 - 1) 32); [|lia].
    rewrite N.mod_small by (simpl in *; lia). by destruct checks.
  - rewrite checked_pow_2. destruct (N.ltb_spec (N.max n 1 - 1) 32); [lia|].
    destruct checks; [done|]. replace (N.max n 1 - 1) with ((n - 1 - 32) + 32) by lia.
    rewrite N.pow_add_r, N.Div0.mod_mul. unfold checked_mul. by rewrite N.mul_0_r.
Qed.

Lemma exponential_delays_witness :
  exponential false 33 (from_secs 2) = Some 0 /\
  exponential true 5 (from_secs 2) = checked_mul (from_secs 2) 16.
Proof.
  split; [exact (exponential_delays 33 (from_secs 2) false eq_refl)|
          exact (exponential_delays 5 (from_secs 2) true eq_refl)].
Defined.

(** The default restart strategy waits for twice as many seconds as there were retries:
    its floating point computation is exact for the first four thousand retries. *)
Theorem default_linear_delays_exact :
  forallb (fun n => bool_decide (linear (N.of_nat n) DEFAULT_BACKOFF_DELAY
                                   = Some (from_secs (2 * N.of_nat n)))) (seq 0 4000) = true.
Proof. vm_compute. reflexivity. Qed.

Lemma backoff_schedule_witness :
  delay_for_attempt {| max_attempts := 3; base_delay := from_secs 1; max_delay := from_secs 60;
                       jitter := false |} 4 = from_secs 8.
Proof.
  refine (eq_trans (proj1 (proj2 (backoff_schedule
    {| max_attempts := 3; base_delay := from_secs 1; max_delay := from_secs 60; jitter := false |}
    _)) 4 _) _); [reflexivity|reflexivity|reflexivity].
Defined.

(** ** Properties: retrying *)

(** An operation that gives the listed answers and counts its calls; the sleeps are recorded
    and the clock is read with the number of calls made so far. *)
Record RetryWorld : Type := { calls : nat; slept : list N }.

Section Scripted.
Context {T E : Type}.
Variable checks : bool.
Variable answers : nat -> result T E.
Variable clock : nat -> option N.

Definition scripted_op : M RetryWorld (result T E) :=
  fun w => (answers (calls w), {| calls := S (calls w); slept := slept w |}).
Definition retry_sleep (d : N) : M RetryWorld unit :=
  fun w => (tt, {| calls := calls w; slept := d :: slept w |}).
Definition scripted_clock : M RetryWorld (option N) := fun w => (clock (calls w), w).

Variable p : BackoffPolicy.

(** The wait after failed attempt [i]. *)
Definition wait (i : nat) : N :=
  default 0 (delay_with_jitter checks (clock i) p (as_u32 (N.of_nat i))).

Lemma backoff_attempts_from k c last s :
  max_delay p < u64_max -> (c + k)%nat = Pos.to_nat (max_attempts p) ->
  let n := Pos.to_nat (max_attempts p) in
  let '(r, w) := backoff_attempts checks scripted_op retry_sleep scripted_clock p k (S c) last
                   {| calls := c; slept := s |} in
  (forall i, (c <= i < n)%nat -> (forall j, (c <= j < i)%nat -> is_ok (answers j) = false) ->
     is_ok (answers i) = true ->
     r = Some (answers i) /\
     w = {| calls := S i; slept := rev (map wait (seq (S c) (i - c))) ++ s |}) /\
  ((forall j, (c <= j < n)%nat -> is_ok (answers j) = false) -> (c < n)%nat ->
     r = Some (answers (n - 1)%nat) /\
     w = {| calls := n; slept := rev (map wait (seq (S c) (n - 1 - c))) ++ s |}).
Proof.
  intros Hmax. revert c last s. induction k as [|k IH]; intros c last s Hn; simpl.
  { split; [intros i Hi; lia|intros _ Hc; lia]. }
  unfold bind at 1. unfold scripted_op at 1. cbn [calls slept].
  destruct (answers c) as [v|e] eqn:Hc.
  - unfold ret. split.
    + intros i Hi Hj Hok. destruct (Nat.eq_dec i c) as [->|Hne].
      * by rewrite Nat.sub_diag, Hc.
      * specialize (Hj c). rewrite Hc in Hj. discriminate Hj. lia.
    + intros Hj Hlt. specialize (Hj c). rewrite Hc in Hj. discriminate Hj. lia.
  - assert (forall i, (c <= i)%nat -> is_ok (answers i) = true -> (S c <= i)%nat) as Hnext.
    { intros i Hi Hok. destruct (Nat.eq_dec i c) as [->|]; [by rewrite Hc in Hok|lia]. }
    destruct (Nat.ltb_spec (S c) (Pos.to_nat (max_attempts p))) as [Hlt|Hge].
    + unfold bind at 1. unfold scripted_clock at 1. cbn [calls slept].
      destruct (delay_with_jitter_spec checks (clock (S c)) p (as_u32 (N.of_nat (S c))) Hmax)
        as (d & Hd & _).
      rewrite Hd. unfold bind at 1. unfold retry_sleep at 1. cbn [calls slept].
      assert (wait (S c) = d) as Hw by (unfold wait; by rewrite Hd).
      specialize (IH (S c) (Some e) (d :: s)). destruct (backoff_attempts _ _ _ _ _ _ _ _ _) as [r w].
      destruct IH as [IH1 IH2]; [lia|]. split.
      * intros i Hi Hj Hok. assert (S c <= i)%nat as Hi' by (apply Hnext; [lia|done]).
        destruct (IH1 i) as [-> ->]; [lia|intros j Hj'; apply Hj; lia|done|].
        split; [done|]. replace (i - c)%nat with (S (i - S c)) by lia.
        simpl. by rewrite Hw, <-app_assoc.
      * intros Hj _. destruct IH2 as [-> ->]; [intros j Hj'; apply Hj; lia|lia|].
        split; [done|]. replace (Pos.to_nat (max_attempts p) - 1 - c)%nat
          with (S (Pos.to_nat (max_attempts p) - 1 - S c)) by lia.
        simpl. by rewrite Hw, <-app_assoc.
    + assert (k = O) as -> by lia. simpl. unfold ret. split.
      * intros i Hi _ Hok. assert (S c <= i)%nat by (apply Hnext; [lia|done]). lia.
      * intros _ _. replace (Pos.to_nat (max_attempts p) - 1)%nat with c by lia.
        rewrite Hc, Nat.sub_diag. simpl. split; [done|]. f_equal. lia.
Qed.

Lemma first_success n :
  (exists i, (i < n)%nat /\ is_ok (answers i) = true /\
     forall j, (j < i)%nat -> is_ok (answers j) = false) \/
  (forall j, (j < n)%nat -> is_ok (answers j) = false).
Proof.
  induction n as [|n [(i & Hi & Hok & Hj)|IH]]; [right; lia|left; exists i; split; [lia|done]|].
  destruct (is_ok (answers n)) eqn:Hn; [left; by exists n; split; [lia|]|right].
  intros j Hj. destruct (Nat.eq_dec j n) as [->|]; [done|]. apply IH. lia.
Qed.

(** Retrying with backoff.  The operation is called until it succeeds, at most
    [max_attempts] times; the result is that of its last call.  Between two calls, and only
    there, the program waits for the delay of the attempt. *)
Theorem retry_with_backoff_spec :
  max_delay p < u64_max ->
  let n := Pos.to_nat (max_attempts p) in
  let '(r, w) := retry_with_backoff checks scripted_op retry_sleep scripted_clock p
                   {| calls := 0; slept := [] |} in
  exists i, (i < n)%nat /\ (forall j, (j < i)%nat -> is_ok (answers j) = false) /\
    (is_ok (answers i) = true \/ S i = n) /\
    r = Some (answers i) /\ calls w = S i /\ rev (slept w) = map wait (seq 1 i).
Proof.
  intros Hmax n. unfold retry_with_backoff.
  pose proof (backoff_attempts_from n 0 None [] Hmax eq_refl) as H. fold n in H |- *.
  destruct (backoff_attempts _ _ _ _ _ _ _ _ _) as [r w]. destruct H as [H1 H2].
  assert (0 < n)%nat as Hn by (unfold n; lia).
  destruct (first_success n) as [(i & Hi & Hok & Hj)|Hall].
  - destruct (H1 i) as [-> ->]; [lia|intros j ?; apply Hj; lia|done|].
    exists i. simpl. rewrite app_nil_r, rev_involutive, Nat.sub_0_r. naive_solver.
  - destruct H2 as [-> ->]; [intros j ?; apply Hall; lia|done|].
    exists (n - 1)%nat. simpl. rewrite app_nil_r, rev_involutive, Nat.sub_0_r.
    split_and!; [lia|intros j ?; apply Hall; lia|right; lia|done|lia|done].
Qed.

End Scripted.

Lemma retry_with_backoff_spec_witness :
  let p := {| max_attempts := 3; base_delay := from_secs 1; max_delay := from_secs 60;
              jitter := false |} in
  let answers i := if Nat.eqb i 2 then Ok tt else Err i in
  let '(r, w) := retry_with_backoff true (scripted_op answers) retry_sleep (scripted_clock (fun _ => None))
                   p {| calls := 0; slept := [] |} in
  exists i, (i < 3)%nat /\ (forall j, (j < i)%nat -> is_ok (answers j) = false) /\
    (is_ok (answers i) = true \/ S i = 3%nat) /\
    r = Some (answers i) /\ calls w = S i /\
    rev (slept w) = map (wait true (fun _ => None) p) (seq 1 i).
Proof.
  exact (retry_with_backoff_spec true (fun i => if Nat.eqb i 2 then Ok tt else Err i) (fun _ => None)
    {| max_attempts := 3; base_delay := from_secs 1; max_delay := from_secs 60; jitter := false |}
    eq_refl).
Defined.

(** ** Properties: the gate *)

Section GateSpec.
Context {K T E : Type} `{!EqDecision K}.
Variable checks : bool.
Variable policy : BackoffPolicy.
Variable instant_max : N.

(** A call of [guarded]. *)
Record Call : Type := { call_at : Readings; call_key : K; call_op : result T E }.

(** A sequence of calls on one gate; the results in order. *)
Fixpoint guarded_calls (cs : list Call) (st : GateState K) :
  option (list (result (result T E) SuppressionReason) * GateState K) :=
  match cs with
  | [] => Some ([], st)
  | c :: cs =>
      match guarded checks policy instant_max (call_at c) (call_key c) (call_op c) st with
      | None => None
      | Some (r, st) => (fun o => (r :: o.1, o.2)) <$> guarded_calls cs st
      end
  end.

(** The specification looks at the operations that ran, newest first. *)

(** How often in a row the operation has just failed for a key. *)
Fixpoint streak (k : K) (ran : list Call) : nat :=
  match ran with
  | c :: ran => if bool_decide (call_key c = k) && negb (is_ok (call_op c)) then S (streak k ran) else 0
  | [] => 0
  end.

Definition failures (k : K) (ran : list Call) : N := N.min (N.of_nat (streak k ran)) u32_max.

(** The instant before which a key is held back. *)
Definition held_until (k : K) (ran : list Call) : option N :=
  match ran with
  | c :: _ =>
      if bool_decide (call_key c = k) && negb (is_ok (call_op c)) then
        Some (failed_at (call_at c) +
              default 0 (delay_with_jitter checks (failed_since_epoch (call_at c)) policy
                           (failures k ran)))
      else None
  | [] => None
  end.

Definition cap_reached (k : K) (ran : list Call) : bool :=
  Npos (max_attempts policy) <=? failures k ran.

(** Whether a call is held back, and why. *)
Definition suppressed (c : Call) (ran : list Call) : option SuppressionReason :=
  let k := call_key c in
  match held_until k ran with
  | None => None
  | Some t =>
      if cap_reached k ran then
        if checked_at (call_at c) <? t then Some (CapReached (failures k ran)) else None
      else if checked_again_at (call_at c) <? t then Some (InCooldown (failures k ran)) else None
  end.

Fixpoint gate_spec (cs : list Call) (ran : list Call) :
  list (result (result T E) SuppressionReason) * list Call :=
  match cs with
  | [] => ([], ran)
  | c :: cs =>
      match suppressed c ran with
      | Some reason => let '(o, ran) := gate_spec cs ran in (Err reason :: o, ran)
      | None => let '(o, ran) := gate_spec cs (c :: ran) in (Ok (call_op c) :: o, ran)
      end
  end.

(** The state of the gate for the operations that ran. *)
Definition gate_of (ran : list Call) : GateState K :=
  match ran with
  | c :: _ =>
      if is_ok (call_op c) then default_gate
      else {| key := Some (call_key c); consecutive_failures := failures (call_key c) ran;
              next_attempt_at := held_until (call_key c) ran |}
  | [] => default_gate
  end.

(** The clock does not run backwards during a call and the instants can be represented. *)
Definition timely (c : Call) : Prop :=
  checked_at (call_at c) <= checked_again_at (call_at c) /\
  failed_at (call_at c) + max_delay policy <= instant_max.

Lemma gate_of_check c ran :
  reset_if_key_changed (gate_of ran) (call_key c) =
    {| key := Some (call_key c); consecutive_failures := failures (call_key c) ran;
       next_attempt_at := held_until (call_key c) ran |}.
Proof.
  unfold reset_if_key_changed, gate_of, failures, held_until. destruct ran as [|d ran]; [done|].
  cbn [streak]. destruct (is_ok (call_op d)); cbn [negb]; rewrite ?andb_false_r, ?andb_true_r; [done|].
  cbn [key]. destruct (decide (call_key d = call_key c)) as [->|Hne].
  - by rewrite !bool_decide_true.
  - by rewrite !bool_decide_false by congruence.
Qed.

Lemma failures_step c ran :
  is_ok (call_op c) = false ->
  saturating_add (failures (call_key c) ran) 1 = failures (call_key c) (c :: ran).
Proof.
  intros Hc. unfold failures, saturating_add. simpl. rewrite bool_decide_true, Hc by done.
  simpl negb. cbn [andb]. lia.
Qed.

Lemma record_failure_step c ran :
  max_delay policy < u64_max -> timely c -> is_ok (call_op c) = false ->
  record_failure checks policy instant_max (failed_since_epoch (call_at c)) (failed_at (call_at c))
    {| key := Some (call_key c); consecutive_failures := failures (call_key c) ran;
       next_attempt_at := held_until (call_key c) ran |} (call_key c) =
  Some (gate_of (c :: ran)).
Proof.
  intros Hmax [_ Hmaxi] Hok. unfold gate_of. rewrite Hok.
  unfold record_failure, reset_if_key_changed. cbn [key]. rewrite bool_decide_true by done.
  cbn [consecutive_failures key]. rewrite failures_step by done.
  destruct (delay_with_jitter_spec checks (failed_since_epoch (call_at c)) policy
    (failures (call_key c) (c :: ran)) Hmax) as (d & Hd & Hle & _).
  unfold held_until. rewrite bool_decide_true, Hok, Hd by done. simpl.
  pose proof (delay_for_attempt_max policy (failures (call_key c) (c :: ran))).
  destruct (N.leb_spec (failed_at (call_at c) + d) instant_max); [done|lia].
Qed.

Lemma guarded_step c ran :
  max_delay policy < u64_max -> timely c ->
  guarded checks policy instant_max (call_at c) (call_key c) (call_op c) (gate_of ran) =
    Some match suppressed c ran with
         | Some reason => (Err reason, gate_of ran)
         | None => (Ok (call_op c), gate_of (c :: ran))
         end.
Proof.
  intros Hmax Ht. pose proof (record_failure_step c ran Hmax Ht) as Hrec. destruct Ht as [Hclock _].
  unfold guarded, check, suppressed, cap_reached. rewrite gate_of_check.
  cbn [next_attempt_at consecutive_failures key].
  assert (forall t, held_until (call_key c) ran = Some t ->
    gate_of ran = {| key := Some (call_key c); consecutive_failures := failures (call_key c) ran;
       next_attempt_at := Some t |}) as Hsame.
  { intros t Ht. rewrite <-Ht. destruct ran as [|d ran]; [done|]. unfold gate_of.
    destruct (decide (call_key d = call_key c)) as [Hk|Hk].
    - rewrite Hk. destruct (is_ok (call_op d)) eqn:Hd; [|done].
      unfold held_until in Ht. by rewrite Hd, andb_false_r in Ht.
    - unfold held_until in Ht. by rewrite bool_decide_false in Ht. }
  destruct (held_until (call_key c) ran) as [t|] eqn:Ht.
  - specialize (Hsame t eq_refl). destruct (_ <=? failures (call_key c) ran).
    + rewrite andb_true_r. destruct (N.ltb_spec (checked_at (call_at c)) t); [by rewrite Hsame|].
      destruct (N.ltb_spec (checked_again_at (call_at c)) t); [lia|].
      unfold gate_of in *. destruct (is_ok (call_op c)); [done|]. by rewrite Hrec.
    + rewrite andb_false_r. destruct (_ <? t); [by rewrite Hsame|].
      unfold gate_of in *. destruct (is_ok (call_op c)); [done|]. by rewrite Hrec.
  - unfold gate_of in *. destruct (is_ok (call_op c)); [done|]. by rewrite Hrec.
Qed.

Lemma guarded_calls_from cs ran :
  max_delay policy < u64_max -> Forall timely cs ->
  guarded_calls cs (gate_of ran) =
    Some ((gate_spec cs ran).1, gate_of (gate_spec cs ran).2).
Proof.
  intros Hmax Hcs. revert ran. induction Hcs as [|c cs Hc Hcs IH]; intros ran; [done|].
  cbn [guarded_calls gate_spec]. rewrite guarded_step by done.
  destruct (suppressed c ran); rewrite IH; simpl; by destruct (gate_spec cs _).
Qed.

(** C39: the gate refines its specification.  Whether a call runs its operation depends only on
    the operations that ran before: it is held back exactly when the last one was a failure
    for the same key and its delay, which grows with the number of failures in a row, is
    not over; the reported reason says whether the threshold of failures is reached.  An
    operation for another key, or after a success, always runs. *)
Theorem gate_refines_history cs :
  max_delay policy < u64_max -> Forall timely cs ->
  guarded_calls cs default_gate = Some ((gate_spec cs []).1, gate_of (gate_spec cs []).2).
Proof. apply (guarded_calls_from cs []). Qed.

End GateSpec.

(** Three attempts one, two and four seconds after the start; the second is in the cooldown
    of the first. *)
Lemma gate_refines_history_witness :
  let policy := {| max_attempts := 5; base_delay := from_secs 2; max_delay := from_secs 60;
                   jitter := false |} in
  let at_ s := {| checked_at := from_secs s; checked_again_at := from_secs s;
                  failed_at := from_secs s; failed_since_epoch := None |} in
  let cs := map (fun s => {| call_at := at_ s; call_key := 7; call_op := Err (A := unit) tt |}) [1; 2; 4] in
  guarded_calls true policy (2 ^ 80) cs default_gate =
    Some ([Ok (Err tt); Err (InCooldown 1); Ok (Err tt)], gate_of true policy (gate_spec true policy cs []).2).
Proof.
  refine (gate_refines_history true
    {| max_attempts := 5; base_delay := from_secs 2; max_delay := from_secs 60; jitter := false |}
    (2 ^ 80) (map (fun s => {| call_at := {| checked_at := from_secs s;
       checked_again_at := from_secs s; failed_at := from_secs s; failed_since_epoch := None |};
       call_key := 7; call_op := Err (A := unit) tt |}) [1; 2; 4]) eq_refl _).
  repeat constructor; vm_compute; discriminate.
Defined.
