(* ===== verification/SelfUpdate.v ===== *)
(** * Updating Agent Control itself on a host

    Models [self-replacer/src/replacer.rs], which puts a new binary in the place of the running
    one, the dry run of a new binary in [agent_control/version_updater/on_host/verify.rs], and the
    updater of [agent_control/version_updater/on_host.rs], which installs a version, verifies it,
    replaces the binary and asks for a restart, behind the gate of [Backoff].

    The disk is that of [HostFs], the one packages are installed on; permissions are not modelled.
    The replacer notes the state of the disk after each of its calls: those are the states in which
    a crash can leave it. *)

From Stdlib Require Import Ascii String NArith Lia.
From stdpp Require Import base option list strings gmap.
From S2P Require Import Prelude RustString AgentId OciTypes FileStore HostFs PackageManager Backoff.

(** ** Calls on files ([std::fs], [tempfile]) *)

(** [fs::rename] of a file: it happens or it does not. *)
Definition fs_rename (p q : Path) : M Host (result unit IoError) :=
  let* f := next_host_fault in
  fun h =>
    match f, node_at h p with
    | Some f, _ => (Err (OtherIo (host_error f)), h)
    | None, Some (FileNode t) =>
        if is_dir h (parent q) && negb (is_dir h q)
        then (Ok tt, set_nodes h (<[q := FileNode t]> (delete p (nodes h))))
        else (Err (OtherIo "not a file"), h)
    | None, _ => (Err (NotFound "not found"), h)
    end.

(** [fs::copy]: a failed one may leave a part of the file. *)
Definition fs_copy (p q : Path) : M Host (result unit IoError) := fun h =>
  match node_at h p with
  | Some (FileNode t) => raw_write q t h
  | _ => (Err (NotFound "not found"), h)
  end.

(** [Path::metadata], of which only the permissions are used, and [fs::set_permissions] *)
Definition fs_touch (p : Path) : M Host (result unit IoError) :=
  let* f := next_host_fault in
  fun h =>
    match f with
    | Some f => (Err (OtherIo (host_error f)), h)
    | None => (if exists_path h p then Ok tt else Err (NotFound "not found"), h)
    end.

(** [Builder::tempfile_in]: a file that was not there *)
Definition tempfile_in (p : Path) : M Host (result unit IoError) :=
  let* f := next_host_fault in
  fun h =>
    match f with
    | Some f => (Err (OtherIo (host_error f)), h)
    | None =>
        if is_dir h (parent p) && negb (exists_path h p) then (Ok tt, set_nodes h (<[p := FileNode ""]> (nodes h)))
        else (Err (OtherIo "no temporary file"), h)
    end.

(** ** The replacer ([replacer.rs]) *)

Inductive ReplaceError : Type :=
| NewBinaryNotFound (path : string)
| BackupCreationFailed (e : IoError)
| ReplaceFailed (e : IoError)
| BackupRestoreFailed (e : IoError)
| Metadata (e : IoError)
| TempCopyFailed (e : IoError)
| NoParentDirectory.

Definition BACKUP_SUFFIX : string := "bak".
Definition TEMP_PREFIX : string := "__temp__".

(** The disk, and its states so far, the last first *)
Record Replacement : Type := { rp_host : Host; rp_seen : list Host }.

Definition on_disk {A} (m : M Host A) : M Replacement A := fun w =>
  let '(a, h) := m (rp_host w) in (a, {| rp_host := h; rp_seen := h :: rp_seen w |}).

Definition file_name (p : Path) : option string := last p.

Definition backup_path (exe_path : Path) : Path :=
  parent exe_path ++
    [match file_name exe_path with
     | Some f => f +:+ "." +:+ BACKUP_SUFFIX
     | None => "replaced_binary." +:+ BACKUP_SUFFIX
     end].

(** [Path::file_stem]: what is before the last dot, unless the name begins with it *)
Fixpoint before_last_dot (s : string) : option string :=
  match s with
  | EmptyString => None
  | String c s =>
      match before_last_dot s with
      | Some b => Some (String c b)
      | None => if Ascii.eqb c "."%char then Some "" else None
      end
  end.

Definition file_stem (name : string) : string :=
  match before_last_dot name with
  | Some EmptyString | None => name
  | Some b => b
  end.

Definition temp_prefix (current_exe : Path) : string :=
  match file_name current_exe with
  | Some name => "." +:+ file_stem name +:+ "." +:+ TEMP_PREFIX
  | None => "." +:+ TEMP_PREFIX
  end.

Section Replacer.
(** The random part of the name of a temporary file, and the platform *)
Variable random : string.
Variable windows : bool.

Definition temp_file (current_exe : Path) : Path := parent current_exe ++ [temp_prefix current_exe +:+ random].

(** Dropping a [TempPath] removes the file; an error is ignored. *)
Definition drop_temp (p : Path) : M Replacement unit :=
  let* _ := on_disk (host_remove_file p) in ret tt.

Definition create_temp_file (current_exe new_bin : Path) : M Replacement (result Path ReplaceError) :=
  match current_exe with
  | [] => ret (Err NoParentDirectory)
  | _ =>
      let temp_path := temp_file current_exe in
      let*? _ := map_err_m TempCopyFailed (on_disk (tempfile_in temp_path)) in
      let* moved := on_disk (fs_rename new_bin temp_path) in
      let* copied :=
        match moved with
        | Ok _ => ret (Ok tt)
        | Err _ => on_disk (fs_copy new_bin temp_path)
        end in
      let* staged :=
        match copied with
        | Ok _ => on_disk (fs_touch temp_path)
        | Err e => ret (Err e)
        end in
      match staged with
      | Ok _ => ret (Ok temp_path)
      | Err e => let* _ := drop_temp temp_path in ret (Err (TempCopyFailed e))
      end
  end.

Definition replace_binary (current_exe new_bin : Path) : M Replacement (result unit ReplaceError) :=
  let backup := backup_path current_exe in
  let*? _ := map_err_m Metadata (on_disk (fs_touch current_exe)) in
  let*? _ := map_err_m BackupCreationFailed
    (on_disk (if windows then fs_rename current_exe backup else fs_copy current_exe backup)) in
  let*? new_bin_temp := create_temp_file current_exe new_bin in
  let* renamed := on_disk (fs_rename new_bin_temp current_exe) in
  match renamed with
  | Ok _ => let* _ := drop_temp new_bin_temp in ret (Ok tt)
  | Err err =>
      let* restored := on_disk (fs_rename backup current_exe) in
      let* _ := drop_temp new_bin_temp in
      ret (Err (match restored with
                | Err restore_err => BackupRestoreFailed restore_err
                | Ok _ =>
                    match err with
                    | NotFound _ => NewBinaryNotFound (show_path new_bin_temp)
                    | err => ReplaceFailed err
                    end
                end))
  end.

(** [SelfReplacer::self_replace] *)
Definition self_replace (target new_bin : Path) : M Replacement (result unit ReplaceError) := fun w =>
  if negb (exists_path (rp_host w) new_bin) then (Err (NewBinaryNotFound (show_path new_bin)), w)
  else replace_binary target new_bin w.

End Replacer.

(** ** The dry run of a binary ([verify.rs])

    Times are in nanoseconds.  The answers of the operating system and the clock are functions of
    the number of polls. *)

Inductive VerifyError : Type :=
| SubProcessError (e : string)
| VerifyTimedOut (timeout : N)
| VerificationFailed (message : string)
| UnexpectedFailure.

(** [Debug for Duration]: the digits of the fraction up to the last that is not zero *)
Fixpoint fractional (digits : nat) (part divisor : N) : string :=
  match digits with
  | 0 => ""
  | S digits =>
      if (part =? 0)%N then ""
      else show_N (part / divisor) +:+ fractional digits (part mod divisor) (divisor / 10)
  end.

Definition show_decimal (n unit : N) (suffix : string) : string :=
  let fraction := fractional 9 (n mod unit) (unit / 10) in
  show_N (n / unit) +:+ (if String.eqb fraction "" then "" else "." +:+ fraction) +:+ suffix.

Definition show_duration (d : N) : string :=
  if (NANOS_PER_SEC <=? d)%N then show_decimal d NANOS_PER_SEC "s"
  else if (1000000 <=? d)%N then show_decimal d 1000000 "ms"
  else if (1000 <=? d)%N then show_decimal d 1000 "µs"
  else show_N d +:+ "ns".

Definition show_verify_error (e : VerifyError) : string :=
  match e with
  | SubProcessError e => "dry-run check of new version failed due to subprocess error: " +:+ e
  | VerifyTimedOut t => "dry-run check of new version timed out after " +:+ show_duration t
  | VerificationFailed m => "dry-run check of new version failed with: " +:+ m
  | UnexpectedFailure => "dry-run check of new version failed unexpectedly"
  end.

Definition DEFAULT_VERIFY_TIMEOUT : N := from_secs 20.
Definition VERIFY_POLL_INTERVAL : N := from_secs 2.

(** A spawned process: what waiting answers at each poll, whether it can be killed, and what it
    wrote on its standard output once it has ended *)
Record Process : Type := {
  try_wait : nat -> result (option bool) string;
  kill : result unit string;
  stdout : list string;
}.

(** [wait_for_exit]: [true] is a successful exit. *)
Fixpoint wait_for_exit (fuel : nat) (p : Process) (now : nat -> N) (timeout deadline : N) (i : nat) :
  option (result bool VerifyError) :=
  match fuel with
  | 0 => None
  | S fuel =>
      match try_wait p i with
      | Err err => Some (Err (SubProcessError ("waiting for verify process: " +:+ err)))
      | Ok (Some status) => Some (Ok status)
      | Ok None =>
          if (deadline <=? now i)%N then
            Some (match kill p with
                  | Ok _ => Err (VerifyTimedOut timeout)
                  | Err err => Err (SubProcessError ("killing verify process: " +:+ err))
                  end)
          else wait_for_exit fuel p now timeout deadline (S i)
      end
  end.

(** [ProcessVerifyExecutor::execute]; [result_message] reads a line as a [CommandResult]. *)
Definition verify_execute (result_message : string -> option string) (fuel : nat)
    (spawned : result Process string) (now : nat -> N) (timeout start : N) : option (result unit VerifyError) :=
  match spawned with
  | Err err => Some (Err (SubProcessError ("spawning verify process: " +:+ err)))
  | Ok p =>
      exit_status ← wait_for_exit fuel p now timeout (start + timeout)%N 0;
      Some (let? success := exit_status in
            if (success : bool) then Ok tt
            else match last (omap result_message (stdout p)) with
                 | Some message => Err (VerificationFailed message)
                 | None => Err UnexpectedFailure
                 end)
  end.

(** ** The updater ([on_host.rs], [updater.rs]) *)

Inductive UpdaterError : Type :=
| UpdateFailed (e : string)
| UpdateInCooldown (version : Version) (reason : SuppressionReason).

(** [Display for UpdaterError] *)
Definition show_updater_error (e : UpdaterError) : string :=
  match e with
  | UpdateFailed e => "update failed: " +:+ e
  | UpdateInCooldown version reason =>
      "upgrade to " +:+ version +:+ " suppressed: " +:+
      match reason with
      | InCooldown _ => "retrying after previous failure"
      | CapReached _ => "max consecutive failures reached, retrying at the maximum backoff interval"
      end
  end.

Definition AGENT_CONTROL_BIN : string := "newrelic-agent-control".
Definition AGENT_CONTROL_BIN_PACKAGE_ID : string := "agent_control_bin".

(** What the updater changes: the packages and the disk, its gate, and the restarts it asked for *)
Record UpdaterWorld : Type := {
  up_packages : PackageWorld;
  up_gate : GateState Version;
  up_seen : list Host;
  restarts : nat;
}.

Record Updater : Type := {
  ac_remote_update_enabled : bool;
  up_repository : Repository;
  up_pub_key_url : string;
  up_remote_dir : Path;
  up_target : Path;
  running_version : Version;
  up_checks : bool;
  up_policy : BackoffPolicy;
  up_instant_max : N;
}.

(** The outside during one call: the random part of a temporary file, the dry run of a binary on
    the disk, the channel of events, and the clocks *)
Record UpdaterEnv : Type := {
  temp_random : string;
  dry_run : Host -> Path -> result unit VerifyError;
  publish : result unit string;
  clocks : Readings;
}.

Section Updater.
Context `{PT : PackageTools}.
Variable show_package_error : OCIPackageManagerError -> string.
Variable show_replace_error : ReplaceError -> string.
Variable self : Updater.
Variable windows : bool.

Definition on_packages {A} (m : M PackageWorld A) : M UpdaterWorld A := fun w =>
  let '(a, p) := m (up_packages w) in
  (a, {| up_packages := p; up_gate := up_gate w; up_seen := up_seen w; restarts := restarts w |}).

Definition on_replacement {A} (m : M Replacement A) : M UpdaterWorld A := fun w =>
  let pm := up_packages w in
  let '(a, r) := m {| rp_host := pm_host pm; rp_seen := [] |} in
  (a, {| up_packages := {| pm_host := rp_host r; latest_installed_packages := latest_installed_packages pm;
                           hooks_run := hooks_run pm |};
         up_gate := up_gate w; up_seen := rp_seen r ++ up_seen w; restarts := restarts w |}).

Definition request_restart : M UpdaterWorld unit := fun w =>
  (tt, {| up_packages := up_packages w; up_gate := up_gate w; up_seen := up_seen w; restarts := S (restarts w) |}).

Definition with_gate (w : UpdaterWorld) (g : GateState Version) : UpdaterWorld :=
  {| up_packages := up_packages w; up_gate := g; up_seen := up_seen w; restarts := restarts w |}.

Definition get_package_data (new_version : Version) : PackageData := {|
  package_id := AGENT_CONTROL_BIN_PACKAGE_ID;
  package_oci := {| repository := up_repository self; version := new_version;
                    public_key_url := Some (up_pub_key_url self) |};
  post_download_hook := None;
|}.

Definition try_upgrade (env : UpdaterEnv) (new_version : Version) : M UpdaterWorld (result unit UpdaterError) :=
  let*? installed := map_err_m (fun e => UpdateFailed ("installing new Agent Control binary: " +:+ show_package_error e))
    (on_packages (install (up_remote_dir self) AgentControl (get_package_data new_version))) in
  let new_binary_path := join_path (installation_path installed) AGENT_CONTROL_BIN in
  let*? _ := map_err_m (fun e => UpdateFailed ("verifying new Agent Control binary: " +:+ show_verify_error e))
    (fun w => (dry_run env (pm_host (up_packages w)) new_binary_path, w)) in
  let*? _ := map_err_m (fun e => UpdateFailed ("self replacing Agent Control binary: " +:+ show_replace_error e))
    (on_replacement (self_replace (temp_random env) windows (up_target self) new_binary_path)) in
  match publish env with
  | Ok _ => let* _ := request_restart in ret (Ok tt)
  | Err e => ret (Err (UpdateFailed ("publishing stop request: " +:+ e)))
  end.

(** [VersionUpdater::update]; [None] is the panic of a clock that overflows. *)
Definition update (env : UpdaterEnv) (config_version : option Version) : UpdaterWorld ->
  option (result unit UpdaterError * UpdaterWorld) := fun w =>
  if negb (ac_remote_update_enabled self) then Some (Ok tt, w)
  else match config_version with
       | None => Some (Ok tt, w)
       | Some new_version =>
           if String.eqb new_version (running_version self) then Some (Ok tt, with_gate w reset_gate)
           else
             let '(r, w') := try_upgrade env new_version w in
             match guarded (up_checks self) (up_policy self) (up_instant_max self) (clocks env) new_version r (up_gate w) with
             | None => None
             | Some (Err suppression, g) => Some (Err (UpdateInCooldown new_version suppression), with_gate w g)
             | Some (Ok r, g) => Some (r, with_gate w' g)
             end
       end.

(** [VersionUpdater::retry] *)
Definition retry_update (env : UpdaterEnv) : UpdaterWorld -> option (result unit UpdaterError * UpdaterWorld) := fun w =>
  match key (up_gate w) with
  | Some version => update env (Some version) w
  | None => Some (Ok tt, w)
  end.

End Updater.

(** ** Lemmas: calls *)

Lemma next_fault_nodes h f h' : next_host_fault h = (f, h') -> nodes h' = nodes h.
Proof. by intros [= _ <-]. Qed.

Lemma node_at_nodes h h' p : nodes h' = nodes h -> node_at h' p = node_at h p.
Proof. unfold node_at. intros ->. done. Qed.

Lemma node_at_lookup h p : p <> [] -> node_at h p = nodes h !! p.
Proof. by destruct p. Qed.

Lemma fs_rename_spec p q h r h' :
  fs_rename p q h = (r, h') ->
  (exists t, r = Ok tt /\ node_at h p = Some (FileNode t) /\ nodes h' = <[q := FileNode t]> (delete p (nodes h))) \/
  (exists e, r = Err e /\ nodes h' = nodes h).
Proof.
  unfold fs_rename, bind. destruct (next_host_fault h) as [f h1] eqn:E. apply next_fault_nodes in E.
  destruct f; [intros [= <- <-]; right; by eexists|]. rewrite (node_at_nodes _ _ p E).
  destruct (node_at h p) as [[t|]|]; [|intros [= <- <-]; right; by eexists..].
  destruct (_ && _); intros [= <- <-]; [left|right; by eexists]. exists t. cbn [nodes set_nodes]. by rewrite E.
Qed.

Lemma fs_copy_spec p q h r h' :
  fs_copy p q h = (r, h') ->
  (forall x, x <> q -> nodes h' !! x = nodes h !! x) /\
  (r = Ok tt -> exists t, node_at h p = Some (FileNode t) /\ nodes h' !! q = Some (FileNode t)).
Proof.
  unfold fs_copy. destruct (node_at h p) as [[t|]|]; [|by intros [= <- <-]..].
  intros (H1 & _ & H2 & _)%raw_write_spec. split; [done|]. intros Hr. exists t. auto.
Qed.

Lemma fs_touch_spec p h r h' : fs_touch p h = (r, h') -> nodes h' = nodes h.
Proof.
  unfold fs_touch, bind. destruct (next_host_fault h) as [f h1] eqn:E. apply next_fault_nodes in E. by destruct f; intros [= _ <-].
Qed.

Lemma tempfile_in_spec p h r h' :
  tempfile_in p h = (r, h') ->
  (r = Ok tt /\ node_at h p = None /\ nodes h' = <[p := FileNode ""]> (nodes h)) \/ (exists e, r = Err e /\ nodes h' = nodes h).
Proof.
  unfold tempfile_in, bind. destruct (next_host_fault h) as [f h1] eqn:E. apply next_fault_nodes in E.
  destruct f; [intros [= <- <-]; right; by eexists|]. unfold exists_path. rewrite (node_at_nodes _ _ p E).
  destruct (is_dir h1 (parent p)); [|intros [= <- <-]; right; by eexists]. case_bool_decide as Hx; [intros [= <- <-]; right; by eexists|].
  intros [= <- <-]. left. cbn. rewrite E. split_and!; [done| |done]. destruct (node_at h p) eqn:En; [|done]. by destruct Hx.
Qed.

Lemma remove_file_spec p h r h' : host_remove_file p h = (r, h') -> forall q, q <> p -> nodes h' !! q = nodes h !! q.
Proof.
  unfold host_remove_file, bind. destruct (next_host_fault h) as [f h1] eqn:E. apply next_fault_nodes in E.
  destruct f; [intros [= _ <-]; by rewrite E|]. destruct (is_file_node _); intros [= _ <-] q Hq; cbn; [|by rewrite E].
  by rewrite lookup_delete_ne, E.
Qed.

Lemma on_disk_run {A} (m : M Host A) w a w' :
  on_disk m w = (a, w') -> m (rp_host w) = (a, rp_host w') /\ rp_seen w' = rp_host w' :: rp_seen w.
Proof. unfold on_disk. destruct (m (rp_host w)) as [a0 h]. by intros [= <- <-]. Qed.

(** ** Lemmas: the stages of a replacement *)

Section Stages.
Variable random : string.
Variables target new_bin : Path.
Variable old : string.
(** What there is at [new_bin] before the replacement *)
Variable fresh : option Node.
#[local] Abbreviation backup := (backup_path target).

(** The target holds one of the two binaries, whole. *)
Definition whole (h : Host) : Prop :=
  nodes h !! target = Some (FileNode old) \/ (is_file_node fresh = true /\ nodes h !! target = fresh).

(** The old binary is in its place and in the backup. *)
Definition backed_up (h : Host) : Prop :=
  nodes h !! target = Some (FileNode old) /\ nodes h !! backup = Some (FileNode old).

(** The states so far, and the last one. *)
Definition staged (w : Replacement) : Prop := Forall whole (rp_seen w) /\ backed_up (rp_host w).

Hypothesis target_not_root : target <> [].

Lemma backup_not_target : backup <> target.
Proof using target_not_root.
  unfold backup_path, file_name, parent. destruct (exists_last target_not_root) as (l & x & ->).
  rewrite removelast_last, last_snoc. intros E. apply app_inv_head in E. injection E as E.
  apply (f_equal String.length) in E. rewrite str_length_app in E. simpl in E. lia.
Qed.

Lemma temp_not_root : temp_file random target <> [].
Proof using. unfold temp_file. by destruct (parent target). Qed.

(** A call that leaves the target and the backup alone. *)
Lemma staged_step {A} (m : M Host A) w a w' :
  on_disk m w = (a, w') -> staged w -> (backed_up (rp_host w) -> backed_up (rp_host w')) -> staged w'.
Proof using.
  intros [_ Hs]%on_disk_run [Hf Hb] H. specialize (H Hb). split; [|done]. rewrite Hs. constructor; [left; apply H|done].
Qed.

Lemma drop_temp_staged p w r w' :
  drop_temp p w = (r, w') -> p <> target -> p <> backup -> staged w -> staged w'.
Proof using.
  unfold drop_temp, bind, ret. destruct (on_disk (host_remove_file p) w) as [r1 w1] eqn:E. intros [= _ <-] Ht Hb Hs.
  eapply staged_step; [exact E|done|]. intros [H1 H2]. apply on_disk_run in E as [E _].
  split; erewrite remove_file_spec by done; done.
Qed.

(** Moving the new binary to [temp], or copying it *)
Lemma moved_or_copied temp w moved w1 copied w2 :
  on_disk (fs_rename new_bin temp) w = (moved, w1) ->
  (match moved with Ok _ => ret (Ok tt) | Err _ => on_disk (fs_copy new_bin temp) end) w1 = (copied, w2) ->
  new_bin <> target -> new_bin <> backup -> temp <> target -> temp <> backup ->
  node_at (rp_host w) new_bin = fresh -> staged w ->
  staged w2 /\ (copied = Ok tt -> is_file_node fresh = true /\ nodes (rp_host w2) !! temp = fresh).
Proof using.
  intros E1 E2 Hnt Hnb Htt Htb Hnew Hs. pose proof E1 as [E1' _]%on_disk_run.
  apply fs_rename_spec in E1' as [(t & -> & Ht & Hn)|(e & -> & Hn)].
  - injection E2 as <- <-. split.
    + eapply staged_step; [exact E1|done|]. unfold backed_up. by rewrite Hn, !lookup_insert_ne, !lookup_delete_ne by done.
    + intros _. by rewrite <-Hnew, Ht, Hn, lookup_insert_eq.
  - assert (staged w1) as Hs1 by (eapply staged_step; [exact E1|done|]; unfold backed_up; by rewrite Hn).
    pose proof E2 as [E2' _]%on_disk_run. apply fs_copy_spec in E2' as [Hk Hc]. split.
    + eapply staged_step; [exact E2|done|]. unfold backed_up. by rewrite !Hk by done.
    + intros (t & Ht & ->)%Hc. by rewrite (node_at_nodes _ _ _ Hn), Hnew in Ht; rewrite Ht.
Qed.

Lemma create_temp_file_spec w r w' :
  create_temp_file random target new_bin w = (r, w') ->
  new_bin <> target -> new_bin <> backup -> node_at (rp_host w) new_bin = fresh -> is_Some fresh -> staged w ->
  staged w' /\
  forall temp, r = Ok temp ->
    temp <> target /\ temp <> backup /\ is_file_node fresh = true /\ nodes (rp_host w') !! temp = fresh.
Proof using target_not_root.
  intros E Hnt Hnb Hnew Hsome Hs. unfold create_temp_file in E. destruct target as [|c0 t0] eqn:Et; [done|]. rewrite <-Et in *.
  set (temp := temp_file random target) in *. unfold bind_try, map_err_m, bind in E.
  destruct (on_disk (tempfile_in temp) w) as [r1 w1] eqn:E1. pose proof E1 as [E1' _]%on_disk_run.
  apply tempfile_in_spec in E1' as [(-> & Hnone & Hn1)|(e & -> & Hn1)].
  2:{ injection E as <- <-. split; [|done]. eapply staged_step; [exact E1|done|]. unfold backed_up. by rewrite Hn1. }
  assert (temp <> target /\ temp <> backup /\ temp <> new_bin) as (Htt & Htb & Htn).
  { destruct Hs as [_ [B1 B2]]. split_and!; intros E'; [|..|rewrite <-E', Hnone in Hnew; rewrite <-Hnew in Hsome; by destruct Hsome];
      rewrite node_at_lookup in Hnone by apply temp_not_root; rewrite E' in Hnone; congruence. }
  assert (staged w1) as Hs1.
  { eapply staged_step; [exact E1|done|]. unfold backed_up. by rewrite Hn1, !lookup_insert_ne. }
  assert (node_at (rp_host w1) new_bin = fresh) as Hnew1.
  { rewrite <-Hnew. unfold node_at. destruct new_bin; [done|]. by rewrite Hn1, lookup_insert_ne. }
  cbn [map_err] in E. destruct (on_disk (fs_rename new_bin temp) w1) as [r2 w2] eqn:E2.
  destruct ((match r2 with Ok _ => ret (Ok tt) | Err _ => on_disk (fs_copy new_bin temp) end) w2) as [copied w3] eqn:E3.
  destruct (moved_or_copied _ _ _ _ _ _ E2 E3) as [Hs3 Hc]; [done..|]. destruct copied as [[]|e].
  - destruct (Hc eq_refl) as [Hfile Htemp]. destruct (on_disk (fs_touch temp) w3) as [r4 w4] eqn:E4.
    pose proof E4 as [E4'%fs_touch_spec _]%on_disk_run.
    assert (staged w4) as Hs4 by (eapply staged_step; [exact E4|done|]; unfold backed_up; by rewrite E4').
    destruct r4 as [[]|e].
    + injection E as <- <-. split; [done|]. intros temp' [= <-]. by rewrite E4'.
    + destruct (drop_temp temp w4) as [r5 w5] eqn:E5. injection E as <- <-.
      apply drop_temp_staged in E5; [|done..]. by split.
  - unfold ret in E. destruct (drop_temp temp w3) as [r5 w5] eqn:E5. injection E as <- <-.
    apply drop_temp_staged in E5; [|done..]. by split.
Qed.

(** What a replacement leaves: the new binary, or the old one *)
Definition replaced (r : result unit ReplaceError) (h : Host) : Prop :=
  match r with
  | Ok _ => is_file_node fresh = true /\ nodes h !! target = fresh /\ nodes h !! backup = Some (FileNode old)
  | Err _ => nodes h !! target = Some (FileNode old)
  end.

(** The last rename, with the way back *)
Lemma final_rename_spec temp w renamed w1 :
  on_disk (fs_rename temp target) w = (renamed, w1) ->
  temp <> target -> temp <> backup -> is_file_node fresh = true -> nodes (rp_host w) !! temp = fresh -> staged w ->
  Forall whole (rp_seen w1) /\
  match renamed with
  | Ok _ => nodes (rp_host w1) !! target = fresh /\ nodes (rp_host w1) !! backup = Some (FileNode old)
  | Err _ => backed_up (rp_host w1)
  end.
Proof using target_not_root.
  intros E Htt Htb Hfile Htemp [Hf Hb]. pose proof backup_not_target as Hbt. apply on_disk_run in E as [E Hs]. rewrite Hs.
  apply fs_rename_spec in E as [(t & -> & Ht & Hn)|(e & -> & Hn)].
  - assert (Some (FileNode t) = fresh) as Hfresh.
    { rewrite <-Htemp, <-Ht. apply node_at_lookup. intros ->. discriminate Ht. }
    assert (nodes (rp_host w1) !! target = Some (FileNode t)) as E1 by (rewrite Hn; apply lookup_insert_eq).
    rewrite Hfresh in E1. split_and!; [constructor; [right; by split|done]|done|]. rewrite Hn, lookup_insert_ne, lookup_delete_ne by done. apply Hb.
  - assert (backed_up (rp_host w1)) as Hb1 by (unfold backed_up; by rewrite Hn). split; [|done]. constructor; [left; apply Hb1|done].
Qed.

(** The temporary file of a finished replacement is dropped. *)
Lemma drop_temp_replaced temp w r w' :
  drop_temp temp w = (r, w') -> temp <> target -> temp <> backup -> is_file_node fresh = true ->
  Forall whole (rp_seen w) -> nodes (rp_host w) !! target = fresh /\ nodes (rp_host w) !! backup = Some (FileNode old) ->
  Forall whole (rp_seen w') /\ replaced (Ok tt) (rp_host w').
Proof using.
  unfold drop_temp, bind, ret. destruct (on_disk (host_remove_file temp) w) as [r1 w1] eqn:E. intros [= _ <-] Ht Hb Hfile Hf [H1 H2].
  apply on_disk_run in E as [E Hs]. pose proof (remove_file_spec _ _ _ _ E) as Hk. rewrite <-(Hk target) in H1 by done.
  rewrite <-(Hk backup) in H2 by done. rewrite Hs. split; [|done]. constructor; [right; by split|done].
Qed.

(** Putting the backup in the place of the target, where it already is *)
Lemma roll_back_spec e temp w r w1 r' w' :
  on_disk (fs_rename backup target) w = (r, w1) -> drop_temp temp w1 = (r', w') ->
  temp <> target -> Forall whole (rp_seen w) -> backed_up (rp_host w) ->
  Forall whole (rp_seen w') /\ replaced (Err e) (rp_host w').
Proof using.
  intros E1 E2 Ht Hf [Hb1 Hb2]. apply on_disk_run in E1 as [E1 Hs1].
  assert (nodes (rp_host w1) !! target = Some (FileNode old)) as Hold.
  { apply fs_rename_spec in E1 as [(t & -> & Hn & ->)|(? & -> & ->)]; [|done]. rewrite lookup_insert_eq. f_equal.
    rewrite node_at_lookup, Hb2 in Hn; [congruence|]. unfold backup_path. by destruct (parent target). }
  unfold drop_temp, bind, ret in E2. destruct (on_disk (host_remove_file temp) w1) as [r2 w2] eqn:E. injection E2 as _ <-.
  apply on_disk_run in E as [E Hs2]. pose proof (remove_file_spec _ _ _ _ E target ltac:(done)) as Hk. rewrite <-Hk in Hold.
  rewrite Hs2, Hs1. split; [|done]. constructor; [by left|]. constructor; [left; congruence|done].
Qed.

Lemma replace_binary_spec w r w' :
  replace_binary random false target new_bin w = (r, w') ->
  new_bin <> target -> new_bin <> backup -> node_at (rp_host w) new_bin = fresh -> is_Some fresh ->
  nodes (rp_host w) !! target = Some (FileNode old) -> Forall whole (rp_seen w) ->
  Forall whole (rp_seen w') /\ replaced r (rp_host w').
Proof using target_not_root.
  intros E Hnt Hnb Hnew Hsome Hold Hf. pose proof backup_not_target as Hbt. unfold replace_binary, bind_try, map_err_m, bind in E.
  destruct (on_disk (fs_touch target) w) as [r1 w1] eqn:E1. pose proof E1 as [E1'%fs_touch_spec Hs1]%on_disk_run.
  rewrite <-E1' in Hold. rewrite <-(node_at_nodes _ _ _ E1') in Hnew.
  assert (Forall whole (rp_seen w1)) as Hf1 by (rewrite Hs1; constructor; [by left|done]).
  destruct r1 as [[]|e]; [|by injection E as <- <-]. cbn [map_err] in E.
  destruct (on_disk (fs_copy target backup) w1) as [r2 w2] eqn:E2. pose proof E2 as [E2' Hs2]%on_disk_run.
  apply fs_copy_spec in E2' as [Hk Hc]. rewrite <-Hk in Hold by done.
  assert (node_at (rp_host w2) new_bin = fresh) as Hnew2.
  { rewrite <-Hnew. unfold node_at. destruct new_bin; [done|]. by apply Hk. }
  assert (Forall whole (rp_seen w2)) as Hf2 by (rewrite Hs2; constructor; [by left|done]).
  destruct r2 as [[]|e]; [|by injection E as <- <-]. cbn [map_err] in E.
  assert (staged w2) as Hst2.
  { split; [done|]. split; [done|]. destruct (Hc eq_refl) as (t & Ht & ->). rewrite node_at_lookup, <-Hk in Ht by done. congruence. }
  destruct (create_temp_file random target new_bin w2) as [r3 w3] eqn:E3.
  apply create_temp_file_spec in E3 as [Hst3 Htemp]; [|done..]. destruct r3 as [temp|e]; [|injection E as <- <-; by split; apply Hst3].
  destruct (Htemp _ eq_refl) as (Htt & Htb & Hfile & Htf). destruct (on_disk (fs_rename temp target) w3) as [r4 w4] eqn:E4.
  apply final_rename_spec in E4 as [Hf4 H4]; [|done..]. destruct r4 as [[]|e].
  - destruct (drop_temp temp w4) as [r5 w5] eqn:E5. injection E as <- <-. by eapply drop_temp_replaced.
  - destruct (on_disk (fs_rename backup target) w4) as [r5 w5] eqn:E5. destruct (drop_temp temp w5) as [r6 w6] eqn:E6.
    injection E as <- <-. by eapply roll_back_spec.
Qed.

End Stages.

(** ** Lemmas: an attempt to upgrade *)

Section Attempts.
Context `{PTL : PackageToolsLaws}.
Variable show_package_error : OCIPackageManagerError -> string.
Variable show_replace_error : ReplaceError -> string.
Variable self : Updater.
#[local] Abbreviation attempt := (try_upgrade show_package_error show_replace_error self).
#[local] Abbreviation update_self := (update show_package_error show_replace_error self).
#[local] Abbreviation packages_dir := (agent_dir (up_remote_dir self) AgentControl).

(** The package of a version, and the binary in it *)
Definition version_package (v : Version) : InstalledPackageData :=
  new_package (up_remote_dir self) AgentControl (get_package_data self v).

Definition version_binary (v : Version) : Path := installation_path (version_package v) ++ [AGENT_CONTROL_BIN].

Lemma binary_path v : join_path (installation_path (version_package v)) AGENT_CONTROL_BIN = version_binary v.
Proof using. reflexivity. Qed.

Lemma binary_below v : packages_dir `prefix_of` version_binary v.
Proof using. unfold version_binary. apply prefix_app_r. apply stored_below. Qed.

Lemma package_name_normal v : normal_name (package_id (get_package_data self v)).
Proof using. by split_and!. Qed.

(** An install changes nothing outside the packages of Agent Control, whatever its result. *)
Lemma install_changes v w r w' :
  install (up_remote_dir self) AgentControl (get_package_data self v) w = (r, w') ->
  changes_below packages_dir (pm_host w) (pm_host w') /\ (forall ip, r = Ok ip -> ip = version_package v).
Proof using PTL.
  intros E. split; [|intros ip ->; by eapply install_returns in E].
  apply install_stages in E as (w1 & (Hw & _ & _) & [(r' & Hret & _)|(-> & _)]); [|apply Hw|done..].
  apply retain_packages_spec in Hret as (_ & _ & Hrm & _); [|done].
  eapply changes_trans; [apply Hw|]. by eapply retain_changes.
Qed.

(** What is neither in the packages nor above them is left alone. *)
Lemma install_keeps v w r w' p t :
  install (up_remote_dir self) AgentControl (get_package_data self v) w = (r, w') ->
  ~ packages_dir `prefix_of` p -> nodes (pm_host w) !! p = Some t -> nodes (pm_host w') !! p = Some t.
Proof using PTL. intros [Hc _]%install_changes Hp Ht. destruct (Hc p Hp) as [->|(_ & Hn & _)]; [done|congruence]. Qed.

Lemma backup_outside target :
  target <> [] -> ~ packages_dir `prefix_of` target -> ~ packages_dir `prefix_of` backup_path target.
Proof using.
  intros Hne Hout [l Hl]. unfold backup_path, parent in Hl. destruct (exists_last Hne) as (d & x & ->).
  rewrite removelast_last in Hl. unfold file_name in Hl. rewrite last_snoc in Hl.
  destruct (decide (l = [])) as [->|Hl0].
  - rewrite app_nil_r in Hl. unfold agent_dir in Hl.
    change [PACKAGES_FOLDER_NAME; as_str AgentControl] with ([PACKAGES_FOLDER_NAME] ++ [as_str AgentControl]) in Hl.
    rewrite app_assoc in Hl. apply app_inj_2 in Hl as [_ [= Hx]]; [|done].
    repeat (destruct x as [|? x]; [discriminate Hx|injection Hx as _ Hx]). destruct x; discriminate Hx.
  - destruct (exists_last Hl0) as (l' & y & ->). rewrite app_assoc in Hl. apply app_inj_2 in Hl as [-> _]; [|done].
    apply Hout. rewrite <-app_assoc. by apply prefix_app_r.
Qed.

(** How an attempt at version [v] ends: the old binary in its place and no restart, or the binary
    of the version, which passed the dry run, with the old one as backup; a restart is asked for
    unless the event cannot be published. *)
Definition attempted (env : UpdaterEnv) (v : Version) (old : string) (r : result unit UpdaterError) (w w' : UpdaterWorld) : Prop :=
  let target := nodes (pm_host (up_packages w')) !! up_target self in
  (is_ok r = false /\ target = Some (FileNode old) /\ restarts w' = restarts w) \/
  exists h t, node_at h (version_binary v) = Some (FileNode t) /\ dry_run env h (version_binary v) = Ok tt /\
    target = Some (FileNode t) /\ nodes (pm_host (up_packages w')) !! backup_path (up_target self) = Some (FileNode old) /\
    is_ok r = is_ok (publish env) /\ restarts w' = if is_ok (publish env) then S (restarts w) else restarts w.

Hypothesis target_not_root : up_target self <> [].
Hypothesis target_outside : ~ packages_dir `prefix_of` up_target self.

Lemma replacement_spec env v old w r w' :
  on_replacement (self_replace (temp_random env) false (up_target self) (version_binary v)) w = (r, w') ->
  nodes (pm_host (up_packages w)) !! up_target self = Some (FileNode old) ->
  let fresh := node_at (pm_host (up_packages w)) (version_binary v) in
  replaced (up_target self) old fresh r (pm_host (up_packages w')) /\ restarts w' = restarts w.
Proof using target_not_root target_outside.
  intros E Hold fresh. unfold on_replacement, self_replace in E. cbn [rp_host] in E.
  destruct (exists_path (pm_host (up_packages w)) (version_binary v)) eqn:Hex; [|by injection E as <- <-].
  cbn [negb] in E. destruct (replace_binary _ _ _ _ _) as [r1 w1] eqn:E1. injection E as <- <-. split; [|done].
  pose proof (binary_below v) as Hb.
  apply (replace_binary_spec _ _ _ old fresh target_not_root) in E1 as [_ H1]; [exact H1| | |done| |done|constructor].
  - intros Heq. apply target_outside. by rewrite <-Heq.
  - intros Heq. apply (backup_outside (up_target self)); [done..|]. by rewrite <-Heq.
  - unfold exists_path in Hex. by apply bool_decide_eq_true in Hex.
Qed.

Lemma try_upgrade_spec env v old w r w' :
  attempt false env v w = (r, w') ->
  nodes (pm_host (up_packages w)) !! up_target self = Some (FileNode old) -> attempted env v old r w w'.
Proof using PTL target_not_root target_outside.
  intros E Hold. unfold try_upgrade, bind_try, map_err_m, bind, on_packages in E.
  destruct (install _ _ _ (up_packages w)) as [r1 p1] eqn:E1.
  pose proof (install_keeps _ _ _ _ _ _ E1 target_outside Hold) as Hold1. apply install_changes in E1 as [_ Hip].
  destruct r1 as [ip|e]; [|injection E as <- <-; by left]. cbn [map_err up_packages] in E.
  rewrite (Hip _ eq_refl) in E. cbn zeta in E. rewrite binary_path in E. destruct (dry_run env (pm_host p1) (version_binary v)) as [[]|e] eqn:Ed; [|injection E as <- <-; by left].
  cbn [map_err] in E. destruct (on_replacement _ _) as [r2 w2] eqn:E2. apply (replacement_spec env v old) in E2 as [Hr2 Hn2]; [|done].
  cbn [up_packages restarts] in Hr2, Hn2. destruct r2 as [[]|e]; [|injection E as <- <-; by left].
  destruct Hr2 as (Hfile & Ht & Hb). destruct (node_at (pm_host p1) (version_binary v)) as [[t|]|] eqn:Hnode; [|done..].
  right. exists (pm_host p1), t. cbn [map_err] in E. unfold request_restart, ret in E.
  destruct (publish env); injection E as <- <-; (split_and!; [done..|simpl; congruence]).
Qed.

Lemma guarded_runs (env : UpdaterEnv) (v : Version) (r0 : result unit UpdaterError) g r g' :
  guarded (up_checks self) (up_policy self) (up_instant_max self) (clocks env) v r0 g = Some (Ok r, g') -> r = r0.
Proof using.
  unfold guarded. destruct (check _ _ _ _ _) as [[?|] g1]; [done|]. destruct (is_ok r0); [by intros [= <- _]|].
  destruct (record_failure _ _ _ _); by intros [= <- _].
Qed.


Lemma guarded_key (env : UpdaterEnv) (v : Version) (r0 : result unit UpdaterError) g r g' :
  guarded (up_checks self) (up_policy self) (up_instant_max self) (clocks env) v r0 g = Some (r, g') ->
  key g' = match r with Ok r => if is_ok r then None else Some v | Err _ => Some v end.
Proof using.
  unfold guarded.
  assert (forall g : GateState Version, key (reset_if_key_changed g v) = Some v) as Hk.
  { intros g0. unfold reset_if_key_changed. by case_bool_decide. }
  destruct (check _ _ _ _ _) as [[?|] g1] eqn:E; injection E as _ <-.
  - intros [= <- <-]. apply Hk.
  - destruct (is_ok r0) eqn:Ho; [intros [= <- <-]; by rewrite Ho|]. unfold record_failure.
    destruct (delay_with_jitter _ _ _ _); [|done]. destruct (_ <=? _)%N; [|done]. intros [= <- <-]. rewrite Ho. apply Hk.
Qed.

(** A retry attempts the version of the last update that did not succeed, failed or held
    back; after one that succeeded or was to the running version it does nothing. *)
Theorem retry_repeats_failed_update windows env env' v w r w' :
  ac_remote_update_enabled self = true -> update_self windows env (Some v) w = Some (r, w') ->
  retry_update show_package_error show_replace_error self windows env' w' =
    if is_ok r then Some (Ok tt, w') else update_self windows env' (Some v) w'.
Proof using.
  intros Hen E. unfold retry_update. assert (key (up_gate w') = if is_ok r then None else Some v) as ->; [|by destruct (is_ok r)].
  unfold update in E. rewrite Hen in E. cbn [negb] in E.
  destruct (String.eqb v (running_version self)); [by injection E as <- <-|].
  destruct (attempt windows env v w) as [r1 w1]. destruct (guarded _ _ _ _ _ _ _) as [[r2 g]|] eqn:Eg; [|done].
  apply guarded_key in Eg. by destruct r2 as [r2|e]; injection E as <- <-.
Qed.

(** *** A version whose binary is gone *)

(** The package of the version is installed, without its binary. *)
Definition hollow (v : Version) (w : UpdaterWorld) : Prop :=
  exists_path (pm_host (up_packages w)) (installation_path (version_package v)) = true /\
  node_at (pm_host (up_packages w)) (version_binary v) = None.

(** A file that is not there cannot be run. *)
Definition runs_files (env : UpdaterEnv) : Prop :=
  forall h p, node_at h p = None -> is_ok (dry_run env h p) = false.

Lemma install_hollow v w r w' :
  install (up_remote_dir self) AgentControl (get_package_data self v) (up_packages w) = (r, w') -> hollow v w ->
  forall p, installation_path (version_package v) `prefix_of` p -> node_at (pm_host w') p = node_at (pm_host (up_packages w)) p.
Proof using.
  intros E [Hex _] p Hp. rewrite install_unfold in E by done. cbn zeta in E. fold (version_package v) in E. rewrite Hex in E.
  unfold bind_try, ret in E. destruct (retain_packages _ _ _ _) as [r1 w1] eqn:E1.
  assert (w1 = w') as -> by (destruct r1; by injection E). apply retain_packages_spec in E1 as (_ & _ & Hrm & _); [|done].
  unfold node_at. destruct p; [done|]. eapply (retained_kept _ _ _ _ (version_package v)); [exact Hrm|by left|done|done].
Qed.

Lemma try_upgrade_hollow windows env v w r w' :
  runs_files env -> attempt windows env v w = (r, w') -> hollow v w ->
  is_ok r = false /\ hollow v w' /\ restarts w' = restarts w.
Proof using.
  intros Hrun E Hh. unfold try_upgrade, bind_try, map_err_m, bind, on_packages in E.
  destruct (install _ _ _ (up_packages w)) as [r1 p1] eqn:E1. pose proof (install_hollow _ _ _ _ E1 Hh) as Hk.
  set (w1 := {| up_packages := p1; up_gate := _; up_seen := _; restarts := _ |}) in E.
  assert (hollow v w1) as Hh1.
  { destruct Hh as [H1 H2]. unfold hollow, exists_path in *. rewrite !Hk; [done|by apply prefix_app_r|done]. }
  destruct r1 as [ip|e]; [|by injection E as <- <-]. apply install_returns in E1 as ->; [|done..].
  fold (version_package v) in E. cbn [map_err] in E. cbn zeta in E. rewrite binary_path in E.
  pose proof (Hrun _ _ (proj2 Hh1)) as Hd. destruct (dry_run _ _ _); [done|]. by injection E as <- <-.
Qed.

(** C20: Once the package of a version is installed without its binary, every later update to that
    version fails and leaves it so: the package is not downloaded again.  The binary is moved out
    of the package before the replacement is complete, so a failure after that leads there. *)
Theorem hollow_version_never_installed windows env v w r w' :
  runs_files env -> v <> running_version self -> ac_remote_update_enabled self = true ->
  hollow v w -> update_self windows env (Some v) w = Some (r, w') ->
  is_ok r = false /\ hollow v w' /\ restarts w' = restarts w.
Proof using.
  intros Hrun Hv Hen Hh E. unfold update in E. rewrite Hen in E. cbn [negb] in E.
  apply String.eqb_neq in Hv. rewrite Hv in E. destruct (attempt windows env v w) as [r1 w1] eqn:E1.
  apply try_upgrade_hollow in E1 as (? & ? & ?); [|done..].
  destruct (guarded _ _ _ _ _ _ _) as [[[r2|s] g]|] eqn:Eg; [|injection E as <- <-; by split_and!|done].
  apply guarded_runs in Eg as ->. injection E as <- <-. by split_and!.
Qed.

End Attempts.

(** ** Properties of the replacer *)

(** C13: On Unix, at every moment of a replacement, and so after a crash at any of them, the target
    is the whole old binary or the whole new one.  A replacement that succeeds leaves the new one,
    with the old one in the backup; one that fails, for whatever reason, leaves the old one. *)
Theorem replacement_keeps_a_binary random target new_bin h old new r w' :
  target <> [] -> new_bin <> target -> new_bin <> backup_path target ->
  nodes h !! target = Some (FileNode old) -> node_at h new_bin = Some (FileNode new) ->
  self_replace random false target new_bin {| rp_host := h; rp_seen := [] |} = (r, w') ->
  Forall (fun h => nodes h !! target = Some (FileNode old) \/ nodes h !! target = Some (FileNode new)) (rp_seen w') /\
  match r with
  | Ok _ => nodes (rp_host w') !! target = Some (FileNode new) /\
            nodes (rp_host w') !! backup_path target = Some (FileNode old)
  | Err _ => nodes (rp_host w') !! target = Some (FileNode old)
  end.
Proof.
  intros Hne Hnt Hnb Hold Hnew E. unfold self_replace, exists_path in E. cbn [rp_host] in E. rewrite Hnew in E.
  rewrite bool_decide_true in E by done. cbn [negb] in E.
  apply (replace_binary_spec _ _ _ old (Some (FileNode new)) Hne) in E as [Hf Hr]; [|done..|constructor].
  split; [|by destruct r as [[]|]; [destruct Hr as (_ & ? & ?)|]].
  eapply Forall_impl; [exact Hf|]. intros h' [?|[_ ?]]; [by left|by right].
Qed.

(** C22: On Windows the binary that runs is renamed to the backup before the new one is staged, and
    a failure to stage it does not restore the backup: the replacement fails and there is no
    binary in the place of the target. *)
Theorem windows_staging_failure_removes_binary random target new_bin m f faults old :
  let h := {| nodes := m; host_faults := None :: None :: Some f :: faults |} in
  target <> [] -> m !! target = Some (FileNode old) -> is_dir h (parent target) = true ->
  is_dir h (backup_path target) = false -> exists_path h new_bin = true ->
  let '(r, w') := self_replace random true target new_bin {| rp_host := h; rp_seen := [] |} in
  r = Err (TempCopyFailed (OtherIo (host_error f))) /\
  nodes (rp_host w') !! target = None /\ nodes (rp_host w') !! backup_path target = Some (FileNode old).
Proof.
  intros h Hne Hold Hdir Hb Hex. pose proof (backup_not_target target Hne) as Hbt.
  assert (parent (backup_path target) = parent target) as Hp by (unfold backup_path; apply removelast_last).
  unfold self_replace, replace_binary. cbn [rp_host]. rewrite Hex. cbn [negb].
  assert (fs_touch target h = (Ok tt, {| nodes := m; host_faults := None :: Some f :: faults |})) as E1.
  { unfold fs_touch, bind. cbn. unfold exists_path. rewrite node_at_lookup by done. cbn. by rewrite Hold. }
  assert (fs_rename target (backup_path target) {| nodes := m; host_faults := None :: Some f :: faults |} =
    (Ok tt, {| nodes := <[backup_path target := FileNode old]> (delete target m); host_faults := Some f :: faults |})) as E2.
  { unfold fs_rename, bind. cbn [next_host_fault host_faults head mjoin option_join tail]. rewrite node_at_lookup by done. cbn [nodes].
    rewrite Hold, Hp. change (is_dir _ (parent target)) with (is_dir h (parent target)).
    change (is_dir _ (backup_path target)) with (is_dir h (backup_path target)). by rewrite Hdir, Hb. }
  unfold bind_try, map_err_m, bind at 1. unfold on_disk at 1. cbn [rp_host]. rewrite E1. cbn [map_err].
  unfold bind at 1, on_disk at 1. cbn [rp_host]. rewrite E2. cbn [map_err]. unfold create_temp_file.
  destruct target as [|c t] eqn:Et; [done|]. rewrite <-Et in *. cbn. rewrite lookup_insert_ne, lookup_delete_eq, lookup_insert_eq by done. done.
Qed.

(** ** Properties of the dry run *)

(** The process is still running at the polls before [k], within the time it has. *)
Definition running_until (p : Process) (now : nat -> N) (deadline : N) (i k : nat) : Prop :=
  forall j, i <= j < k -> try_wait p j = Ok None /\ (now j < deadline)%N.

Lemma wait_for_exit_spec fuel p now timeout deadline i :
  (forall j, now j + VERIFY_POLL_INTERVAL <= now (S j))%N ->
  (deadline <= now i + VERIFY_POLL_INTERVAL * N.of_nat (pred fuel))%N -> 0 < fuel ->
  exists k r, wait_for_exit fuel p now timeout deadline i = Some r /\ i <= k < i + fuel /\
    running_until p now deadline i k /\
    match r with
    | Ok status => try_wait p k = Ok (Some status)
    | Err (VerifyTimedOut t) => t = timeout /\ try_wait p k = Ok None /\ (deadline <= now k)%N
    | Err _ => is_ok (try_wait p k) = false \/ (is_ok (kill p) = false /\ try_wait p k = Ok None /\ (deadline <= now k)%N)
    end.
Proof.
  intros Hclock. revert i. induction fuel as [|fuel IH]; intros i Hdl Hf; [lia|]. cbn [wait_for_exit].
  assert (running_until p now deadline i i) as Hnone by (intros j Hj; lia).
  destruct (try_wait p i) as [[status|]|err] eqn:E; [exists i, (Ok status); split_and!; [done|lia..|done|done]| |].
  2:{ exists i. eexists. split_and!; [done|lia..|done|left; by rewrite E]. }
  destruct (N.leb_spec deadline (now i)) as [Hle|Hlt].
  - exists i. destruct (kill p) as [[]|e] eqn:Ek; eexists; (split_and!; [done|lia..|done|]); [done|right; by split_and!].
  - destruct fuel as [|fuel]; [simpl in Hdl; lia|]. specialize (Hclock i).
    destruct (IH (S i)) as (k & r & Hr & Hk & Hrun & Hend); [unfold VERIFY_POLL_INTERVAL, from_secs, NANOS_PER_SEC in *; lia|lia|].
    exists k, r. split_and!; [done|lia..| |done]. intros j Hj. destruct (decide (j = i)) as [->|]; [done|]. apply Hrun. lia.
Qed.

(** The dry run of a binary ends after 11 polls at most, whatever the process does, and accepts
    the binary exactly when the process could be started and is seen, by one of those polls, to
    have exited with success, with none before it having passed the timeout. *)
Theorem dry_run_decides message spawned now start :
  (forall j, now j + VERIFY_POLL_INTERVAL <= now (S j))%N -> (start <= now 0%nat)%N ->
  exists r, verify_execute message 11 spawned now DEFAULT_VERIFY_TIMEOUT start = Some r /\
    (r = Ok tt <-> exists p k, spawned = Ok p /\ k <= 10 /\
       running_until p now (start + DEFAULT_VERIFY_TIMEOUT)%N 0 k /\ try_wait p k = Ok (Some true)).
Proof.
  intros Hclock Hstart. destruct spawned as [p|e]; [|eexists; split; [done|]; split; [done|by intros (?&?&?&_)]].
  cbn [verify_execute].
  destruct (wait_for_exit_spec 11 p now DEFAULT_VERIFY_TIMEOUT (start + DEFAULT_VERIFY_TIMEOUT)%N 0) as (k & r & -> & Hk & Hrun & Hend);
    [done|unfold DEFAULT_VERIFY_TIMEOUT, VERIFY_POLL_INTERVAL, from_secs, NANOS_PER_SEC; simpl pred; lia|lia|].
  cbn. eexists. split; [done|]. split.
  - destruct r as [[]|e]; [|by case_match|done]. intros _. exists p, k. split_and!; [done|lia|done|done].
  - intros (p' & k' & [= <-] & Hk' & Hrun' & Hok). assert (k = k') as <-.
    { destruct (Nat.lt_trichotomy k k') as [Hlt|[?|Hlt]]; [|done|destruct (Hrun k'); [lia|congruence]].
      destruct (Hrun' k) as [Hn Hdl]; [lia|]. destruct r as [status|[| | |]]; rewrite ?Hn in Hend; try done;
        [destruct Hend as [|(_&_&?)]; [done|lia]|destruct Hend as (_&_&?); lia
        |destruct Hend as [|(_&_&?)]; [done|lia]|destruct Hend as [|(_&_&?)]; [done|lia]]. }
    rewrite Hok in Hend. destruct r as [status|[| | |]]; [by injection Hend as <-|..]; naive_solver.
Qed.

Definition example_process : Process := {|
  try_wait i := Ok (if 3 <=? i then Some true else None); kill := Ok tt; stdout := [];
|}.

(** A process that exits with success before the fourth poll *)
Lemma dry_run_decides_witness :
  verify_execute (fun _ => None) 11 (Ok example_process) (fun i => from_secs (2 * N.of_nat i)) DEFAULT_VERIFY_TIMEOUT 0 = Some (Ok tt).
Proof.
  destruct (dry_run_decides (fun _ => None) (Ok example_process) (fun i => from_secs (2 * N.of_nat i)) 0) as (r & Hr & Hok).
  - intros j. unfold VERIFY_POLL_INTERVAL, from_secs, NANOS_PER_SEC. lia.
  - done.
  - rewrite Hr. f_equal. apply Hok. exists example_process, 3. split_and!; [done|lia| |done].
    intros j Hj. destruct j as [|[|[|j]]]; [by split..|lia].
Defined.

(** ** Examples *)

(** Archives that hold a binary of Agent Control, which is their content *)
Definition updater_tools : PackageTools := {|
  download p d := let* _ := put_file (d ++ ["archive"]) (version (package_oci p)) in ret (Ok (version (package_oci p)));
  extract_archive a d := let* _ := put_file (d ++ [AGENT_CONTROL_BIN]) a in ret (Ok tt);
  execute_hook _ _ := ret (Ok tt);
|}.

#[export] Instance updater_tools_laws : PackageToolsLaws updater_tools.
Proof.
  split.
  - intros p d h a h'. cbn. unfold_effects. intros [= _ <-]. by apply (put_file_works_in d "archive" (version (package_oci p)) h tt).
  - intros t d h a h'. cbn. unfold_effects. intros [= _ <-]. by apply (put_file_works_in d AGENT_CONTROL_BIN t h tt).
Qed.

Definition example_target : Path := ["bin"; AGENT_CONTROL_BIN].

Definition example_updater : Updater := {|
  ac_remote_update_enabled := true;
  up_repository := "newrelic/agent-control";
  up_pub_key_url := "https://keys";
  up_remote_dir := ["data"];
  up_target := example_target;
  running_version := "1.0.0";
  up_checks := true;
  up_policy := {| max_attempts := 5; base_delay := from_secs 1; max_delay := from_secs 60; jitter := false |};
  up_instant_max := 2 ^ 63;
|}.

(** Runs the files there are. *)
Definition example_env (published : result unit string) (now : N) : UpdaterEnv := {|
  temp_random := "a1b2c3";
  dry_run h p := if is_file_node (node_at h p) then Ok tt else Err (SubProcessError "not found");
  publish := published;
  clocks := {| checked_at := now; checked_again_at := now; failed_at := now; failed_since_epoch := Some now |};
|}.

Lemma example_env_runs published now : runs_files (example_env published now).
Proof. intros h p Hn. cbn. by rewrite Hn. Qed.

Definition example_host (faults : list (option HostFault)) : Host := {|
  nodes := {[ ["data"] := DirNode; ["bin"] := DirNode; example_target := FileNode "old binary" ]};
  host_faults := faults;
|}.

Definition example_updater_world (faults : list (option HostFault)) : UpdaterWorld := {|
  up_packages := {| pm_host := example_host faults; latest_installed_packages := ∅; hooks_run := [] |};
  up_gate := reset_gate;
  up_seen := [];
  restarts := 0;
|}.

Definition example_run (faults : list (option HostFault)) (published : result unit string) :
  option (result unit UpdaterError * UpdaterWorld) :=
  update (PT := updater_tools) (fun _ => "package") (fun _ => "replace") example_updater false (example_env published 0)
    (Some "2.0.0") (example_updater_world faults).

Definition example_fault : HostFault := {| host_error := "I/O error"; host_left := [] |}.

(** The world after an update in which the last rename of the replacement failed *)
Definition example_hollow_world : UpdaterWorld :=
  match example_run (replicate 10 None ++ [Some example_fault]) (Ok tt) with
  | Some (_, w) => w
  | None => example_updater_world []
  end.

Lemma example_target_outside : ~ agent_dir (up_remote_dir example_updater) AgentControl `prefix_of` up_target example_updater.
Proof. by intros [l [=]]. Qed.

(** What is seen of the result of an update *)
Definition outcome (rw : result unit UpdaterError * UpdaterWorld) : bool * nat * option Node :=
  (is_ok rw.1, restarts rw.2, nodes (pm_host (up_packages rw.2)) !! example_target).

Lemma example_unpublished_outcome : outcome <$> example_run [] (Err "closed") = Some (false, 0, Some (FileNode "2.0.0")).
Proof. vm_compute. reflexivity. Qed.

Lemma example_run_outcome : outcome <$> example_run [] (Ok tt) = Some (true, 1, Some (FileNode "2.0.0")).
Proof. vm_compute. reflexivity. Qed.


Lemma example_retry_outcome :
  outcome <$> update (PT := updater_tools) (fun _ => "package") (fun _ => "replace") example_updater false
    (example_env (Ok tt) (from_secs 3600)) (Some "2.0.0") example_hollow_world = Some (false, 0, Some (FileNode "old binary")).
Proof. vm_compute. reflexivity. Qed.

(** The retry of an update whose last rename failed *)
Lemma hollow_version_never_installed_witness :
  exists r w', update (PT := updater_tools) (fun _ => "package") (fun _ => "replace") example_updater false
      (example_env (Ok tt) (from_secs 3600)) (Some "2.0.0") example_hollow_world = Some (r, w') /\
    is_ok r = false /\ hollow example_updater "2.0.0" w' /\ restarts w' = 0.
Proof.
  destruct (proj1 (fmap_Some _ _ _) example_retry_outcome) as ([r w'] & E & _).
  exists r, w'. split; [exact E|].
  apply (hollow_version_never_installed (PT := updater_tools) (fun _ => "package") (fun _ => "replace") example_updater false
    (example_env (Ok tt) (from_secs 3600)) "2.0.0" example_hollow_world);
    [apply example_env_runs|discriminate|reflexivity|split; vm_compute; reflexivity|exact E].
Defined.

(** The last rename of a replacement fails. *)
Lemma replacement_keeps_a_binary_witness :
  let h := {| nodes := {[ ["data"] := DirNode; ["bin"] := DirNode; example_target := FileNode "old"; ["data"; "new"] := FileNode "new" ]};
              host_faults := [None; None; None; None; None; Some example_fault] |} in
  exists r w', self_replace "a1b2c3" false example_target ["data"; "new"] {| rp_host := h; rp_seen := [] |} = (r, w') /\
    is_ok r = false /\ length (rp_seen w') = 8 /\ nodes (rp_host w') !! example_target = Some (FileNode "old").
Proof.
  intros h.
  assert (let '(r, w') := self_replace "a1b2c3" false example_target ["data"; "new"] {| rp_host := h; rp_seen := [] |} in
          (is_ok r, length (rp_seen w')) = (false, 8)) as Hout by (vm_compute; reflexivity).
  destruct (self_replace "a1b2c3" false example_target ["data"; "new"] {| rp_host := h; rp_seen := [] |}) as [r w'] eqn:E.
  exists r, w'. split; [done|].
  destruct (replacement_keeps_a_binary "a1b2c3" example_target ["data"; "new"] h "old" "new" r w') as [_ H];
    [discriminate..|vm_compute; reflexivity|vm_compute; reflexivity|exact E|].
  injection Hout as Hr Hl. split_and!; [exact Hr|exact Hl|]. by destruct r.
Defined.

(** There is no room for the temporary file. *)
Lemma windows_staging_failure_removes_binary_witness :
  let h := {| nodes := {[ ["bin"] := DirNode; example_target := FileNode "old"; ["new"] := FileNode "new" ]};
              host_faults := [None; None; Some example_fault] |} in
  let '(r, w') := self_replace "a1b2c3" true example_target ["new"] {| rp_host := h; rp_seen := [] |} in
  r = Err (TempCopyFailed (OtherIo "I/O error")) /\ nodes (rp_host w') !! example_target = None /\
  nodes (rp_host w') !! backup_path example_target = Some (FileNode "old").
Proof.
  apply (windows_staging_failure_removes_binary "a1b2c3" example_target ["new"] _ example_fault [] "old");
    [discriminate|vm_compute; reflexivity..].
Defined.

(** The failed update is attempted again. *)
Lemma retry_repeats_failed_update_witness :
  exists r w', example_run [] (Err "closed") = Some (r, w') /\ is_ok r = false /\
    retry_update (PT := updater_tools) (fun _ => "package") (fun _ => "replace") example_updater false (example_env (Ok tt) 5) w' =
    update (PT := updater_tools) (fun _ => "package") (fun _ => "replace") example_updater false (example_env (Ok tt) 5) (Some "2.0.0") w'.
Proof.
  destruct (proj1 (fmap_Some _ _ _) example_unpublished_outcome) as ([r w'] & E & Hout). injection Hout as Hr _ _.
  exists r, w'. split; [exact E|]. split; [exact (eq_sym Hr)|].
  pose proof (retry_repeats_failed_update (PT := updater_tools) (fun _ => "package") (fun _ => "replace") example_updater false
    (example_env (Err "closed") 0) (example_env (Ok tt) 5) "2.0.0" (example_updater_world []) r w' eq_refl E) as H.
  rewrite <-Hr in H. exact H.
Defined.
