(* ===== verification/Health.v ===== *)
(** * Health

    Models [checkers/health/health_checker.rs], [checkers/health/with_start_time.rs]
    and [utils/time.rs]: health values and their conversions, the check with retries
    and the loop of the health-checker thread. *)

From Stdlib Require Import String ZArith Lia.
From stdpp Require Import base option list strings.
From S2P Require Import Prelude RustString.

(** ** Time: nanoseconds since the Unix epoch, possibly before it *)

Definition SystemTime : Type := Z.

Definition sys_time_from_unix_timestamp (nanos : N) : SystemTime := Z.of_N nanos.

(** [as_nanos() as u64] keeps the low 64 bits. *)
Definition unix_timestamp_from_sys_time (time : SystemTime) : N :=
  (Z.to_N time mod u64_bound)%N.

(** ** Health values *)

Record Healthy : Type := {
  healthy_status_time : SystemTime;
  healthy_status : string;
}.

Record Unhealthy : Type := {
  unhealthy_status_time : SystemTime;
  unhealthy_status : string;
  unhealthy_last_error : string;
}.

Inductive Health : Type :=
| IsHealthy (h : Healthy)
| IsUnhealthy (u : Unhealthy).

(** The [PartialEq] instances ignore the status time. *)
Definition healthy_eq (a b : Healthy) : bool :=
  String.eqb (healthy_status a) (healthy_status b).

Definition unhealthy_eq (a b : Unhealthy) : bool :=
  String.eqb (unhealthy_status a) (unhealthy_status b)
  && String.eqb (unhealthy_last_error a) (unhealthy_last_error b).

Definition health_eq (a b : Health) : bool :=
  match a, b with
  | IsHealthy a, IsHealthy b => healthy_eq a b
  | IsUnhealthy a, IsUnhealthy b => unhealthy_eq a b
  | _, _ => false
  end.

(** [Healthy::new] and [Unhealthy::new] at the time [now] *)
Definition new_healthy (now : SystemTime) : Healthy :=
  {| healthy_status_time := now; healthy_status := "" |}.

Definition new_unhealthy (now : SystemTime) (last_error : string) : Unhealthy :=
  {| unhealthy_status_time := now; unhealthy_status := ""; unhealthy_last_error := last_error |}.

Record HealthWithStartTime : Type := {
  start_time : SystemTime;
  health : Health;
}.

Definition is_healthy (h : HealthWithStartTime) : bool :=
  match health h with IsHealthy _ => true | IsUnhealthy _ => false end.

Definition last_error (h : HealthWithStartTime) : option string :=
  match health h with IsHealthy _ => None | IsUnhealthy u => Some (unhealthy_last_error u) end.

Definition health_status (h : HealthWithStartTime) : string :=
  match health h with IsHealthy h => healthy_status h | IsUnhealthy u => unhealthy_status u end.

Definition status_time (h : HealthWithStartTime) : SystemTime :=
  match health h with
  | IsHealthy h => healthy_status_time h
  | IsUnhealthy u => unhealthy_status_time u
  end.

(** [opamp::proto::ComponentHealth], the fields that are used *)
Record ComponentHealth : Type := {
  start_time_unix_nano : N;
  status_time_unix_nano : N;
  component_healthy : bool;
  component_status : string;
  component_last_error : string;
}.

(** [From<HealthWithStartTime> for ComponentHealth] *)
Definition to_component (h : HealthWithStartTime) : ComponentHealth := {|
  start_time_unix_nano := unix_timestamp_from_sys_time (start_time h);
  status_time_unix_nano := unix_timestamp_from_sys_time (status_time h);
  component_healthy := is_healthy h;
  component_status := health_status h;
  component_last_error := default "" (last_error h);
|}.

(** [From<ComponentHealth> for HealthWithStartTime] at the time [now] *)
Definition from_component (now : SystemTime) (c : ComponentHealth) : HealthWithStartTime :=
  let start_time := sys_time_from_unix_timestamp (start_time_unix_nano c) in
  let status_time := sys_time_from_unix_timestamp (status_time_unix_nano c) in
  if component_healthy c then
    {| start_time := start_time;
       health := IsHealthy {| healthy_status_time := status_time;
                              healthy_status := component_status c |} |}
  else
    {| start_time := start_time;
       health := IsUnhealthy
         {| unhealthy_status_time := unhealthy_status_time (new_unhealthy now (component_last_error c));
            unhealthy_status := component_status c;
            unhealthy_last_error := component_last_error c |} |}.

(** ** Checking

    The text of a [HealthCheckerError] is its payload. *)

Section Checker.
Context {S : Type}.
Variable check_health : M S (result HealthWithStartTime string).
Variable sleep : N -> M S unit.

(** The rest of the loop of [check_health_with_retry]. *)
Fixpoint retry_from (attempts : nat) (retry_interval : N)
    (last_health : result HealthWithStartTime string) : M S (result HealthWithStartTime string) :=
  match attempts with
  | 0 => ret last_health
  | Datatypes.S attempts =>
      let* last_health := check_health in
      let healthy := match last_health with Ok h => is_healthy h | Err _ => false end in
      if healthy then ret last_health
      else
        let* _ := sleep retry_interval in
        retry_from attempts retry_interval last_health
  end.

Definition check_health_with_retry (limit retry_interval : N) :
  M S (result HealthWithStartTime string) :=
  retry_from (N.to_nat limit) retry_interval (Err "initial value").

(** The health published for the outcome of a check
    ([From<HealthCheckerError> for Unhealthy]). *)
Definition health_or_error (now start_time : SystemTime)
    (r : result HealthWithStartTime string) : HealthWithStartTime :=
  match r with
  | Ok h => h
  | Err err =>
      {| start_time := start_time;
         health := IsUnhealthy {| unhealthy_status_time := now;
                                  unhealthy_status := "Health check error";
                                  unhealthy_last_error := err |} |}
  end.

Variable publish_health_event : HealthWithStartTime -> M S unit.
Variable now : M S SystemTime.

(** The loop of [spawn_health_checker]; [cancelled] lists what
    [is_cancelled_with_timeout] answers at the end of each round. *)
Fixpoint health_checker_loop (start_time : SystemTime) (cancelled : list bool) : M S unit :=
  match cancelled with
  | [] => ret tt
  | c :: cancelled =>
      let* r := check_health in
      let* t := now in
      let* _ := publish_health_event (health_or_error t start_time r) in
      if (c : bool) then ret tt else health_checker_loop start_time cancelled
  end.

(** The thread of [spawn_health_checker] *)
Definition spawn_health_checker (initial_delay : N) (start_time : SystemTime) (cancelled : list bool) : M S unit :=
  let* _ := sleep initial_delay in health_checker_loop start_time cancelled.
End Checker.

(** ** A checker with scripted answers *)

Record Script : Type := {
  checks : nat;
  slept : list N;
}.

(** The [n]-th check gives [answers n]. *)
Definition scripted_check (answers : nat -> result HealthWithStartTime string) :
  M Script (result HealthWithStartTime string) :=
  fun s => (answers (checks s), {| checks := S (checks s); slept := slept s |}).

Definition scripted_sleep (d : N) : M Script unit :=
  fun s => (tt, {| checks := checks s; slept := d :: slept s |}).

Definition answer_healthy (r : result HealthWithStartTime string) : bool :=
  match r with Ok h => is_healthy h | Err _ => false end.

(** ** Facts *)

Lemma replicate_app_cons {A} n (x : A) l : replicate n x ++ x :: l = x :: replicate n x ++ l.
Proof. induction n as [|n IH]; simpl; [done|by rewrite IH]. Qed.

Lemma retry_from_step answers interval attempts last s :
  retry_from (scripted_check answers) scripted_sleep (S attempts) interval last s =
  if answer_healthy (answers (checks s))
  then (answers (checks s), {| checks := S (checks s); slept := slept s |})
  else retry_from (scripted_check answers) scripted_sleep attempts interval (answers (checks s))
         {| checks := S (checks s); slept := interval :: slept s |}.
Proof. simpl. unfold bind, scripted_check at 1; simpl. unfold answer_healthy. by case_match. Qed.

Lemma retry_from_healthy answers interval attempts k last s :
  k < attempts ->
  answer_healthy (answers (checks s + k)) = true ->
  (forall j, j < k -> answer_healthy (answers (checks s + j)) = false) ->
  retry_from (scripted_check answers) scripted_sleep attempts interval last s =
  (answers (checks s + k),
   {| checks := checks s + S k; slept := replicate k interval ++ slept s |}).
Proof.
  revert k last s. induction attempts as [|attempts IH]; intros k last s Hk Hh Hj; [lia|].
  rewrite retry_from_step. destruct k as [|k].
  - rewrite Nat.add_0_r in *. by rewrite Hh, Nat.add_1_r.
  - pose proof (Hj 0 ltac:(lia)) as H0. rewrite Nat.add_0_r in H0. rewrite H0, (IH k); simpl.
    + rewrite <-!Nat.add_succ_r. by rewrite replicate_app_cons.
    + lia.
    + by rewrite <-Nat.add_succ_r.
    + intros j Hlt. rewrite <-Nat.add_succ_r. apply Hj. lia.
Qed.

Lemma retry_from_unhealthy answers interval attempts last s :
  (forall j, j < attempts -> answer_healthy (answers (checks s + j)) = false) ->
  retry_from (scripted_check answers) scripted_sleep attempts interval last s =
  (match attempts with 0 => last | S n => answers (checks s + n) end,
   {| checks := checks s + attempts; slept := replicate attempts interval ++ slept s |}).
Proof.
  revert last s. induction attempts as [|attempts IH]; intros last s Hj.
  - simpl. rewrite Nat.add_0_r. by destruct s.
  - rewrite retry_from_step.
    pose proof (Hj 0 ltac:(lia)) as H0. rewrite Nat.add_0_r in H0. rewrite H0, IH; simpl.
    + rewrite <-!Nat.add_succ_r, replicate_app_cons. f_equal.
      destruct attempts; [by rewrite Nat.add_0_r|by rewrite Nat.add_succ_r].
    + intros j Hlt. rewrite <-Nat.add_succ_r. apply Hj. lia.
Qed.

(** ** Properties *)

(** A health check with retries performs at most [limit] checks, stops at the
    first healthy answer and returns it, and otherwise returns the last answer (or
    the initial error when no check is allowed); it sleeps the interval once after
    every check that was not healthy. *)
Theorem check_health_with_retry_spec (answers : nat -> result HealthWithStartTime string)
    (limit interval : N) :
  let run := check_health_with_retry (scripted_check answers) scripted_sleep limit interval
               {| checks := 0; slept := [] |} in
  (forall k, k < N.to_nat limit -> answer_healthy (answers k) = true ->
     (forall j, j < k -> answer_healthy (answers j) = false) ->
     run = (answers k, {| checks := S k; slept := replicate k interval |})) /\
  ((forall k, k < N.to_nat limit -> answer_healthy (answers k) = false) ->
     run = (match N.to_nat limit with 0 => Err "initial value" | S n => answers n end,
            {| checks := N.to_nat limit; slept := replicate (N.to_nat limit) interval |})).
Proof.
  unfold check_health_with_retry; simpl. split.
  - intros k Hk Hh Hj. rewrite (retry_from_healthy _ _ _ k) by done. simpl. by rewrite app_nil_r.
  - intros Hj. rewrite retry_from_unhealthy by done. simpl. by rewrite app_nil_r.
Qed.

(** Reporting a health value to the server and reading it back keeps the health,
    the texts and the start time, and the status time of a healthy value, for times
    from the epoch on that fit in 64 bits; the status time of an unhealthy value is
    replaced by the time of the reading. *)
Theorem component_health_roundtrip (now : SystemTime) (h : HealthWithStartTime) :
  (0 <= start_time h < Z.of_N u64_bound)%Z ->
  (0 <= status_time h < Z.of_N u64_bound)%Z ->
  let h' := from_component now (to_component h) in
  start_time h' = start_time h /\ is_healthy h' = is_healthy h /\
  health_status h' = health_status h /\ last_error h' = last_error h /\
  status_time h' = (if is_healthy h then status_time h else now).
Proof.
  intros Hs Ht.
  assert (forall t, (0 <= t < Z.of_N u64_bound)%Z ->
    sys_time_from_unix_timestamp (unix_timestamp_from_sys_time t) = t) as Hrt.
  { intros t Hb. unfold sys_time_from_unix_timestamp, unix_timestamp_from_sys_time.
    rewrite N.mod_small by lia. lia. }
  unfold from_component, to_component, is_healthy, status_time, health_status, last_error in *.
  destruct h as [st [h|u]]; simpl in *; rewrite ?Hrt by done; done.
Qed.

Lemma component_health_roundtrip_witness :
  status_time (from_component 42%Z (to_component
    {| start_time := 1%Z; health := IsUnhealthy (new_unhealthy 7%Z "e") |})) = 42%Z.
Proof.
  refine (proj2 (proj2 (proj2 (proj2 (component_health_roundtrip 42%Z
    {| start_time := 1%Z; health := IsUnhealthy (new_unhealthy 7%Z "e") |} _ _)))));
  vm_compute; split; congruence.
Defined.
