(* ===== verification/OnHostProcess.v ===== *)
(** * The process thread of the on-host supervisor

    Models [start_process_thread] and its helpers in [sub_agent/on_host/supervisor.rs], the
    shutdown of a process in [sub_agent/on_host/command/command_os.rs], and
    [sub_agent/on_host/command/executable_data.rs]: the loop that runs an executable, reports
    its health and restarts it as its restart policy says.

    What the operating system, the clocks and the stop channel answer is a list of
    observations, one for each iteration of the loop; the thread is a function of it.  The
    counter of restarts, used in log messages only, is left out. *)

From Stdlib Require Import String NArith ZArith Lia.
From stdpp Require Import base option list strings gmap.
From S2P Require Import Prelude RustString AgentId Backoff Health.

(** ** Data *)

(** [executable_data.rs] *)
Record ExecutableData : Type := {
  exec_id : string;
  bin : string;
  args : list string;
  exec_env : gmap string string;
  restart_policy : BackoffStrategy;
  shutdown_timeout : N;
}.

Definition DEFAULT_SHUTDOWN_TIMEOUT : N := from_secs 10.

(** [ExecutableData::new] at the given instant *)
Definition new_executable (now : N) (id bin : string) : ExecutableData := {|
  exec_id := id; bin := bin; args := []; exec_env := ∅;
  restart_policy := Fixed (default_backoff now); shutdown_timeout := DEFAULT_SHUTDOWN_TIMEOUT;
|}.

Definition with_args (e : ExecutableData) (a : list string) : ExecutableData := {|
  exec_id := exec_id e; bin := bin e; args := a; exec_env := exec_env e;
  restart_policy := restart_policy e; shutdown_timeout := shutdown_timeout e;
|}.

Definition with_env (e : ExecutableData) (env : gmap string string) : ExecutableData := {|
  exec_id := exec_id e; bin := bin e; args := args e; exec_env := env;
  restart_policy := restart_policy e; shutdown_timeout := shutdown_timeout e;
|}.

Definition with_restart_policy (e : ExecutableData) (p : BackoffStrategy) : ExecutableData := {|
  exec_id := exec_id e; bin := bin e; args := args e; exec_env := exec_env e;
  restart_policy := p; shutdown_timeout := shutdown_timeout e;
|}.

(** [std::process::ExitStatus]: its code, and its text *)
Record ExitStatus : Type := { code : option Z; exit_text : string }.

Definition success (s : ExitStatus) : bool :=
  match code s with Some 0%Z => true | _ => false end.

(** ** Observations *)

(** An iteration of the loop of [wait_exit], while the process is running. *)
Record Poll : Type := {
  poll_cancelled : bool;
  graceful : result unit string;
  still_running : bool;
  past_deadline : bool;
  poll_time : SystemTime;
}.

(** An iteration of the loop of the thread. *)
Record Attempt : Type := {
  cancelled_before : bool;
  handler_time : SystemTime;
  launched : result unit string;
  polls : list Poll;
  waited : result ExitStatus string;
  end_time : SystemTime;
  retry_at : N;
  restart_cancelled : bool;
  restart_at : N;
}.

(** What the thread does. *)
Inductive ProcessEffect : Type :=
| Launch
| Terminate
| Kill
| Reap
| PublishHealth (exec_id : string) (h : HealthWithStartTime)
| WaitRestart (delay : N).

(** ** Health ([HealthHandler]) *)

(** [publish_health] of a handler created at [time] *)
Definition publish_health (id : string) (time : SystemTime) (h : Health) : ProcessEffect :=
  PublishHealth id {| start_time := time; health := h |}.

Definition publish_healthy (id : string) (time now : SystemTime) : ProcessEffect :=
  publish_health id time (IsHealthy (new_healthy now)).

Definition publish_unhealthy (id : string) (time now : SystemTime) (error : string) : ProcessEffect :=
  publish_health id time (IsUnhealthy (new_unhealthy now error)).

Definition publish_unhealthy_with_status (id : string) (time now : SystemTime)
    (error status : string) : ProcessEffect :=
  publish_health id time (IsUnhealthy {| unhealthy_status_time := now; unhealthy_status := status;
                                         unhealthy_last_error := error |}).

(** ** The thread *)

(** [slice::join] *)
Definition join (sep : string) (l : list string) : string :=
  match l with
  | [] => ""
  | s :: l => fold_left (fun acc s => acc +:+ sep +:+ s) l s
  end.

(** The [Display] of a number, with its sign. *)
Definition show_Z (z : Z) : string :=
  if (z <? 0)%Z then "-" +:+ show_N (Z.to_N (- z)) else show_N (Z.to_N z).

(** [CommandOSStarted::shutdown]: a graceful attempt, then a kill if that failed or the process
    is still running after the timeout. *)
Definition shutdown_process (p : Poll) : list ProcessEffect :=
  Terminate :: (if negb (is_ok (graceful p)) || still_running p then [Kill] else []).

(** The loop of [wait_exit]: what it does, whether it was cancelled and whether the process
    was reported as healthy. *)
Fixpoint wait_loop (id : string) (time : SystemTime) (ps : list Poll)
    (was_cancelled healthy_already_published : bool) : list ProcessEffect * (bool * bool) :=
  match ps with
  | [] => ([], (was_cancelled, healthy_already_published))
  | p :: ps =>
      let stop := if poll_cancelled p then shutdown_process p else [] in
      let publish := negb healthy_already_published && past_deadline p in
      let healthy := if publish then [publish_healthy id time (poll_time p)] else [] in
      let '(effects, r) := wait_loop id time ps (was_cancelled || poll_cancelled p)
                             (healthy_already_published || publish) in
      (stop ++ healthy ++ effects, r)
  end.

Definition wait_exit (id : string) (a : Attempt) :
  list ProcessEffect * result (ExitStatus * bool) string :=
  let '(effects, (was_cancelled, published)) := wait_loop id (handler_time a) (polls a) false false in
  match waited a with
  | Ok exit_status =>
      (effects ++ [Reap]
         ++ (if negb published && success exit_status
             then [publish_healthy id (handler_time a) (end_time a)] else []),
       Ok (exit_status, was_cancelled))
  | Err err => (effects ++ [Reap], Err err)
  end.

Definition handle_exit (e : ExecutableData) (a : Attempt) (exit_status : ExitStatus) :
  list ProcessEffect :=
  if success exit_status then []
  else
    let error := "path '" +:+ bin e +:+ "' with args '" +:+ join " " (args e) +:+ "' failed with '"
                   +:+ exit_text exit_status +:+ "'" in
    let status := "process exited with code: " +:+ show_Z (default 0%Z (code exit_status)) in
    [publish_unhealthy_with_status (exec_id e) (handler_time a) (end_time a) error status].

(** Launching the process and waiting for it: [None] if it was not even launched. *)
Definition run_process (e : ExecutableData) (a : Attempt) :
  list ProcessEffect * result (ExitStatus * bool) string :=
  match launched a with
  | Err err => ([], Err err)
  | Ok _ => let '(effects, r) := wait_exit (exec_id e) a in (Launch :: effects, r)
  end.

(** How an iteration ends. *)
Inductive ThreadFlow : Type :=
| Restart (policy : BackoffStrategy)
| CancelledBeforeStart
| Cancelled
| PolicyExceeded
| RestartCancelled
| ThreadPanic.

(** One iteration of the loop. *)
Definition process_attempt (checks : bool) (e : ExecutableData) (policy : BackoffStrategy)
    (a : Attempt) : list ProcessEffect * ThreadFlow :=
  if cancelled_before a then ([], CancelledBeforeStart)
  else
    let '(effects, executable_result) := run_process e a in
    let exit_effects :=
      match executable_result with
      | Ok (exit_status, _) => handle_exit e a exit_status
      | Err err =>
          [publish_unhealthy (exec_id e) (handler_time a) (end_time a)
             ("Error launching process: " +:+ err)]
      end in
    match executable_result with
    | Ok (_, true) => (effects ++ exit_effects, Cancelled)
    | _ =>
        let '(retry, policy) := should_retry (retry_at a) policy in
        if retry then
          match backoff checks (restart_at a) policy with
          | None => (effects ++ exit_effects, ThreadPanic)
          | Some (delay, policy) =>
              (effects ++ exit_effects ++ [WaitRestart delay],
               if restart_cancelled a then RestartCancelled else Restart policy)
          end
        else
          (effects ++ exit_effects
             ++ [publish_unhealthy (exec_id e) (handler_time a) (end_time a) "Restart policy exceeded"],
           PolicyExceeded)
    end.

(** The loop of the thread; it ends in [Restart] while it is still running. *)
Fixpoint process_loop (checks : bool) (e : ExecutableData) (policy : BackoffStrategy)
    (l : list Attempt) : list ProcessEffect * ThreadFlow :=
  match l with
  | [] => ([], Restart policy)
  | a :: l =>
      let '(effects, flow) := process_attempt checks e policy a in
      match flow with
      | Restart policy =>
          let '(rest, flow) := process_loop checks e policy l in (effects ++ rest, flow)
      | flow => (effects, flow)
      end
  end.

Definition start_process_thread (checks : bool) (e : ExecutableData) (l : list Attempt) :
  list ProcessEffect * ThreadFlow :=
  process_loop checks e (restart_policy e) l.

(** ** Specification *)

Definition is_launch (e : ProcessEffect) : bool := match e with Launch => true | _ => false end.

Definition is_healthy_report (e : ProcessEffect) : bool :=
  match e with PublishHealth _ h => is_healthy h | _ => false end.

(** The iteration sees the request to stop and learns how the process ended. *)
Definition sees_stop (a : Attempt) : bool :=
  cancelled_before a || restart_cancelled a ||
  (is_ok (launched a) && is_ok (waited a) && existsb poll_cancelled (polls a)).

(** The state of the policy, whatever its strategy. *)
Definition strategy_backoff (s : BackoffStrategy) : Backoff :=
  match s with Fixed b | Linear b | Exponential b => b end.

(** Every process ends before the interval after which the retries are counted anew. *)
Fixpoint crash_loop (interval last : N) (l : list Attempt) : Prop :=
  match l with
  | [] => True
  | a :: l => (retry_at a - last <= interval)%N /\ crash_loop interval (restart_at a) l
  end.

(** ** Facts *)

Lemma wait_loop_spec id time ps c h :
  let '(effects, (c', h')) := wait_loop id time ps c h in
  c' = c || existsb poll_cancelled ps /\ h' = h || existsb past_deadline ps /\
  List.filter is_launch effects = [] /\
  length (List.filter is_healthy_report effects) =
    if h then 0 else if existsb past_deadline ps then 1 else 0.
Proof.
  revert c h. induction ps as [|p ps IH]; intros c h; simpl.
  { rewrite !orb_false_r. by destruct h. }
  specialize (IH (c || poll_cancelled p) (h || negb h && past_deadline p)).
  destruct (wait_loop id time ps _ _) as [effects [c' h']]. destruct IH as (-> & -> & Hl & Hh).
  rewrite !List.filter_app, !length_app, Hl, Hh.
  unfold shutdown_process.
  destruct c, h, (poll_cancelled p), (past_deadline p), (existsb past_deadline ps),
    (negb (is_ok (graceful p)) || still_running p); done.
Qed.

Lemma run_process_spec e a :
  let '(effects, r) := run_process e a in
  List.filter is_launch effects = (if is_ok (launched a) then [Launch] else []) /\
  length (List.filter is_healthy_report effects) =
    (if is_ok (launched a) &&
        (existsb past_deadline (polls a) ||
         match waited a with Ok s => success s | Err _ => false end) then 1 else 0) /\
  r = (let? _ := launched a in
       let? s := waited a in Ok (s, existsb poll_cancelled (polls a))).
Proof.
  unfold run_process, wait_exit. destruct (launched a) as [[]|err]; [|done].
  pose proof (wait_loop_spec (exec_id e) (handler_time a) (polls a) false false) as Hw.
  destruct (wait_loop _ _ _ _ _) as [effects [c h]]. destruct Hw as (-> & -> & Hl & Hh).
  destruct (waited a) as [s|err]; simpl; rewrite !List.filter_app, !length_app, Hl, Hh;
    destruct (existsb past_deadline (polls a)); try done; by destruct (success s).
Qed.

Lemma handle_exit_effects e a s :
  List.filter is_launch (handle_exit e a s) = [] /\
  List.filter is_healthy_report (handle_exit e a s) = [].
Proof. unfold handle_exit. by destruct (success s). Qed.

Lemma process_attempt_launches checks e policy a :
  List.filter is_launch (process_attempt checks e policy a).1 =
    if negb (cancelled_before a) && is_ok (launched a) then [Launch] else [].
Proof.
  unfold process_attempt. destruct (cancelled_before a); [done|].
  pose proof (run_process_spec e a) as Hr. destruct (run_process e a) as [effects r].
  destruct Hr as (Hl & _ & _). simpl.
  destruct r as [[s []]|err]; [|destruct (should_retry _ _) as [[] p]..];
    try destruct (backoff _ _ _) as [[d p']|]; simpl;
    rewrite ?List.filter_app, ?Hl, ?(proj1 (handle_exit_effects e a s)); simpl; by rewrite app_nil_r.
Qed.

Definition is_restart (f : ThreadFlow) : bool := match f with Restart _ => true | _ => false end.

Lemma process_attempt_stop checks e policy a :
  sees_stop a = true -> is_restart (process_attempt checks e policy a).2 = false.
Proof.
  unfold sees_stop, process_attempt. destruct (cancelled_before a); [done|].
  pose proof (run_process_spec e a) as Hr. destruct (run_process e a) as [effects r].
  destruct Hr as (_ & _ & ->). intros Hs.
  destruct (restart_cancelled a) eqn:Hc; simpl in Hs.
  - destruct (let? _ := launched a in _) as [[s []]|err]; [done|destruct (should_retry _ _) as [[] p]..];
      try done; by destruct (backoff _ _ _) as [[d p']|].
  - destruct (launched a), (waited a); try done. simpl in Hs |- *. by rewrite Hs.
Qed.

(** ** Properties *)


(** Reports of health.  In one run of the executable it is reported as healthy at most
    once, and exactly when it was seen running past the delay or it ended with success; an
    executable that cannot be launched, or fails early, is never reported as healthy. *)
Theorem process_health_reports checks e policy a :
  length (List.filter is_healthy_report (process_attempt checks e policy a).1) =
    if negb (cancelled_before a) && is_ok (launched a) &&
       (existsb past_deadline (polls a) ||
        match waited a with Ok s => success s | Err _ => false end) then 1 else 0.
Proof.
  unfold process_attempt. destruct (cancelled_before a); [done|].
  pose proof (run_process_spec e a) as Hr. destruct (run_process e a) as [effects r].
  destruct Hr as (_ & Hh & _). simpl.
  destruct r as [[s []]|err]; [|destruct (should_retry _ _) as [[] p]..];
    try destruct (backoff _ _ _) as [[d p']|]; simpl;
    rewrite ?List.filter_app, ?length_app, ?Hh, ?(proj2 (handle_exit_effects e a s)); simpl; lia.
Qed.

Lemma should_retry_spec now s :
  let b := strategy_backoff s in
  let '(r, s') := should_retry now s in
  (now - last_retry b <= last_retry_interval b)%N ->
  r = ((max_retries b =? 0) || (tries b <? max_retries b))%N /\ strategy_backoff s' = b.
Proof.
  destruct s as [b|b|b]; simpl; intros Hnow;
    (destruct (N.ltb_spec (last_retry_interval b) (now - last_retry b)); [lia|]); by destruct b.
Qed.

Lemma backoff_with_spec checks f now b d b' :
  backoff_with checks f now b = Some (d, b') -> (tries b < u64_max)%N ->
  tries b' = (tries b + 1)%N /\ last_retry b' = now /\ max_retries b' = max_retries b /\
  last_retry_interval b' = last_retry_interval b.
Proof.
  intros Hb Ht. unfold backoff_with in Hb. destruct (f (tries b) (initial_delay b)); [|done].
  destruct (_ || _) in Hb; [|done]. injection Hb as <- <-. simpl. split_and!; try done.
  unfold as_u64, u64_max in *. apply N.mod_small. lia.
Qed.

Lemma backoff_spec checks now s d s' :
  backoff checks now s = Some (d, s') -> (tries (strategy_backoff s) < u64_max)%N ->
  let b := strategy_backoff s in
  let b' := strategy_backoff s' in
  tries b' = (tries b + 1)%N /\ last_retry b' = now /\ max_retries b' = max_retries b /\
  last_retry_interval b' = last_retry_interval b.
Proof.
  destruct s as [b|b|b]; simpl; intros ([d' b'] & Hb & [= -> ->])%fmap_Some Ht;
    by apply backoff_with_spec in Hb.
Qed.

Lemma process_loop_limit checks e l policy :
  let b := strategy_backoff policy in
  (0 < max_retries b <= u64_max)%N -> (tries b <= max_retries b)%N ->
  crash_loop (last_retry_interval b) (last_retry b) l ->
  let '(effects, flow) := process_loop checks e policy l in
  (N.of_nat (length (List.filter is_launch effects)) <= max_retries b - tries b + 1)%N /\
  ((max_retries b - tries b < N.of_nat (length l))%N -> is_restart flow = false).
Proof.
  revert policy. induction l as [|a l IH]; intros policy b Hm Ht Hl; cbn [process_loop].
  { split; simpl; lia. }
  destruct Hl as [Hnow Hl]. pose proof (process_attempt_launches checks e policy a) as Hlaunch.
  assert (length (List.filter is_launch (process_attempt checks e policy a).1) <= 1) as Hle.
  { rewrite Hlaunch. destruct (negb _ && _); simpl; lia. }
  assert (forall p', (process_attempt checks e policy a).2 = Restart p' ->
    let b' := strategy_backoff p' in
    (tries b < max_retries b)%N /\ tries b' = (tries b + 1)%N /\ last_retry b' = restart_at a /\
    max_retries b' = max_retries b /\ last_retry_interval b' = last_retry_interval b) as Hrestart.
  { clear Hle Hlaunch IH. intros p'. unfold process_attempt. destruct (cancelled_before a); [done|].
    destruct (run_process e a) as [effects r]. pose proof (should_retry_spec (retry_at a) policy) as Hs.
    fold b in Hs. destruct (should_retry (retry_at a) policy) as [retry p].
    destruct (Hs Hnow) as [-> Hp]. 
    destruct r as [[s []]|err]; [done|..];
      (destruct (N.eqb_spec (max_retries b) 0); [lia|]); simpl;
      (destruct (N.ltb_spec (tries b) (max_retries b)); [|done]);
      (destruct (backoff checks (restart_at a) p) as [[d p'']|] eqn:Hb; [|done]); simpl;
      (destruct (restart_cancelled a); [done|]); intros [= <-];
      apply backoff_spec in Hb; rewrite Hp in *; naive_solver lia. }
  destruct (process_attempt checks e policy a) as [effects flow]; simpl in *.
  destruct flow as [p'| | | | |]; try (split; [lia|done]).
  destruct (Hrestart p' eq_refl) as (Hlt & Ht' & Hlast & Hmax & Hint).
  specialize (IH p'). destruct (process_loop checks e p' l) as [rest flow].
  destruct IH as [IH1 IH2]; [by rewrite Hmax|lia|by rewrite Hint, Hlast|].
  rewrite Ht', Hmax in *. rewrite List.filter_app, length_app. split; [lia|]. intros Hlen. apply IH2. lia.
Qed.

(** C40: the restart policy limits the restarts.  With a limit of [m] retries, an executable
    that keeps ending within the interval of the policy is launched at most [m + 1] times,
    and the thread has ended after [m + 1] runs. *)
Theorem restart_limit checks e now config l :
  restart_policy e = strategy_from now config ->
  (0 < config_max_retries config <= u64_max)%N ->
  crash_loop (config_last_retry_interval config) now l ->
  let '(effects, flow) := start_process_thread checks e l in
  (N.of_nat (length (List.filter is_launch effects)) <= config_max_retries config + 1)%N /\
  ((config_max_retries config < N.of_nat (length l))%N -> is_restart flow = false).
Proof.
  intros He Hm Hl. unfold start_process_thread. rewrite He.
  assert (strategy_backoff (strategy_from now config) = realize_backoff_config now config) as Hb
    by (unfold strategy_from; by destruct (backoff_type config)).
  pose proof (process_loop_limit checks e l (strategy_from now config)) as H. rewrite Hb in H.
  simpl in H. destruct (process_loop _ _ _ _) as [effects flow].
  rewrite N.sub_0_r in H. apply H; [done|lia|done].
Qed.

(** ** Concrete runs *)

Definition example_executable (m : N) : ExecutableData :=
  with_restart_policy (new_executable 0 "agent" "/bin/agent")
    (strategy_from 0 {| backoff_type := ExponentialType; config_backoff_delay := from_secs 1;
                        config_max_retries := m; config_last_retry_interval := from_secs 600 |}).

(** A run of the executable that was stopped or not, and whose end was seen or not. *)
Definition example_attempt (stopped : bool) (w : result ExitStatus string) : Attempt := {|
  cancelled_before := false; handler_time := 0%Z; launched := Ok tt;
  polls := [{| poll_cancelled := stopped; graceful := Ok tt; still_running := false;
               past_deadline := false; poll_time := 0%Z |}];
  waited := w; end_time := 0%Z; retry_at := 0; restart_cancelled := false; restart_at := 0;
|}.

Definition example_exit : ExitStatus := {| code := Some 1%Z; exit_text := "exit status: 1" |}.


Lemma restart_limit_witness :
  let a := example_attempt false (Ok example_exit) in
  let '(effects, flow) := start_process_thread true (example_executable 2) [a; a; a] in
  (N.of_nat (length (List.filter is_launch effects)) <= 3)%N /\
  ((2 < 3)%N -> is_restart flow = false).
Proof.
  refine (restart_limit true (example_executable 2) 0
    {| backoff_type := ExponentialType; config_backoff_delay := from_secs 1;
       config_max_retries := 2; config_last_retry_interval := from_secs 600 |}
    (replicate 3 (example_attempt false (Ok example_exit))) eq_refl _ _).
  - split; [reflexivity|vm_compute; discriminate].
  - repeat split; vm_compute; discriminate.
Defined.

(** A request to stop that is seen while the process is running is forgotten if its exit
    status cannot be read: the thread goes on to restart the executable, although the
    message of the request has been consumed. *)
Example stop_lost_when_wait_fails :
  let '(effects, flow) := start_process_thread true (example_executable 0)
    [example_attempt true (Err "no child processes");
     example_attempt false (Ok example_exit)] in
  length (List.filter is_launch effects) = 2 /\ is_restart flow = true.
Proof. vm_compute. split; reflexivity. Qed.
