(* ===== verification/SubAgent.v ===== *)
(** * The sub-agent

    Models [sub_agent.rs], [sub_agent/identity.rs], [sub_agent/event_handler/on_health.rs]
    and the supervisor interface of [sub_agent/supervisor.rs]: how a sub-agent starts its
    supervisor, handles every remote configuration, and what it reports and stores.

    The configuration repository is used through its interface ([ConfigRepository]).  The
    other collaborators (parser, assembler, supervisor, OpAMP client, clock) are an [Env]:
    each call may answer anything, depending on everything that happened before.  Calls with
    an outside effect are recorded, newest first, in the log of the world. *)

From Stdlib Require Import String.
From stdpp Require Import base option list strings gmap.
From S2P Require Import Prelude RustString Json AgentId AgentTypeId RemoteConfig Callbacks.
From S2P Require Import YamlConfig RemoteConfigParser ConfigRepo Health.

(** ** Data *)

Section SubAgent.
Context `{SV : SemVer}.

(** [sub_agent/identity.rs] *)
Record AgentIdentity : Type := {
  id : AgentID;
  agent_type_id : AgentTypeID;
}.

Context {EffectiveAgent Starter Supervisor Attributes : Type}.

(** [event.rs] *)
Inductive SubAgentEvent : Type :=
| HealthUpdated (i : AgentIdentity) (h : HealthWithStartTime)
| SubAgentStarted (i : AgentIdentity) (t : SystemTime)
| AgentDescriptionUpdated (i : AgentIdentity) (a : Attributes).

Inductive SubAgentInternalEvent : Type :=
| StopRequested
| AgentHealthInfo (h : HealthWithStartTime)
| AgentAttributesUpdated (a : Attributes).

(** The calls with an effect outside the sub-agent. *)
Inductive Effect : Type :=
| SetRemoteConfigStatus (s : RemoteConfigStatus)
| UpdateEffectiveConfig
| SetHealth (h : HealthWithStartTime)
| UpdateAttributes (a : Attributes)
| StopClient
| PublishHealth (h : HealthWithStartTime)
| Broadcast (e : SubAgentEvent)
| Started (s : Supervisor)
| StartFailed (e : string)
| SupervisorApplied (old new : Supervisor)
| ApplyFailed (old : Supervisor) (e : string)
| Stopped (s : Supervisor)
| Dropped (s : Supervisor).

(** The answers of the collaborators; errors are their texts. *)
Record Env : Type := {
  env_parse : list Effect -> AgentIdentity -> OpampRemoteConfig ->
    result (option RemoteConfig) RemoteConfigParserError;
  env_assemble : list Effect -> AgentIdentity -> YAMLConfig -> result EffectiveAgent string;
  env_build : list Effect -> EffectiveAgent -> result Starter string;
  env_start : list Effect -> Starter -> result Supervisor string;
  env_apply : list Effect -> Supervisor -> EffectiveAgent -> result Supervisor string;
  env_client : list Effect -> Effect -> result unit string;
  env_now : list Effect -> SystemTime;
}.

Context {R : Type} `{CR : !ConfigRepository R}.

Record World : Type := {
  repo : R;
  log : list Effect;
}.

(** The fields of the [SubAgent] that are not in the world. *)
Record SubAgent : Type := {
  identity : AgentIdentity;
  has_opamp_client : bool;
}.

(** ** Effects *)

Definition perform (e : Effect) : M World unit :=
  fun w => (tt, {| repo := repo w; log := e :: log w |}).

Definition on_repo {A} (m : M R A) : M World A :=
  fun w => let '(a, r) := m (repo w) in (a, {| repo := r; log := log w |}).

(** An answer of the environment that leaves no trace. *)
Definition ask {A} (f : list Effect -> A) : M World A := fun w => (f (log w), w).

(** A call to the OpAMP client: its answer, and its trace. *)
Definition client (env : Env) (e : Effect) : M World (result unit string) :=
  let* r := ask (fun l => env_client env l e) in
  let* _ := perform e in
  ret r.

(** ** Operations *)

Variable env : Env.
Variable self : SubAgent.

Definition self_id : AgentID := id (identity self).

Definition ownership : ResourceOwnership := OwnedBySubAgent (agent_type_id (identity self)).

(** A call on the client, if there is one, whose error is only logged. *)
Definition if_client (e : Effect) : M World unit :=
  if has_opamp_client self then let* _ := client env e in ret tt else ret tt.

(** [SubAgent::report_state] *)
Definition report_state (st : ConfigState) (h : Hash) : M World unit :=
  if_client (SetRemoteConfigStatus (report_status st h)).

Definition report_and_persist_state (st : ConfigState) (h : Hash) : M World unit :=
  let* _ := report_state st h in
  let* _ := on_repo (update_state self_id ownership st) in
  ret tt.

Definition report_unhealthy_from_error (err : string) : M World unit :=
  let* now := ask (env_now env) in
  perform (PublishHealth {| start_time := now; health := IsUnhealthy (new_unhealthy now err) |}).

Definition stop_supervisor (maybe_started_supervisor : option Supervisor) : M World unit :=
  match maybe_started_supervisor with
  | Some s => perform (Stopped s)
  | None => ret tt
  end.

Definition effective_agent (yaml_config : YAMLConfig) : M World (result EffectiveAgent string) :=
  ask (fun l => env_assemble env l (identity self) yaml_config).

(** [SupervisorStarter::start] *)
Definition start (s : Starter) : M World (result Supervisor string) :=
  let* r := ask (fun l => env_start env l s) in
  let* _ := perform (match r with Ok sup => Started sup | Err e => StartFailed e end) in
  ret r.

(** [Supervisor::apply] *)
Definition apply (old : Supervisor) (ea : EffectiveAgent) : M World (result Supervisor string) :=
  let* r := ask (fun l => env_apply env l old ea) in
  let* _ := perform (match r with Ok sup => SupervisorApplied old sup | Err e => ApplyFailed old e end) in
  ret r.

(** The part of [init_supervisor] that builds and starts the supervisor. *)
Definition init_build_and_start (config : Config) : M World (result Supervisor string) :=
  let*? ea := map_err_m
    (fun err => "effective agent cannot be assembled from YAML config: " +:+ err)
    (effective_agent (get_yaml_config config)) in
  let*? stopped_supervisor := map_err_m (fun err => "could not build the supervisor: " +:+ err)
    (ask (fun l => env_build env l ea)) in
  let* _ := if_client UpdateEffectiveConfig in
  map_err_m (fun err => "could not start the supervisor: " +:+ err) (start stopped_supervisor).

(** The part of [init_supervisor] that sets the final state of an interrupted configuration. *)
Definition init_finalise (config : Config) (started : result Supervisor string) : M World unit :=
  match config with
  | RemoteConfigOf remote_config =>
      if is_applying (state remote_config) then
        let st := match started with Ok _ => Applied | Err e => Failed e end in
        report_and_persist_state st (hash remote_config)
      else ret tt
  | LocalConfig _ => ret tt
  end.

Definition init_supervisor : M World (option Supervisor) :=
  let* loaded := on_repo (load_remote_fallback_local self_id default_capabilities) in
  match mjoin (ok loaded) with
  | None =>
      let* _ := if_client UpdateEffectiveConfig in
      ret None
  | Some config =>
      let* started_supervisor := init_build_and_start config in
      let* _ := init_finalise config started_supervisor in
      match started_supervisor with
      | Ok s => ret (Some s)
      | Err err =>
          let* _ := report_unhealthy_from_error err in
          ret None
      end
  end.

(** [update_effective_config] on the client of a handler, its error only logged *)
Definition update_effective_config : M World unit :=
  let* _ := client env UpdateEffectiveConfig in ret tt.

Definition report_reset_to_broken_local (h : Hash) : M World unit :=
  let* _ := report_state Applied h in
  update_effective_config.

Definition start_new_supervisor_reporting_config_and_state (h : Hash) (s : Starter) :
  M World (option Supervisor) :=
  let* _ := update_effective_config in
  let* r := start s in
  match r with
  | Ok sup =>
      let* _ := report_and_persist_state Applied h in
      ret (Some sup)
  | Err e =>
      let* _ := report_unhealthy_from_error e in
      let* _ := report_and_persist_state (Failed e) h in
      ret None
  end.

Definition apply_config_to_existing_supervisor (h : Hash) (s : Supervisor) (ea : EffectiveAgent) :
  M World (option Supervisor) :=
  let* _ := update_effective_config in
  let* r := apply s ea in
  match r with
  | Ok sup =>
      let* _ := report_and_persist_state Applied h in
      ret (Some sup)
  | Err e =>
      let* _ := report_unhealthy_from_error e in
      let* _ := report_and_persist_state (Failed e) h in
      ret None
  end.

Definition build_and_start_supervisor_from_effective_agent (ea : EffectiveAgent) (h : Hash) :
  M World (option Supervisor) :=
  let* r := ask (fun l => env_build env l ea) in
  match r with
  | Ok supervisor_starter => start_new_supervisor_reporting_config_and_state h supervisor_starter
  | Err err =>
      let* _ := report_state (Failed ("could not build the supervisor: " +:+ err)) h in
      ret None
  end.

Definition stop_supervisor_and_report_no_config (old_supervisor : option Supervisor) (h : Hash) :
  M World (option Supervisor) :=
  let* _ := stop_supervisor old_supervisor in
  let* _ := report_state Applied h in
  let* _ := update_effective_config in
  ret None.

Definition apply_or_build_and_start_supervisor (yaml_config : YAMLConfig)
    (maybe_remote_config : option RemoteConfig) (h : Hash) (old_supervisor : option Supervisor) :
  M World (option Supervisor) :=
  let* r := effective_agent yaml_config in
  match r with
  | Ok ea =>
      let* _ :=
        match maybe_remote_config with
        | Some remote_config =>
            let* _ := on_repo (store_remote self_id ownership remote_config) in ret tt
        | None => ret tt
        end in
      match old_supervisor with
      | Some previous_supervisor => apply_config_to_existing_supervisor h previous_supervisor ea
      | None => build_and_start_supervisor_from_effective_agent ea h
      end
  | Err err =>
      match maybe_remote_config with
      | None =>
          let* _ := report_reset_to_broken_local h in
          let* _ := stop_supervisor old_supervisor in
          ret None
      | Some _ =>
          let* _ := report_state (Failed ("invalid config: " +:+ err)) h in
          ret old_supervisor
      end
  end.

Definition reset_to_local_config (h : Hash) (old_supervisor : option Supervisor) :
  M World (option Supervisor) :=
  let* _ := on_repo (delete_remote self_id) in
  let* loaded := on_repo (load_local self_id) in
  match mjoin (ok loaded) with
  | Some local_config =>
      apply_or_build_and_start_supervisor (get_yaml_config local_config) None h old_supervisor
  | None => stop_supervisor_and_report_no_config old_supervisor h
  end.

(** [check_and_report_config_failed] *)
Definition check_and_report_config_failed (c : OpampRemoteConfig) : M World bool :=
  match error_message (RemoteConfig.state c) with
  | None => ret false
  | Some msg =>
      let* _ := client env (SetRemoteConfigStatus (report_status (Failed msg) (RemoteConfig.hash c))) in
      ret true
  end.

(** [handle_remote_config]; the runtime calls it only when there is a client *)
Definition handle_remote_config (c : OpampRemoteConfig) (old_supervisor : option Supervisor) :
  M World (option Supervisor) :=
  let* stored := on_repo (get_remote_config self_id) in
  let duplicate :=
    match stored with
    | Ok (Some rc) =>
        if bool_decide (RemoteConfig.hash c = hash rc) && negb (is_applying (state rc))
        then Some rc else None
    | _ => None
    end in
  match duplicate with
  | Some rc =>
      let* _ := report_state (state rc) (hash rc) in
      ret old_supervisor
  | None =>
      let* failed := check_and_report_config_failed c in
      if (failed : bool) then ret old_supervisor
      else
        let* _ := report_state Applying (RemoteConfig.hash c) in
        let* parsed := ask (fun l => env_parse env l (identity self) c) in
        match parsed with
        | Ok (Some remote_config) =>
            apply_or_build_and_start_supervisor (config remote_config) (Some remote_config)
              (RemoteConfig.hash c) old_supervisor
        | Ok None => reset_to_local_config (RemoteConfig.hash c) old_supervisor
        | Err err =>
            let* _ := report_state (Failed (show_parser_error err)) (RemoteConfig.hash c) in
            ret old_supervisor
        end
  end.

(** [on_health.rs]: nothing is broadcast when the client refuses the health. *)
Definition on_health (h : HealthWithStartTime) : M World (result unit string) :=
  let*? _ :=
    if has_opamp_client self then client env (SetHealth h) else ret (Ok tt) in
  let* _ := perform (Broadcast (HealthUpdated (identity self) h)) in
  ret (Ok tt).

Definition is_health_state_equal_to_previous_state (previous : option Health) (current : Health) :
  bool :=
  match previous, current with
  | Some (IsHealthy _), IsHealthy _ => true
  | Some prev, current => health_eq prev current
  | None, _ => false
  end.

(** ** The runtime thread *)

(** What the [select!] of the runtime receives; [None] when the channel is closed. *)
Inductive RuntimeEvent : Type :=
| FromOpAMP (e : option OpAMPEvent)
| FromInternal (e : option SubAgentInternalEvent)
| UptimeTick.

(** The variables of the loop. *)
Record RuntimeState : Type := {
  supervisor : option Supervisor;
  previous_health : option Health;
  remote_config_count : N;
}.

(** How an iteration ends: with the next state, or by leaving the loop with the supervisor
    that is still owned. *)
Inductive Flow : Type :=
| Continue (s : RuntimeState)
| Break (supervisor : option Supervisor).

(** One iteration of the loop. *)
Definition handle_event (ev : RuntimeEvent) (s : RuntimeState) : M World Flow :=
  match ev with
  | FromOpAMP None => ret (Break (supervisor s))
  | FromOpAMP (Some (RemoteConfigReceived c)) =>
      if has_opamp_client self then
        let* sup := handle_remote_config c (supervisor s) in
        ret (Continue {| supervisor := sup; previous_health := previous_health s;
                         remote_config_count := remote_config_count s + 1 |})
      else ret (Continue s)
  | FromOpAMP (Some _) => ret (Continue s)
  | FromInternal None => ret (Break (supervisor s))
  | FromInternal (Some StopRequested) =>
      let* _ := stop_supervisor (supervisor s) in
      ret (Break None)
  | FromInternal (Some (AgentHealthInfo h)) =>
      let* _ := on_health h in
      ret (Continue {| supervisor := supervisor s; previous_health := Some (health h);
                       remote_config_count := remote_config_count s |})
  | FromInternal (Some (AgentAttributesUpdated a)) =>
      let* _ := if_client (UpdateAttributes a) in
      let* _ := perform (Broadcast (AgentDescriptionUpdated (identity self) a)) in
      ret (Continue s)
  | UptimeTick => ret (Continue s)
  end.

(** The loop over the received events; the result is [Continue] while it is still waiting. *)
Fixpoint event_loop (evs : list RuntimeEvent) (s : RuntimeState) : M World Flow :=
  match evs with
  | [] => ret (Continue s)
  | ev :: evs =>
      let* f := handle_event ev s in
      match f with
      | Continue s => event_loop evs s
      | Break sup => ret (Break sup)
      end
  end.

(** [stop_opamp_client] of [opamp/operations.rs] *)
Definition stop_opamp_client : M World (result unit string) :=
  if has_opamp_client self then client env StopClient else ret (Ok tt).

(** The owned supervisor goes out of scope when the thread ends. *)
Definition drop_supervisor (sup : option Supervisor) : M World unit :=
  match sup with Some s => perform (Dropped s) | None => ret tt end.

(** [runtime]: [None] while the thread is still running. *)
Definition runtime (evs : list RuntimeEvent) : M World (option (result unit string)) :=
  let* sup := init_supervisor in
  let* now := ask (env_now env) in
  let* _ := perform (Broadcast (SubAgentStarted (identity self) now)) in
  let* f := event_loop evs {| supervisor := sup; previous_health := None; remote_config_count := 0 |} in
  match f with
  | Continue _ => ret None
  | Break sup =>
      let* r := stop_opamp_client in
      let* _ := drop_supervisor sup in
      ret (Some r)
  end.

(** ** Specifications *)

(** The status reports in a log, newest first. *)
Definition statuses (l : list Effect) : list RemoteConfigStatus :=
  omap (fun e => match e with SetRemoteConfigStatus s => Some s | _ => None end) l.

(** The effects that change which supervisor is running. *)
Definition supervisor_effect (e : Effect) : bool :=
  match e with
  | Started _ | SupervisorApplied _ _ | ApplyFailed _ _ | Stopped _ | Dropped _ => true
  | _ => false
  end.

(** The supervisor the history of effects leaves running: it is started only when there is
    none, and applied or stopped (or dropped, when [drops] allows it) only while it is the
    running one. *)
Inductive lifecycle (drops : bool) : list Effect -> option Supervisor -> Prop :=
| lifecycle_nil : lifecycle drops [] None
| lifecycle_started l s : lifecycle drops l None -> lifecycle drops (Started s :: l) (Some s)
| lifecycle_applied l s s' :
    lifecycle drops l (Some s) -> lifecycle drops (SupervisorApplied s s' :: l) (Some s')
| lifecycle_apply_failed l s e :
    lifecycle drops l (Some s) -> lifecycle drops (ApplyFailed s e :: l) None
| lifecycle_stopped l s :
    lifecycle drops l (Some s) -> lifecycle drops (Stopped s :: l) None
| lifecycle_dropped l s :
    drops = true -> lifecycle drops l (Some s) -> lifecycle drops (Dropped s :: l) None
| lifecycle_other l o e :
    supervisor_effect e = false -> lifecycle drops l o -> lifecycle drops (e :: l) o.

(** The events after which the loop ends. *)
Definition channel_closed (ev : RuntimeEvent) : bool :=
  match ev with FromOpAMP None | FromInternal None => true | _ => false end.

Definition flow_supervisor (f : Flow) : option Supervisor :=
  match f with Continue s => supervisor s | Break o => o end.

(** What a sub-agent promises for a remote configuration [c], when [old] is the running
    supervisor and [o] the stored configuration: the states it reports for the hash of [c]
    (newest first), what is stored afterwards, and the supervisor that runs. *)
Inductive outcome (c : OpampRemoteConfig) (old : option Supervisor) (o : option RemoteConfig) :
  list ConfigState -> option RemoteConfig -> option Supervisor -> Prop :=
| Repeated rc :
    (** seen and settled before: reported again, nothing changes *)
    o = Some rc -> hash rc = RemoteConfig.hash c -> is_applying (state rc) = false ->
    outcome c old o [state rc] o old
| RejectedOnArrival msg :
    RemoteConfig.state c = Failed msg -> outcome c old o [Failed msg] o old
| RejectedByParser e lg :
    env_parse env lg (identity self) c = Err e ->
    outcome c old o [Failed (show_parser_error e); Applying] o old
| RejectedByAssembler rc e lg lg' :
    env_parse env lg (identity self) c = Ok (Some rc) ->
    env_assemble env lg' (identity self) (config rc) = Err e ->
    outcome c old o [Failed ("invalid config: " +:+ e); Applying] o old
| SettledApplied rc s lg :
    env_parse env lg (identity self) c = Ok (Some rc) ->
    outcome c old o [Applied; Applying] (Some (with_state rc Applied)) (Some s)
| SettledFailed rc e lg :
    env_parse env lg (identity self) c = Ok (Some rc) ->
    outcome c old o [Failed e; Applying] (Some (with_state rc (Failed e))) None
| NotBuilt rc e lg :
    (** the failure is reported, and stored as it was parsed *)
    env_parse env lg (identity self) c = Ok (Some rc) -> old = None ->
    outcome c old o [Failed e; Applying] (Some rc) None
| ResetToLocal st res lg :
    env_parse env lg (identity self) c = Ok None ->
    match res with Some _ => st = Applied | None => is_applying st = false end ->
    outcome c old o [st; Applying] None res.

(** ** Facts: the supervisor *)

Variable drops : bool.

Definition running (o : option Supervisor) (w : World) : Prop := lifecycle drops (log w) o.

Lemma running_on_repo {A} (m : M R A) o : hoare (running o) (on_repo m) (fun _ => running o).
Proof. intros w Hw. unfold on_repo. by destruct (m (repo w)). Qed.

Lemma running_ask {A} (f : list Effect -> A) o : hoare (running o) (ask f) (fun _ => running o).
Proof. by intros w Hw. Qed.

Lemma running_perform e o :
  supervisor_effect e = false ->
  hoare (running o) (perform e) (fun _ => running o).
Proof. intros He w Hw. by apply lifecycle_other. Qed.

#[local] Hint Resolve running_on_repo running_ask : hoare.

Lemma running_client e o :
  supervisor_effect e = false ->
  hoare (running o) (client env e) (fun _ => running o).
Proof.
  intros He. unfold client. hoare_step. eapply hoare_bind; [by apply running_perform|].
  intros ?. by apply hoare_ret.
Qed.

Lemma running_if_client e o :
  supervisor_effect e = false ->
  hoare (running o) (if_client e) (fun _ => running o).
Proof.
  intros He. unfold if_client. destruct (has_opamp_client self); [|by apply hoare_ret].
  eapply hoare_bind; [by apply running_client|]. intros ?. by apply hoare_ret.
Qed.

Lemma running_report_state st h o : hoare (running o) (report_state st h) (fun _ => running o).
Proof. by apply running_if_client. Qed.

#[local] Hint Resolve running_report_state : hoare.

Lemma running_report_and_persist_state st h o :
  hoare (running o) (report_and_persist_state st h) (fun _ => running o).
Proof. unfold report_and_persist_state. by hoare_auto. Qed.

Lemma running_report_unhealthy err o :
  hoare (running o) (report_unhealthy_from_error err) (fun _ => running o).
Proof. unfold report_unhealthy_from_error. hoare_step. by apply running_perform. Qed.

Lemma running_update_effective_config o :
  hoare (running o) update_effective_config (fun _ => running o).
Proof.
  unfold update_effective_config. eapply hoare_bind; [by apply running_client|].
  intros ?. by apply hoare_ret.
Qed.

Lemma running_effective_agent y o :
  hoare (running o) (effective_agent y) (fun _ => running o).
Proof. apply running_ask. Qed.

Lemma running_stop o : hoare (running o) (stop_supervisor o) (fun _ => running None).
Proof.
  destruct o as [s|]; [|by apply hoare_ret]. intros w Hw. by apply lifecycle_stopped.
Qed.

Lemma running_start s : hoare (running None) (start s) (fun r => running (ok r)).
Proof.
  unfold start. hoare_step. apply (hoare_bind _ _ _ (fun _ => running (ok a))); [|intros ?; by apply hoare_ret].
  intros w Hw. destruct a; [by apply lifecycle_started|by apply lifecycle_other].
Qed.

Lemma running_apply s ea : hoare (running (Some s)) (apply s ea) (fun r => running (ok r)).
Proof.
  unfold apply. hoare_step. apply (hoare_bind _ _ _ (fun _ => running (ok a))); [|intros ?; by apply hoare_ret].
  intros w Hw. destruct a; [by apply lifecycle_applied|by apply lifecycle_apply_failed].
Qed.

#[local] Hint Resolve running_report_and_persist_state running_report_unhealthy
  running_update_effective_config running_effective_agent running_stop running_start
  running_apply : hoare.

Lemma running_build_and_start ea h :
  hoare (running None) (build_and_start_supervisor_from_effective_agent ea h) running.
Proof.
  unfold build_and_start_supervisor_from_effective_agent,
    start_new_supervisor_reporting_config_and_state. by hoare_auto.
Qed.

Lemma running_apply_config h s ea :
  hoare (running (Some s)) (apply_config_to_existing_supervisor h s ea) running.
Proof. unfold apply_config_to_existing_supervisor. by hoare_auto. Qed.

Lemma running_apply_or_build y rc h o :
  hoare (running o) (apply_or_build_and_start_supervisor y rc h o) running.
Proof.
  pose proof running_build_and_start as Hb. pose proof running_apply_config as Ha.
  unfold apply_or_build_and_start_supervisor, report_reset_to_broken_local.
  hoare_step. destruct a.
  - eapply (hoare_bind _ _ _ (fun _ => running o)); [destruct rc; by hoare_auto|].
    intros ?. destruct o; by hoare_auto.
  - destruct rc; [by hoare_auto|].
    eapply (hoare_bind _ _ _ (fun _ => running o)); [by hoare_auto|]. intros ?. by hoare_auto.
Qed.

#[local] Hint Resolve running_apply_or_build : hoare.

Lemma running_handle_remote_config c o :
  hoare (running o) (handle_remote_config c o) running.
Proof.
  unfold handle_remote_config, reset_to_local_config, check_and_report_config_failed,
    stop_supervisor_and_report_no_config.
  hoare_step. destruct (match a with Ok _ => _ | Err _ => _ end); [by hoare_auto|].
  eapply (hoare_bind _ _ _ (fun _ => running o)).
  { case_match; [|by hoare_auto]. eapply hoare_bind; [by apply running_client|].
    intros ?. by hoare_auto. }
  intros failed. destruct failed; by hoare_auto.
Qed.

#[local] Hint Resolve running_handle_remote_config : hoare.

Lemma running_init_build_and_start c :
  hoare (running None) (init_build_and_start c) (fun r => running (ok r)).
Proof.
  unfold init_build_and_start.
  apply (hoare_bind_try _ _ _ (fun _ => running None));
    [apply hoare_map_err, running_effective_agent|intros ea|done].
  apply (hoare_bind_try _ _ _ (fun _ => running None));
    [apply hoare_map_err, running_ask|intros st|done].
  eapply hoare_bind; [by apply running_if_client|intros ?]. apply hoare_map_err.
  eapply hoare_weaken; [apply running_start|done|]. by intros [] ?.
Qed.

#[local] Hint Resolve running_init_build_and_start : hoare.

Lemma running_init_supervisor : hoare (running None) init_supervisor running.
Proof.
  unfold init_supervisor. hoare_step. destruct (mjoin (ok a)) as [c|].
  - hoare_step. eapply (hoare_bind _ _ _ (fun _ => running (ok a0))).
    { unfold init_finalise. destruct c; by hoare_auto. }
    intros ?. destruct a0; by hoare_auto.
  - eapply hoare_bind; [by apply running_if_client|]. intros ?. by hoare_auto.
Qed.

Lemma running_on_health h o : hoare (running o) (on_health h) (fun _ => running o).
Proof.
  unfold on_health. eapply (hoare_bind_try _ _ _ (fun _ => running o)); [|intros ?|done].
  - destruct (has_opamp_client self); [by apply running_client|by hoare_auto].
  - eapply hoare_bind; [by apply running_perform|]. intros ?. by hoare_auto.
Qed.

#[local] Hint Resolve running_on_health : hoare.

Lemma running_handle_event ev s :
  hoare (running (supervisor s)) (handle_event ev s) (fun f => running (flow_supervisor f)).
Proof.
  unfold handle_event.
  destruct ev as [[[c| |]|]|[[|h|a]|]|]; try (by hoare_auto).
  eapply hoare_bind; [by apply running_if_client|]. intros ?.
  eapply hoare_bind; [by apply running_perform|]. intros ?. by hoare_auto.
Qed.

Lemma running_event_loop evs s :
  hoare (running (supervisor s)) (event_loop evs s) (fun f => running (flow_supervisor f)).
Proof.
  revert s. induction evs as [|ev evs IH]; intros s; simpl event_loop; [by hoare_auto|].
  eapply hoare_bind; [apply running_handle_event|]. intros [s'|o]; [apply IH|by hoare_auto].
Qed.

(** The loop ends when a stop is requested, with the supervisor stopped. *)
Lemma event_loop_stop pre post s w :
  forallb (fun ev => negb (channel_closed ev)) pre = true ->
  exists o, (event_loop (pre ++ FromInternal (Some StopRequested) :: post) s w).1 = Break o /\
    o = None.
Proof.
  revert s w. induction pre as [|ev pre IH]; intros s w Hpre; simpl.
  - exists None. unfold bind. by destruct (stop_supervisor (supervisor s) w).
  - simpl in Hpre. apply andb_true_iff in Hpre as [Hev Hpre]. unfold bind at 1.
    destruct (handle_event ev s w) as [[s'|o] w'] eqn:He; [by apply IH|].
    exists o. split; [done|].
    destruct ev as [[[c| |]|]|[[|h|a]|]|]; simpl in He; unfold bind, ret in He;
      repeat case_match; by simplify_eq.
Qed.

Lemma running_stop_opamp_client o : hoare (running o) stop_opamp_client (fun _ => running o).
Proof.
  unfold stop_opamp_client. destruct (has_opamp_client self); [by apply running_client|].
  by apply hoare_ret.
Qed.

Lemma running_drop_supervisor o :
  drops = true -> hoare (running o) (drop_supervisor o) (fun _ => running None).
Proof.
  intros Hd. destruct o; [|by apply hoare_ret]. intros w Hw. by apply lifecycle_dropped.
Qed.

#[local] Hint Resolve running_init_supervisor running_event_loop running_stop_opamp_client : hoare.

Lemma running_runtime evs :
  drops = true ->
  hoare (running None) (runtime evs)
    (fun res w => exists o, running o w /\ (is_Some res -> o = None)).
Proof.
  intros Hd. unfold runtime. do 2 hoare_step.
  eapply hoare_bind; [by apply running_perform|]. intros ?.
  eapply hoare_bind; [apply (running_event_loop _ {| supervisor := _ |})|]. intros [s|o].
  - apply hoare_ret. intros w Hw. exists (supervisor s). split; [done|]. by intros [].
  - hoare_step. eapply hoare_bind; [by apply running_drop_supervisor|]. intros ?.
    apply hoare_ret. intros w Hw. by exists None.
Qed.

Lemma runtime_stopped pre post w :
  forallb (fun ev => negb (channel_closed ev)) pre = true ->
  running None w ->
  let '(r, w') := runtime (pre ++ FromInternal (Some StopRequested) :: post) w in
  is_Some r /\ running None w'.
Proof.
  intros Hpre Hw. unfold runtime. unfold bind at 1.
  pose proof (running_init_supervisor w Hw) as Hi.
  destruct (init_supervisor w) as [sup w1]; simpl in Hi. unfold bind at 1; simpl.
  unfold bind at 1; simpl. set (w2 := {| repo := repo w1; log := _ |}).
  assert (running sup w2) as H2 by by apply lifecycle_other.
  unfold bind at 1. set (s := {| supervisor := sup |}).
  pose proof (running_event_loop (pre ++ FromInternal (Some StopRequested) :: post) s w2 H2) as Hl.
  destruct (event_loop_stop pre post s w2 Hpre) as (o & Hb & ->).
  destruct (event_loop _ s w2) as [f w3]; simpl in Hb, Hl; subst f; simpl in Hl.
  pose proof (running_stop_opamp_client None w3 Hl) as Hc.
  cbv beta iota delta [bind drop_supervisor ret].
  destruct (stop_opamp_client w3) as [r w4]; simpl in *. split; [by eexists|done].
Qed.

(** ** Facts: the reported status *)

Definition reported (l : list RemoteConfigStatus) (w : World) : Prop := statuses (log w) = l.

Definition status_effect (e : Effect) : bool :=
  match e with SetRemoteConfigStatus _ => true | _ => false end.

Lemma reported_on_repo {A} (m : M R A) l : hoare (reported l) (on_repo m) (fun _ => reported l).
Proof. intros w Hw. unfold on_repo. by destruct (m (repo w)). Qed.

Lemma reported_ask {A} (f : list Effect -> A) l : hoare (reported l) (ask f) (fun _ => reported l).
Proof. by intros w Hw. Qed.

Lemma reported_perform e l :
  status_effect e = false -> hoare (reported l) (perform e) (fun _ => reported l).
Proof. intros He w Hw. unfold reported in *. by destruct e. Qed.

Lemma reported_client_status s l :
  hoare (reported l) (client env (SetRemoteConfigStatus s)) (fun _ => reported (s :: l)).
Proof. intros w Hw. unfold reported in *; simpl. by f_equal. Qed.

Lemma reported_update_effective_config l :
  hoare (reported l) update_effective_config (fun _ => reported l).
Proof. by intros w Hw. Qed.

Lemma reported_report_unhealthy err l :
  hoare (reported l) (report_unhealthy_from_error err) (fun _ => reported l).
Proof. by intros w Hw. Qed.

Lemma reported_stop o l : hoare (reported l) (stop_supervisor o) (fun _ => reported l).
Proof. by destruct o; intros w Hw. Qed.

Lemma reported_start s l : hoare (reported l) (start s) (fun _ => reported l).
Proof.
  intros w Hw. unfold start, bind, ask, ret; simpl.
  unfold reported in *; simpl. by destruct (env_start env (log w) s).
Qed.

Lemma reported_apply s ea l : hoare (reported l) (apply s ea) (fun _ => reported l).
Proof.
  intros w Hw. unfold apply, bind, ask, ret; simpl.
  unfold reported in *; simpl. by destruct (env_apply env (log w) s ea).
Qed.

Lemma reported_report_state st h l :
  has_opamp_client self = true ->
  hoare (reported l) (report_state st h) (fun _ => reported (report_status st h :: l)).
Proof.
  intros Hc. unfold report_state, if_client. rewrite Hc.
  eapply hoare_bind; [apply reported_client_status|]. intros ?. by apply hoare_ret.
Qed.

#[local] Hint Resolve reported_on_repo reported_ask reported_client_status reported_report_state
  reported_update_effective_config reported_report_unhealthy reported_stop reported_start
  reported_apply : hoare.

Lemma reported_report_and_persist st h l :
  has_opamp_client self = true ->
  hoare (reported l) (report_and_persist_state st h) (fun _ => reported (report_status st h :: l)).
Proof. intros Hc. unfold report_and_persist_state. by hoare_auto. Qed.

Lemma reported_effective_agent y l :
  hoare (reported l) (effective_agent y) (fun _ => reported l).
Proof. apply reported_ask. Qed.

#[local] Hint Resolve reported_report_and_persist reported_effective_agent : hoare.

(** The newest report after [l] is a final one for [h]. *)
Definition final_report (h : Hash) (l : list RemoteConfigStatus) (w : World) : Prop :=
  exists st, is_applying st = false /\ reported (report_status st h :: l) w.

Ltac final_report := eexists; split; [|eassumption]; done.

Lemma final_apply_or_build y rc h o l :
  has_opamp_client self = true ->
  hoare (reported l) (apply_or_build_and_start_supervisor y rc h o) (fun _ => final_report h l).
Proof.
  intros Hc. unfold apply_or_build_and_start_supervisor, report_reset_to_broken_local,
    apply_config_to_existing_supervisor, build_and_start_supervisor_from_effective_agent,
    start_new_supervisor_reporting_config_and_state.
  hoare_step. destruct a.
  - eapply (hoare_bind _ _ _ (fun _ => reported l)); [destruct rc; by hoare_auto|]. intros ?.
    destruct o; hoare_auto; final_report.
  - destruct rc; [hoare_auto; final_report|].
    eapply (hoare_bind _ _ _ (fun _ => reported (report_status Applied h :: l)));
      [by hoare_auto|]. intros ?. hoare_auto. final_report.
Qed.

#[local] Hint Resolve final_apply_or_build : hoare.

Lemma final_handle_remote_config c o l :
  has_opamp_client self = true ->
  hoare (reported l) (handle_remote_config c o)
    (fun _ w => final_report (RemoteConfig.hash c) l w \/
       final_report (RemoteConfig.hash c) (report_status Applying (RemoteConfig.hash c) :: l) w).
Proof.
  intros Hc. unfold handle_remote_config, reset_to_local_config, check_and_report_config_failed,
    stop_supervisor_and_report_no_config.
  hoare_step. destruct (match a with Ok _ => _ | Err _ => _ end) as [rc|] eqn:Hdup.
  - assert (RemoteConfig.hash c = hash rc /\ is_applying (state rc) = false) as [Hh Hs].
    { repeat case_match; simplify_eq. by apply andb_true_iff in H1 as [?%bool_decide_eq_true ?%negb_true_iff]. }
    rewrite <-Hh. hoare_auto. left. final_report.
  - destruct (error_message (RemoteConfig.state c)) as [msg|].
    + eapply (hoare_bind _ _ _ (fun b w => b = true /\ reported
        (report_status (Failed msg) (RemoteConfig.hash c) :: l) w)); [by hoare_auto|].
      intros []; [|by intros w [? _]]. apply hoare_ret. intros w [_ Hw]. left. final_report.
    + eapply (hoare_bind _ _ _ (fun b w => b = false /\ reported l w)); [by hoare_auto|].
      intros []; [by intros w [? _]|]. 
      apply (hoare_weaken _ (reported l) _ _ (fun _ => final_report (RemoteConfig.hash c)
        (report_status Applying (RemoteConfig.hash c) :: l)));
        [|by intros w [_ ?]|by intros; right].
      hoare_auto; final_report.
Qed.

(** ** Facts: what is stored *)

Context `{CL : !ConfigRepositoryLaws R}.

(** The repository works for this agent, whose identifier is one the program can hold. *)
Definition works (r : R) : Prop := wf_agent_id self_id /\ reliable r.

(** The repository works and holds [o] for this agent; the states in [sts], newest first,
    were reported for [h] after the reports in [l]. *)
Definition known (h : Hash) (l : list RemoteConfigStatus) (sts : list ConfigState)
    (o : option RemoteConfig) (w : World) : Prop :=
  reported (map (fun st => report_status st h) sts ++ l) w /\
  works (repo w) /\ remote_of (repo w) self_id = o.

Section Known.
Context (Hclient : has_opamp_client self = true) (h : Hash) (l : list RemoteConfigStatus).

Lemma known_perform e sts o :
  status_effect e = false -> hoare (known h l sts o) (perform e) (fun _ => known h l sts o).
Proof. intros He w [Hw Hr]. split; [by apply (reported_perform _ _ He)|done]. Qed.

Lemma known_ask {A} (f : list Effect -> A) sts o :
  hoare (known h l sts o) (ask f) (fun _ => known h l sts o).
Proof. by intros w Hw. Qed.

Lemma known_client e sts o :
  status_effect e = false -> hoare (known h l sts o) (client env e) (fun _ => known h l sts o).
Proof.
  intros He. unfold client. eapply hoare_bind; [apply known_ask|]. intros ?.
  eapply hoare_bind; [by apply known_perform|]. intros ?. by apply hoare_ret.
Qed.

Lemma known_client_status st sts o :
  hoare (known h l sts o) (client env (SetRemoteConfigStatus (report_status st h)))
    (fun _ => known h l (st :: sts) o).
Proof. intros w [Hw Hr]. split; [by apply reported_client_status|done]. Qed.

Lemma known_report_state st sts o :
  hoare (known h l sts o) (report_state st h) (fun _ => known h l (st :: sts) o).
Proof using Hclient.
  unfold report_state, if_client. rewrite Hclient.
  eapply hoare_bind; [apply known_client_status|]. intros ?. by apply hoare_ret.
Qed.

Lemma known_report_and_persist st sts o :
  hoare (known h l sts o) (report_and_persist_state st h)
    (fun _ => known h l (st :: sts) ((fun rc => with_state rc st) <$> o)).
Proof using Hclient.
  unfold report_and_persist_state. eapply hoare_bind; [apply known_report_state|]. intros ?.
  eapply (hoare_bind _ _ _ (fun _ => known h l (st :: sts) ((fun rc => with_state rc st) <$> o)));
    [|intros ?; by apply hoare_ret].
  intros w (Hw & [Hid Hr] & Ho). unfold on_repo.
  destruct (update_state self_id ownership st (repo w)) as [res r'] eqn:Hu.
  apply update_state_spec in Hu as (_ & _ & _ & Hok & Hnone & Hrel). split; [first [done|by split]|]; simpl.
  destruct (Hrel Hid Hr) as [Hr' Hres]. split; [first [done|by split]|].
  destruct Hres as [->|[Hn _]].
  - destruct (Hok eq_refl) as (rc & Hrc & ->). rewrite Hrc in Ho. by subst o.
  - rewrite Hn in Ho. subst o. by apply Hnone.
Qed.

Lemma known_store_remote rc sts o :
  hoare (known h l sts o) (on_repo (store_remote self_id ownership rc))
    (fun _ => known h l sts (Some rc)).
Proof.
  intros w (Hw & [Hid Hr] & Ho). unfold on_repo.
  destruct (store_remote self_id ownership rc (repo w)) as [res r'] eqn:Hs.
  apply store_remote_spec in Hs as (_ & _ & _ & Hok & Hrel).
  destruct (Hrel Hid Hr) as [Hr' ->]. split; [first [done|by split]|]. split; [first [done|by split]|]. by apply Hok.
Qed.

Lemma known_delete_remote sts o :
  hoare (known h l sts o) (on_repo (delete_remote self_id)) (fun _ => known h l sts None).
Proof.
  intros w (Hw & [Hid Hr] & Ho). unfold on_repo.
  destruct (delete_remote self_id (repo w)) as [res r'] eqn:Hs.
  apply delete_remote_spec in Hs as (_ & _ & _ & Hok & Hrel).
  destruct (Hrel Hr) as [Hr' ->]. split; [first [done|by split]|]. split; [first [done|by split]|]. by apply Hok.
Qed.

Lemma known_load_local sts o :
  hoare (known h l sts o) (on_repo (load_local self_id)) (fun _ => known h l sts o).
Proof.
  intros w (Hw & [Hid Hr] & Ho). unfold on_repo.
  destruct (load_local self_id (repo w)) as [res r'] eqn:Hs.
  apply load_local_spec in Hs as (Hv & _ & _ & _ & Hrel).
  destruct (Hrel Hr) as [Hr' _]. split; [first [done|by split]|]. split; [first [done|by split]|]; simpl. by rewrite Hv.
Qed.

Lemma known_get_remote_config sts o :
  hoare (known h l sts o) (on_repo (get_remote_config self_id))
    (fun res w => res = Ok o /\ known h l sts o w).
Proof.
  intros w (Hw & [Hid Hr] & Ho). unfold on_repo.
  destruct (get_remote_config self_id (repo w)) as [res r'] eqn:Hs.
  apply get_remote_config_spec in Hs as (Hv & _ & _ & Hres & Hrel).
  destruct (Hrel Hr) as [Hr' Hok]. destruct res as [o'|]; [|done]; simpl.
  rewrite (Hres _ eq_refl), Ho. split; [first [done|by split]|]. split; [first [done|by split]|]. split; [first [done|by split]|]; simpl. by rewrite Hv.
Qed.

Lemma known_update_effective_config sts o :
  hoare (known h l sts o) update_effective_config (fun _ => known h l sts o).
Proof.
  unfold update_effective_config. eapply hoare_bind; [by apply known_client|].
  intros ?. by apply hoare_ret.
Qed.

Lemma known_report_unhealthy err sts o :
  hoare (known h l sts o) (report_unhealthy_from_error err) (fun _ => known h l sts o).
Proof.
  unfold report_unhealthy_from_error. eapply hoare_bind; [apply known_ask|]. intros ?.
  by apply known_perform.
Qed.

Lemma known_stop s sts o :
  hoare (known h l sts o) (stop_supervisor s) (fun _ => known h l sts o).
Proof. destruct s; [by apply known_perform|by apply hoare_ret]. Qed.

Lemma known_start s sts o : hoare (known h l sts o) (start s) (fun _ => known h l sts o).
Proof.
  unfold start. eapply hoare_bind; [apply known_ask|]. intros r.
  eapply hoare_bind; [apply known_perform; by destruct r|]. intros ?. by apply hoare_ret.
Qed.

Lemma known_apply s ea sts o : hoare (known h l sts o) (apply s ea) (fun _ => known h l sts o).
Proof.
  unfold apply. eapply hoare_bind; [apply known_ask|]. intros r.
  eapply hoare_bind; [apply known_perform; by destruct r|]. intros ?. by apply hoare_ret.
Qed.

Lemma known_effective_agent y sts o :
  hoare (known h l sts o) (effective_agent y) (fun _ => known h l sts o).
Proof. apply known_ask. Qed.

#[local] Hint Resolve known_ask known_client_status known_report_state known_report_and_persist
  known_store_remote known_delete_remote known_load_local known_update_effective_config
  known_report_unhealthy known_stop known_start known_apply known_effective_agent : hoare.

(** A supervisor runs and [Applied] is reported and stored, or none runs and the failure is. *)
Definition settled (sts : list ConfigState) (o : option RemoteConfig) (res : option Supervisor)
    (w : World) : Prop :=
  exists st, known h l (st :: sts) ((fun rc => with_state rc st) <$> o) w /\
    match res with Some _ => st = Applied | None => exists e, st = Failed e end.

Ltac settle := eexists; split; [eassumption|]; by eauto.

Lemma known_apply_config s ea sts o :
  hoare (known h l sts o) (apply_config_to_existing_supervisor h s ea) (settled sts o).
Proof using Hclient. unfold apply_config_to_existing_supervisor. hoare_auto; settle. Qed.

Lemma known_start_new s sts o :
  hoare (known h l sts o) (start_new_supervisor_reporting_config_and_state h s) (settled sts o).
Proof using Hclient. unfold start_new_supervisor_reporting_config_and_state. hoare_auto; settle. Qed.

(** The failure to build is reported and not stored. *)
Definition not_built (sts : list ConfigState) (o : option RemoteConfig) (res : option Supervisor)
    (w : World) : Prop :=
  res = None /\ exists e, known h l (Failed e :: sts) o w.

Lemma known_build_and_start ea sts o :
  hoare (known h l sts o) (build_and_start_supervisor_from_effective_agent ea h)
    (fun res w => settled sts o res w \/ not_built sts o res w).
Proof using Hclient.
  unfold build_and_start_supervisor_from_effective_agent. hoare_step. destruct a as [s|e].
  - eapply hoare_weaken; [apply known_start_new|done|by left].
  - hoare_auto. right. split; [done|by eexists].
Qed.

Lemma known_apply_or_build_remote y rc old sts o :
  hoare (known h l sts o) (apply_or_build_and_start_supervisor y (Some rc) h old)
    (fun res w => settled sts (Some rc) res w \/
       (old = None /\ not_built sts (Some rc) res w) \/
       (res = old /\ exists e lg, env_assemble env lg (identity self) y = Err e /\
          known h l (Failed ("invalid config: " +:+ e) :: sts) o w)).
Proof using Hclient.
  unfold apply_or_build_and_start_supervisor, effective_agent.
  eapply (hoare_bind _ _ _ (fun r w => known h l sts o w /\
    exists lg, env_assemble env lg (identity self) y = r)); [by intros w Hw; eauto|].
  intros [ea|e].
  - eapply (hoare_bind _ _ _ (fun _ => known h l sts (Some rc))).
    { apply (hoare_weaken _ (known h l sts o) _ _ (fun _ => known h l sts (Some rc)));
        [by hoare_auto|by intros w [Hw _]|done]. }
    intros ?. destruct old as [s|].
    + eapply hoare_weaken; [apply known_apply_config|done|]. intros; by left.
    + eapply hoare_weaken; [apply known_build_and_start|done|]. intros ? ? [?|?]; auto.
  - eapply (hoare_bind _ _ _ (fun _ w => known h l (Failed ("invalid config: " +:+ e) :: sts) o w /\
      exists lg, env_assemble env lg (identity self) y = Err e)).
    { intros w [Hw Hlg]. split; [|done]. by apply known_report_state. }
    intros ?. apply hoare_ret. intros w [Hw (lg & Hlg)]. right; right. eauto 6.
Qed.

Lemma known_apply_or_build_local y old sts :
  hoare (known h l sts None) (apply_or_build_and_start_supervisor y None h old)
    (fun res w => exists st, known h l (st :: sts) None w /\
       match res with Some _ => st = Applied | None => is_applying st = false end).
Proof using Hclient.
  unfold apply_or_build_and_start_supervisor, report_reset_to_broken_local.
  hoare_step. destruct a as [ea|e].
  - eapply (hoare_bind _ _ _ (fun _ => known h l sts None)); [by apply hoare_ret|].
    intros ?. destruct old as [s|].
    + eapply hoare_weaken; [apply known_apply_config|done|].
      intros [] ? (st & Hk & Hst); exists st; split; auto. by destruct Hst as [? ->].
    + eapply hoare_weaken; [apply known_build_and_start|done|].
      intros [] ? [(st & Hk & Hst)|[? (e & Hk)]]; try done.
      * by exists st.
      * exists st; split; [done|]. by destruct Hst as [? ->].
      * by exists (Failed e).
  - eapply (hoare_bind _ _ _ (fun _ => known h l (Applied :: sts) None)); [by hoare_auto|].
    intros ?. hoare_auto. by exists Applied.
Qed.

#[local] Hint Resolve known_apply_or_build_local : hoare.

Lemma known_reset_to_local old sts o :
  hoare (known h l sts o) (reset_to_local_config h old)
    (fun res w => exists st, known h l (st :: sts) None w /\
       match res with Some _ => st = Applied | None => is_applying st = false end).
Proof using Hclient.
  unfold reset_to_local_config, stop_supervisor_and_report_no_config.
  do 2 hoare_step. destruct (mjoin (ok a0)) as [local|]; hoare_auto. by exists Applied.
Qed.

End Known.

(** The outcome of a call, in terms of the specification. *)
Definition has_outcome (c : OpampRemoteConfig) (old : option Supervisor) (o : option RemoteConfig)
    (l : list RemoteConfigStatus) (res : option Supervisor) (w : World) : Prop :=
  exists sts o', outcome c old o sts o' res /\ known (RemoteConfig.hash c) l sts o' w.

Lemma parsed_has_outcome c old o l :
  has_opamp_client self = true ->
  hoare (known (RemoteConfig.hash c) l [Applying] o)
    (let* parsed := ask (fun l => env_parse env l (identity self) c) in
     match parsed with
     | Ok (Some remote_config) =>
         apply_or_build_and_start_supervisor (config remote_config) (Some remote_config)
           (RemoteConfig.hash c) old
     | Ok None => reset_to_local_config (RemoteConfig.hash c) old
     | Err err =>
         let* _ := report_state (Failed (show_parser_error err)) (RemoteConfig.hash c) in
         ret old
     end)
    (has_outcome c old o l).
Proof.
  intros Hc. apply (hoare_bind _ _ _ (fun r w => (exists lg, env_parse env lg (identity self) c = r) /\
    known (RemoteConfig.hash c) l [Applying] o w)); [by intros w Hw; eauto|].
  intros r w [[lg Hlg] Hw]. destruct r as [[rc|]|e].
  - destruct (known_apply_or_build_remote Hc (RemoteConfig.hash c) l (config rc) rc old _ _ w Hw)
      as [(st & Hk & Hst)|[(-> & Hres & e & Hk)|(-> & e & lg' & He & Hk)]].
    + exists [st; Applying], (Some (with_state rc st)). split; [|done].
      destruct (_ w).1; [subst st; by econstructor|]. destruct Hst as [e ->]. by econstructor.
    + rewrite Hres. eexists _, _. split; [|exact Hk]. by eapply NotBuilt.
    + eexists _, _. split; [|exact Hk]. by eapply RejectedByAssembler.
  - destruct (known_reset_to_local Hc (RemoteConfig.hash c) l old _ _ w Hw) as (st & Hk & Hst).
    eexists _, _. split; [|exact Hk]. by eapply ResetToLocal.
  - pose proof (known_report_state Hc (RemoteConfig.hash c) l
      (Failed (show_parser_error e)) [Applying] o w Hw) as Hk.
    unfold bind. destruct (report_state _ _ w) as [[] w']; simpl in *.
    eexists _, _. split; [by eapply RejectedByParser|done].
Qed.

Lemma handle_has_outcome c old o l :
  has_opamp_client self = true ->
  hoare (known (RemoteConfig.hash c) l [] o) (handle_remote_config c old) (has_outcome c old o l).
Proof.
  intros Hc. unfold handle_remote_config, check_and_report_config_failed.
  eapply hoare_bind; [apply known_get_remote_config|]. intros r w [-> Hw]. cbn beta zeta.
  destruct (match o with Some _ => _ | None => _ end) as [rc|] eqn:Hdup.
  - assert (o = Some rc /\ RemoteConfig.hash c = hash rc /\ is_applying (state rc) = false)
      as (-> & Hh & Hs).
    { repeat case_match; simplify_eq. split; [done|]. by apply andb_true_iff in H0
        as [?%bool_decide_eq_true ?%negb_true_iff]. }
    pose proof (known_report_state Hc (RemoteConfig.hash c) l (state rc) [] (Some rc) w Hw) as Hk.
    unfold bind. rewrite <-Hh. destruct (report_state _ _ w) as [[] w']; simpl in *.
    eexists _, _. split; [by apply (Repeated c old (Some rc) rc)|done].
  - destruct (error_message (RemoteConfig.state c)) as [msg|] eqn:Hm.
    + assert (RemoteConfig.state c = Failed msg) as Hst
        by (destruct (RemoteConfig.state c); by simplify_eq/=).
      pose proof (known_client_status (RemoteConfig.hash c) l (Failed msg) [] o w Hw) as Hk.
      exists [Failed msg], o. split; [exact (RejectedOnArrival c old o msg Hst)|exact Hk].
    + refine (hoare_bind (known (RemoteConfig.hash c) l [] o) _ _
        (fun b w => b = false /\ known (RemoteConfig.hash c) l [] o w) _ _ _ w Hw);
        [by intros ?|].
      intros [] w' [? Hw']; [done|].
      refine (hoare_bind _ _ _ (fun _ => known (RemoteConfig.hash c) l [Applying] o) _ _ _ w' Hw');
        [by apply known_report_state|]. intros ?. by apply parsed_has_outcome.
Qed.

(** ** Facts: the start of the sub-agent *)

(** The repository works, loads remote configurations and holds [o] for this agent. *)
Definition stores (o : option RemoteConfig) (w : World) : Prop :=
  works (repo w) /\ remote_on (repo w) = true /\ remote_of (repo w) self_id = o.

Lemma stores_if_client e o : hoare (stores o) (if_client e) (fun _ => stores o).
Proof. unfold if_client. by destruct (has_opamp_client self); intros w Hw. Qed.

Lemma stores_report_unhealthy err o :
  hoare (stores o) (report_unhealthy_from_error err) (fun _ => stores o).
Proof. by intros w Hw. Qed.

Lemma stores_load_fallback o :
  hoare (stores o) (on_repo (load_remote_fallback_local self_id default_capabilities))
    (fun res w => stores o w /\ exists r,
       res = Ok (effective_of r self_id default_capabilities) /\
       remote_on r = true /\ remote_of r self_id = o).
Proof.
  intros w ([Hid Hr] & Hon & Ho). unfold on_repo.
  destruct (load_remote_fallback_local _ _ _) as [res r'] eqn:Hs.
  apply load_fallback_spec in Hs as (Hv & _ & Hon' & Hres & Hrel).
  destruct (Hrel Hr) as [Hr' Hok]. destruct res as [c|]; [|done]. rewrite (Hres _ eq_refl).
  split; [|by exists (repo w)]. split; [first [done|by split]|]; simpl. by rewrite Hv, Hon'.
Qed.

Lemma stores_report_and_persist st h o :
  hoare (stores o) (report_and_persist_state st h)
    (fun _ => stores ((fun rc => with_state rc st) <$> o)).
Proof.
  unfold report_and_persist_state. eapply hoare_bind; [apply stores_if_client|]. intros ?.
  eapply (hoare_bind _ _ _ (fun _ => stores ((fun rc => with_state rc st) <$> o)));
    [|intros ?; by apply hoare_ret].
  intros w ([Hid Hr] & Hon & Ho). unfold on_repo.
  destruct (update_state self_id ownership st (repo w)) as [res r'] eqn:Hu.
  apply update_state_spec in Hu as (_ & Hon' & _ & Hok & Hnone & Hrel); simpl.
  destruct (Hrel Hid Hr) as [Hr' Hres]. split; [first [done|by split]|]; simpl. split; [by rewrite Hon'|].
  destruct Hres as [->|[Hn _]].
  - destruct (Hok eq_refl) as (rc & Hrc & ->). rewrite Hrc in Ho. by subst o.
  - rewrite Hn in Ho. subst o. by apply Hnone.
Qed.

Lemma stores_init_build_and_start c o :
  hoare (stores o) (init_build_and_start c) (fun _ => stores o).
Proof.
  unfold init_build_and_start.
  apply (hoare_bind_try _ _ _ (fun _ => stores o)); [by intros w Hw|intros ea|done].
  apply (hoare_bind_try _ _ _ (fun _ => stores o)); [by intros w Hw|intros st|done].
  eapply hoare_bind; [apply stores_if_client|]. intros ?. by intros w Hw.
Qed.

(** The stored configuration after the start: an interrupted one gets its final state. *)
Definition settled_start (o : option RemoteConfig) (res : option Supervisor) (w : World) : Prop :=
  match o with
  | Some rc =>
      if is_applying (state rc) then
        exists st, stores (Some (with_state rc st)) w /\
          match res with Some _ => st = Applied | None => exists e, st = Failed e end
      else stores (Some rc) w
  | None => stores None w
  end.

Lemma stores_init_finalise c r o :
  match c with RemoteConfigOf rc => o = Some rc | LocalConfig _ => o = None end ->
  hoare (stores o) (init_finalise c r) (fun _ => settled_start o (ok r)).
Proof.
  intros Hc. unfold init_finalise, settled_start. destruct c as [y|rc]; subst o.
  - by apply hoare_ret.
  - destruct (is_applying (state rc)); [|by apply hoare_ret].
    eapply hoare_weaken; [apply (stores_report_and_persist _ _ (Some rc))|done|].
    intros ? w Hw. eexists. split; [exact Hw|]. destruct r; simpl; eauto.
Qed.

Lemma stores_init_supervisor o : hoare (stores o) init_supervisor (settled_start o).
Proof.
  unfold init_supervisor. eapply hoare_bind; [apply stores_load_fallback|].
  intros a w [Hw (r & -> & Hon & Ho)]; simpl. unfold effective_of; simpl. rewrite Hon, Ho; simpl.
  assert (forall c, match c with RemoteConfigOf rc => o = Some rc | LocalConfig _ => o = None end ->
    hoare (stores o) (let* s := init_build_and_start c in let* _ := init_finalise c s in
      match s with Ok s => ret (Some s)
      | Err err => let* _ := report_unhealthy_from_error err in ret None end) (settled_start o))
    as Hrun.
  { intros c Hc. eapply hoare_bind; [apply stores_init_build_and_start|]. intros s.
    eapply hoare_bind; [by apply stores_init_finalise|]. intros ?. destruct s as [s|e]; simpl.
    - by apply hoare_ret.
    - by intros w' Hw'. }
  destruct o as [rc|]; simpl; [by apply (Hrun (RemoteConfigOf rc))|].
  destruct (local_of r self_id) as [y|]; simpl; [by apply (Hrun (LocalConfig y))|].
  refine (hoare_bind (stores None) _ _ (fun _ => stores None) (settled_start None) _ _ w Hw);
    [apply stores_if_client|]. intros ?. by apply hoare_ret.
Qed.

(** ** Properties *)

(** C1: a sub-agent keeps its promise for every remote configuration.  With an OpAMP client,
    a valid identifier and a repository that works, handling a configuration has one of the outcomes of the
    specification: the states reported for its hash, the configuration stored afterwards and
    the supervisor that runs are those of one case of [outcome]. *)
Theorem handle_remote_config_outcome (c : OpampRemoteConfig) (old : option Supervisor) (w : World) :
  has_opamp_client self = true ->
  wf_agent_id self_id -> reliable (repo w) ->
  let '(res, w') := handle_remote_config c old w in
  exists sts o',
    outcome c old (remote_of (repo w) self_id) sts o' res /\
    statuses (log w') =
      map (fun st => report_status st (RemoteConfig.hash c)) sts ++ statuses (log w) /\
    remote_of (repo w') self_id = o' /\ reliable (repo w').
Proof.
  intros Hc Hid Hr.
  destruct (handle_has_outcome c old (remote_of (repo w) self_id) (statuses (log w)) Hc w)
    as (sts & o' & Ho & Hk & [_ Hr'] & Hs); [done|].
  destruct (handle_remote_config c old w) as [res w']. by exists sts, o'.
Qed.

(** C5: the server always gets a final answer.  Whatever the collaborators and the
    repository answer, handling a configuration reports, for its hash, nothing or [Applying]
    first and then exactly one state that is [Applied] or [Failed]. *)
Theorem handle_remote_config_reports_final_state (c : OpampRemoteConfig)
    (old : option Supervisor) (w : World) :
  has_opamp_client self = true ->
  let h := RemoteConfig.hash c in
  let l := statuses (log (handle_remote_config c old w).2) in
  exists st, is_applying st = false /\
    (l = report_status st h :: statuses (log w) \/
     l = report_status st h :: report_status Applying h :: statuses (log w)).
Proof.
  intros Hc h l.
  destruct (final_handle_remote_config c old (statuses (log w)) Hc w eq_refl)
    as [(st & Hst & Hl)|(st & Hst & Hl)]; exists st; split; auto.
Qed.

(** A configuration that was settled before is not applied again.  If the repository
    returns a configuration with the received hash whose state is final, the only effect is
    one report of that state; the supervisor stays as it is. *)
Theorem handle_remote_config_repeated (c : OpampRemoteConfig) (old : option Supervisor)
    (w : World) (rc : RemoteConfig) (r' : R) :
  has_opamp_client self = true ->
  get_remote_config self_id (repo w) = (Ok (Some rc), r') ->
  hash rc = RemoteConfig.hash c -> is_applying (state rc) = false ->
  handle_remote_config c old w =
    (old, {| repo := r';
             log := SetRemoteConfigStatus (report_status (state rc) (RemoteConfig.hash c)) :: log w |}).
Proof.
  intros Hc Hg Hh Hs. unfold handle_remote_config, bind at 1, on_repo. rewrite Hg; simpl.
  rewrite bool_decide_true, Hs by done; simpl.
  unfold bind, report_state, if_client. rewrite Hc, Hh. done.
Qed.


End SubAgent.

(** C2: at most one supervisor at a time.  In every run of the runtime thread, whatever events
    arrive and whatever the collaborators answer, a supervisor is started only when none is
    running, and is applied, stopped or dropped only while it is the running one; when the
    thread has ended, none is left. *)
Theorem runtime_one_supervisor `{SV : SemVer} {EffectiveAgent Starter Supervisor Attributes R : Type}
    `{CR : !ConfigRepository R} (env : @Env SV EffectiveAgent Starter Supervisor Attributes)
    (self : SubAgent) (evs : list RuntimeEvent) (r : R) :
  exists o, lifecycle true (log (runtime env self evs {| repo := r; log := [] |}).2) o /\
    (is_Some (runtime env self evs {| repo := r; log := [] |}).1 -> o = None).
Proof.
  apply (running_runtime env self true evs eq_refl {| repo := r; log := [] |}).
  apply lifecycle_nil.
Qed.

(** C12: a stop request is honoured.  If a stop is requested before a channel is closed, the
    runtime thread ends, and its supervisor was stopped (not just dropped), whatever happened
    before. *)
Theorem runtime_stop_requested `{SV : SemVer} {EffectiveAgent Starter Supervisor Attributes R : Type}
    `{CR : !ConfigRepository R} (env : @Env SV EffectiveAgent Starter Supervisor Attributes)
    (self : SubAgent) (pre post : list RuntimeEvent) (r : R) :
  forallb (fun ev => negb (channel_closed ev)) pre = true ->
  let '(res, w') := runtime env self (pre ++ FromInternal (Some StopRequested) :: post)
                      {| repo := r; log := [] |} in
  is_Some res /\ lifecycle false (log w') None.
Proof.
  intros Hpre.
  apply (runtime_stopped env self false pre post {| repo := r; log := [] |} Hpre).
  apply lifecycle_nil.
Qed.

(** ** A concrete sub-agent *)

Definition example_identity : AgentIdentity := {| id := AgentId.SubAgent "a"; agent_type_id := example_id |}.

(** Every collaborator succeeds, but for the builder when [builds] is false. *)
Definition example_env (builds : bool) : @Env plain_semver YAMLConfig YAMLConfig YAMLConfig unit := {|
  env_parse := fun _ _ c => Ok (Some {| config := {["k" := Null]};
    hash := RemoteConfig.hash c; state := RemoteConfig.state c |});
  env_assemble := fun _ _ y => Ok y;
  env_build := fun _ ea => if builds then Ok ea else Err "no executable";
  env_start := fun _ s => Ok s;
  env_apply := fun _ _ ea => Ok ea;
  env_client := fun _ _ => Ok tt;
  env_now := fun _ => 0%Z;
|}.

Definition example_sub_agent : SubAgent :=
  {| identity := example_identity; has_opamp_client := true |}.

Definition example_repo (stored : gmap AgentID RemoteConfig) : ConfigRepo MemStore := {|
  opamp_data_store := {| mem_remote := stored; mem_local := ∅; faults := [] |};
  remote_enabled := true;
|}.

Definition example_world (stored : gmap AgentID RemoteConfig) :
  @World plain_semver YAMLConfig unit (ConfigRepo MemStore) :=
  {| repo := example_repo stored; log := [] |}.

Definition example_remote (h : Hash) : OpampRemoteConfig :=
  new_remote_config (AgentId.SubAgent "a") h Applying {["agentConfig" := "k: v"]}.

Definition example_stored (st : ConfigState) : RemoteConfig :=
  {| config := {["k" := Null]}; hash := "h"; state := st |}.

Lemma handle_remote_config_outcome_witness :
  let '(res, w') := handle_remote_config (example_env true) example_sub_agent
                      (example_remote "h") None (example_world ∅) in
  exists sts o',
    outcome (example_env true) example_sub_agent (example_remote "h") None None sts o' res /\
    statuses (log w') = map (fun st => report_status st "h") sts ++ [] /\
    remote_of (repo w') (AgentId.SubAgent "a") = o' /\ reliable (repo w').
Proof.
  refine (handle_remote_config_outcome (example_env true) example_sub_agent
    (example_remote "h") None (example_world ∅) eq_refl eq_refl _).
  apply Forall_nil_2.
Defined.

Lemma handle_remote_config_reports_final_state_witness :
  exists st, is_applying st = false /\
    let l := statuses (log (handle_remote_config (example_env true) example_sub_agent
               (example_remote "h") None (example_world ∅)).2) in
    (l = [report_status st "h"] \/ l = [report_status st "h"; report_status Applying "h"]).
Proof.
  exact (handle_remote_config_reports_final_state (example_env true) example_sub_agent
    (example_remote "h") None (example_world ∅) eq_refl).
Defined.

Lemma handle_remote_config_repeated_witness :
  handle_remote_config (example_env true) example_sub_agent (example_remote "h")
    (Some ∅) (example_world {[AgentId.SubAgent "a" := example_stored Applied]}) =
  (Some ∅, {| repo := example_repo {[AgentId.SubAgent "a" := example_stored Applied]};
              log := [SetRemoteConfigStatus (report_status Applied "h")] |}).
Proof.
  refine (handle_remote_config_repeated (example_env true) example_sub_agent (example_remote "h")
    (Some ∅) (example_world {[AgentId.SubAgent "a" := example_stored Applied]}) (example_stored Applied)
    _ eq_refl _ _ _); reflexivity.
Defined.


Lemma runtime_stop_requested_witness :
  let '(res, w') := runtime (example_env true) example_sub_agent
    ([FromOpAMP (Some (RemoteConfigReceived (example_remote "h")))] ++ FromInternal (Some StopRequested) :: [])
    {| repo := example_repo ∅; log := [] |} in
  is_Some res /\ lifecycle false (log w') None.
Proof.
  pose proof (runtime_stop_requested (example_env true) example_sub_agent
    [FromOpAMP (Some (RemoteConfigReceived (example_remote "h")))] [] (example_repo ∅) eq_refl) as H.
  exact_no_check H.
Defined.

(** The failure to build a supervisor is reported but not stored.  In this run nothing is
    stored for the agent and the builder fails: the server is told [Failed], while the
    repository keeps the configuration as [Applying]. *)
Example build_failure_is_not_persisted :
  let '(res, w') := handle_remote_config (example_env false) example_sub_agent
                      (example_remote "h") None (example_world ∅) in
  res = None /\
  statuses (log w') =
    [report_status (Failed "could not build the supervisor: no executable") "h";
     report_status Applying "h"] /\
  remote_of (repo w') (AgentId.SubAgent "a") = Some (example_stored Applying).
Proof. vm_compute. split_and!; reflexivity. Qed.
