(* ===== verification/Validators.v ===== *)
(** * Validators of remote configurations

    Models [opamp/remote_config/validators.rs] and the files below it: the deny rules of
    [regexes.rs] and the check of signatures of [signature/validator.rs] and
    [signature/verifier.rs], with the keys of [signature/public_key.rs] and
    [signature/public_key_fetcher.rs].

    The patterns are those of the source, written with the operators of [Regex]; a text is its
    UTF-8 bytes. *)

From Stdlib Require Import Ascii String NArith.
From stdpp Require Import base option list strings gmap.
From S2P Require Import Prelude RustString Json AgentId AgentTypeId Regex RemoteConfig YamlConfig.
From S2P Require Import RemoteConfigParser Templates SubAgent.

#[local] Arguments String.append !s1 s2 : simpl nomatch.

(** ** Patterns *)

(** [\s]: the characters with the Unicode property [White_Space]; those outside ASCII as the
    bytes of their encoding *)
Definition bytes (l : list N) : string := fold_right (fun n s => String (ascii_of_N n) s) "" l.

Definition Space : regex :=
  Alt (Cls is_whitespace)
    (Alt (Seq (Lit (bytes [226; 128]%N)) (Cls (in_range 128 138)))
      (fold_right Alt (Lit (bytes [194; 133]%N))
        (Lit <$> [bytes [194; 160]%N; bytes [225; 154; 128]%N; bytes [226; 128; 168]%N; bytes [226; 128; 169]%N;
                  bytes [226; 128; 175]%N; bytes [226; 129; 159]%N; bytes [227; 128; 128]%N]))).

Definition Blanks : regex := Star Space.

(** [(?i:c)]: none of the letters used here has another case outside ASCII. *)
Definition ChrI (c : ascii) : regex := Cls (fun x => Ascii.eqb (to_ascii_lowercase_char x) (to_ascii_lowercase_char c)).

Fixpoint LitI (s : string) : regex :=
  match s with EmptyString => Eps | String c s => Seq (ChrI c) (LitI s) end.

(** A letter or its escape, [(c|\\x63)], and a word of them *)
Definition Esc (ce : ascii * string) : regex := Alt (Chr ce.1) (Lit ce.2).
Definition EscI (ce : ascii * string) : regex := Alt (ChrI ce.1) (LitI ce.2).

Definition Word (letter : ascii * string -> regex) (w : list (ascii * string)) (rest : regex) : regex :=
  fold_right (fun ce r => Seq (letter ce) r) rest w.

Definition letters_command : list (ascii * string) :=
  [("c"%char, "\x63"); ("o"%char, "\x6f"); ("m"%char, "\x6d"); ("m"%char, "\x6d"); ("a"%char, "\x61");
   ("n"%char, "\x6e"); ("d"%char, "\x64")].

Definition letters_exec : list (ascii * string) :=
  [("e"%char, "\x65"); ("x"%char, "\x78"); ("e"%char, "\x65"); ("c"%char, "\x63")].

(** The escape of the underscore is written [\x5f], which is the underscore itself. *)
Definition letters_binary_path : list (ascii * string) :=
  [("b"%char, "\x62"); ("i"%char, "\x69"); ("n"%char, "\x6e"); ("a"%char, "\x61"); ("r"%char, "\x72");
   ("y"%char, "\x79"); ("_"%char, "_"); ("p"%char, "\x70"); ("a"%char, "\x61"); ("t"%char, "\x74"); ("h"%char, "\x68")].

Definition letters_nri_flex : list (ascii * string) :=
  [("n"%char, "\x6e"); ("r"%char, "\x72"); ("i"%char, "\x69"); ("-"%char, "\x2d"); ("f"%char, "\x66");
   ("l"%char, "\x6c"); ("e"%char, "\x65"); ("x"%char, "\x78")].

Definition letters_proxy : list (ascii * string) :=
  [("p"%char, "\x70"); ("r"%char, "\x72"); ("o"%char, "\x6f"); ("x"%char, "\x78"); ("y"%char, "\x79")].

Definition letters_nr_env : list (ascii * string) :=
  [("n"%char, "\x6e"); ("r"%char, "\x72"); ("-"%char, "\x2d"); ("e"%char, "\x65"); ("n"%char, "\x6e"); ("v"%char, "\x76")].

Definition Field : regex := Seq Blanks (Chr ":").

Definition REGEX_COMMAND_FIELD : regex := Word Esc letters_command Field.
Definition REGEX_EXEC_FIELD : regex := Word Esc letters_exec Field.
Definition REGEX_BINARY_PATH_FIELD : regex := Word EscI letters_binary_path Eps.
Definition REGEX_NRI_FLEX : regex := Word Esc letters_nri_flex Eps.

(** [.] is any character but a line feed. *)
Definition REGEX_PROXY_ENV_VAR : regex :=
  Word EscI letters_proxy
    (Seq Field
      (Seq (Star (Cls (fun c => negb (Ascii.eqb c "010"))))
        (Alt (Lit "{{") (Seq (Lit "${") (Word Esc letters_nr_env (Chr ":")))))).

(** ** The deny rules ([regexes.rs]) *)

Inductive RegexValidatorError : Type :=
| InvalidRule (rule_name : string).

Definition show_regex_error (e : RegexValidatorError) : string :=
  match e with
  | InvalidRule rule =>
      "invalid config: restricted values detected in the config: " +:+ rule +:+ " is not allowed"
  end.

Definition AGENT_TYPE_NAME_INFRA_AGENT : string := "com.newrelic.infrastructure".

Definition infra_rules : list (string * regex) :=
  [("arbitrary command execution via 'command' field", REGEX_COMMAND_FIELD);
   ("arbitrary command execution via 'exec' field", REGEX_EXEC_FIELD);
   ("arbitrary command execution via 'binary_path' field", REGEX_BINARY_PATH_FIELD);
   ("'nri-flex' integration usage", REGEX_NRI_FLEX);
   ("setting environment variables '${nr-env:HTTP_PROXY}' or '{{PROXY_HOST}}' in proxy configuration",
     REGEX_PROXY_ENV_VAR)].

(** [RegexValidator::try_new]: the rules by the name of an agent type *)
Abbreviation RegexValidator := (gmap string (list (string * regex))).
Definition regex_validator : RegexValidator := {[AGENT_TYPE_NAME_INFRA_AGENT := infra_rules]}.

Section RegexRules.
Context `{RX : RegexLib} `{HO : HashOrder} `{SV : SemVer}.

(** [Regex::is_match] *)
Definition is_match (r : regex) (s : string) : bool :=
  match find_iter r s with [] => false | _ => true end.

Fixpoint check_rules (rules : list (string * regex)) (raw_config : string) : result unit RegexValidatorError :=
  match rules with
  | [] => Ok tt
  | (rule_name, r) :: rules =>
      if is_match r raw_config then Err (InvalidRule rule_name) else check_rules rules raw_config
  end.

Definition validate_regex_rules (v : RegexValidator) (agent_type_id : AgentTypeID) (raw_config : string) :
  result unit RegexValidatorError :=
  match v !! name agent_type_id with
  | None => Ok tt
  | Some rules => check_rules rules raw_config
  end.

(** [RemoteConfigValidator for RegexValidator] *)
Definition regex_validate (v : RegexValidator) (agent_identity : AgentIdentity) (c : OpampRemoteConfig) :
  result unit RegexValidatorError :=
  try_fold (fun _ kv => validate_regex_rules v (agent_type_id agent_identity) kv.2) tt (agent_configs_iter c).

End RegexRules.

(** ** Public keys ([public_key.rs], [public_key_fetcher.rs]) *)

(** The libraries: base64 in its two alphabets, SHA-256, the verification of an Ed25519 signature
    with a key, and the answer of the key server, which may change from one request to the next. *)
Class Crypto : Type := {
  base64_decode : string -> result string string;
  base64_encode : string -> string;
  base64_url_decode : string -> result string string;
  sha256 : string -> string;
  ed25519_verify : string -> string -> string -> bool;
}.

Record KeyData : Type := {
  kty : string;
  alg : option string;
  use : string;
  kid : string;
  x : string;
  crv : string;
}.

Record PublicKey : Type := { public_key : string; public_key_id : string }.

Inductive PubKeyError : Type :=
| ParsePubKey (e : string)
| ValidatingSignature (e : string)
| UnsupportedAlgorithm (e : string).

Definition show_pub_key_error (e : PubKeyError) : string :=
  match e with
  | ParsePubKey e => "parsing PubKey: " +:+ e
  | ValidatingSignature e => "validating signature: " +:+ e
  | UnsupportedAlgorithm e => "unsupported algorithm: " +:+ e
  end.

Section Keys.
Context `{CY : Crypto}.

(** [TryFrom<&KeyData> for PublicKey] *)
Definition public_key_try_from (data : KeyData) : result PublicKey PubKeyError :=
  if negb (String.eqb (use data) "sig") then Err (ParsePubKey "Key use is not 'sig'")
  else if negb (String.eqb (kty data) "OKP") then Err (ParsePubKey "The only supported algorithm is OKP")
  else if negb (String.eqb (to_uppercase (crv data)) "ED25519") then Err (ParsePubKey "The only supported crv is Ed25519")
  else
    let? decoded_key := map_err ParsePubKey (base64_url_decode (x data)) in
    Ok {| public_key := decoded_key; public_key_id := kid data |}.

(** [PublicKey::verify_signature] *)
Definition key_verify_signature (k : PublicKey) (msg signature : string) : result unit PubKeyError :=
  if ed25519_verify (public_key k) msg signature then Ok tt
  else Err (ValidatingSignature ("with key id " +:+ public_key_id k)).

(** [PublicKeyFetcher::fetch_latest_key], on what [fetch_jwks] gave *)
Definition fetch_latest_key (jwks : result (list KeyData) string) : result PublicKey string :=
  let? keys := jwks in
  let? latest_key := ok_or (head keys) "fetching public key: missing key data" in
  map_err (fun e => "fetching public key: building verifier: " +:+ show_pub_key_error e)
    (public_key_try_from latest_key).

(** [PublicKeyFetcher::fetch] *)
Fixpoint split_keys (l : list KeyData) : list PublicKey * list string :=
  match l with
  | [] => ([], [])
  | d :: l =>
      let '(keys, errors) := split_keys l in
      match public_key_try_from d with
      | Ok key => (key :: keys, errors)
      | Err e => (keys, ("invalid key " +:+ kid d +:+ ": " +:+ show_pub_key_error e) :: errors)
      end
  end.

Definition fetch_keys (jwks : result (list KeyData) string) : result (list PublicKey) string :=
  let? l := jwks in
  match split_keys l with
  | ([], []) => Err "fetching public key: no keys found"
  | ([], errors) =>
      Err ("fetching public key: no valid keys found (" +:+ show_N (N.of_nat (length errors)) +:+ " invalid keys: " +:+
           join ", " errors +:+ ")")
  | (keys, _) => Ok keys
  end.

(** ** The store of the verifying key ([signature/verifier.rs]) *)

Inductive VerifierStoreError : Type :=
| FetchKey (e : string)
| KeyMismatch (signature_key_id stored_key_id : string)
| VerifySignature (e : string)
| DecodingSignature (e : string).

Definition show_verifier_error (e : VerifierStoreError) : string :=
  match e with
  | FetchKey e => "fetching verifying key: " +:+ e
  | KeyMismatch a b =>
      "signature key ID (" +:+ a +:+ ") does not match the latest available key ID (" +:+ b +:+ ")"
  | VerifySignature e => "validating signature: " +:+ e
  | DecodingSignature e => "decoding signature: " +:+ e
  end.

(** The key that is held, and how often the server was asked. *)
Record VerifierStore : Type := { verifier : PublicKey; fetches : nat }.

(** What the server answers, by the number of requests before *)
Context (key_server : nat -> result (list KeyData) string).

(** [VerifierStore::try_new] *)
Definition verifier_store_try_new : result VerifierStore VerifierStoreError :=
  let? k := map_err FetchKey (fetch_latest_key (key_server 0)) in
  Ok {| verifier := k; fetches := 1 |}.

(** A new key is held also when it is not the one that was looked for. *)
Definition refresh : M VerifierStore (result unit VerifierStoreError) := fun st =>
  match fetch_latest_key (key_server (fetches st)) with
  | Ok k => (Ok tt, {| verifier := k; fetches := S (fetches st) |})
  | Err e => (Err (FetchKey e), {| verifier := verifier st; fetches := S (fetches st) |})
  end.

(** [VerifierStore::verify_signature]; the lock of the verifier is never poisoned. *)
Definition verify_signature (key_id msg signature : string) : M VerifierStore (result unit VerifierStoreError) :=
  let*? decoded_signature := ret (map_err DecodingSignature (base64_decode signature)) in
  let*? _ := fun st =>
    if eq_ignore_ascii_case (public_key_id (verifier st)) key_id then (Ok tt, st)
    else
      (let*? _ := refresh in
       fun st =>
         if eq_ignore_ascii_case (public_key_id (verifier st)) key_id then (Ok tt, st)
         else (Err (KeyMismatch key_id (public_key_id (verifier st))), st)) st in
  fun st =>
    (map_err (fun e => VerifySignature (show_pub_key_error e))
       (key_verify_signature (verifier st) (base64_encode (sha256 msg)) decoded_signature), st).

(** ** The validator of signatures ([signature/validator.rs]) *)

Inductive SignatureValidatorError : Type :=
| BuildingValidator (e : string)
| VerifyingSignature (e : string).

Definition show_validator_error (e : SignatureValidatorError) : string :=
  match e with
  | BuildingValidator e => "failed to build validator: " +:+ e
  | VerifyingSignature e => "failed to verify signature: " +:+ e
  end.

Record SignatureValidatorConfig : Type := { enabled : bool; public_key_server_url : option string }.

(** [SignatureValidator]: [None] accepts everything. *)
Definition SignatureValidator : Type := option VerifierStore.

(** [SignatureValidator::new], given whether the HTTP client can be built *)
Definition signature_validator_new (http_client : result unit string) (config : SignatureValidatorConfig) :
  result SignatureValidator SignatureValidatorError :=
  if negb (enabled config) then Ok None
  else match public_key_server_url config with
       | None => Err (BuildingValidator "missing public_key_server_url configuration")
       | Some _ =>
           let? _ := map_err BuildingValidator http_client in
           let? store := map_err (fun e => BuildingValidator (show_verifier_error e)) verifier_store_try_new in
           Ok (Some store)
       end.

Context `{HO : HashOrder}.

Definition verify_config (c : OpampRemoteConfig) (kv : string * string) :
  M VerifierStore (result unit SignatureValidatorError) :=
  let*? signature := ret (map_err (fun e => VerifyingSignature
      ("getting signature for config '" +:+ kv.1 +:+ "' config signature: " +:+ show_remote_config_error e))
    (signature c kv.1)) in
  map_err_m (fun e => VerifyingSignature
      ("verifying signature for config '" +:+ kv.1 +:+ "': " +:+ show_verifier_error e))
    (verify_signature (key_id signature) kv.2 (signature_text signature)).

(** [RemoteConfigValidator for SignatureValidator] *)
Definition signature_validate (c : OpampRemoteConfig) :
  M SignatureValidator (result unit SignatureValidatorError) := fun v =>
  match v with
  | None => (Ok tt, None)
  | Some store =>
      let '(r, store) := try_for_each (configs_iter c) (verify_config c) store in (r, Some store)
  end.

End Keys.

(** ** The two of them ([validators.rs]) *)

Inductive SupportedRemoteConfigValidator : Type :=
| SignatureKind
| RegexKind (r : RegexValidator).

Definition supported_validate `{Crypto} `{RegexLib} `{HashOrder} `{SemVer}
    (key_server : nat -> result (list KeyData) string) (v : SupportedRemoteConfigValidator)
    (agent_identity : AgentIdentity) (c : OpampRemoteConfig) : M SignatureValidator (result unit string) :=
  match v with
  | SignatureKind => map_err_m show_validator_error (signature_validate key_server c)
  | RegexKind r => ret (map_err show_regex_error (regex_validate r agent_identity c))
  end.

(** ** Lemmas: what the patterns find *)

(** A text has a match of a pattern somewhere. *)
Definition occurs (r : regex) (s : string) : Prop := exists a m b, s = a +:+ m +:+ b /\ matches r m.

Lemma scan_occurs r s : nullable r = false -> omap piece_match (scan r s 0) <> [] <-> occurs r s.
Proof.
  intros Hn. remember (String.length s) as n eqn:Hlen. revert s Hlen.
  induction (lt_wf n) as [n _ IH]. intros s ->.
  destruct (scan_step r s Hn) as [[-> ->]|[(m & t & Hne & Hm & -> & ->)|(c & t & -> & Hno & ->)]]; simpl.
  - split; [done|]. intros (a & m & b & E & Hm). destruct a; [|done]. destruct m; [|done].
    apply matches_nullable in Hm. congruence.
  - split; [|done]. intros _. by exists "", m, t.
  - rewrite (IH (String.length t)) by (simpl; lia || done). split.
    + intros (a & m & b & -> & Hm). by exists (String c a), m, b.
    + intros ([|c' a] & m & b & E & Hm); [by apply (Hno m b) in E|]. injection E as -> ->. by exists a, m, b.
Qed.

Lemma is_match_spec `{RX : RegexLib} `{RL : !RegexLaws} r s :
  nullable r = false -> is_match r s = true <-> occurs r s.
Proof.
  intros Hn. unfold is_match. rewrite find_iter_spec by done. rewrite <-(scan_occurs r s Hn).
  destruct (omap piece_match (scan r s 0)); naive_solver.
Qed.

Lemma infra_rules_not_nullable : Forall (fun r => nullable r.2 = false) infra_rules.
Proof. repeat constructor. Qed.

Section RegexLemmas.
Context `{RX : RegexLib} `{RL : !RegexLaws} `{HO : HashOrder} `{SV : SemVer}.

Lemma check_rules_spec rules content :
  Forall (fun r => nullable r.2 = false) rules ->
  check_rules rules content = Ok tt <-> Forall (fun r => ~ occurs r.2 content) rules.
Proof using RL.
  induction 1 as [|[rule r] rules Hr _ IH]; simpl; [by split|]. rewrite Forall_cons. simpl in *.
  pose proof (is_match_spec r content Hr) as Hm. destruct (is_match r content); [|naive_solver].
  split; [done|]. intros [Hno _]. destruct Hno. by apply Hm.
Qed.

Lemma try_fold_unit {A E} (f : A -> result unit E) l :
  try_fold (fun _ a => f a) tt l = Ok tt <-> Forall (fun a => f a = Ok tt) l.
Proof using.
  induction l as [|a l IH]; simpl; [by split|]. rewrite Forall_cons, <-IH. destruct (f a) as [[]|]; simpl; naive_solver.
Qed.

(** The configurations the rules are applied to *)
Lemma elem_of_agent_configs c k content :
  (k, content) ∈ agent_configs_iter c <-> config_map c !! k = Some content /\ starts_with AGENT_CONFIG_PREFIX k = true.
Proof using.
  unfold agent_configs_iter, configs_iter. rewrite list_elem_of_In, filter_In, <-list_elem_of_In, elem_of_entries. done.
Qed.

Lemma regex_validate_spec identity c :
  name (agent_type_id identity) = AGENT_TYPE_NAME_INFRA_AGENT ->
  regex_validate regex_validator identity c = Ok tt <->
  forall k content, config_map c !! k = Some content -> starts_with AGENT_CONFIG_PREFIX k = true ->
    forall rule r, (rule, r) ∈ infra_rules -> ~ occurs r content.
Proof using RL.
  intros Hn. unfold regex_validate. rewrite try_fold_unit, Forall_forall.
  assert (forall content, validate_regex_rules regex_validator (agent_type_id identity) content = Ok tt <->
    Forall (fun r => ~ occurs r.2 content) infra_rules) as Hv.
  { intros content. unfold validate_regex_rules, regex_validator. rewrite Hn, lookup_singleton_eq.
    apply check_rules_spec, infra_rules_not_nullable. }
  split.
  - intros H k content Hk Hp rule r Hr. specialize (H (k, content)). rewrite elem_of_agent_configs, Hv, Forall_forall in H.
    by apply (H (conj Hk Hp) (rule, r)).
  - intros H [k content] [Hk Hp]%elem_of_agent_configs. apply Hv, Forall_forall. intros [rule r] Hr. by apply (H k content Hk Hp rule r).
Qed.

End RegexLemmas.

(** A word whose letters are written as they are or escaped *)
Inductive spells : list (ascii * string) -> string -> Prop :=
| spells_nil : spells [] ""
| spells_plain c e w s : spells w s -> spells ((c, e) :: w) (String c s)
| spells_escaped c e w s : spells w s -> spells ((c, e) :: w) (e +:+ s).

Lemma matches_word w s rest t : spells w s -> matches rest t -> matches (Word Esc w rest) (s +:+ t).
Proof.
  intros Hs Ht. induction Hs as [|c e w s _ IH|c e w s _ IH]; [done|..].
  - apply (matches_seq (Esc (c, e)) (Word Esc w rest) (String c "") (s +:+ t)); [|done].
    apply matches_alt_l. constructor. apply Ascii.eqb_refl.
  - rewrite str_app_assoc. apply (matches_seq (Esc (c, e)) (Word Esc w rest) e (s +:+ t)); [|done].
    apply matches_alt_r, matches_lit.
Qed.

Lemma matches_field blanks : str_all is_whitespace blanks = true -> matches Field (blanks +:+ ":").
Proof.
  intros Hb. apply matches_seq; [|constructor; done]. unfold Blanks. induction blanks as [|c b IH]; [constructor|].
  simpl in Hb. apply andb_true_iff in Hb as [Hc Hb]. apply (matches_star_cons Space (String c "") b); [|by apply IH].
  apply matches_alt_l. by constructor.
Qed.

(** ** Lemmas: signatures *)

Lemma eq_ignore_case_trans a b c :
  eq_ignore_ascii_case a b = true -> eq_ignore_ascii_case c b = true -> eq_ignore_ascii_case a c = true.
Proof. unfold eq_ignore_ascii_case. rewrite !String.eqb_eq. congruence. Qed.

Section SignatureLemmas.
Context `{CY : Crypto} `{HO : HashOrder} (key_server : nat -> result (list KeyData) string).

(** A key the server has answered with, first of its list *)
Definition server_key (k : PublicKey) : Prop :=
  exists n d l, key_server n = Ok (d :: l) /\ public_key_try_from d = Ok k.

(** A signature of a content by a key: over the base64 text of its SHA-256 digest *)
Definition signed_by (k : PublicKey) (content : string) (s : SignatureData) : Prop :=
  eq_ignore_ascii_case (public_key_id k) (key_id s) = true /\
  exists d, base64_decode (signature_text s) = Ok d /\
    ed25519_verify (public_key k) (base64_encode (sha256 content)) d = true.

Lemma fetch_latest_key_ok n k : fetch_latest_key (key_server n) = Ok k -> server_key k.
Proof using.
  unfold fetch_latest_key. destruct (key_server n) as [[|d l]|] eqn:E; simpl; [done| |done].
  destruct (public_key_try_from d) eqn:Hd; simpl; [|done]. intros [= ->]. by exists n, d, l.
Qed.

Lemma verify_signature_spec kid msg sg st r st' :
  server_key (verifier st) -> verify_signature key_server kid msg sg st = (r, st') ->
  server_key (verifier st') /\
  (r = Ok tt -> eq_ignore_ascii_case (public_key_id (verifier st')) kid = true /\
     exists d, base64_decode sg = Ok d /\
       ed25519_verify (public_key (verifier st')) (base64_encode (sha256 msg)) d = true).
Proof using.
  intros Hk. unfold verify_signature, bind_try, ret. destruct (base64_decode sg) as [d|]; simpl; [|by intros [= <- <-]].
  assert (forall st, server_key (verifier st) -> eq_ignore_ascii_case (public_key_id (verifier st)) kid = true ->
    (map_err (fun e => VerifySignature (show_pub_key_error e))
       (key_verify_signature (verifier st) (base64_encode (sha256 msg)) d), st) = (r, st') ->
    server_key (verifier st') /\ (r = Ok tt -> eq_ignore_ascii_case (public_key_id (verifier st')) kid = true /\
      exists d0, Ok d = Ok (E := string) d0 /\
        ed25519_verify (public_key (verifier st')) (base64_encode (sha256 msg)) d0 = true)) as Hend.
  { intros st1 H1 H2 [= <- <-]. split; [done|]. unfold key_verify_signature. destruct (ed25519_verify _ _ _) eqn:E; [|done].
    intros _. split; [done|]. by exists d. }
  destruct (eq_ignore_ascii_case (public_key_id (verifier st)) kid) eqn:E1; [by apply Hend|].
  unfold refresh. destruct (fetch_latest_key (key_server (fetches st))) as [k|e] eqn:Ef; [|by intros [= <- <-]].
  simpl. apply fetch_latest_key_ok in Ef. destruct (eq_ignore_ascii_case (public_key_id k) kid) eqn:E2; [|by intros [= <- <-]].
  by apply Hend.
Qed.

(** A configuration whose contents are all signed by keys of the server *)
Definition all_signed (c : OpampRemoteConfig) : Prop :=
  forall name content, config_map c !! name = Some content ->
    exists s k, signature c name = Ok s /\ server_key k /\ signed_by k content s.

Definition held (v : SignatureValidator) : Prop := exists st, v = Some st /\ server_key (verifier st).

Lemma verify_configs_spec c l st r st' :
  server_key (verifier st) -> try_for_each l (verify_config key_server c) st = (r, st') ->
  server_key (verifier st') /\
  (r = Ok tt -> Forall (fun kv => exists s k, signature c kv.1 = Ok s /\ server_key k /\ signed_by k kv.2 s) l).
Proof using.
  revert st. induction l as [|[name content] l IH]; intros st Hk; cbn [try_for_each]; [by intros [= <- <-]|].
  unfold bind_try at 1, verify_config at 1, bind_try at 1, ret at 1, map_err_m at 1. cbn [fst snd].
  destruct (signature c name) as [s|] eqn:Es; cbn [map_err]; [|by intros [= <- <-]].
  destruct (verify_signature key_server (key_id s) content (signature_text s) st) as [r1 st1] eqn:Ev.
  apply verify_signature_spec in Ev as [Hk1 Hok]; [|done]. destruct r1 as [[]|e]; cbn [map_err]; [|by intros [= <- <-]].
  intros E. apply IH in E as [Hk' Hl]; [|done]. split; [done|]. intros Hr. constructor; [|by apply Hl].
  exists s, (verifier st1). simpl. split_and!; [done|done|]. by apply Hok.
Qed.

Lemma signature_validate_spec c v r v' :
  held v -> signature_validate key_server c v = (r, v') -> held v' /\ (r = Ok tt -> all_signed c).
Proof using.
  intros (st & -> & Hk). cbn [signature_validate].
  destruct (try_for_each (configs_iter c) (verify_config key_server c) st) as [r1 st1] eqn:E. intros [= <- <-].
  apply verify_configs_spec in E as [Hk1 Hl]; [|done]. split; [by exists st1|]. intros Hr name content Hc.
  specialize (Hl Hr). rewrite Forall_forall in Hl. apply (Hl (name, content)). by apply elem_of_entries.
Qed.

(** Validating one configuration after the other *)
Fixpoint validate_all (cs : list OpampRemoteConfig) (v : SignatureValidator) : SignatureValidator :=
  match cs with [] => v | c :: cs => validate_all cs (signature_validate key_server c v).2 end.

Lemma validate_all_held cs v : held v -> held (validate_all cs v).
Proof using.
  revert v. induction cs as [|c cs IH]; intros v Hv; simpl; [done|]. apply IH.
  destruct (signature_validate key_server c v) as [r v'] eqn:E. by apply signature_validate_spec in E as [? _].
Qed.

(** ** Properties *)

(** C10: Once the validation of signatures is enabled and its validator is built, whatever was
    validated before and however the keys of the server change, a configuration is accepted only
    when each of its contents has a signature made with the first key of an answer of the server,
    under the identifier the signature names. *)
Theorem accepted_configs_are_signed http_client config v cs c v' :
  enabled config = true -> signature_validator_new key_server http_client config = Ok v ->
  signature_validate key_server c (validate_all cs v) = (Ok tt, v') -> all_signed c.
Proof using.
  intros He Hnew Hval. assert (held v) as Hv.
  { unfold signature_validator_new in Hnew. rewrite He in Hnew. cbn [negb] in Hnew.
    destruct (public_key_server_url config); [|done]. destruct http_client; simpl in Hnew; [|done].
    unfold verifier_store_try_new in Hnew. destruct (fetch_latest_key (key_server 0)) as [k|] eqn:Ek; simpl in Hnew; [|done].
    injection Hnew as <-. eexists. split; [done|]. by apply fetch_latest_key_ok in Ek. }
  apply signature_validate_spec in Hval as [_ H]; [by apply H|]. by apply validate_all_held.
Qed.

Lemma verify_config_current c k n kv s :
  signature c kv.1 = Ok s -> signed_by k kv.2 s ->
  verify_config key_server c kv {| verifier := k; fetches := n |} = (Ok tt, {| verifier := k; fetches := n |}).
Proof using.
  intros Hs [Hid (d & Hd & Hv)]. unfold verify_config, bind_try, ret, map_err_m, verify_signature. rewrite Hs. cbn [map_err].
  unfold bind_try, ret. rewrite Hd. cbn [map_err verifier]. rewrite Hid. unfold key_verify_signature. cbn [verifier]. by rewrite Hv.
Qed.

Lemma verify_config_rotated c k k0 n kv s :
  signature c kv.1 = Ok s -> signed_by k kv.2 s -> eq_ignore_ascii_case (public_key_id k0) (public_key_id k) = false ->
  fetch_latest_key (key_server n) = Ok k ->
  verify_config key_server c kv {| verifier := k0; fetches := n |} = (Ok tt, {| verifier := k; fetches := S n |}).
Proof using.
  intros Hs [Hid (d & Hd & Hv)] Hne Hf. unfold verify_config, bind_try, ret, map_err_m, verify_signature. rewrite Hs. cbn [map_err].
  unfold bind_try, ret. rewrite Hd. cbn [map_err verifier].
  destruct (eq_ignore_ascii_case (public_key_id k0) (key_id s)) eqn:E.
  { apply not_true_iff_false in Hne. destruct Hne. by eapply eq_ignore_case_trans. }
  unfold refresh. cbn [fetches verifier]. rewrite Hf. cbn [verifier]. rewrite Hid. unfold key_verify_signature. cbn [verifier]. by rewrite Hv.
Qed.

Lemma verify_all_current c k n l :
  Forall (fun kv => exists s, signature c kv.1 = Ok s /\ signed_by k kv.2 s) l ->
  try_for_each l (verify_config key_server c) {| verifier := k; fetches := n |} = (Ok tt, {| verifier := k; fetches := n |}).
Proof using.
  induction 1 as [|kv l (s & Hs & Hk) _ IH]; [done|]. cbn [try_for_each]. unfold bind_try.
  by rewrite (verify_config_current _ _ _ _ _ Hs Hk).
Qed.

(** Contents that are all signed with the key the server gives now are accepted, whether it is
    the one that is held, without asking, or a new one under another identifier, with one request. *)
Theorem signed_configs_accepted c k st :
  (forall name content, config_map c !! name = Some content -> exists s, signature c name = Ok s /\ signed_by k content s) ->
  verifier st = k \/
  (eq_ignore_ascii_case (public_key_id (verifier st)) (public_key_id k) = false /\
   fetch_latest_key (key_server (fetches st)) = Ok k) ->
  exists st', signature_validate key_server c (Some st) = (Ok tt, Some st') /\ fetches st' <= S (fetches st).
Proof using.
  intros Hall Hk. assert (Forall (fun kv => exists s, signature c kv.1 = Ok s /\ signed_by k kv.2 s) (configs_iter c)) as Hf.
  { apply Forall_forall. intros [name content] Hin%elem_of_entries. by apply Hall. }
  unfold signature_validate. destruct st as [k0 n]. cbn [verifier fetches] in *. destruct Hk as [->|[Hne Hfetch]].
  { rewrite verify_all_current by done. eexists. split; [done|]. simpl. lia. }
  destruct (configs_iter c) as [|kv l]; [eexists; split; [done|simpl; lia]|].
  apply Forall_cons in Hf as [(s & Hs & Hsig) Hl]. cbn [try_for_each]. unfold bind_try.
  rewrite (verify_config_rotated _ _ _ _ _ _ Hs Hsig Hne Hfetch), verify_all_current by done. eexists. by split.
Qed.

End SignatureLemmas.

(** C27: For the infrastructure agent, a configuration passes the deny rules exactly when no rule
    has a match in a content whose name begins with [agentConfig]. *)
Theorem deny_rules_exact `{RX : RegexLib} `{RL : !RegexLaws} `{HO : HashOrder} `{SV : SemVer} identity c :
  name (agent_type_id identity) = AGENT_TYPE_NAME_INFRA_AGENT ->
  regex_validate regex_validator identity c = Ok tt <->
  forall k content, config_map c !! k = Some content -> starts_with AGENT_CONFIG_PREFIX k = true ->
    forall rule r, (rule, r) ∈ infra_rules -> ~ occurs r content.
Proof. apply regex_validate_spec. Qed.

(** No content of the infrastructure agent passes that has a field [command] or [exec],
    whichever of its letters are escaped and however much space is before the colon. *)
Theorem denied_fields_rejected `{RX : RegexLib} `{RL : !RegexLaws} `{HO : HashOrder} `{SV : SemVer}
    identity c k before word blanks after letters :
  name (agent_type_id identity) = AGENT_TYPE_NAME_INFRA_AGENT -> starts_with AGENT_CONFIG_PREFIX k = true ->
  letters = letters_command \/ letters = letters_exec -> spells letters word -> str_all is_whitespace blanks = true ->
  config_map c !! k = Some (before +:+ word +:+ blanks +:+ ":" +:+ after) ->
  exists rule, regex_validate regex_validator identity c = Err (InvalidRule rule).
Proof.
  intros Hn Hp Hl Hw Hb Hk. destruct (regex_validate regex_validator identity c) as [[]|[rule]] eqn:E; [|by exists rule].
  pose proof (proj1 (regex_validate_spec identity c Hn) E k _ Hk Hp) as Hno.
  assert (occurs (Word Esc letters Field) (before +:+ word +:+ blanks +:+ ":" +:+ after)) as Ho.
  { exists before, (word +:+ blanks +:+ ":"), after. split; [by rewrite !str_app_assoc|].
    by apply matches_word, matches_field. }
  exfalso. destruct Hl as [->| ->].
  - by apply (Hno "arbitrary command execution via 'command' field" REGEX_COMMAND_FIELD); [left|].
  - by apply (Hno "arbitrary command execution via 'exec' field" REGEX_EXEC_FIELD); [right; left|].
Qed.

(** ** Concrete configurations *)

Definition quote : string := String "034" "".

Definition infra_identity : AgentIdentity := {| SubAgent.id := AgentId.SubAgent "infra"; agent_type_id := example_id |}.

Definition example_config (m : gmap string string) : OpampRemoteConfig :=
  new_remote_config (AgentId.SubAgent "infra") "hash" RemoteConfig.Applying m.

(** A reader of texts that are one entry *)
Definition one_entry_yaml : Yaml := {|
  parse_yaml_config := fun s =>
    match split_once ":" s with Some (k, v) => Ok {[k := Str (trim v)]} | None => Err "not a mapping" end;
  yaml_to_string := fun _ => Err "not needed";
|}.


(** Fields whose name is quoted, as any field of a JSON document, or escaped in another way
    pass the deny rules, as does the escape of the underscore of [binary_path]. *)
Theorem escaped_fields_not_screened :
  Forall (fun content => regex_validate regex_validator infra_identity (example_config {[AGENT_CONFIG_PREFIX := content]}) = Ok tt)
    [quote +:+ "exec" +:+ quote +:+ ": /bin/sh"; quote +:+ "command" +:+ quote +:+ ": {path: /bin/sh}";
     quote +:+ "\u0065xec" +:+ quote +:+ ": /bin/sh"; quote +:+ "binary\x5fpath" +:+ quote +:+ ": /bin/sh"].
Proof. repeat (apply Forall_cons_2; [vm_compute; reflexivity|]). by apply Forall_nil_2. Qed.

Lemma deny_rules_exact_witness :
  regex_validate regex_validator infra_identity (example_config {[AGENT_CONFIG_PREFIX := "exec: /bin/sh"]}) = Ok tt <->
  forall k content, config_map (example_config {[AGENT_CONFIG_PREFIX := "exec: /bin/sh"]}) !! k = Some content ->
    starts_with AGENT_CONFIG_PREFIX k = true -> forall rule r, (rule, r) ∈ infra_rules -> ~ occurs r content.
Proof.
  apply (deny_rules_exact infra_identity (example_config {[AGENT_CONFIG_PREFIX := "exec: /bin/sh"]})). reflexivity.
Defined.

Lemma denied_fields_rejected_witness : exists rule,
  regex_validate regex_validator infra_identity (example_config {[AGENT_CONFIG_PREFIX := "a: {e\x78ec : b}"]}) = Err (InvalidRule rule).
Proof.
  apply (denied_fields_rejected infra_identity (example_config {[AGENT_CONFIG_PREFIX := "a: {e\x78ec : b}"]}) AGENT_CONFIG_PREFIX
    "a: {" "e\x78ec" " " " b}" letters_exec); try (vm_compute; reflexivity); [by right|].
  apply spells_plain, (spells_escaped "x" "\x78"), spells_plain, spells_plain, spells_nil.
Defined.

Definition example_crypto : Crypto := {|
  base64_decode := fun s => Ok s;
  base64_encode := fun s => s;
  base64_url_decode := fun s => Ok s;
  sha256 := fun s => s;
  ed25519_verify := fun k msg s => String.eqb s (k +:+ msg);
|}.

(** A server that changes its key after the first answer *)
Definition example_server (n : nat) : result (list KeyData) string :=
  Ok [{| kty := "OKP"; alg := None; use := "sig"; kid := if n =? 0 then "one" else "two";
         x := if n =? 0 then "1" else "2"; crv := "Ed25519" |}].

Definition signed_config : OpampRemoteConfig :=
  with_signature (example_config {[AGENT_CONFIG_PREFIX := "a"]})
    {[AGENT_CONFIG_PREFIX := {| signature_text := "2a"; key_id := "TWO"; signing_algorithm := ED25519 |}]}.

Definition example_validator : SignatureValidator :=
  Some {| verifier := {| public_key := "1"; public_key_id := "one" |}; fetches := 1 |}.

Lemma accepted_configs_are_signed_witness : all_signed (CY := example_crypto) example_server signed_config.
Proof.
  apply (accepted_configs_are_signed (CY := example_crypto) example_server (Ok tt)
    {| enabled := true; public_key_server_url := Some "https://keys" |} example_validator [] signed_config
    (Some {| verifier := {| public_key := "2"; public_key_id := "two" |}; fetches := 2 |})); vm_compute; reflexivity.
Defined.

Lemma signed_configs_accepted_witness : exists st',
  signature_validate (CY := example_crypto) example_server signed_config example_validator = (Ok tt, Some st') /\ fetches st' <= 2.
Proof.
  apply (signed_configs_accepted (CY := example_crypto) example_server signed_config {| public_key := "2"; public_key_id := "two" |}
    {| verifier := {| public_key := "1"; public_key_id := "one" |}; fetches := 1 |}).
  - intros name content H. change (config_map signed_config) with ({[AGENT_CONFIG_PREFIX := "a"]} : gmap string string) in H.
    apply lookup_singleton_Some in H as [<- <-]. eexists. split; [vm_compute; reflexivity|].
    split; [vm_compute; reflexivity|]. eexists. split; vm_compute; reflexivity.
  - right. split; vm_compute; reflexivity.
Defined.
