(* ===== verification/OnHostSupervisor.v ===== *)
(** * The on-host supervisor

    Models [SupervisorBuilderOnHost] in [sub_agent/on_host/builder.rs] and the supervisor of
    [sub_agent/on_host/supervisor.rs]: installing the packages of an agent, writing its
    files, starting the threads of its executables and of its health checker, applying a
    new configuration and stopping.  What the threads of executables do is in
    [OnHostProcess].

    The package manager, the file system and the health checkers answer through an
    environment, which may depend on everything done before.  A thread has a number of its
    own. *)

From Stdlib Require Import String NArith Lia.
From stdpp Require Import base option list strings gmap.
From S2P Require Import Prelude RustString AgentId AgentTypeId Backoff OnHostProcess SubAgent.

Section OnHost.
Context `{SV : SemVer} `{HO : HashOrder} {FileSystem HealthConfig Hook OciData K8s : Type}.

(** ** Data *)

(** The OCI reference of a package, with the text of its version. *)
Record OciPackage : Type := { oci_version : string; oci_data : OciData }.

Record Package : Type := { oci : OciPackage; post_download_hook : option Hook }.

(** [Executable], rendered *)
Record Executable : Type := {
  executable_id : string;
  executable_path : string;
  executable_args : list string;
  executable_env : gmap string string;
  executable_restart_policy : BackoffStrategyConfig;
}.

(** [rendered::OnHost] *)
Record OnHost : Type := {
  executables : list Executable;
  enable_file_logging : bool;
  health_config : HealthConfig;
  filesystem : FileSystem;
  packages : gmap string Package;
}.

(** [rendered::Deployment] *)
Inductive Deployment : Type :=
| Host (on_host : OnHost)
| OnK8s (k8s : K8s).

Record EffectiveAgent : Type := { effective_identity : AgentIdentity; deployment : Deployment }.

Inductive SupervisorError : Type :=
| HealthError (e : string)
| FileSystemError (e : string)
| Install (package_id e : string)
| RuntimeConfig (e : string)
| Stop (e : string).

Definition get_onhost_config (a : EffectiveAgent) : result OnHost SupervisorError :=
  match deployment a with
  | Host on_host => Ok on_host
  | OnK8s _ => Err (RuntimeConfig "error assembling agents: missing host deployment configuration")
  end.

(** [NotStartedSupervisorOnHost] *)
Record NotStarted : Type := {
  agent_identity : AgentIdentity;
  executable_data : list ExecutableData;
  file_logging_enable : bool;
  starter_health : HealthConfig;
  packages_config : gmap string Package;
  starter_filesystem : FileSystem;
}.

(** [StartedSupervisorOnHost]; its threads are their numbers *)
Record Started : Type := {
  thread_contexts : list nat;
  started_identity : AgentIdentity;
  started_filesystem : FileSystem;
}.

(** What the supervisor does. *)
Inductive OnHostEffect : Type :=
| PublishVersion (version : string)
| InstallPackage (id : string) (p : Package)
| DeleteEphemeral (f : FileSystem)
| WriteFiles (f : FileSystem)
| StartExecutable (n : nat) (e : ExecutableData)
| StartHealthChecker (n : nat)
| StopThread (n : nat)
| DropThread (n : nat).

Record OnHostEnv : Type := {
  env_install : list OnHostEffect -> string -> Package -> result unit string;
  env_delete_ephemeral : list OnHostEffect -> FileSystem -> result unit string;
  env_write : list OnHostEffect -> FileSystem -> result unit string;
  env_health_checker : list OnHostEffect -> HealthConfig -> result unit string;
  env_stop_thread : list OnHostEffect -> nat -> result unit string;
}.

Variable env : OnHostEnv.

Abbreviation HM A := (M (list OnHostEffect) A).

(** ** Effects *)

Definition emit (e : OnHostEffect) : HM unit := fun l => (tt, e :: l).

(** A call whose answer is asked first and which is then recorded. *)
Definition host_call (answer : list OnHostEffect -> result unit string) (e : OnHostEffect) :
  HM (result unit string) := fun l => (answer l, e :: l).

(** ** Building *)

Definition executable_from (now : N) (e : Executable) : ExecutableData :=
  with_restart_policy
    (with_env (with_args (new_executable now (executable_id e) (executable_path e))
                 (executable_args e)) (executable_env e))
    (strategy_from now (executable_restart_policy e)).

Definition starter_from (now : N) (i : AgentIdentity) (on_host : OnHost) : NotStarted := {|
  agent_identity := i;
  executable_data := map (executable_from now) (executables on_host);
  file_logging_enable := enable_file_logging on_host;
  starter_health := health_config on_host;
  packages_config := packages on_host;
  starter_filesystem := filesystem on_host;
|}.

(** [SupervisorBuilderOnHost::build_supervisor] *)
Definition build_supervisor (now : N) (a : EffectiveAgent) : result NotStarted SupervisorError :=
  let? on_host := get_onhost_config a in
  Ok (starter_from now (effective_identity a) on_host).

(** ** The supervisor *)

Definition install_packages (packages : gmap string Package) : HM (result unit SupervisorError) :=
  try_for_each (entries packages) (fun '(id, package) =>
    map_err_m (Install id)
      (host_call (fun l => env_install env l id package) (InstallPackage id package))).

(** [Iterator::min_by_key] on the identifiers, which are compared byte by byte; the first of
    equal ones. *)
Definition min_package (l : list (string * Package)) : option (string * Package) :=
  match l with
  | [] => None
  | kv :: l => Some (fold_left (fun m kv => if String.ltb kv.1 m.1 then kv else m) l kv)
  end.

Definition check_subagent_version (packages : gmap string Package) : HM unit :=
  match min_package (entries packages) with
  | None => ret tt
  | Some (_, package) => emit (PublishVersion (oci_version (oci package)))
  end.

Definition start_health_check (c : HealthConfig) : HM (result nat SupervisorError) :=
  fun l => match env_health_checker env l c with
           | Err e => (Err (HealthError e), l)
           | Ok _ => (Ok (length l), StartHealthChecker (length l) :: l)
           end.

(** The threads of the executables, started when the iterator is collected. *)
Fixpoint start_executables (es : list ExecutableData) : HM (list nat) :=
  match es with
  | [] => ret []
  | e :: es =>
      fun l => let n := length l in
               let '(ns, l') := start_executables es (StartExecutable n e :: l) in (n :: ns, l')
  end.

Definition spin_up (s : NotStarted) : HM (result Started SupervisorError) :=
  let* _ := host_call (fun l => env_delete_ephemeral env l (starter_filesystem s))
              (DeleteEphemeral (starter_filesystem s)) in
  let*? _ := map_err_m FileSystemError
    (host_call (fun l => env_write env l (starter_filesystem s)) (WriteFiles (starter_filesystem s))) in
  let* _ := check_subagent_version (packages_config s) in
  let*? health := start_health_check (starter_health s) in
  let* executables := start_executables (executable_data s) in
  ret (Ok {| thread_contexts := executables ++ [health]; started_identity := agent_identity s;
             started_filesystem := starter_filesystem s |}).

(** [SupervisorStarter::start] *)
Definition start_supervisor (s : NotStarted) : HM (result Started SupervisorError) :=
  let* _ := check_subagent_version (packages_config s) in
  let*? _ := install_packages (packages_config s) in
  spin_up s.

(** The first error is kept and every thread is stopped. *)
Fixpoint stop_supervisor_threads (threads : list nat) (stop_result : result unit string) :
  HM (result unit string) :=
  match threads with
  | [] => ret stop_result
  | n :: threads =>
      let* r := host_call (fun l => env_stop_thread env l n) (StopThread n) in
      stop_supervisor_threads threads
        match r, stop_result with
        | Err e, Ok _ => Err e
        | _, _ => stop_result
        end
  end.

(** The handles of the threads go out of scope, which closes their stop channels. *)
Definition drop_threads (threads : list nat) : HM unit :=
  for_each threads (fun n => emit (DropThread n)).

(** [Supervisor::apply] *)
Definition apply_supervisor (now : N) (self : Started) (a : EffectiveAgent) :
  HM (result Started SupervisorError) :=
  match get_onhost_config a with
  | Err e => let* _ := drop_threads (thread_contexts self) in ret (Err e)
  | Ok onhost_config =>
      let* installation_result := install_packages (packages onhost_config) in
      let*? _ := map_err_m Stop (stop_supervisor_threads (thread_contexts self) (Ok tt)) in
      let*? _ := ret installation_result in
      spin_up (starter_from now (started_identity self) onhost_config)
  end.

(** [Supervisor::stop] *)
Definition stop_started (self : Started) : HM (result unit string) :=
  let* stop_result := stop_supervisor_threads (thread_contexts self) (Ok tt) in
  let* _ := host_call (fun l => env_delete_ephemeral env l (started_filesystem self))
              (DeleteEphemeral (started_filesystem self)) in
  ret stop_result.

(** ** Specification *)

(** The threads that were started and whose end was not requested. *)
Fixpoint alive (l : list OnHostEffect) : gset nat :=
  match l with
  | [] => ∅
  | (StartExecutable n _ | StartHealthChecker n) :: l => {[n]} ∪ alive l
  | (StopThread n | DropThread n) :: l => alive l ∖ {[n]}
  | _ :: l => alive l
  end.

(** Exactly these threads are alive, and new numbers are fresh. *)
Definition alive_is (x : gset nat) (l : list OnHostEffect) : Prop :=
  alive l = x /\ (forall n, n ∈ x -> n < length l).

Definition owned (s : Started) : gset nat := list_to_set (thread_contexts s).

(** What a fallible operation that returns a supervisor leaves alive. *)
Definition owns (r : result Started SupervisorError) (l : list OnHostEffect) : Prop :=
  alive_is match r with Ok s => owned s | Err _ => ∅ end l.

Definition is_start (e : OnHostEffect) : bool :=
  match e with StartExecutable _ _ | StartHealthChecker _ => true | _ => false end.

Definition is_stop (e : OnHostEffect) : bool :=
  match e with StopThread _ | DropThread _ => true | _ => false end.

(** Only effects of a kind since some point. *)
Definition adds (f : OnHostEffect -> bool) (l0 l : list OnHostEffect) : Prop :=
  exists l1, l = l1 ++ l0 /\ Forall (fun e => f e = true) l1.

(** ** Facts *)

Definition quiet (e : OnHostEffect) : bool := negb (is_start e) && negb (is_stop e).

(** An operation that neither starts nor stops a thread. *)
Definition keeps {A} (m : HM A) : Prop := forall l0, hoare (adds quiet l0) m (fun _ => adds quiet l0).

Lemma adds_refl f l : adds f l l.
Proof. exists []. done. Qed.

Lemma adds_trans f l0 l1 l2 : adds f l0 l1 -> adds f l1 l2 -> adds f l0 l2.
Proof.
  intros (x & -> & Hx) (y & -> & Hy). exists (y ++ x). split; [by rewrite app_assoc|].
  by apply Forall_app.
Qed.

Lemma adds_cons f l0 e l : f e = true -> adds f l0 l -> adds f l0 (e :: l).
Proof. intros He (x & -> & Hx). exists (e :: x). split; [done|]. by constructor. Qed.

Lemma adds_weaken f g l0 l : (forall e, f e = true -> g e = true) -> adds f l0 l -> adds g l0 l.
Proof. intros Hfg (x & -> & Hx). exists x. split; [done|]. eapply Forall_impl; [exact Hx|]. auto. Qed.

Lemma alive_is_quiet x l0 l : adds quiet l0 l -> alive_is x l0 -> alive_is x l.
Proof.
  intros (l1 & -> & Hl) [Ha Hn]. split.
  - induction Hl as [|e l1 He Hl IH]; [done|]. by destruct e.
  - intros n Hx. rewrite length_app. specialize (Hn n Hx). lia.
Qed.

Lemma alive_is_start x l n e :
  alive_is x l -> n = length l -> (e = StartHealthChecker n \/ exists d, e = StartExecutable n d) ->
  alive_is ({[n]} ∪ x) (e :: l).
Proof.
  intros [Ha Hn] -> He. split.
  - by destruct He as [->|[d ->]]; simpl; rewrite Ha.
  - intros m [->%elem_of_singleton|Hm]%elem_of_union; simpl; [lia|]. specialize (Hn m Hm). lia.
Qed.

Lemma keeps_ret {A} (a : A) : keeps (ret a).
Proof. intros l0. by apply hoare_ret. Qed.

Lemma keeps_bind {A B} (m : HM A) (k : A -> HM B) :
  keeps m -> (forall a, keeps (k a)) -> keeps (bind m k).
Proof. intros Hm Hk l0. eapply hoare_bind; [apply Hm|]. intros a. apply Hk. Qed.

Lemma keeps_host_call q e : quiet e = true -> keeps (host_call q e).
Proof. intros He l0 l Hl. by apply adds_cons. Qed.

Lemma keeps_install packages : keeps (install_packages packages).
Proof.
  intros l0. unfold install_packages. induction (entries packages) as [|[id p] ps IH]; simpl.
  { by apply hoare_ret. }
  eapply (hoare_bind_try _ _ _ (fun _ => adds quiet l0)); [|by intros ?|done].
  by apply hoare_map_err, keeps_host_call.
Qed.

Lemma keeps_check_version packages : keeps (check_subagent_version packages).
Proof.
  unfold check_subagent_version. destruct (min_package _) as [[? p]|]; [|apply keeps_ret].
  intros l0 l Hl. by apply adds_cons.
Qed.

Lemma keeps_alive {A} (m : HM A) x : keeps m -> hoare (alive_is x) m (fun _ => alive_is x).
Proof. intros Hm l Hl. eapply alive_is_quiet; [|exact Hl]. apply Hm, adds_refl. Qed.

Lemma alive_start_executables es x :
  hoare (alive_is x) (start_executables es) (fun ns => alive_is (list_to_set ns ∪ x)).
Proof.
  revert x. induction es as [|e es IH]; intros x l Hl; simpl.
  { by rewrite (left_id_L ∅ (∪)). }
  specialize (IH ({[length l]} ∪ x) (StartExecutable (length l) e :: l)).
  destruct (start_executables es _) as [ns l']; simpl in *.
  rewrite <-(assoc_L (∪)), (comm_L (∪) {[length l]}), <-(assoc_L (∪)), (comm_L (∪) x).
  apply IH. apply alive_is_start; eauto.
Qed.

(** A thread for each executable and one for the health checker. *)
Definition all_threads (s : NotStarted) (r : result Started SupervisorError) : Prop :=
  match r with
  | Ok started => length (thread_contexts started) = S (length (executable_data s))
  | Err _ => True
  end.

Lemma length_start_executables es l : length (start_executables es l).1 = length es.
Proof.
  revert l. induction es as [|e es IH]; intros l; [done|]. simpl.
  specialize (IH (StartExecutable (length l) e :: l)).
  destruct (start_executables es _). simpl in *. lia.
Qed.

Lemma alive_spin_up s :
  hoare (alive_is ∅) (spin_up s) (fun r l => owns r l /\ all_threads s r).
Proof.
  unfold spin_up. eapply hoare_bind; [by apply keeps_alive, keeps_host_call|]. intros ?.
  eapply (hoare_bind_try _ _ _ (fun _ => alive_is ∅));
    [by apply hoare_map_err, keeps_alive, keeps_host_call| |done].
  intros ?. eapply hoare_bind; [apply keeps_alive, keeps_check_version|]. intros ?.
  eapply (hoare_bind_try _ _ _ (fun r => alive_is match r with Ok n => {[n]} | Err _ => ∅ end));
    [| |done].
  { intros l Hl. unfold start_health_check. destruct (env_health_checker env l _); [|done].
    simpl. rewrite <-(right_id_L ∅ (∪) {[length l]}). apply alive_is_start; eauto. }
  intros n. eapply (hoare_bind _ _ _ (fun ns l => alive_is (list_to_set ns ∪ {[n]}) l /\
    length ns = length (executable_data s))).
  - intros l Hl. split; [by apply alive_start_executables|apply length_start_executables].
  - intros ns. apply hoare_ret. intros l [Hl Hlen]. unfold owns, owned, all_threads; simpl.
    rewrite list_to_set_app_L, list_to_set_singleton_L, length_app; simpl. split; [done|lia].
Qed.

Lemma alive_stop_threads threads r x :
  hoare (alive_is x) (stop_supervisor_threads threads r)
    (fun _ => alive_is (x ∖ list_to_set threads)).
Proof.
  revert r x. induction threads as [|n threads IH]; intros r x; cbn [stop_supervisor_threads].
  { apply hoare_ret. intros l Hl. simpl. by rewrite difference_empty_L. }
  eapply (hoare_bind _ _ _ (fun _ => alive_is (x ∖ {[n]}))).
  - intros l [Ha Hn]. split; [simpl; by rewrite Ha|]. intros m [Hm _]%elem_of_difference.
    simpl. specialize (Hn m Hm). lia.
  - intros r'. eapply hoare_weaken; [apply IH|done|]. intros ? l Hl. simpl.
    by rewrite <-difference_difference_l_L.
Qed.

Lemma alive_drop_threads threads x :
  hoare (alive_is x) (drop_threads threads) (fun _ => alive_is (x ∖ list_to_set threads)).
Proof.
  unfold drop_threads. revert x. induction threads as [|n threads IH]; intros x; cbn [for_each].
  { apply hoare_ret. intros l Hl. simpl. by rewrite difference_empty_L. }
  eapply (hoare_bind _ _ _ (fun _ => alive_is (x ∖ {[n]}))).
  - intros l [Ha Hn]. split; [simpl; by rewrite Ha|]. intros m [Hm _]%elem_of_difference.
    simpl. specialize (Hn m Hm). lia.
  - intros ?. eapply hoare_weaken; [apply IH|done|]. intros ? l Hl. simpl.
    by rewrite <-difference_difference_l_L.
Qed.

Lemma keeps_adds {A} (m : HM A) f l0 :
  keeps m -> (forall e, quiet e = true -> f e = true) ->
  hoare (adds f l0) m (fun _ => adds f l0).
Proof.
  intros Hm Hf l Hl. eapply adds_trans; [exact Hl|]. eapply adds_weaken; [exact Hf|].
  apply Hm, adds_refl.
Qed.

Definition no_start (e : OnHostEffect) : bool := negb (is_start e).
Definition no_stop (e : OnHostEffect) : bool := negb (is_stop e).

Lemma quiet_no_start e : quiet e = true -> no_start e = true.
Proof. by destruct e. Qed.

Lemma quiet_no_stop e : quiet e = true -> no_stop e = true.
Proof. by destruct e. Qed.

Lemma adds_spin_up s l0 : hoare (adds no_stop l0) (spin_up s) (fun _ => adds no_stop l0).
Proof.
  unfold spin_up.
  eapply hoare_bind; [by apply keeps_adds, quiet_no_stop; apply keeps_host_call|]. intros ?.
  eapply (hoare_bind_try _ _ _ (fun _ => adds no_stop l0));
    [by apply hoare_map_err, keeps_adds, quiet_no_stop; apply keeps_host_call| |done].
  intros ?. eapply hoare_bind; [apply keeps_adds, quiet_no_stop; apply keeps_check_version|].
  intros ?. eapply (hoare_bind_try _ _ _ (fun _ => adds no_stop l0)); [| |done].
  { intros l Hl. unfold start_health_check.
    destruct (env_health_checker env l _); [|done]. by apply adds_cons. }
  intros n. eapply (hoare_bind _ _ _ (fun _ => adds no_stop l0)); [|intros ns; by apply hoare_ret].
  induction (executable_data s) as [|e es IH]; [by apply hoare_ret|]. intros l Hl; simpl.
  specialize (IH (StartExecutable (length l) e :: l)).
  destruct (start_executables es _) as [ns l']. apply IH. by apply adds_cons.
Qed.

Lemma adds_stop_threads threads r l0 :
  hoare (adds no_start l0) (stop_supervisor_threads threads r) (fun _ => adds no_start l0).
Proof.
  revert r. induction threads as [|n threads IH]; intros r; cbn [stop_supervisor_threads];
    [by apply hoare_ret|].
  eapply (hoare_bind _ _ _ (fun _ => adds no_start l0)); [|intros ?; apply IH].
  intros l Hl. by apply adds_cons.
Qed.

(** ** Properties *)

(** C23: a new configuration replaces the old threads.  When it is applied to a supervisor that
    owns the threads alive, no thread is started before all the old ones were told to stop;
    afterwards, if the result is a supervisor, it owns exactly the threads alive, and if it is
    an error, none is alive. *)
Theorem apply_supervisor_replaces_threads now self a l :
  alive_is (owned self) l ->
  let '(r, l') := apply_supervisor now self a l in
  owns r l' /\ exists l1, adds no_start l l1 /\ adds no_stop l1 l'.
Proof.
  intros Hl. unfold apply_supervisor. destruct (get_onhost_config a) as [c|e].
  - pose proof (keeps_adds _ no_start l (keeps_install (packages c)) quiet_no_start l (adds_refl _ l)) as H1.
    pose proof (keeps_alive _ _ (keeps_install (packages c)) l Hl) as A1.
    unfold bind at 1. destruct (install_packages (packages c) l) as [r1 l1]; simpl in *.
    pose proof (adds_stop_threads (thread_contexts self) (Ok tt) l l1 H1) as H2.
    pose proof (alive_stop_threads (thread_contexts self) (Ok tt) _ l1 A1) as A2.
    unfold owned in A2. rewrite difference_diag_L in A2.
    unfold bind_try, map_err_m, ret.
    destruct (stop_supervisor_threads _ _ l1) as [[[]|e] l2]; simpl in *.
    2:{ split; [done|]. exists l2. split; [done|apply adds_refl]. }
    destruct r1 as [[]|e]; simpl. 2:{ split; [done|]. exists l2. split; [done|apply adds_refl]. }
    pose proof (alive_spin_up (starter_from now (started_identity self) c) l2 A2) as [A3 _].
    pose proof (adds_spin_up (starter_from now (started_identity self) c) l2 l2 (adds_refl _ _)) as H3.
    destruct (spin_up _ l2) as [r l3]. split; [done|]. by exists l2.
  - pose proof (alive_drop_threads (thread_contexts self) _ l Hl) as A1.
    unfold owned in A1. rewrite difference_diag_L in A1. unfold bind, ret.
    assert (forall ts l', adds no_start l l' -> adds no_start l (drop_threads ts l').2) as Hd.
    { induction ts as [|n ts IH]; intros l' Hl'; [done|]. simpl. apply IH. by apply adds_cons. }
    specialize (Hd (thread_contexts self) l (adds_refl _ _)).
    destruct (drop_threads _ l) as [[] l1]. split; [done|]. exists l1. split; [done|apply adds_refl].
Qed.

(** Starting is all or nothing, and stopping ends everything.  From a state in which no
    thread is alive: if the start succeeds, the supervisor owns exactly the threads alive,
    one for each executable and one for the health checker, and stopping it leaves none
    alive; if the start fails, no thread is alive. *)
Theorem start_supervisor_owns_threads s l :
  alive_is ∅ l ->
  let '(r, l') := start_supervisor s l in
  owns r l' /\ all_threads s r /\
  match r with
  | Ok started => alive_is ∅ (stop_started started l').2
  | Err _ => True
  end.
Proof.
  intros Hl. assert (hoare (alive_is ∅) (start_supervisor s)
    (fun r l => owns r l /\ all_threads s r)) as Hs.
  { unfold start_supervisor. eapply hoare_bind; [apply keeps_alive, keeps_check_version|]. intros ?.
    eapply hoare_bind_try; [apply keeps_alive, keeps_install|intros ?; apply alive_spin_up|].
    by intros e l2 ?; split. }
  specialize (Hs l Hl). destruct (start_supervisor s l) as [[started|e] l']; simpl in *; [|tauto].
  destruct Hs as [Ho Ha]. split_and!; [done..|].
  refine (hoare_bind (alive_is (owned started)) _ _ (fun _ => alive_is ∅) (fun _ => alive_is ∅) _ _ l' Ho).
  - eapply hoare_weaken; [apply alive_stop_threads|done|]. intros ? l2. unfold owned.
    by rewrite difference_diag_L.
  - intros ?. eapply hoare_bind; [by apply keeps_alive, keeps_host_call|]. intros ?. by apply hoare_ret.
Qed.

Definition lower (m kv : string * Package) : string * Package :=
  if String.ltb kv.1 m.1 then kv else m.

Lemma ltb_asym k k' : String.ltb k k' = true -> String.ltb k' k = false.
Proof. unfold String.ltb. rewrite String.compare_antisym. by destruct (String.compare k' k). Qed.

Lemma fold_lower_stays k v l :
  (forall k' v', (k', v') ∈ l -> String.ltb k' k = false) -> fold_left lower l (k, v) = (k, v).
Proof.
  induction l as [|[k' v'] l IH]; intros Hl; [done|]. simpl. unfold lower at 2; simpl.
  rewrite (Hl k' v') by (by left). apply IH. intros. eapply Hl. by right.
Qed.

Lemma fold_lower k v l m :
  (k, v) = m \/ (k, v) ∈ l /\ String.ltb k m.1 = true ->
  (forall k' v', (k', v') ∈ l -> k' = k /\ v' = v \/ String.ltb k k' = true) ->
  String.ltb k k = false ->
  fold_left lower l m = (k, v).
Proof.
  intros Hm Hl Hirr. revert m Hm. induction l as [|[k' v'] l IH]; intros m Hm; simpl.
  { by destruct Hm as [<-|[?%elem_of_nil _]]. }
  assert (forall k' v', (k', v') ∈ l -> k' = k /\ v' = v \/ String.ltb k k' = true) as Hl'
    by (intros; eapply Hl; by right).
  apply IH; [done|]. unfold lower; simpl.
  destruct (Hl k' v') as [[-> ->]|Hlt]; [by left| |].
  - destruct Hm as [<-|[_ ->]]; simpl; [rewrite Hirr|]; by left.
  - destruct Hm as [<-|[[[= -> ->]|Hin]%elem_of_cons Hm]]; simpl.
    + rewrite (ltb_asym k k' Hlt). by left.
    + congruence.
    + right. split; [done|]. by destruct (String.ltb k' m.1).
Qed.

(** The reported version.  With several packages, the version of the one with the lowest
    identifier is published, whatever the iteration order of the map; without packages
    nothing is published. *)
Theorem reported_version_of_lowest_package packages l :
  (packages = ∅ -> (check_subagent_version packages l).2 = l) /\
  (forall id p, packages !! id = Some p ->
     (forall id' p', packages !! id' = Some p' -> id' <> id -> String.ltb id id' = true) ->
     (check_subagent_version packages l).2 = PublishVersion (oci_version (oci p)) :: l).
Proof.
  unfold check_subagent_version. split.
  - intros ->. by rewrite entries_empty.
  - intros id p Hp Hmin.
    assert (String.ltb id id = false) as Hirr.
    { destruct (String.ltb id id) eqn:Hi; [|done]. by rewrite (ltb_asym _ _ Hi) in Hi. }
    assert (forall k' v', (k', v') ∈ entries packages -> k' = id /\ v' = p \/ String.ltb id k' = true)
      as Hall.
    { intros k' v' Hk'%elem_of_entries. destruct (decide (k' = id)) as [->|]; [|right; by eapply Hmin].
      left. split; [done|]. congruence. }
    apply elem_of_entries in Hp. unfold min_package. destruct (entries packages) as [|kv rest];
      [by apply elem_of_nil in Hp|].
    change (fold_left _ rest kv) with (fold_left lower rest kv).
    rewrite (fold_lower id p rest kv); [done| |intros; apply Hall; by right|done].
    destruct kv as [k' v'], (Hall k' v') as [[-> ->]|Hlt]; [by left|by left|].
    apply elem_of_cons in Hp as [->|Hp]; [by left|by right].
Qed.

End OnHost.

(** ** A concrete supervisor *)

Definition example_host_env (health_ok : bool) :
  OnHostEnv (FileSystem := unit) (HealthConfig := unit) (Hook := unit) (OciData := unit) := {|
  env_install := fun _ _ _ => Ok tt;
  env_delete_ephemeral := fun _ _ => Ok tt;
  env_write := fun _ _ => Ok tt;
  env_health_checker := fun _ _ => if health_ok then Ok tt else Err "no client";
  env_stop_thread := fun _ _ => Ok tt;
|}.

Definition example_starter : NotStarted (FileSystem := unit) (HealthConfig := unit) (Hook := unit)
    (OciData := unit) := {|
  agent_identity := example_identity; executable_data := [example_executable 0];
  file_logging_enable := false; starter_health := tt;
  packages_config := {["p" := {| oci := {| oci_version := "1.0.0"; oci_data := tt |};
                                 post_download_hook := None |}]};
  starter_filesystem := tt;
|}.

Lemma start_supervisor_owns_threads_witness :
  let '(r, l') := start_supervisor (example_host_env true) example_starter [] in
  owns r l' /\ all_threads example_starter r /\
  match r with
  | Ok started => alive_is ∅ (stop_started (example_host_env true) started l').2
  | Err _ => True
  end.
Proof.
  refine (start_supervisor_owns_threads (example_host_env true) example_starter [] _).
  split; [reflexivity|]. intros n Hn. apply elem_of_empty in Hn. destruct Hn.
Defined.

(** The supervisor of two threads gets a configuration for Kubernetes. *)
Lemma apply_supervisor_replaces_threads_witness :
  let self := {| thread_contexts := [1; 0]; started_identity := example_identity;
                 started_filesystem := tt |} in
  let l := [StartExecutable 1 (example_executable 0); StartHealthChecker 0] in
  let '(r, l') := apply_supervisor (example_host_env true) 0 self
    {| effective_identity := example_identity; deployment := OnK8s tt |} l in
  owns r l' /\ exists l1, adds no_start l l1 /\ adds no_stop l1 l'.
Proof.
  refine (apply_supervisor_replaces_threads (example_host_env true) 0
    {| thread_contexts := [1; 0]; started_identity := example_identity; started_filesystem := tt |}
    {| effective_identity := example_identity; deployment := OnK8s tt |}
    [StartExecutable 1 (example_executable 0); StartHealthChecker 0] _).
  split; [vm_compute; reflexivity|]. intros n Hn. unfold owned in Hn. simpl in Hn.
  rewrite !elem_of_union, !elem_of_singleton, elem_of_empty in Hn. simpl. lia.
Defined.

Lemma reported_version_of_lowest_package_witness :
  (check_subagent_version (packages_config example_starter) []).2 =
    [PublishVersion (FileSystem := unit) (Hook := unit) (OciData := unit) "1.0.0"].
Proof.
  refine (proj2 (reported_version_of_lowest_package (packages_config example_starter) []) "p"
    {| oci := {| oci_version := "1.0.0"; oci_data := tt |}; post_download_hook := None |} _ _).
  - apply lookup_singleton_eq.
  - intros id' p' Hid Hne. simpl in Hid. apply lookup_singleton_Some in Hid as [Hid _]. congruence.
Defined.
