(* ===== verification/RuntimeConfig.v ===== *)
(** * The runtime configuration of agent types

    Models [agent_type/runtime_config.rs] and the files below it: the deployment an agent type
    describes, whose values are templates, and its rendering with the variables of a sub-agent
    ([Templateable::template_with] for each of its parts), with the part of
    [agent_type/definition.rs] that adds the directories of the packages to the variables.  What
    is rendered are the data of [OnHostSupervisor], [Filesystem] and [PackageManager].

    A [HashMap] whose keys are paths is the list of its entries, in the order they are
    iterated. *)

From Stdlib Require Import String NArith.
From stdpp Require Import base option list strings gmap.
From S2P Require Import Prelude RustString AgentId AgentTypeId Regex Json YamlConfig Variables.
From S2P Require Import Templates OciTypes FileStore HostFs PackageManager Filesystem.
From S2P Require Import Backoff OnHostProcess SubAgent OnHostSupervisor.

(** ** The libraries *)

(** [duration_str::parse], in nanoseconds; [Url::parse], which gives the text of the URL or that
    of an error; and the mapping of paths to values read from YAML by [serde_saphyr], whose keys
    are [SafePath]s. *)
Class ConfigParsers : Type := {
  duration_parse : string -> option N;
  url_parse : string -> result string string;
  path_map_from_yaml : string -> result (list (string * value)) string;
}.

(** Reading [SafePath]s runs their check, and equal paths are one key of a map. *)
Class ConfigParsersLaws `{ConfigParsers} : Prop := {
  path_map_safe s l : path_map_from_yaml s = Ok l -> Forall (fun kv => safe_key kv.1) l;
  path_map_distinct s l : path_map_from_yaml s = Ok l -> NoDup (map (fun kv => components kv.1) l);
}.

(** ** Values that may be templates ([templateable_value.rs]) *)

Record TemplateableValue (T : Type) : Type := { tv_value : option T; template : string }.
Arguments tv_value {T}.
Arguments template {T}.

(** [TemplateableValue::new] *)
Definition tv_new {T} (v : T) : TemplateableValue T := {| tv_value := Some v; template := "" |}.

(** [Default for TemplateableValue] *)
Definition tv_default {T} : TemplateableValue T := {| tv_value := None; template := "" |}.

(** [Deserialize for TemplateableValue]; a number is its text. *)
Definition tv_deserialize {T} (v : value) : option (TemplateableValue T) :=
  match v with
  | Str s | Number s => Some {| tv_value := None; template := s |}
  | Bool b => Some {| tv_value := None; template := if b then "true" else "false" |}
  | _ => None
  end.

(** [FromStr for bool] *)
Definition parse_bool (s : string) : option bool :=
  if String.eqb s "true" then Some true else if String.eqb s "false" then Some false else None.

Definition u16_bound : N := 65536.

(** [FromStr for BackoffStrategyType] *)
Definition backoff_type_from_str (s : string) : result BackoffStrategyType AgentTypeError :=
  if String.eqb s "fixed" then Ok FixedType
  else if String.eqb s "linear" then Ok LinearType
  else if String.eqb s "exponential" then Ok ExponentialType
  else Err (UnknownBackoffStrategyType s).

(** ** The deployment, before rendering *)

Record BackoffStrategyDef : Type := {
  def_backoff_type : TemplateableValue BackoffStrategyType;
  def_backoff_delay : TemplateableValue N;
  def_max_retries : TemplateableValue N;
  def_last_retry_interval : TemplateableValue N;
}.

(** [Default for BackoffStrategyConfig] *)
Definition default_backoff_def : BackoffStrategyDef := {|
  def_backoff_type := tv_new LinearType;
  def_backoff_delay := tv_new DEFAULT_BACKOFF_DELAY;
  def_max_retries := tv_new DEFAULT_BACKOFF_MAX_RETRIES;
  def_last_retry_interval := tv_new DEFAULT_BACKOFF_LAST_RETRY_INTERVAL;
|}.

(** [RestartPolicyConfig] is its only field. *)
Record ExecutableDef : Type := {
  def_id : string;
  def_path : TemplateableValue string;
  def_args : list (TemplateableValue string);
  def_env : gmap string (TemplateableValue string);
  def_restart_policy : BackoffStrategyDef;
}.

Record OciDef : Type := {
  def_repository : TemplateableValue string;
  def_version : TemplateableValue string;
  def_public_key_url : option (TemplateableValue string);
}.

Record HookDef : Type := {
  def_hook_path : TemplateableValue string;
  def_hook_args : list (TemplateableValue string);
  def_hook_env : gmap string (TemplateableValue string);
}.

(** [Download] is its only field. *)
Record PackageDef : Type := { def_oci : OciDef; def_post_download_hook : option HookDef }.

Record HttpHealthDef : Type := {
  def_http_host : TemplateableValue string;
  def_http_path : TemplateableValue string;
  def_http_port : TemplateableValue N;
  def_headers : gmap string string;
  def_healthy_status_codes : list N;
}.

Inductive HealthCheckDef : Type :=
| HttpHealthCheckDef (h : HttpHealthDef)
| FileHealthCheckDef (path : string).

Record HealthConfigDef : Type := {
  def_interval : N;
  def_initial_delay : N;
  def_timeout : N;
  def_check : option HealthCheckDef;
}.

(** [FilesystemEntry] *)
Inductive EntryDef : Type :=
| FileDef (text : TemplateableValue string) (persistent : TemplateableValue bool)
| DirDef (entries : list (string * EntryDef)) (persistent : TemplateableValue bool)
| DirContentFromMapDef (source : TemplateableValue (list (string * string))).

Record OnHostDef : Type := {
  def_executables : list ExecutableDef;
  def_enable_file_logging : TemplateableValue bool;
  def_health : HealthConfigDef;
  def_filesystem : list (string * EntryDef);
  def_packages : gmap string PackageDef;
}.

(** ** The Kubernetes deployment, which is rendered to the same type ([k8s.rs]) *)

(** The labels are in the order of their keys. *)
Record K8sObjectMeta : Type := {
  labels : list (string * string);
  meta_name : string;
  meta_namespace : string;
}.

Record K8sObject : Type := {
  api_version : string;
  object_kind : string;
  object_metadata : K8sObjectMeta;
  fields : list (string * value);
}.

Inductive K8sHealthResourceKind : Type :=
| DeploymentKind | DaemonSetKind | StatefulSetKind | InstrumentationKind | HelmReleaseWorkloadKind.

Record K8sHealthCheckDefinition : Type := {
  check_name : string;
  check_namespace : string;
  check_kind : K8sHealthResourceKind;
  target_namespace : option string;
}.

Record K8sHealthConfig : Type := {
  k8s_interval : N;
  k8s_initial_delay : N;
  k8s_checks : list K8sHealthCheckDefinition;
}.

(** The version and GUID checkers are configured by an interval and an initial delay. *)
Record K8s : Type := {
  objects : gmap string K8sObject;
  k8s_health : option K8sHealthConfig;
  k8s_version : N * N;
  guid_checker : N * N;
}.

Inductive DeploymentDef : Type :=
| HostDef (on_host : OnHostDef)
| K8sDef (k8s : K8s).

(** ** Rendered health checks ([health_config/rendered.rs]) *)

Record HttpHealth : Type := {
  http_host : string;
  http_path : string;
  http_port : N;
  headers : gmap string string;
  healthy_status_codes : list N;
}.

Inductive OnHostHealthCheck : Type :=
| HttpHealthCheck (h : HttpHealth)
| FileHealthCheck (path : string).

Record OnHostHealthConfig : Type := {
  health_interval : N;
  health_initial_delay : N;
  health_timeout : N;
  health_check_of : option OnHostHealthCheck;
}.

(** The rendered deployment, with the data of the other files. *)
Abbreviation RenderedPackage := (@OnHostSupervisor.Package PostDownloadHook Oci).
Abbreviation RenderedOnHost := (@OnHostSupervisor.OnHost FileSystem OnHostHealthConfig PostDownloadHook Oci).
Abbreviation RenderedDeployment :=
  (@OnHostSupervisor.Deployment FileSystem OnHostHealthConfig PostDownloadHook Oci K8s).

(** [deserialize_executables]: the executables of a deployment have different identifiers. *)
Fixpoint check_executable_ids (ids : gset string) (l : list ExecutableDef) : result unit string :=
  match l with
  | [] => Ok tt
  | e :: l =>
      if bool_decide (def_id e ∈ ids) then Err ("Duplicate executable ID found: " +:+ def_id e)
      else check_executable_ids ({[ def_id e ]} ∪ ids) l
  end.

Definition deserialize_executables (l : list ExecutableDef) : result (list ExecutableDef) string :=
  let? _ := check_executable_ids ∅ l in Ok l.

(** ** Rendering *)

(** Names of the variables of a sub-agent ([agent_attributes.rs]) *)
Definition VARIABLE_SUB_AGENT_ID : string := "agent_id".
Definition VARIABLE_FILESYSTEM_AGENT_DIR : string := "filesystem_agent_dir".
Definition VARIABLE_SHARED_FILESYSTEM_DIR : string := "shared_filesystem_dir".
Definition VARIABLE_REMOTE_DIR : string := "remote_dir".

(** [Option::map] with a fallible function, transposed *)
Definition try_option {A B E} (f : A -> result B E) (o : option A) : result (option B) E :=
  match o with None => Ok None | Some a => map_ok Some (f a) end.

(** Collecting into a [BTreeMap]: entries in the order of their keys, where the last of an equal
    key wins. *)
Fixpoint btree_insert (k v : string) (l : list (string * string)) : list (string * string) :=
  match l with
  | [] => [(k, v)]
  | (k', v') :: l' =>
      match String.compare k k' with
      | Lt => (k, v) :: l
      | Eq => (k, v) :: l'
      | Gt => (k', v') :: btree_insert k v l'
      end
  end.

Definition btree_collect (l : list (string * string)) : list (string * string) :=
  fold_left (fun acc kv => btree_insert kv.1 kv.2 acc) l [].

(** [Display for OCIPackageManagerError], of the only error a path can have *)
Definition show_path_error (e : OCIPackageManagerError) : string :=
  match e with
  | NotNormalSuffix s => "Package reference naming validation produces a non-normalized suffix: " +:+ s
  | _ => ""
  end.

(** [Display for AgentIDError] *)
Definition show_agent_id_error (e : AgentIDError) : string :=
  match e with
  | InvalidFormat => "AgentID must contain 32 characters at most, contain lowercase alphanumeric characters or dashes only, start with alphabetic, and end with alphanumeric"
  | Reserved id => "AgentID '" +:+ id +:+ "' is reserved"
  end.

Section Rendering.
Context `{RX : RegexLib} `{HO : HashOrder} `{YV : YamlValues} `{CP : ConfigParsers}.

(** [Templateable for TemplateableValue<S>]: the type gives the way to parse it and the default *)
Definition template_tv {T} (parse : string -> option T) (dflt : T) (tv : TemplateableValue T)
    (variables : Variables) : result T AgentTypeError :=
  let? templated_string := template_string (template tv) variables in
  if str_is_empty templated_string then Ok dflt
  else ok_or (parse templated_string) (ValueNotParseableFromString templated_string).

Definition template_string_value : TemplateableValue string -> Variables -> result string AgentTypeError :=
  template_tv Some "".

Definition template_bool_value : TemplateableValue bool -> Variables -> result bool AgentTypeError :=
  template_tv parse_bool false.

Definition template_backoff_delay : TemplateableValue N -> Variables -> result N AgentTypeError :=
  template_tv duration_parse DEFAULT_BACKOFF_DELAY.

Definition template_last_retry_interval : TemplateableValue N -> Variables -> result N AgentTypeError :=
  template_tv duration_parse DEFAULT_BACKOFF_LAST_RETRY_INTERVAL.

Definition template_max_retries : TemplateableValue N -> Variables -> result N AgentTypeError :=
  template_tv (parse_unsigned u64_bound) DEFAULT_BACKOFF_MAX_RETRIES.

Definition template_http_port : TemplateableValue N -> Variables -> result N AgentTypeError :=
  template_tv (parse_unsigned u16_bound) 80%N.

Definition template_http_host : TemplateableValue string -> Variables -> result string AgentTypeError :=
  template_tv Some "127.0.0.1".

Definition template_http_path : TemplateableValue string -> Variables -> result string AgentTypeError :=
  template_tv Some "/".

(** [Templateable for BackoffStrategyConfig] *)
Definition template_backoff_strategy (b : BackoffStrategyDef) (variables : Variables) :
  result BackoffStrategyConfig AgentTypeError :=
  let? backoff_type := template_tv (fun s => ok (backoff_type_from_str s)) FixedType (def_backoff_type b) variables in
  let? backoff_delay := template_backoff_delay (def_backoff_delay b) variables in
  let? max_retries := template_max_retries (def_max_retries b) variables in
  let? last_retry_interval := template_last_retry_interval (def_last_retry_interval b) variables in
  Ok {| backoff_type := backoff_type; config_backoff_delay := backoff_delay;
        config_max_retries := max_retries; config_last_retry_interval := last_retry_interval |}.

(** [Templateable for Args] *)
Definition template_args (args : list (TemplateableValue string)) (variables : Variables) :
  result (list string) AgentTypeError :=
  try_map (fun arg => template_string_value arg variables) args.

(** [Templateable for Env] *)
Definition template_env (env : gmap string (TemplateableValue string)) (variables : Variables) :
  result (gmap string string) AgentTypeError :=
  map_ok list_to_map
    (try_map (fun kv => map_ok (pair kv.1) (template_string_value kv.2 variables)) (entries env)).

(** [Templateable for Executable] *)
Definition template_executable (variables : Variables) (e : ExecutableDef) : result Executable AgentTypeError :=
  let? id := template_string (def_id e) variables in
  let? path := template_string_value (def_path e) variables in
  let? args := template_args (def_args e) variables in
  let? env := template_env (def_env e) variables in
  let? restart_policy := template_backoff_strategy (def_restart_policy e) variables in
  Ok {| executable_id := id; executable_path := path; executable_args := args;
        executable_env := env; executable_restart_policy := restart_policy |}.

(** [Templateable for PostDownloadHook] *)
Definition template_hook (variables : Variables) (h : HookDef) : result PostDownloadHook AgentTypeError :=
  let? path := template_string_value (def_hook_path h) variables in
  let? args := template_args (def_hook_args h) variables in
  let? env := template_env (def_hook_env h) variables in
  Ok {| hook_path := path; hook_args := args; hook_env := env |}.

(** [Templateable for Oci] *)
Definition template_oci (o : OciDef) (variables : Variables) : result Oci AgentTypeError :=
  let? repository_text := template_string_value (def_repository o) variables in
  let? repository := map_err (fun e => OCIReferenceParsingError ("invalid repository: " +:+ e))
                       (repository_from_str repository_text) in
  let? version_text := template_string_value (def_version o) variables in
  let? version := map_err (fun e => OCIReferenceParsingError ("invalid version: " +:+ e))
                    (version_from_str version_text) in
  let? public_key_text := try_option (fun pk => template_string_value pk variables) (def_public_key_url o) in
  let? public_key_url := map_err (fun e => OCIReferenceParsingError ("invalid public_key_url: " +:+ e))
                           (try_option url_parse public_key_text) in
  Ok {| repository := repository; version := version; public_key_url := public_key_url |}.

(** [Templateable for Package] *)
Definition template_package (variables : Variables) (p : PackageDef) : result RenderedPackage AgentTypeError :=
  let? post_download_hook := try_option (template_hook variables) (def_post_download_hook p) in
  let? oci := template_oci (def_oci p) variables in
  Ok {| OnHostSupervisor.oci := {| oci_version := version oci; oci_data := oci |};
        OnHostSupervisor.post_download_hook := post_download_hook |}.

(** [Templateable for OnHostHealthCheck] *)
Definition template_health_check (variables : Variables) (c : HealthCheckDef) :
  result OnHostHealthCheck AgentTypeError :=
  match c with
  | HttpHealthCheckDef conf =>
      let? host := template_http_host (def_http_host conf) variables in
      let? path := template_http_path (def_http_path conf) variables in
      let? port := template_http_port (def_http_port conf) variables in
      Ok (HttpHealthCheck {| http_host := host; http_path := path; http_port := port;
                             headers := def_headers conf;
                             healthy_status_codes := def_healthy_status_codes conf |})
  | FileHealthCheckDef path => map_ok FileHealthCheck (template_string path variables)
  end.

(** [Templateable for OnHostHealthConfig] *)
Definition template_health_config (c : HealthConfigDef) (variables : Variables) :
  result OnHostHealthConfig AgentTypeError :=
  let? check := try_option (template_health_check variables) (def_check c) in
  Ok {| health_interval := def_interval c; health_initial_delay := def_initial_delay c;
        health_timeout := def_timeout c; health_check_of := check |}.

(** *** Files *)

Definition filesystem_agent_dir (variables : Variables) : result string AgentTypeError :=
  let key := namespaced_name SubAgentNs VARIABLE_FILESYSTEM_AGENT_DIR in
  match variables !! key ≫= get_final_value with
  | Some (TrivialString s) => Ok s
  | _ => Err (MissingValue key)
  end.

Definition output_string (v : value) : string :=
  match v with Str s => s | v => value_to_yaml v end.

(** [Templateable for TemplateableValue<DirEntriesMap>] *)
Definition template_dir_map {T} (source : TemplateableValue T) (variables : Variables) :
  result (list (string * string)) AgentTypeError :=
  let? templated_string := template_string (template source) variables in
  if str_is_empty templated_string then Ok []
  else
    let? map_string_value := map_err (fun e => ValueNotParseableFromString
        ("Could not parse templated directory items as YAML: " +:+ e)) (path_map_from_yaml templated_string) in
    Ok (map (fun kv => (kv.1, output_string kv.2)) map_string_value).

(** [Templateable for FilesystemEntry] *)
Fixpoint template_entry (variables : Variables) (e : EntryDef) : result RenderedEntry AgentTypeError :=
  match e with
  | FileDef text persistent =>
      let? content := template_string_value text variables in
      let? persistent := template_bool_value persistent variables in
      Ok (RenderedFile content persistent)
  | DirDef entries persistent =>
      let? children := try_map (fun kv => map_ok (pair kv.1) (template_entry variables kv.2)) entries in
      let? persistent := template_bool_value persistent variables in
      Ok (RenderedDir children persistent)
  | DirContentFromMapDef source =>
      let? files := template_dir_map source variables in
      Ok (RenderedDirContentFromMap files)
  end.

(** [Templateable for FileSystem] *)
Definition template_filesystem (l : list (string * EntryDef)) (variables : Variables) :
  result FileSystem AgentTypeError :=
  let? dir := filesystem_agent_dir variables in
  let base_dir := components dir in
  let? es := try_map (fun kv => map_ok (pair (join_path base_dir kv.1)) (template_entry variables kv.2)) l in
  Ok {| base_dir := base_dir; fs_entries := es |}.

(** *** Packages ([definition.rs]) *)

Definition get_sub_agent_variable (variables : Variables) (variable_name : string) : option string :=
  show_trivial <$> (variables !! namespaced_name SubAgentNs variable_name ≫= get_final_value).

Definition package_data_of (package_id : string) (p : RenderedPackage) : PackageData := {|
  package_id := package_id;
  package_oci := oci_data (OnHostSupervisor.oci p);
  PackageManager.post_download_hook := OnHostSupervisor.post_download_hook p;
|}.

(** The name of the variable of a package *)
Definition package_dir_variable (package_id : string) : string :=
  namespaced_name SubAgentNs ("packages." +:+ package_id +:+ ".dir").

Definition include_packages_variables (variables : Variables) (packages : gmap string RenderedPackage) :
  result Variables AgentTypeError :=
  if bool_decide (packages = ∅) then Ok variables
  else
    let? remote_dir := ok_or (get_sub_agent_variable variables VARIABLE_REMOTE_DIR)
                         (RenderingTemplate ("Agent variable not found " +:+ VARIABLE_REMOTE_DIR)) in
    let? agent_id_string := ok_or (get_sub_agent_variable variables VARIABLE_SUB_AGENT_ID)
                              (RenderingTemplate ("Agent variable not found " +:+ VARIABLE_SUB_AGENT_ID)) in
    let? agent_id := map_err (fun e => RenderingTemplate ("Invalid sub-agent ID: " +:+ show_agent_id_error e))
                       (AgentId.try_from agent_id_string) in
    try_fold (fun variables kp =>
        let? path := map_err (fun e => RenderingTemplate
              ("Invalid OCI reference for package " +:+ kp.1 +:+ ": " +:+ show_path_error e))
            (get_package_path (components remote_dir) agent_id (package_data_of kp.1 kp.2)) in
        Ok (<[package_dir_variable kp.1 := new_final_string_variable (show_path path)]> variables))
      variables (entries packages).

(** [Templateable for OnHost] *)
Definition template_on_host (on_host : OnHostDef) (variables : Variables) : result RenderedOnHost AgentTypeError :=
  let? rendered_packages :=
    map_ok list_to_map
      (try_map (fun kv => map_ok (pair kv.1) (template_package variables kv.2)) (entries (def_packages on_host))) in
  let? extended_vars := include_packages_variables variables rendered_packages in
  let? executables := try_map (template_executable extended_vars) (def_executables on_host) in
  let? enable_file_logging := template_bool_value (def_enable_file_logging on_host) extended_vars in
  let? health := template_health_config (def_health on_host) extended_vars in
  let? filesystem := template_filesystem (def_filesystem on_host) extended_vars in
  Ok {| executables := executables; enable_file_logging := enable_file_logging;
        health_config := health; filesystem := filesystem; packages := rendered_packages |}.

(** *** Kubernetes objects *)

(** [Templateable for K8sObjectMeta] *)
Definition template_object_meta (m : K8sObjectMeta) (variables : Variables) : result K8sObjectMeta AgentTypeError :=
  let? labels := try_map (fun kv => let? k := template_string kv.1 variables in
                                    let? v := template_string kv.2 variables in Ok (k, v)) (labels m) in
  let? name := template_string (meta_name m) variables in
  let? namespace := template_string (meta_namespace m) variables in
  Ok {| labels := btree_collect labels; meta_name := name; meta_namespace := namespace |}.

(** [Templateable for K8sObject] *)
Definition template_object (variables : Variables) (o : K8sObject) : result K8sObject AgentTypeError :=
  let? metadata := template_object_meta (object_metadata o) variables in
  let? fs := try_map (fun kv => map_ok (pair kv.1) (template_value variables kv.2)) (fields o) in
  Ok {| api_version := api_version o; object_kind := object_kind o; object_metadata := metadata; fields := fs |}.

(** [Templateable for K8sHealthCheckDefinition] *)
Definition template_k8s_check (variables : Variables) (c : K8sHealthCheckDefinition) :
  result K8sHealthCheckDefinition AgentTypeError :=
  let? name := template_string (check_name c) variables in
  let? namespace := template_string (check_namespace c) variables in
  let? target := try_option (fun ns => template_string ns variables) (target_namespace c) in
  Ok {| check_name := name; check_namespace := namespace; check_kind := check_kind c; target_namespace := target |}.

(** [Templateable for K8s], with that of its health configuration *)
Definition template_k8s (k : K8s) (variables : Variables) : result K8s AgentTypeError :=
  let? objects := map_ok list_to_map
    (try_map (fun kv => map_ok (pair kv.1) (template_object variables kv.2)) (entries (objects k))) in
  let? health := try_option (fun h =>
      let? checks := try_map (template_k8s_check variables) (k8s_checks h) in
      Ok {| k8s_interval := k8s_interval h; k8s_initial_delay := k8s_initial_delay h; k8s_checks := checks |})
    (k8s_health k) in
  Ok {| objects := objects; k8s_health := health; k8s_version := k8s_version k; guid_checker := guid_checker k |}.

(** [Templateable for Deployment]; [Runtime] is its only field. *)
Definition template_deployment (d : DeploymentDef) (variables : Variables) :
  result RenderedDeployment AgentTypeError :=
  match d with
  | HostDef on_host => map_ok Host (template_on_host on_host variables)
  | K8sDef k8s => map_ok OnK8s (template_k8s k8s variables)
  end.

End Rendering.

(** ** Well-formed definitions *)

(** What reading a definition gives: the keys of the trees of files are [SafePath]s, and differ. *)
Inductive wf_entry_def : EntryDef -> Prop :=
| wf_file_def t p : wf_entry_def (FileDef t p)
| wf_dir_def es p :
    NoDup (map (fun kv => components kv.1) es) -> Forall (fun kv => safe_key kv.1 /\ wf_entry_def kv.2) es ->
    wf_entry_def (DirDef es p)
| wf_dir_content_def s : wf_entry_def (DirContentFromMapDef s).

Definition wf_filesystem_def (l : list (string * EntryDef)) : Prop :=
  NoDup (map (fun kv => components kv.1) l) /\ Forall (fun kv => safe_key kv.1 /\ wf_entry_def kv.2) l.

Definition wf_deployment_def (d : DeploymentDef) : Prop :=
  match d with HostDef on_host => wf_filesystem_def (def_filesystem on_host) | K8sDef _ => True end.

Lemma entry_def_ind' (P : EntryDef -> Prop) :
  (forall t p, P (FileDef t p)) ->
  (forall es p, Forall (fun kv => P kv.2) es -> P (DirDef es p)) ->
  (forall s, P (DirContentFromMapDef s)) -> forall e, P e.
Proof.
  intros Hf Hd Hm. fix IH 1. intros [t p|es p|s]; [apply Hf| |apply Hm].
  apply Hd. induction es as [|[k e] es IHl]; constructor; [apply IH|exact IHl].
Qed.

(** ** Lemmas *)

Lemma and_then_ok {A B E} (r : result A E) (f : A -> result B E) b :
  and_then r f = Ok b <-> exists a, r = Ok a /\ f a = Ok b.
Proof. destruct r; simpl; naive_solver. Qed.

Lemma map_ok_ok {A B E} (f : A -> B) (r : result A E) b : map_ok f r = Ok b <-> exists a, r = Ok a /\ b = f a.
Proof. destruct r; simpl; naive_solver. Qed.

(** Mapping the values of entries keeps their keys. *)
Lemma try_map_pairs {K K' A B E} (g : K -> K') (f : A -> result B E) (l : list (K * A)) (l' : list (K' * B)) :
  try_map (fun kv => map_ok (pair (g kv.1)) (f kv.2)) l = Ok l' ->
  l'.*1 = g <$> l.*1 /\ Forall2 (fun kv kv' => kv'.1 = g kv.1 /\ f kv.2 = Ok kv'.2) l l'.
Proof.
  intros H%try_map_ok. induction H as [|[k a] [k' b] l l' Hf Hl [IH1 IH2]]; [done|].
  simpl in Hf. apply map_ok_ok in Hf as (b' & Hb & [= -> ->]). split; [by simpl; f_equal|by constructor].
Qed.

Lemma check_executable_ids_spec ids l :
  check_executable_ids ids l = Ok tt <-> NoDup (def_id <$> l) /\ Forall (fun e => def_id e ∉ ids) l.
Proof.
  revert ids. induction l as [|e l IH]; intros ids; simpl; [by repeat constructor|].
  case_bool_decide as Hin; [split; [done|]; by intros [_ [? _]%Forall_cons]|]. rewrite IH, NoDup_cons, Forall_cons, list_elem_of_fmap.
  rewrite !Forall_forall. setoid_rewrite not_elem_of_union. setoid_rewrite not_elem_of_singleton. split.
  - intros [Hd Hl]. split_and!; [|done|done|by intros x Hx; apply Hl]. intros (x & Hx & Hxl). by destruct (Hl x Hxl).
  - intros [[Hn Hd] [_ Hl]]. split; [done|]. intros x Hx. split; [|by apply Hl]. intros Hxe. apply Hn. by exists x.
Qed.

Section Lemmas.
Context `{RX : RegexLib} `{RL : !RegexLaws} `{HO : HashOrder} `{YV : YamlValues} `{CP : ConfigParsers}.

Lemma template_empty variables : template_string "" variables = Ok "".
Proof using RL. unfold template_string. rewrite find_iter_spec by (vm_compute; reflexivity). vm_compute. reflexivity. Qed.

(** What was given without a template is not looked at: an empty template is the default. *)
Lemma template_tv_new {T} (parse : string -> option T) (dflt v : T) variables :
  template_tv parse dflt (tv_new v) variables = Ok dflt.
Proof using RL. unfold template_tv, tv_new. simpl. by rewrite template_empty. Qed.

Context `{CL : !ConfigParsersLaws}.

Lemma template_entry_wf variables e r :
  wf_entry_def e -> template_entry variables e = Ok r -> wf_entry r.
Proof using CL.
  revert r. induction e as [t p|es p IH|s] using entry_def_ind'; intros r Hwf; cbn [template_entry].
  - intros (c & _ & (b & _ & [= <-])%and_then_ok)%and_then_ok. constructor.
  - intros (ch & Hch & (b & _ & [= <-])%and_then_ok)%and_then_ok.
    inversion Hwf as [|? ? Hnd Hall|]; subst. apply (try_map_pairs (fun k => k)) in Hch as [Hk%(fun H => eq_trans H (list_fmap_id _)) H2].
    constructor.
    + change (NoDup (map (fun kv => components kv.1) ch)). rewrite <-(map_map fst components).
      change (map fst ch) with ch.*1. rewrite Hk. change es.*1 with (map fst es). by rewrite map_map.
    + rewrite Forall_forall in IH, Hall. apply Forall_forall. intros [k' r'] (i & Hi)%list_elem_of_lookup.
      destruct (Forall2_lookup_r _ _ _ _ _ H2 Hi) as ([k e] & Hke%list_elem_of_lookup_2 & Hkk & He). simpl in *. subst k'.
      destruct (Hall _ Hke) as [Hs Hwe]. split; [done|]. by apply (IH _ Hke).
  - intros (m & Hm & [= <-])%and_then_ok. unfold template_dir_map in Hm. apply and_then_ok in Hm as (t & _ & Hm).
    destruct (str_is_empty t); [injection Hm as <-; by repeat constructor|].
    apply and_then_ok in Hm as (l & Hl & [= <-]). destruct (path_map_from_yaml t) as [l'|] eqn:El; [|done]. injection Hl as ->.
    constructor.
    + rewrite map_map. by apply path_map_distinct in El.
    + apply path_map_safe in El. apply Forall_forall. intros kv (kv' & <- & Hin%list_elem_of_In)%list_elem_of_In%in_map_iff.
      rewrite Forall_forall in El. by apply El.
Qed.

Lemma template_filesystem_wf l variables fs :
  wf_filesystem_def l -> template_filesystem l variables = Ok fs ->
  wf_filesystem fs /\ exists dir, filesystem_agent_dir variables = Ok dir /\ base_dir fs = components dir.
Proof using CL.
  intros [Hnd Hall] (dir & Hdir & (es & Hes & [= <-])%and_then_ok)%and_then_ok. split; [|by exists dir].
  apply (try_map_pairs (join_path (components dir))) in Hes as [Hk H2]. rewrite Forall_forall in Hall. split; simpl.
  - apply Forall_forall. intros [p e] (i & Hi)%list_elem_of_lookup.
    destruct (Forall2_lookup_r _ _ _ _ _ H2 Hi) as ([k d] & Hkd%list_elem_of_lookup_2 & Hp & He). simpl in *. subst p.
    destruct (Hall _ Hkd) as [Hs Hwd]. split; [|by eapply template_entry_wf].
    destruct (join_safe (components dir) k Hs) as (c & -> & _ & Hg). by exists c.
  - rewrite Hk. clear -Hnd Hall. induction l as [|[k d] l IH]; [constructor|]. simpl in *.
    apply NoDup_cons in Hnd as [Hn Hnd]. apply NoDup_cons. split; [|apply IH; [done|intros; apply Hall; by right]].
    intros (k' & Hj & ([k'' d'] & -> & Hin)%list_elem_of_fmap)%list_elem_of_fmap. apply Hn.
    apply list_elem_of_In, in_map_iff. exists (k'', d'). split; [|by apply list_elem_of_In]. simpl in *.
    destruct (join_safe (components dir) k) as (c & Hc & -> & _); [by destruct (Hall (k, d)); [left|]|].
    destruct (join_safe (components dir) k'') as (c' & Hc' & -> & _); [by destruct (Hall (k'', d')); [by right|]|].
    rewrite Hc, Hc' in Hj. by apply app_inv_head in Hj.
Qed.

(** *** Variables of packages *)

Lemma package_dir_variable_inj a b : package_dir_variable a = package_dir_variable b -> a = b.
Proof using.
  unfold package_dir_variable. intros [_ E]%namespaced_name_inj. apply str_app_inj_l in E. by apply str_app_inj_r in E.
Qed.

(** The variables the loop adds *)
Definition package_dir_entry (remote_dir : Path) (id : AgentID) (kp : string * RenderedPackage) : string * Variable_ :=
  (package_dir_variable kp.1,
   new_final_string_variable (show_path (installation_path (new_package remote_dir id (package_data_of kp.1 kp.2))))).

Lemma get_package_path_new remote_dir id p :
  wf_agent_id id -> normal_name (package_id p) ->
  get_package_path remote_dir id p = Ok (installation_path (new_package remote_dir id p)).
Proof using.
  intros Hid Hn. unfold get_package_path. rewrite package_path by (done || by split_and!).
  unfold new_package, stored_dir. simpl. by rewrite <-!app_assoc.
Qed.

Lemma include_packages_fold (f : OCIPackageManagerError -> string -> AgentTypeError) remote_dir id l (variables : Variables) :
  wf_agent_id id -> Forall (fun kp => normal_name kp.1) l ->
  try_fold (fun (variables : Variables) kp =>
      let? path := map_err (fun e => f e kp.1) (get_package_path remote_dir id (package_data_of kp.1 kp.2)) in
      Ok (<[package_dir_variable kp.1 := new_final_string_variable (show_path path)]> variables)) variables l =
  Ok (fold_left (fun (acc : Variables) kv => <[kv.1 := kv.2]> acc) (package_dir_entry remote_dir id <$> l) variables).
Proof using.
  intros Hid. revert variables. induction l as [|[k p] l IH]; intros variables; [done|].
  intros [Hk Hl]%Forall_cons. cbn [try_fold]. rewrite get_package_path_new by done. cbn [map_err and_then].
  rewrite IH by done. done.
Qed.

(** Only variables of packages are added. *)
Lemma include_packages_other variables packages variables' k :
  include_packages_variables variables packages = Ok variables' ->
  (forall pk, k <> package_dir_variable pk) -> variables' !! k = variables !! k.
Proof using.
  intros E Hk. unfold include_packages_variables in E. case_bool_decide; [by injection E as <-|].
  apply and_then_ok in E as (rd & _ & (name & _ & (agent & _ & E)%and_then_ok)%and_then_ok).
  revert variables E. induction (entries packages) as [|[pk p] l IH]; intros variables; cbn [try_fold].
  { by intros [= <-]. }
  intros (v1 & (path & _ & [= <-])%and_then_ok & E)%and_then_ok. rewrite (IH _ E). by apply lookup_insert_ne.
Qed.

(** The variables of a sub-agent that packages need *)
Definition sub_agent_attributes (variables : Variables) (remote_dir : Path) (id : AgentID) : Prop :=
  get_sub_agent_variable variables VARIABLE_REMOTE_DIR = Some (show_path remote_dir) /\
  get_sub_agent_variable variables VARIABLE_SUB_AGENT_ID = Some (as_str id).

(** The variables of packages are added and no other is changed. *)
Lemma include_packages_spec variables packages remote_dir name :
  remote_dir <> [] -> Forall normal_name remote_dir ->
  wf_agent_id (AgentId.SubAgent name) -> sub_agent_attributes variables remote_dir (AgentId.SubAgent name) ->
  (forall k, is_Some (packages !! k) -> normal_name k) ->
  exists variables', include_packages_variables variables packages = Ok variables' /\
    (forall k p, packages !! k = Some p ->
       variables' !! package_dir_variable k =
         Some (new_final_string_variable (show_path (installation_path
           (new_package remote_dir (AgentId.SubAgent name) (package_data_of k p)))))) /\
    (forall k, (forall pk, is_Some (packages !! pk) -> k <> package_dir_variable pk) ->
       variables' !! k = variables !! k).
Proof using.
  intros Hne Hrd Hid [Hr Ha] Hn. unfold include_packages_variables. case_bool_decide as Hp.
  { exists variables. split_and!; [done| |done]. intros k p. rewrite Hp. by rewrite lookup_empty. }
  rewrite Hr, Ha. cbn [ok_or and_then as_str]. unfold wf_agent_id in Hid. rewrite Hid. cbn [map_err and_then].
  rewrite components_show by done.
  rewrite (include_packages_fold (fun e k => RenderingTemplate
    ("Invalid OCI reference for package " +:+ k +:+ ": " +:+ show_path_error e))); [|done|].
  2: { apply Forall_forall. intros [k p] Hin%elem_of_entries. apply Hn. by exists p. }
  eexists. split_and!; [done|..].
  - intros k p Hk. apply fold_insert_lookup.
    + apply list_elem_of_fmap. exists (k, p). split; [done|]. by apply elem_of_entries.
    + intros v' ([k' p'] & [E ->]%pair_equal_spec & Hin%elem_of_entries)%list_elem_of_fmap.
      apply (package_dir_variable_inj k k') in E as <-. rewrite Hk in Hin. by injection Hin as <-.
  - intros k Hk. apply fold_insert_ne. intros (kv & -> & ([k' p'] & -> & Hin%elem_of_entries)%list_elem_of_fmap)%list_elem_of_fmap.
    by destruct (Hk k'); [exists p'|].
Qed.

End Lemmas.

(** ** Properties *)

(** The default restart policy says that delays grow linearly, and yet it is rendered to a
    constant delay: the value given to a [TemplateableValue] is never read. *)
Theorem default_restart_policy_is_fixed `{RX : RegexLib} `{RL : !RegexLaws} `{HO : HashOrder} `{YV : YamlValues}
    `{CP : ConfigParsers} variables :
  tv_value (def_backoff_type default_backoff_def) = Some LinearType /\
  template_backoff_strategy default_backoff_def variables = Ok default_backoff_config /\
  backoff_type default_backoff_config = FixedType.
Proof.
  split; [done|]. split; [|done]. unfold template_backoff_strategy, template_backoff_delay, template_max_retries,
    template_last_retry_interval, default_backoff_def. cbn [def_backoff_type def_backoff_delay def_max_retries def_last_retry_interval].
  by rewrite !template_tv_new.
Qed.

(** ** Concrete configurations *)

(** Parsers of a few texts *)
Definition example_parsers : ConfigParsers := {|
  duration_parse := fun s => from_secs <$> parse_unsigned u64_bound s;
  url_parse := fun s => Ok s;
  path_map_from_yaml := fun s => if String.eqb s "a.yaml: b" then Ok [("a.yaml", Str "b")] else Err "invalid";
|}.

Lemma example_parsers_laws : @ConfigParsersLaws example_parsers.
Proof.
  split; intros s l; simpl; destruct (String.eqb s "a.yaml: b"); try done; intros [= <-].
  - apply Forall_cons_2; [vm_compute; reflexivity|by apply Forall_nil_2].
  - apply NoDup_singleton.
Qed.

Lemma default_restart_policy_is_fixed_witness :
  template_backoff_strategy (CP := example_parsers) default_backoff_def ∅ = Ok default_backoff_config.
Proof. apply (default_restart_policy_is_fixed (CP := example_parsers) ∅). Defined.

Definition example_executable (id : string) : ExecutableDef := {|
  def_id := id; def_path := {| tv_value := None; template := "/bin/agent" |}; def_args := []; def_env := ∅;
  def_restart_policy := default_backoff_def;
|}.

(** The identifiers of the executables of a deployment are checked before they are rendered: two
    that differ can be the same for the sub-agent. *)
Theorem rendered_executable_ids_collide :
  let defs := [example_executable "x"; example_executable "${nr-var:b}"] in
  deserialize_executables defs = Ok defs /\
  exists l, try_map (template_executable (CP := example_parsers) example_variables) defs = Ok l /\
    executable_id <$> l = ["x"; "x"].
Proof. split; [by vm_compute|]. eexists. split; vm_compute; reflexivity. Qed.
