(* ===== verification/Assembler.v ===== *)
(** * Assembling a sub-agent from its agent type and its values

    Models reading an agent type definition ([AgentTypeDefinition::from_slice] in
    [agent_type/definition.rs]), the attributes of a sub-agent ([agent_type/agent_attributes.rs]),
    the renderer ([agent_type/render.rs]) and [LocalEffectiveAgentsAssembler] in
    [sub_agent/effective_agents_assembler.rs], and composes them with the registry, the secrets,
    the rendering of the runtime configuration and the writing of files. *)

From Stdlib Require Import String NArith.
From stdpp Require Import base option list strings gmap.
From S2P Require Import Prelude RustString AgentId AgentTypeId Regex Json ProtocolVersion YamlConfig Variables.
From S2P Require Import Templates Secrets OciTypes Registry FileStore HostFs PackageManager Filesystem.
From S2P Require Import Backoff OnHostProcess SubAgent OnHostSupervisor RuntimeConfig.

(** ** Agent types ([definition.rs]) *)

(** The variables and the deployment of a definition *)
Record TypeBody : Type := {
  type_variables : list (string * Tree VariableDefinition);
  runtime_config : DeploymentDef;
}.

Abbreviation Definition_ := (@Registry.AgentTypeDefinition _ TypeBody).

Inductive AgentTypeDefinitionParseError : Type :=
| ProtocolVersionParse (e : ProtocolVersionError)
| YamlParse (e : string)
| DefinitionParse (e : string).

(** [Display for AgentTypeDefinitionParseError] *)
Definition show_parse_error (e : AgentTypeDefinitionParseError) : string :=
  match e with
  | ProtocolVersionParse e => "incompatible protocol version: " +:+ ProtocolVersion.show_error e
  | YamlParse e => "invalid agent type yaml: " +:+ e
  | DefinitionParse e => "invalid agent type definition: " +:+ e
  end.

(** What the code derives from its types with [serde]: the document of some bytes, the fields of
    a definition with its deployment still a value, and the two kinds of deployment; with the
    version the build supports and the text of a value. *)
Class DefinitionSerde `{SemVer} : Type := {
  supported_protocol_version : ProtocolVersion;
  json_text : value -> string;
  document_from_yaml : string -> result value string;
  fields_from_value : value -> result (AgentTypeMetadata * list (string * Tree VariableDefinition) * value) string;
  on_host_from_value : value -> result OnHostDef string;
  k8s_from_value : value -> result K8s string;
}.

(** The keys of the files of a deployment are read as [SafePath]s. *)
Class DefinitionSerdeLaws `{SemVer} (DS : DefinitionSerde) : Prop := {
  on_host_paths v d : on_host_from_value v = Ok d -> wf_filesystem_def (def_filesystem d);
}.

Record AgentType `{SemVer} : Type := {
  type_id : AgentTypeID;
  variables : list (string * Tree Variable_);
  type_runtime_config : DeploymentDef;
}.

Section AgentTypes.
Context `{SV : SemVer} `{DS : !DefinitionSerde}.

(** [Deserialize for RawAgentTypeDefinition]: the environment says what the deployment is. *)
Definition raw_definition_from_value (v : value) : result Definition_ string :=
  let? fields := fields_from_value v in
  let '(metadata, variables, deployment) := fields in
  let? deployment :=
    match environment metadata with
    | Linux | Windows =>
        let? on_host := on_host_from_value deployment in
        let? _ := deserialize_executables (def_executables on_host) in
        Ok (HostDef on_host)
    | Registry.K8s => map_ok K8sDef (k8s_from_value deployment)
    end in
  Ok {| metadata := metadata; body := {| type_variables := variables; runtime_config := deployment |} |}.

(** [AgentTypeDefinition::from_slice] *)
Definition from_slice (content : string) : result Definition_ AgentTypeDefinitionParseError :=
  let? document := map_err YamlParse (document_from_yaml content) in
  let? _ := map_err ProtocolVersionParse (validate supported_protocol_version json_text document) in
  map_err DefinitionParse (raw_definition_from_value document).

(** What the registries read: an error is its text. *)
Definition read_definition (content : string) : result Definition_ string :=
  map_err show_parse_error (from_slice content).

(** [AgentTypeDefinition::with_constraints] *)
Definition with_constraints (d : Definition_) (constraints : VariableConstraints) : AgentType := {|
  type_id := definition_id d;
  variables := with_config constraints (type_variables (body d));
  type_runtime_config := runtime_config (body d);
|}.

End AgentTypes.

(** ** The attributes of a sub-agent ([agent_attributes.rs]) *)

Definition AGENT_FILESYSTEM_FOLDER_NAME : string := "filesystem".
Definition SHARED_FILESYSTEM_FOLDER_NAME : string := "shared-filesystem".

Record AgentAttributes : Type := {
  agent_id : string;
  agent_filesystem_dir : Path;
  shared_filesystem_dir : Path;
  attributes_remote_dir : Path;
}.

(** [AgentAttributes::try_new]; the error is its text. *)
Definition attributes_try_new (id : AgentID) (remote_dir : Path) : result AgentAttributes string :=
  match id with
  | AgentId.SubAgent agent_id =>
      Ok {| agent_id := agent_id;
            agent_filesystem_dir := join_path (join_path remote_dir AGENT_FILESYSTEM_FOLDER_NAME) agent_id;
            shared_filesystem_dir := join_path remote_dir SHARED_FILESYSTEM_FOLDER_NAME;
            attributes_remote_dir := remote_dir |}
  | AgentId.AgentControl => Err "Failed to create AgentAttributes: Used reserved Agent ID"
  end.

Definition sub_agent_variables (a : AgentAttributes) : Variables :=
  {[ namespaced_name SubAgentNs VARIABLE_SUB_AGENT_ID := new_final_string_variable (agent_id a);
     namespaced_name SubAgentNs VARIABLE_FILESYSTEM_AGENT_DIR :=
       new_final_string_variable (show_path (agent_filesystem_dir a));
     namespaced_name SubAgentNs VARIABLE_SHARED_FILESYSTEM_DIR :=
       new_final_string_variable (show_path (shared_filesystem_dir a));
     namespaced_name SubAgentNs VARIABLE_REMOTE_DIR :=
       new_final_string_variable (show_path (attributes_remote_dir a)) ]}.

(** ** The renderer and the assembler *)

(** [TemplateRenderer::with_agent_control_variables] *)
Definition with_agent_control_variables (vars : list (string * Variable_)) : Variables :=
  fold_left (fun acc kv => <[kv.1 := kv.2]> acc)
    (map (fun kv => (namespaced_name AgentControlNs kv.1, kv.2)) vars) ∅.

Inductive EffectiveAgentsAssemblerError : Type :=
| AssemblerGeneric (e : string)
| AssemblerRegistry (e : AgentTypeRegistryError)
| AssemblerAgentType (e : AgentTypeError)
| AssemblerSecretVariables (e : SecretVariablesError).

Abbreviation Effective :=
  (@OnHostSupervisor.EffectiveAgent _ FileSystem OnHostHealthConfig PostDownloadHook Oci RuntimeConfig.K8s).

Section Assembler.
Context `{SV : SemVer} `{RX : RegexLib} `{HO : HashOrder} `{YV : YamlValues} `{CP : ConfigParsers}.
Context `{JE : JsonErrors} `{OU : Outside} `{YA : Yaml}.

(** [TemplateRenderer::render] *)
Definition render (ac_variables : Variables) (agent_type : AgentType) (values : YAMLConfig)
    (attributes : AgentAttributes) (env_vars secrets : Variables) : result RenderedDeployment AgentTypeError :=
  let? values_expanded := template_config secrets values in
  let? filled := fill_with_values (entries values_expanded) (variables agent_type) in
  let filled_variables := flatten filled in
  let? _ := check_all_vars_are_populated filled_variables in
  let ns_variables :=
    build_namespaced_variables ac_variables filled_variables env_vars (sub_agent_variables attributes) in
  template_deployment (type_runtime_config agent_type) ns_variables.

(** The assembler, with the environment of the process *)
Record Assembler : Type := {
  registry : AgentTypeID -> result Definition_ AgentTypeRegistryError;
  ac_variables : Variables;
  variable_constraints : VariableConstraints;
  secrets_providers : SecretsProviders;
  assembler_remote_dir : Path;
  process_env : gmap string string;
}.

(** [LocalEffectiveAgentsAssembler::assemble_agent]; [None] is a panic. *)
Definition assemble_agent (asm : Assembler) (agent_identity : AgentIdentity) (values : YAMLConfig) :
  option (result Effective EffectiveAgentsAssemblerError) :=
  match map_err AssemblerRegistry (registry asm (agent_type_id agent_identity)) with
  | Err e => Some (Err e)
  | Ok definition =>
      let agent_type := with_constraints definition (variable_constraints asm) in
      match map_err AssemblerGeneric (attributes_try_new (id agent_identity) (assembler_remote_dir asm)),
            map_err AssemblerSecretVariables (secret_variables_try_from values) with
      | Err e, _ => Some (Err e)
      | _, Err e => Some (Err e)
      | Ok attributes, Ok secret_variables =>
          secret_variables ← secret_variables;
          Some (
            let? secrets := map_err AssemblerSecretVariables (load_secrets secret_variables (secrets_providers asm)) in
            let? runtime_config := map_err AssemblerAgentType
              (render (ac_variables asm) agent_type values attributes (load_env_vars (process_env asm)) secrets) in
            Ok {| effective_identity := agent_identity; deployment := runtime_config |})
      end
  end.

(** [EffectiveAgent::get_k8s_config]; [get_onhost_config] is that of the supervisor. *)
Definition get_k8s_config (a : Effective) : result RuntimeConfig.K8s EffectiveAgentsAssemblerError :=
  match deployment a with
  | OnK8s k8s => Ok k8s
  | OnHostSupervisor.Host _ => Err (AssemblerGeneric "missing k8s deployment configuration")
  end.

End Assembler.

(** ** Lemmas *)

Section Lemmas.
Context `{SV : SemVer} `{DS : !DefinitionSerde} `{DL : !DefinitionSerdeLaws DS}.

(** A definition that was read has the deployment of its environment. *)
Lemma read_definition_ok raw (d : Definition_) :
  read_definition raw = Ok d ->
  wf_deployment_def (runtime_config (body d)) /\
  match runtime_config (body d) with
  | HostDef on_host => environment (metadata d) <> Registry.K8s /\ NoDup (def_id <$> def_executables on_host)
  | K8sDef _ => environment (metadata d) = Registry.K8s
  end.
Proof using DL.
  unfold read_definition, from_slice. destruct (document_from_yaml raw) as [v|]; simpl; [|done].
  destruct (validate _ _ v); simpl; [|done]. destruct (raw_definition_from_value v) as [d'|] eqn:E; simpl; [|done].
  intros [= ->]. apply and_then_ok in E as ([[m vs] dep] & _ & (x & Hx & [= <-])%and_then_ok). simpl.
  assert (forall e, (let? on_host := on_host_from_value dep in
     let? _ := deserialize_executables (def_executables on_host) in Ok (HostDef on_host)) = Ok x -> e <> Registry.K8s ->
     wf_deployment_def x /\ match x with HostDef on_host => e <> Registry.K8s /\ NoDup (def_id <$> def_executables on_host)
                            | K8sDef _ => e = Registry.K8s end) as Hhost.
  { intros e (oh & Hoh%on_host_paths & (l & (u & Hu & _)%and_then_ok & [= <-])%and_then_ok)%and_then_ok He.
    destruct u. apply check_executable_ids_spec in Hu as [Hu _]. done. }
  destruct (environment m); [by apply Hhost|by apply Hhost|]. by apply map_ok_ok in Hx as (k & _ & ->).
Qed.

End Lemmas.

Lemma with_agent_control_ns vars : in_namespace AgentControlNs (with_agent_control_variables vars).
Proof.
  intros k [v Hv]. destruct (decide (k ∈ (map (fun kv => (namespaced_name AgentControlNs kv.1, kv.2)) vars).*1)) as [Hin|Hin].
  - apply list_elem_of_fmap in Hin as (kv & -> & ([name x] & <- & _)%list_elem_of_In%in_map_iff). by exists name.
  - pose proof (fold_insert_ne (K := string) (V := Variable_) _ ∅ k Hin) as E. rewrite lookup_empty in E.
    pose proof (eq_trans (eq_sym Hv) E) as E'. discriminate E'.
Qed.

Lemma load_env_vars_ns `{HashOrder} env : in_namespace EnvironmentVariableNs (load_env_vars env).
Proof.
  intros k [v Hv%elem_of_list_to_map_2]. apply list_elem_of_fmap in Hv as ([name x] & [E _]%pair_equal_spec & _). by exists name.
Qed.

Lemma sub_agent_variables_ns a : in_namespace SubAgentNs (sub_agent_variables a).
Proof.
  intros k [v Hv]. unfold sub_agent_variables in Hv.
  repeat (apply lookup_insert_Some in Hv as [[<- _]|[_ Hv]]; [by eexists|]).
  apply lookup_singleton_Some in Hv as [<- _]. by eexists.
Qed.

Section Assembled.
Context `{SV : SemVer} `{RX : RegexLib} `{RL : !RegexLaws} `{HO : HashOrder} `{YV : YamlValues} `{CP : ConfigParsers}.
Context `{JE : JsonErrors} `{OU : Outside} `{YA : Yaml}.

(** The stages of assembling: the deployment of the type the registry gives is rendered with
    variables among which those of the sub-agent are its own. *)
Lemma assemble_stages asm l identity values ea :
  ac_variables asm = with_agent_control_variables l ->
  assemble_agent asm identity values = Some (Ok ea) ->
  exists name d vars, id identity = AgentId.SubAgent name /\ registry asm (agent_type_id identity) = Ok d /\
    effective_identity ea = identity /\ template_deployment (runtime_config (body d)) vars = Ok (deployment ea) /\
    forall v, vars !! namespaced_name SubAgentNs v =
      sub_agent_variables {|
        agent_id := name;
        agent_filesystem_dir := join_path (join_path (assembler_remote_dir asm) AGENT_FILESYSTEM_FOLDER_NAME) name;
        shared_filesystem_dir := join_path (assembler_remote_dir asm) SHARED_FILESYSTEM_FOLDER_NAME;
        attributes_remote_dir := assembler_remote_dir asm |} !! namespaced_name SubAgentNs v.
Proof using.
  intros Hac. unfold assemble_agent. destruct (registry asm _) as [d|] eqn:Hd; simpl; [|done].
  destruct (id identity) as [|name] eqn:Hid; simpl; [done|].
  destruct (secret_variables_try_from values) as [[sv|]|]; simpl; [|done|done].
  intros [= E]. apply and_then_ok in E as (secrets & _ & (rc & Hr & [= <-])%and_then_ok).
  destruct (render _ _ _ _ _ _) as [rc'|] eqn:Er; simpl in Hr; [|done]. injection Hr as ->. unfold render in Er.
  apply and_then_ok in Er as (ve & _ & (filled & _ & ([] & _ & Er)%and_then_ok)%and_then_ok).
  exists name, d. eexists. split_and!; [done..| |].
  - exact Er.
  - intros v. rewrite Hac. rewrite build_namespaced_lookup; [done|apply sub_agent_variables_ns|apply load_env_vars_ns|apply with_agent_control_ns].
Qed.

(** The directory of a sub-agent's files *)
Definition files_dir (remote_dir : Path) (id : AgentID) : Path :=
  remote_dir ++ [AGENT_FILESYSTEM_FOLDER_NAME; as_str id].

Lemma files_dir_joined remote_dir name :
  wf_agent_id (AgentId.SubAgent name) ->
  join_path (join_path remote_dir AGENT_FILESYSTEM_FOLDER_NAME) name = files_dir remote_dir (AgentId.SubAgent name).
Proof using.
  intros Hid. rewrite !join_normal; [|by split_and!|by apply (agent_name_normal (AgentId.SubAgent name))].
  unfold files_dir. by rewrite <-app_assoc.
Qed.

Lemma files_dir_normal remote_dir id :
  wf_agent_id id -> Forall normal_name remote_dir -> Forall normal_name (files_dir remote_dir id).
Proof using.
  intros Hid Hr. apply Forall_app_2; [done|]. apply Forall_cons_2; [by split_and!|].
  apply Forall_cons_2; [by apply agent_name_normal|by apply Forall_nil_2].
Qed.

Context `{CL : !ConfigParsersLaws}.

(** The files of a rendered deployment are below the directory the variables name. *)
Lemma rendered_on_host_files oh_def vars oh dir :
  wf_filesystem_def (def_filesystem oh_def) -> template_on_host oh_def vars = Ok oh ->
  vars !! namespaced_name SubAgentNs VARIABLE_FILESYSTEM_AGENT_DIR = Some (new_final_string_variable dir) ->
  wf_filesystem (filesystem oh) /\ base_dir (filesystem oh) = components dir.
Proof using CL.
  intros Hwf E Hdir. apply and_then_ok in E as (ps & _ & (ext & Hext & E)%and_then_ok).
  apply and_then_ok in E as (ex & _ & (fl & _ & (hc & _ & (fs & Hfs & [= <-])%and_then_ok)%and_then_ok)%and_then_ok).
  apply template_filesystem_wf in Hfs as (Hw & dir' & Hd & Hb); [|done]. split; [done|]. simpl. rewrite Hb.
  unfold filesystem_agent_dir in Hd. rewrite (include_packages_other _ _ _ _ Hext), Hdir in Hd; [by injection Hd as ->|].
  intros pk [_ E]%namespaced_name_inj. discriminate E.
Qed.

End Assembled.

Section Properties.
Context `{SV : SemVer} `{DS : !DefinitionSerde} `{DL : !DefinitionSerdeLaws DS}.
Context `{RX : RegexLib} `{RL : !RegexLaws} `{HO : HashOrder} `{YV : YamlValues}.
Context `{CP : ConfigParsers} `{CL : !ConfigParsersLaws} `{JE : JsonErrors} `{OU : Outside} `{YA : Yaml}.
Context `{MS : ManifestSerde}.

(** ** Properties *)

(** C15: Whatever the agent types, embedded, custom or downloaded, and whatever the values: a
    sub-agent that can be assembled keeps its identity and has the kind of deployment of the
    running environment, and on a host writing its files changes nothing outside the directory
    that bears its identifier. *)
Theorem assembled_agent_confined asm env files dir download local ac identity values ea :
  local_new read_definition env files dir = Some local ->
  registry asm = registry_get [local_get local; remote_get read_definition env download] ->
  ac_variables asm = with_agent_control_variables ac ->
  Forall normal_name (assembler_remote_dir asm) -> wf_agent_id (id identity) ->
  assemble_agent asm identity values = Some (Ok ea) ->
  effective_identity ea = identity /\
  match deployment ea with
  | OnHostSupervisor.Host oh =>
      env <> Registry.K8s /\ get_onhost_config ea = Ok oh /\
      forall h r h', filesystem_write (filesystem oh) h = (r, h') ->
        changes_below (files_dir (assembler_remote_dir asm) (id identity)) h h'
  | OnK8s k8s => env = Registry.K8s /\ get_k8s_config ea = Ok k8s
  end.
Proof using CL DL.
  intros Hlocal Hreg Hac Hrd Hid E.
  apply (assemble_stages _ ac) in E as (name & d & vars & Hname & Hd & Hi & Ht & Hvars); [|done].
  rewrite Hreg in Hd. pose proof (registry_get_parsed _ _ _ _ _ _ _ _ Hlocal Hd) as [raw Hraw].
  apply (registry_returns_requested _ _ _ _ _ _ _ _ Hlocal) in Hd as [_ Henv].
  apply read_definition_ok in Hraw as [Hwf Hkind]. split; [done|]. unfold get_onhost_config, get_k8s_config.
  destruct (runtime_config (body d)) as [oh_def|k8s]; cbn [template_deployment] in Ht;
    apply map_ok_ok in Ht as (x & Hx & ->); rewrite Henv in Hkind; [|done].
  destruct Hkind as [Hne _]. split; [done|]. split; [done|]. intros h r h' Hw.
  apply rendered_on_host_files with (dir := show_path (files_dir (assembler_remote_dir asm) (id identity))) in Hx as [Hwx Hb];
    [|done|].
  - apply filesystem_write_changes in Hw; [|done]. rewrite Hb, components_show in Hw; [done| |by apply files_dir_normal].
    unfold files_dir. by destruct (assembler_remote_dir asm).
  - rewrite Hname in Hid |- *. rewrite Hvars, <-files_dir_joined by done. reflexivity.
Qed.

(** The executables of an assembled sub-agent are those of its type, in order, rendered with
    variables in which each package's directory is the one its installation returns: a path
    written with it finds the package there. *)
Theorem package_variable_is_install_dir `{PT : PackageTools} asm ac identity values ea oh k p w ip w' :
  ac_variables asm = with_agent_control_variables ac ->
  assembler_remote_dir asm <> [] -> Forall normal_name (assembler_remote_dir asm) -> wf_agent_id (id identity) ->
  assemble_agent asm identity values = Some (Ok ea) -> get_onhost_config ea = Ok oh ->
  (forall k, is_Some (packages oh !! k) -> normal_name k) -> packages oh !! k = Some p ->
  install (assembler_remote_dir asm) (id identity) (package_data_of k p) w = (Ok ip, w') ->
  exists d oh_def vars, registry asm (agent_type_id identity) = Ok d /\ runtime_config (body d) = HostDef oh_def /\
    Forall2 (fun def e => template_executable vars def = Ok e) (def_executables oh_def) (executables oh) /\
    vars !! package_dir_variable k = Some (new_final_string_variable (show_path (installation_path ip))).
Proof using.
  intros Hac Hne Hrd Hid E Hoh Hn Hk Hi.
  apply (assemble_stages _ ac) in E as (name & d & vars & Hname & Hd & _ & Ht & Hvars); [|done].
  apply install_returns in Hi; [|done|by apply Hn; exists p]. rewrite Hname in *.
  unfold get_onhost_config in Hoh. destruct (deployment ea) as [oh'|]; [|done]. injection Hoh as ->.
  destruct (runtime_config (body d)) as [oh_def|] eqn:Hrc; cbn [template_deployment] in Ht; apply map_ok_ok in Ht as (x & Ht & Hx);
    [injection Hx as <-|done].
  apply and_then_ok in Ht as (ps & _ & (ext & Hext & Ht)%and_then_ok).
  apply and_then_ok in Ht as (ex & Hex & (fl & _ & (hc & _ & (fs & Hfs & Hoh)%and_then_ok)%and_then_ok)%and_then_ok).
  injection Hoh as <-. simpl in *. exists d, oh_def, ext. split_and!; [done..|by apply try_map_ok|].
  destruct (include_packages_spec vars ps (assembler_remote_dir asm) name) as (ext' & Hext' & Hp & _); [done..| |done|].
  - split; unfold get_sub_agent_variable; by rewrite Hvars.
  - rewrite Hext in Hext'. injection Hext' as <-. rewrite Hi. by apply Hp.
Qed.

(** Assembling a sub-agent never panics, whatever its values hold. *)
Theorem assemble_never_panics asm identity values : exists r, assemble_agent asm identity values = Some r.
Proof using RL.
  unfold assemble_agent. destruct (map_err _ (registry asm _)); [|by eexists]. destruct (map_err _ (attributes_try_new _ _)); [|by eexists].
  unfold secret_variables_try_from. destruct (string_try_from values) as [text|]; simpl; [|by eexists].
  destruct (secrets_of_text text) as (vars & -> & _). by eexists.
Qed.

End Properties.

(** ** A concrete agent type, from its bytes to the disk *)

Definition example_on_host : OnHostDef := {|
  def_executables := [{|
    def_id := "agent";
    def_path := {| tv_value := None; template := "${nr-sub:packages.a.dir}/agent" |};
    def_args := [{| tv_value := None; template := "--config=${nr-sub:filesystem_agent_dir}/key" |}];
    def_env := ∅; def_restart_policy := default_backoff_def |}];
  def_enable_file_logging := tv_default;
  def_health := {| def_interval := 0; def_initial_delay := 0; def_timeout := 0; def_check := None |};
  def_filesystem := [("key", FileDef {| tv_value := None; template := "${nr-var:license}" |} tv_default)];
  def_packages := {["a" := {|
    def_oci := {| def_repository := {| tv_value := None; template := "newrelic/a" |};
                  def_version := {| tv_value := None; template := "1.0" |}; def_public_key_url := None |};
    def_post_download_hook := None |}]};
|}.

Definition example_serde : DefinitionSerde := {|
  supported_protocol_version := {| major := 1; minor := 0 |};
  json_text := fun _ => "";
  document_from_yaml := fun _ => Ok (Object [("protocol_version", Str "1.0")]);
  fields_from_value := fun _ => Ok ({| meta_id := example_id; environment := Linux |}, example_definitions, Null);
  on_host_from_value := fun _ => Ok example_on_host;
  k8s_from_value := fun _ => Err "not for a cluster";
|}.

Lemma example_serde_laws : DefinitionSerdeLaws example_serde.
Proof.
  split. intros v d [= <-]. split; [apply NoDup_singleton|].
  apply Forall_cons_2; [split; [vm_compute; reflexivity|constructor]|by apply Forall_nil_2].
Qed.

Definition example_yaml : Yaml := {|
  parse_yaml_config := fun _ => Ok ∅;
  yaml_to_string := fun _ => Ok "license: key";
|}.

Definition example_local_registry : LocalRegistry (Body := TypeBody) :=
  default [] (local_new (read_definition (DS := example_serde)) Linux ["embedded"] None).

Lemma example_local_registry_ok :
  local_new (read_definition (DS := example_serde)) Linux ["embedded"] None = Some example_local_registry.
Proof.
  unfold example_local_registry. assert (bool_decide (is_Some
    (local_new (read_definition (DS := example_serde)) Linux ["embedded"] None)) = true) as H by (vm_compute; reflexivity).
  apply bool_decide_eq_true in H as [r ->]. reflexivity.
Qed.

Definition example_assembler : Assembler := {|
  registry := registry_get [local_get example_local_registry;
    remote_get (read_definition (DS := example_serde)) Linux (fun _ => Err "offline")];
  ac_variables := with_agent_control_variables [];
  variable_constraints := example_constraints;
  secrets_providers := ∅;
  assembler_remote_dir := ["data"];
  process_env := {["PATH" := "/bin"]};
|}.

Definition example_identity : AgentIdentity := {|
  SubAgent.id := AgentId.SubAgent "infra"; agent_type_id := example_id;
|}.

Definition example_assembled : option (result Effective EffectiveAgentsAssemblerError) :=
  assemble_agent (CP := example_parsers) (JE := example_json_errors) (OU := example_outside) (YA := example_yaml)
    example_assembler example_identity {["license" := Str "key"]}.

Definition example_effective : Effective :=
  match example_assembled with
  | Some (Ok ea) => ea
  | _ => {| effective_identity := example_identity;
            deployment := OnK8s {| objects := ∅; k8s_health := None; k8s_version := (0, 0)%N; guid_checker := (0, 0)%N |} |}
  end.

Lemma example_assembled_ok : example_assembled = Some (Ok example_effective).
Proof.
  assert (match example_assembled with Some (Ok _) => true | _ => false end = true) as H by (vm_compute; reflexivity).
  unfold example_effective. destruct example_assembled as [[ea|]|]; [done|discriminate H..].
Qed.

Definition example_rendered : RenderedOnHost :=
  match deployment example_effective with
  | OnHostSupervisor.Host oh => oh
  | OnK8s _ => {| executables := []; enable_file_logging := false;
                  health_config := {| health_interval := 0; health_initial_delay := 0; health_timeout := 0; health_check_of := None |};
                  filesystem := {| base_dir := []; fs_entries := [] |}; packages := ∅ |}
  end.

Lemma example_rendered_ok : get_onhost_config example_effective = Ok example_rendered.
Proof.
  assert (is_ok (get_onhost_config example_effective) = true) as H by (vm_compute; reflexivity).
  unfold example_rendered, get_onhost_config in *. by destruct (deployment example_effective).
Qed.

Definition example_written : HostFs.Host := (filesystem_write (filesystem example_rendered) example_host).2.

Lemma example_identity_wf : wf_agent_id (SubAgent.id example_identity).
Proof. vm_compute. reflexivity. Qed.

Lemma example_remote_dir : Forall normal_name (assembler_remote_dir example_assembler).
Proof. apply Forall_cons_2; [by split_and!|by apply Forall_nil_2]. Qed.

(** The agent's file is written, with the value of its variable, in the agent's directory. *)
Lemma assembled_agent_confined_witness :
  changes_below ["data"; "filesystem"; "infra"] example_host example_written /\
  nodes example_written !! ["data"; "filesystem"; "infra"; "key"] = Some (FileNode "key").
Proof.
  split; [|vm_compute; reflexivity].
  pose proof (assembled_agent_confined (DL := example_serde_laws) (CL := example_parsers_laws) (JE := example_json_errors)
    (OU := example_outside) (YA := example_yaml) example_assembler Linux ["embedded"] None (fun _ => Err "offline")
    example_local_registry [] example_identity {["license" := Str "key"]} example_effective) as H.
  destruct H as [_ H].
  - exact example_local_registry_ok.
  - reflexivity.
  - reflexivity.
  - exact example_remote_dir.
  - exact example_identity_wf.
  - exact example_assembled_ok.
  - pose proof example_rendered_ok as Hr. unfold get_onhost_config in Hr, H.
    destruct (deployment example_effective) as [oh|]; [|discriminate Hr]. apply (inj Ok) in Hr. subst oh.
    destruct H as (_ & _ & H). apply (H example_host (Ok tt)). unfold example_written.
    apply run_result. vm_compute. reflexivity.
Defined.

Definition example_pkg : RenderedPackage :=
  {| OnHostSupervisor.oci := {| oci_version := "1.0";
       oci_data := {| repository := "newrelic/a"; OciTypes.version := "1.0"; public_key_url := None |} |};
     OnHostSupervisor.post_download_hook := None |}.

Definition example_install : result InstalledPackageData OCIPackageManagerError * PackageWorld :=
  install (PT := example_tools 0) ["data"] (AgentId.SubAgent "infra") (package_data_of "a" example_pkg) PackageManager.example_world.

Definition example_installed : InstalledPackageData := {|
  installed_id := "a";
  installation_path := ["data"; "packages"; "infra"; "stored_packages"; "a"; "oci_newrelic__a_1_0"];
|}.

Lemma example_packages : packages example_rendered = {["a" := example_pkg]}.
Proof. vm_compute. reflexivity. Qed.

(** The executable is looked for where the package is installed. *)
Lemma package_variable_is_install_dir_witness :
  (exists vars : Variables, vars !! package_dir_variable "a" =
    Some (new_final_string_variable "/data/packages/infra/stored_packages/a/oci_newrelic__a_1_0")) /\
  executable_path <$> executables example_rendered =
    ["/data/packages/infra/stored_packages/a/oci_newrelic__a_1_0/agent"].
Proof.
  split; [|vm_compute; reflexivity].
  destruct (package_variable_is_install_dir (PT := example_tools 0) (JE := example_json_errors) (OU := example_outside)
    (YA := example_yaml) (CP := example_parsers) example_assembler [] example_identity {["license" := Str "key"]}
    example_effective example_rendered "a" example_pkg PackageManager.example_world example_installed example_install.2)
    as (_ & _ & vars & _ & _ & _ & H).
  - reflexivity.
  - discriminate.
  - exact example_remote_dir.
  - exact example_identity_wf.
  - exact example_assembled_ok.
  - exact example_rendered_ok.
  - rewrite example_packages. intros k [p [<- _]%lookup_singleton_Some]. by split_and!.
  - rewrite example_packages. apply lookup_singleton_eq.
  - unfold example_install. apply run_result. vm_compute. reflexivity.
  - exists vars. exact H.
Defined.

(** Values that name a secret no provider has *)
Lemma assemble_never_panics_witness : exists r,
  assemble_agent (CP := example_parsers) (JE := example_json_errors) (OU := example_outside) (YA := example_yaml)
    example_assembler example_identity {["license" := Str "${nr-vault:x}"]} = Some r.
Proof. apply (assemble_never_panics (CP := example_parsers) (JE := example_json_errors) (OU := example_outside) (YA := example_yaml)). Defined.
