(* ===== verification/K8sObjects.v ===== *)
(** * Objects of sub-agents in Kubernetes and their supervisor

    Models [k8s/dynamic_object.rs] with the calls of [k8s/client.rs] it serves and the helpers of
    [k8s/utils.rs], and the supervisor of [sub_agent/k8s/supervisor.rs] with its builder in
    [sub_agent/k8s/builder.rs]: the objects of a sub-agent are built from its deployment, and a
    thread applies those that differ from what the watcher of the cluster has seen.

    The cluster is what the API server stores and what the watcher has seen of it, which may be
    behind.  What the server makes of an object it is given is a parameter; that it keeps what has
    no nulls is a law.  A call fails when the next entry of [obj_faults] says so; a failed write may
    have been done. *)

From Stdlib Require Import Ascii String Lia.
From stdpp Require Import base option list strings gmap.
From S2P Require Import Prelude RustString AgentId AgentTypeId Json GarbageCollector SubAgent.
From S2P Require Import YamlConfig Variables OnHostSupervisor RuntimeConfig Assembler.

(** ** JSON values as [serde_json] compares and indexes them *)

Definition as_object (v : value) : option (list (string * value)) :=
  match v with Object f => Some f | _ => None end.

Definition as_str_value (v : value) : option string :=
  match v with Str s => Some s | _ => None end.

(** [Index<&str> for Value] *)
Definition index (k : string) (v : value) : value := default Null (Json.get k v).

(** Objects are compared as maps. *)
Fixpoint json_eq (v w : value) {struct v} : bool :=
  match v, w with
  | Null, Null => true
  | Bool a, Bool b => Bool.eqb a b
  | Number a, Number b => String.eqb a b
  | Str a, Str b => String.eqb a b
  | Array l, Array m =>
      (fix go l m := match l, m with
                     | [], [] => true
                     | v :: l, w :: m => json_eq v w && go l m
                     | _, _ => false
                     end) l m
  | Object f, Object g =>
      (length f =? length g) &&
      (fix go f := match f with
                   | [] => true
                   | (k, v) :: f => match Json.assoc k g with Some w => json_eq v w | None => false end && go f
                   end) f
  | _, _ => false
  end.

(** [Map::insert] *)
Fixpoint map_insert (k : string) (v : value) (f : list (string * value)) : list (string * value) :=
  match f with
  | [] => [(k, v)]
  | (k', v') :: f => if String.eqb k k' then (k, v) :: f else (k', v') :: map_insert k v f
  end.

(** [retain_not_null] *)
Fixpoint retain_not_null_value (v : value) : value :=
  match v with
  | Object fields =>
      Object ((fix go l := match l with
                           | [] => []
                           | (k, Null) :: l => go l
                           | (k, w) :: l => (k, retain_not_null_value w) :: go l
                           end) fields)
  | v => v
  end.

Definition retain_not_null (fields : list (string * value)) : value := retain_not_null_value (Object fields).

(** ** Dynamic objects ([kube], [utils.rs]) *)

Record DynamicObject : Type := {
  types : option TypeMeta;
  metadata : ObjectMeta;
  obj_data : value;
}.

Definition get_name (obj : DynamicObject) : result string K8sError :=
  ok_or (GarbageCollector.meta_name (metadata obj)) MissingResourceName.

Definition get_namespace (obj : DynamicObject) : result string K8sError :=
  ok_or (GarbageCollector.meta_namespace (metadata obj)) MissingResourceNamespace.

Definition get_type_meta (obj : DynamicObject) : result TypeMeta K8sError :=
  ok_or (types obj) MissingResourceKind.

(** The type, the namespace and the name of an object *)
Abbreviation ObjKey := (string * string * (string * string))%type.

Definition obj_key (tm : TypeMeta) (ns name : string) : ObjKey :=
  ((GarbageCollector.api_version tm, type_kind tm), (ns, name)).

(** The API server and the encoding of Secrets ([base64]) *)
Class ApiServer : Type := {
  stored_as : DynamicObject -> DynamicObject;
  encode : string -> string;
}.

Record ObjFault : Type := { obj_error : string; obj_done : bool }.

Record K8sWorld : Type := {
  live : gmap ObjKey DynamicObject;
  seen : gmap ObjKey DynamicObject;
  obj_faults : list (option ObjFault);
  writes : list DynamicObject;
}.

Definition next_obj_fault : M K8sWorld (option ObjFault) := fun w =>
  (mjoin (head (obj_faults w)),
   {| live := live w; seen := seen w; obj_faults := tail (obj_faults w); writes := writes w |}).

Section Manager.
Context `{AS : ApiServer}.

(** [DynamicObjectManagers::get_or_create] *)
Definition get_or_create : M K8sWorld (result unit K8sError) :=
  let* f := next_obj_fault in
  ret (match f with Some f => Err (OtherK8s (obj_error f)) | None => Ok tt end).

(** ** Whether an object differs from the one seen ([dynamic_object.rs]) *)

(** The entries of [stringData] that are strings, encoded, over those of [data] *)
Definition manifest_secret_data (from_manifest : DynamicObject) : list (string * value) :=
  let data := default [] (as_object (index "data" (obj_data from_manifest))) in
  match as_object (index "stringData" (obj_data from_manifest)) with
  | Some string_data =>
      fold_left (fun f kv => match as_str_value kv.2 with
                             | Some s => map_insert kv.1 (Str (encode s)) f
                             | None => f
                             end) string_data data
  | None => data
  end.

Definition secrets_data_are_equal (from_manifest from_cluster : DynamicObject) : bool :=
  match as_object (index "data" (obj_data from_cluster)) with
  | Some from_cluster_data => json_eq (Object (manifest_secret_data from_manifest)) (Object from_cluster_data)
  | None => match manifest_secret_data from_manifest with [] => true | _ => false end
  end.

Definition configmaps_data_are_equal (from_manifest from_cluster : DynamicObject) : bool :=
  json_eq (index "data" (obj_data from_manifest)) (index "data" (obj_data from_cluster)) &&
  json_eq (index "binaryData" (obj_data from_manifest)) (index "binaryData" (obj_data from_cluster)).

Definition is_type (version kind : string) (obj : DynamicObject) : bool :=
  match types obj with
  | Some t => String.eqb (GarbageCollector.api_version t) version && String.eqb (type_kind t) kind
  | None => false
  end.

Definition object_contents_are_equal (from_manifest from_cluster : DynamicObject) : bool :=
  if is_type "v1" "Secret" from_manifest then secrets_data_are_equal from_manifest from_cluster
  else if is_type "v1" "ConfigMap" from_manifest then configmaps_data_are_equal from_manifest from_cluster
  else json_eq (index "spec" (obj_data from_manifest)) (index "spec" (obj_data from_cluster)).

(** [DynamicObjectManager::get], [has_changed] *)
Definition manager_get (tm : TypeMeta) (ns name : string) (w : K8sWorld) : option DynamicObject :=
  seen w !! obj_key tm ns name.

Definition has_changed (tm : TypeMeta) (ns : string) (obj : DynamicObject) (w : K8sWorld) : result bool K8sError :=
  let? name := get_name obj in
  Ok (match manager_get tm ns name w with
      | None => true
      | Some obj_old =>
          if negb (object_contents_are_equal obj obj_old) then true
          else if negb (bool_decide (meta_labels (metadata obj_old) = meta_labels (metadata obj))) then true
          else if negb (bool_decide (meta_annotations (metadata obj_old) = meta_annotations (metadata obj))) then true
          else false
      end).

(** ** Writing *)

(** [Api::entry], [commit] *)
Definition entry (key : ObjKey) : M K8sWorld (result (option DynamicObject) string) :=
  let* f := next_obj_fault in
  fun w => (match f with Some f => Err (obj_error f) | None => Ok (live w !! key) end, w).

Definition commit_object (key : ObjKey) (obj : DynamicObject) : M K8sWorld (result unit K8sError) :=
  let* f := next_obj_fault in
  fun w =>
    let done := {| live := <[key := stored_as obj]> (live w); seen := seen w; obj_faults := obj_faults w;
                   writes := obj :: writes w |} in
    match f with
    | Some f => (Err (CommitError (obj_error f)), if obj_done f then done else w)
    | None => (Ok tt, done)
    end.

(** The fields [apply] sets on an object that is there *)
Definition with_manifest (obj_old obj : DynamicObject) : DynamicObject := {|
  types := types obj_old;
  metadata := {|
    GarbageCollector.meta_name := GarbageCollector.meta_name (metadata obj_old);
    GarbageCollector.meta_namespace := GarbageCollector.meta_namespace (metadata obj_old);
    meta_labels := meta_labels (metadata obj);
    meta_annotations := meta_annotations (metadata obj);
  |};
  obj_data := obj_data obj;
|}.

(** [DynamicObjectManager::apply] *)
Definition apply_object (tm : TypeMeta) (obj : DynamicObject) : M K8sWorld (result unit K8sError) :=
  let*? name := ret (get_name obj) in
  let*? namespace := ret (get_namespace obj) in
  let*? o := map_err_m (fun e => GetDynamic ("getting dynamic object with name " +:+ name +:+ ": " +:+ e))
    (entry (obj_key tm namespace name)) in
  commit_object (obj_key tm namespace name)
    match o with Some obj_old => with_manifest obj_old obj | None => obj end.

(** [DynamicObjectManager::apply_if_changed] *)
Definition apply_if_changed (tm : TypeMeta) (ns : string) (obj : DynamicObject) : M K8sWorld (result unit K8sError) := fun w =>
  match has_changed tm ns obj w with
  | Err e => (Err e, w)
  | Ok false => (Ok tt, w)
  | Ok true => apply_object tm obj w
  end.

(** [AsyncK8sClient::apply_dynamic_object_if_changed] *)
Definition apply_dynamic_object_if_changed (obj : DynamicObject) : M K8sWorld (result unit K8sError) :=
  let*? tm := ret (get_type_meta obj) in
  let*? ns := ret (get_namespace obj) in
  let*? _ := get_or_create in
  apply_if_changed tm ns obj.

(** [NotStartedSupervisorK8s::apply_resources] *)
Definition apply_resources (resources : list DynamicObject) : M K8sWorld (result unit K8sError) :=
  try_for_each resources apply_dynamic_object_if_changed.

(** The loop of [start_k8s_objects_supervisor].  [between] is what happens to the cluster during
    each wait; when it ends, the thread is cancelled. *)
Fixpoint objects_supervisor (resources : list DynamicObject) (between : list (K8sWorld -> K8sWorld)) : M K8sWorld unit :=
  let* _ := apply_resources resources in
  match between with
  | [] => ret tt
  | f :: between => fun w => objects_supervisor resources between (f w)
  end.

End Manager.

(** ** Building the objects ([supervisor.rs], [builder.rs]) *)

Inductive K8sSupervisorError : Type :=
| IncomingConfig (e : EffectiveAgentsAssemblerError)
| StoppingPreviousSupervisor (e : string)
| MissingRuntimeConfig (e : EffectiveAgentsAssemblerError)
| UnsupportedK8sObject (version kind : string).

Definition helmrelease_v2_type_meta : TypeMeta :=
  {| GarbageCollector.api_version := "helm.toolkit.fluxcd.io/v2"; type_kind := "HelmRelease" |}.

Definition instrumentation_v1beta3_type_meta : TypeMeta :=
  {| GarbageCollector.api_version := "newrelic.com/v1beta3"; type_kind := "Instrumentation" |}.

Section Supervisor.
Context `{SV : SemVer} `{HO : HashOrder}.

(** [create_dynamic_object]; writing the fields as a value does not fail. *)
Definition create_dynamic_object (identity : AgentIdentity) (k8s_obj : K8sObject) : DynamicObject := {|
  types := Some {| GarbageCollector.api_version := api_version k8s_obj; type_kind := object_kind k8s_obj |};
  metadata := {|
    GarbageCollector.meta_name := Some (meta_name (object_metadata k8s_obj));
    GarbageCollector.meta_namespace := Some (meta_namespace (object_metadata k8s_obj));
    meta_labels := Some (append_extra_labels (new_labels (id identity)) (list_to_map (labels (object_metadata k8s_obj))));
    meta_annotations := Some (sub_agent_owned_with_type (agent_type_id identity));
  |};
  obj_data := retain_not_null (fields k8s_obj);
|}.

(** [build_dynamic_objects] *)
Definition build_dynamic_objects (identity : AgentIdentity) (config : K8s) : list DynamicObject :=
  map (create_dynamic_object identity) (entries (objects config)).*2.

(** [SupervisorBuilder::build_supervisor]: the objects must be of the types that are collected. *)
Definition build_supervisor_k8s (cr_type_meta : list TypeMeta) (ea : Effective) :
  result (AgentIdentity * K8s) K8sSupervisorError :=
  let? config := map_err MissingRuntimeConfig (get_k8s_config ea) in
  let supported tm := existsb (fun t => String.eqb (GarbageCollector.api_version t) (api_version tm) &&
                                        String.eqb (type_kind t) (object_kind tm)) cr_type_meta in
  match find (fun o => negb (supported o)) (entries (objects config)).*2 with
  | Some o => Err (UnsupportedK8sObject (api_version o) (object_kind o))
  | None => Ok (effective_identity ea, config)
  end.

End Supervisor.

(** ** What the API server keeps *)

Fixpoint null_free (v : value) : bool :=
  match v with
  | Null => false
  | Array l => forallb null_free l
  | Object f => forallb (fun kv => null_free kv.2) f
  | _ => true
  end.

(** There are no nulls in arrays, where [retain_not_null] does not look. *)
Fixpoint arrays_null_free (v : value) : bool :=
  match v with
  | Array l => forallb null_free l
  | Object f => forallb (fun kv => arrays_null_free kv.2) f
  | _ => true
  end.

(** No entry of an object is null. *)
Fixpoint entries_null_free (v : value) : bool :=
  match v with
  | Array l => forallb entries_null_free l
  | Object f => forallb (fun kv => negb (json_eq kv.2 Null) && entries_null_free kv.2) f
  | _ => true
  end.

(** The keys of an object are different, as those of [serde_json::Map] are. *)
Fixpoint json_wf (v : value) : Prop :=
  match v with
  | Array l => Forall (fun P : Prop => P) (map json_wf l)
  | Object f => NoDup f.*1 /\ Forall (fun P : Prop => P) (map (fun kv => json_wf kv.2) f)
  | _ => True
  end.

(** The metadata that Agent Control sets and the contents without nulls are stored as they are; the
    [stringData] of a Secret is stored, encoded, in its [data]. *)
Class ApiServerLaws `{AS : ApiServer} : Prop := {
  stored_meta o : types (stored_as o) = types o /\ metadata (stored_as o) = metadata o;
  stored_field o k :
    null_free (obj_data o) = true -> json_wf (obj_data o) -> is_type "v1" "Secret" o = false -> k ∈ ["spec"; "data"; "binaryData"] ->
    json_eq (index k (obj_data o)) (index k (obj_data (stored_as o))) = true;
  stored_secret o :
    null_free (obj_data o) = true -> json_wf (obj_data o) -> is_type "v1" "Secret" o = true ->
    let fields_of k o := default [] (as_object (index k (obj_data o))) in
    NoDup (fields_of "data" (stored_as o)).*1 /\
    forall k, assoc k (fields_of "data" (stored_as o)) =
      match assoc k (fields_of "stringData" o) with
      | Some (Str s) => Some (Str (encode s))
      | _ => assoc k (fields_of "data" o)
      end;
}.

(** ** Lemmas on values *)

Lemma assoc_list_to_map {A} k (f : list (string * A)) : assoc k f = (list_to_map f : gmap string A) !! k.
Proof.
  induction f as [|[k' a] f IH]; [done|]. simpl. destruct (String.eqb_spec k k') as [->|Hne].
  - by rewrite lookup_insert_eq.
  - by rewrite lookup_insert_ne.
Qed.

Lemma assoc_same_length {A} (f g : list (string * A)) :
  NoDup f.*1 -> NoDup g.*1 -> (forall k, assoc k f = assoc k g) -> length f = length g.
Proof.
  intros Hf Hg H. assert (list_to_map f = (list_to_map g : gmap string A)) as E.
  { apply map_eq. intros k. by rewrite <-!assoc_list_to_map. }
  apply (f_equal map_to_list) in E. apply Permutation_length. rewrite <-(map_to_list_to_map f Hf), <-(map_to_list_to_map g Hg). by rewrite E.
Qed.

Lemma json_eq_object f g :
  NoDup f.*1 -> NoDup g.*1 -> (forall k, assoc k f = assoc k g) -> Forall (fun kv => json_eq kv.2 kv.2 = true) f ->
  json_eq (Object f) (Object g) = true.
Proof.
  intros Hf Hg H Hv. cbn [json_eq]. apply andb_true_iff. split; [by apply Nat.eqb_eq, assoc_same_length|].
  assert (forall k v, (k, v) ∈ f -> assoc k g = Some v) as Hin.
  { intros k v Hkv. rewrite <-H, assoc_list_to_map. by apply elem_of_list_to_map_1. }
  clear H Hg. induction f as [|[k v] f IH]; [done|]. rewrite (Hin k v) by left. inversion Hf; inversion Hv; subst. simpl in *.
  apply andb_true_iff. split; [done|]. apply IH; [done..|]. intros k' v' Hkv. apply Hin. by right.
Qed.

Lemma json_eq_refl v : json_wf v -> json_eq v v = true.
Proof.
  induction v as [|b|n|s|l IH|f IH] using value_ind_nested; cbn [json_wf].
  - done.
  - intros _. by destruct b.
  - intros _. apply String.eqb_refl.
  - intros _. apply String.eqb_refl.
  - intros Hw. cbn [json_eq]. induction IH as [|v l Hv Hl IHl]; [done|]. inversion Hw; subst.
    rewrite Hv by done. by apply IHl.
  - intros [Hnd Hw]. apply json_eq_object; [done..|]. clear Hnd. induction IH as [|kv f Hv Hf IHf]; [done|].
    inversion Hw; subst. constructor; [by apply Hv|by apply IHf].
Qed.

Lemma retain_null_free fields : arrays_null_free (Object fields) = true -> null_free (retain_not_null fields) = true.
Proof.
  assert (forall v, arrays_null_free v = true -> v <> Null -> null_free (retain_not_null_value v) = true) as H.
  { induction v as [| | | |l IH|f IH] using value_ind_nested; try done. cbn [arrays_null_free retain_not_null_value null_free].
    intros Ha _. induction IH as [|[k v] f Hv Hf IHf]; [done|]. cbn [forallb] in Ha. apply andb_true_iff in Ha as [Hav Haf].
    specialize (IHf Haf). cbn [snd] in *. destruct v; try done; cbn [forallb snd]; (apply andb_true_iff; split; [|done]); by apply Hv. }
  intros Ha. by apply H.
Qed.

(** A value with null entries differs from every value without. *)
Lemma json_eq_entries v w : json_eq v w = true -> entries_null_free w = true -> entries_null_free v = true.
Proof.
  revert w. induction v as [| | | |l IH|f IH] using value_ind_nested; intros w; try done; destruct w as [| | | |m|g]; try done.
  - cbn [json_eq entries_null_free]. revert m. induction IH as [|v l Hv Hl IHl]; intros m; [done|]. destruct m as [|w m]; [done|].
    cbn [forallb]. intros [E1 E2]%andb_true_iff [N1 N2]%andb_true_iff. apply andb_true_iff. split; [by apply (Hv w)|by apply (IHl m)].
  - cbn [json_eq entries_null_free]. intros [_ E]%andb_true_iff Hg. rewrite forallb_forall in Hg.
    induction IH as [|[k v] f Hv Hf IHf]; [done|]. apply andb_true_iff in E as [E1 E2].
    cbn [forallb snd] in *. apply andb_true_iff. split; [|by apply IHf]. destruct (assoc k g) as [w|] eqn:Ea; [|done].
    assert (In (k, w) g) as Hin.
    { clear -Ea. induction g as [|[k' w'] g IH]; [done|]. cbn in Ea.
      destruct (String.eqb_spec k k') as [->|]; [injection Ea as ->; by left|right; by apply IH]. }
    specialize (Hg _ Hin). cbn [snd] in Hg. apply andb_true_iff in Hg as [Hg1 Hg2]. apply andb_true_iff.
    split; [|by apply (Hv w)]. by destruct v, w.
Qed.

Lemma index_entries k v : entries_null_free v = true -> entries_null_free (index k v) = true.
Proof.
  unfold index. destruct v as [| | | | |f]; try done. cbn [entries_null_free Json.get]. intros Hf.
  induction f as [|[k' v] f IH]; [done|]. cbn [forallb snd assoc] in *. apply andb_true_iff in Hf as [Hv Hf].
  destruct (String.eqb k k'); [by apply andb_true_iff in Hv as [_ Hv]|by apply IH].
Qed.

Lemma map_insert_lookup k v f k' : assoc k' (map_insert k v f) = if String.eqb k' k then Some v else assoc k' f.
Proof.
  induction f as [|[k0 v0] f IH]; simpl; [done|]. destruct (String.eqb_spec k k0) as [->|Hne]; simpl.
  - by destruct (String.eqb k' k0).
  - rewrite IH. destruct (String.eqb_spec k' k0) as [->|]; [|done]. destruct (String.eqb_spec k0 k); congruence.
Qed.

Lemma map_insert_keys k v f x : x ∈ (map_insert k v f).*1 <-> x = k \/ x ∈ f.*1.
Proof.
  induction f as [|[k0 v0] f IH]; simpl; [set_solver|]. destruct (String.eqb_spec k k0) as [->|Hne]; simpl; set_solver.
Qed.

Lemma map_insert_nodup k v f : NoDup f.*1 -> NoDup (map_insert k v f).*1.
Proof.
  induction f as [|[k0 v0] f IH]; simpl; intros Hnd; [by apply NoDup_singleton|]. apply NoDup_cons in Hnd as [H0 Hnd].
  destruct (String.eqb_spec k k0) as [->|Hne]; simpl; [by apply NoDup_cons|].
  apply NoDup_cons. split; [|by apply IH]. rewrite map_insert_keys. intros [->|]; done.
Qed.

Lemma map_insert_values (P : value -> Prop) k v f :
  P v -> Forall (fun kv => P kv.2) f -> Forall (fun kv => P kv.2) (map_insert k v f).
Proof.
  intros Hv. induction 1 as [|[k0 v0] f H0 Hf IH]; simpl; [by repeat constructor|].
  destruct (String.eqb k k0); by constructor.
Qed.

Section Secrets.
Context `{AS : ApiServer}.

(** [manifest_secret_data] as a map *)
Lemma extend_secret_spec string_data data :
  NoDup string_data.*1 -> NoDup data.*1 -> Forall (fun kv => json_eq kv.2 kv.2 = true) data ->
  let merged := fold_left (fun f kv => match as_str_value kv.2 with
                                       | Some s => map_insert kv.1 (Str (encode s)) f
                                       | None => f
                                       end) string_data data in
  NoDup merged.*1 /\ Forall (fun kv => json_eq kv.2 kv.2 = true) merged /\
  forall k, assoc k merged = match assoc k string_data with Some (Str s) => Some (Str (encode s)) | _ => assoc k data end.
Proof using.
  revert data. induction string_data as [|[k0 v0] l IH]; intros data Hs Hd Hv; simpl; [done|].
  apply NoDup_cons in Hs as [H0 Hs]. assert (assoc k0 l = None) as Hnone.
  { destruct (assoc k0 l) as [v|] eqn:E; [|done]. destruct H0. apply assoc_Some in E; [|done].
    apply list_elem_of_fmap. by exists (k0, v). }
  set (data' := match as_str_value v0 with Some s => map_insert k0 (Str (encode s)) data | None => data end).
  assert (NoDup data'.*1 /\ Forall (fun kv => json_eq kv.2 kv.2 = true) data') as [Hd' Hv'].
  { unfold data'. destruct v0; simpl; (split; [try done; by apply map_insert_nodup|try done]).
    apply (map_insert_values (fun v => json_eq v v = true)); [apply String.eqb_refl|done]. }
  destruct (IH data' Hs Hd' Hv') as (H1 & H2 & H3). split_and!; [exact H1|exact H2|]. intros k. etransitivity; [apply H3|].
  destruct (String.eqb_spec k k0) as [->|Hne].
  - rewrite Hnone. unfold data'. destruct v0; simpl; try done. by rewrite map_insert_lookup, String.eqb_refl.
  - assert (assoc k data' = assoc k data) as ->; [|done]. unfold data'. destruct v0; simpl; try done.
    rewrite map_insert_lookup. by destruct (String.eqb_spec k k0).
Qed.

Lemma json_wf_index k v : json_wf v -> json_wf (index k v).
Proof using.
  unfold index. destruct v; simpl; try done. intros [_ Hw]. destruct (assoc k fields) as [w|] eqn:E; [|done]. simpl.
  induction fields as [|[k0 v0] l IH]; simpl in E; [done|]. inversion Hw; subst. destruct (String.eqb k k0); [by injection E as <-|].
  by apply IH.
Qed.

Lemma json_wf_fields k v :
  json_wf v -> let f := default [] (as_object (index k v)) in NoDup f.*1 /\ Forall (fun kv => json_eq kv.2 kv.2 = true) f.
Proof using.
  intros Hw%(json_wf_index k). destruct (index k v) as [| | | | |f]; simpl in *; try (split; [apply NoDup_nil_2|constructor]).
  destruct Hw as [Hnd Hw]. split; [done|]. clear Hnd. induction f as [|kv f IH]; [constructor|]. inversion Hw; subst.
  constructor; [by apply json_eq_refl|by apply IH].
Qed.

Context `{AL : !ApiServerLaws}.

(** What is stored of a manifest has its contents. *)
Lemma stored_contents obj o :
  null_free (obj_data o) = true -> json_wf (obj_data o) -> obj_data o = obj_data obj -> types o = types obj ->
  object_contents_are_equal obj (stored_as o) = true.
Proof using AL.
  intros Hn Hw Hd Ht. unfold object_contents_are_equal. assert (forall a b, is_type a b obj = is_type a b o) as Hty by (unfold is_type; by rewrite Ht).
  rewrite !Hty. destruct (is_type "v1" "Secret" o) eqn:Es.
  - destruct (stored_secret o Hn Hw Es) as [Hnd Hl]. unfold secrets_data_are_equal, manifest_secret_data. rewrite <-Hd.
    destruct (json_wf_fields "data" _ Hw) as [Hd1 Hd2]. destruct (json_wf_fields "stringData" _ Hw) as [Hs1 _].
    set (data := default [] (as_object (index "data" (obj_data o)))) in *.
    set (sd := as_object (index "stringData" (obj_data o))) in *.
    set (merged := match sd with Some l => _ | None => _ end).
    assert (NoDup merged.*1 /\ Forall (fun kv => json_eq kv.2 kv.2 = true) merged /\
      forall k, assoc k merged = match assoc k (default [] sd) with Some (Str s) => Some (Str (encode s)) | _ => assoc k data end) as (M1 & M2 & M3).
    { unfold merged. destruct sd as [l|]; [by apply extend_secret_spec|done]. }
    destruct (as_object (index "data" (obj_data (stored_as o)))) as [f|]; cbn [from_option Datatypes.id] in *.
    + apply json_eq_object; [done..| |done]. intros k. by rewrite M3, Hl.
    + destruct merged as [|[k v] m]; [done|]. exfalso. specialize (M3 k). specialize (Hl k). rewrite <-Hl in M3. simpl in M3.
      by rewrite String.eqb_refl in M3.
  - rewrite <-!Hd. destruct (is_type "v1" "ConfigMap" o); [|apply stored_field; [done..|left]].
    unfold configmaps_data_are_equal. rewrite <-!Hd. apply andb_true_iff. split; apply stored_field; try done; [right; left|right; right; left].
Qed.

End Secrets.

(** ** Lemmas on a round *)

Section Rounds.
Context `{AS : ApiServer} `{AL : !ApiServerLaws}.

(** An object Agent Control can apply, and its place *)
Definition manifest (obj : DynamicObject) (key : ObjKey) : Prop :=
  null_free (obj_data obj) = true /\ json_wf (obj_data obj) /\
  exists tm ns name, types obj = Some tm /\ GarbageCollector.meta_namespace (metadata obj) = Some ns /\
    GarbageCollector.meta_name (metadata obj) = Some name /\ key = obj_key tm ns name.

(** The objects of the cluster are of the type they are stored under. *)
Definition typed (m : gmap ObjKey DynamicObject) : Prop :=
  forall key o, m !! key = Some o ->
    exists tm, types o = Some tm /\ key.1 = (GarbageCollector.api_version tm, type_kind tm).

(** [o] is as the manifest says. *)
Definition same_as (obj o : DynamicObject) : Prop :=
  object_contents_are_equal obj o = true /\
  meta_labels (metadata o) = meta_labels (metadata obj) /\ meta_annotations (metadata o) = meta_annotations (metadata obj).

Definition in_place (m : gmap ObjKey DynamicObject) (obj : DynamicObject) (key : ObjKey) : Prop :=
  exists o, m !! key = Some o /\ same_as obj o.

Definition no_obj_fault (w : K8sWorld) : Prop := Forall (fun f => f = None) (obj_faults w).

Lemma next_obj_fault_none w :
  no_obj_fault w -> exists w', next_obj_fault w = (None, w') /\ no_obj_fault w' /\
    live w' = live w /\ seen w' = seen w /\ writes w' = writes w.
Proof using.
  intros H. unfold next_obj_fault, no_obj_fault in *. destruct (obj_faults w) as [|f l]; simpl.
  - eexists. split_and!; [done|constructor|done..].
  - apply Forall_cons in H as [-> H]. eexists. by split_and!.
Qed.

Lemma has_changed_spec tm ns obj name w :
  GarbageCollector.meta_name (metadata obj) = Some name ->
  exists b, has_changed tm ns obj w = Ok b /\ (b = false <-> in_place (seen w) obj (obj_key tm ns name)).
Proof using.
  intros Hn. unfold has_changed, get_name, in_place, same_as, manager_get. rewrite Hn. simpl. eexists. split; [done|].
  destruct (seen w !! obj_key tm ns name) as [o|]; [|split; [done|by intros (? & ? & _)]].
  destruct (object_contents_are_equal obj o) eqn:E1; simpl; [|split; [done|intros (? & [= <-] & ? & _); congruence]].
  case_bool_decide as E2; simpl; [|split; [done|by intros (? & [= <-] & _ & ? & _)]].
  case_bool_decide as E3; simpl; [|split; [done|by intros (? & [= <-] & _ & _ & ?)]].
  split; [|done]. intros _. by exists o.
Qed.

(** The two shapes of what [apply] writes *)
Lemma written_same_as obj key m :
  manifest obj key -> typed m ->
  let o := match m !! key with Some obj_old => with_manifest obj_old obj | None => obj end in
  same_as obj (stored_as o) /\ exists tm, types (stored_as o) = Some tm /\ key.1 = (GarbageCollector.api_version tm, type_kind tm).
Proof using AL.
  intros (Hn & Hw & tm & ns & name & Ht & _ & _ & ->) Hty o. destruct (stored_meta o) as [Hs1 Hs2].
  assert (obj_data o = obj_data obj /\ types o = types obj /\ meta_labels (metadata o) = meta_labels (metadata obj) /\
          meta_annotations (metadata o) = meta_annotations (metadata obj)) as (Hd & Hto & Hl & Ha).
  { unfold o. destruct (m !! obj_key tm ns name) as [old|] eqn:E; [|done]. simpl. split_and!; [done| |done..].
    destruct (Hty _ _ E) as (tm' & -> & Hk). rewrite Ht. destruct tm, tm'. simpl in Hk. by injection Hk as -> ->. }
  split; [|exists tm; rewrite Hs1, Hto, Ht; done]. split_and!; [|by rewrite Hs2, Hl|by rewrite Hs2, Ha].
  apply stored_contents; [by rewrite Hd|by rewrite Hd|exact Hd|exact Hto].
Qed.

(** One object, when the watcher is up to date for it and nothing fails *)
Lemma apply_one obj key w :
  manifest obj key -> typed (live w) -> no_obj_fault w -> seen w !! key = live w !! key ->
  exists w', apply_dynamic_object_if_changed obj w = (Ok tt, w') /\ no_obj_fault w' /\ typed (live w') /\
    in_place (live w') obj key /\ seen w' = seen w /\ (forall k, k <> key -> live w' !! k = live w !! k) /\
    (in_place (seen w) obj key -> live w' = live w /\ writes w' = writes w).
Proof using AL.
  intros Hm Hty Hnf Hseen. pose proof Hm as (_ & _ & tm & ns & name & Ht & Hns & Hname & ->).
  unfold apply_dynamic_object_if_changed, get_type_meta, get_namespace, get_or_create. rewrite Ht, Hns. unfold_effects.
  destruct (next_obj_fault_none w Hnf) as (w1 & -> & Hnf1 & Hl1 & Hs1 & Hw1). unfold apply_if_changed.
  destruct (has_changed_spec tm ns obj name w1 Hname) as (b & -> & Hb). rewrite Hs1 in Hb. destruct b.
  2:{ assert (in_place (seen w) obj (obj_key tm ns name)) as (o & Ho & Hsame) by by apply Hb. rewrite Hseen in Ho.
      exists w1. rewrite Hl1. split_and!; [done..| |done|done|by intros _]. by exists o. }
  unfold apply_object, get_name, get_namespace, entry, commit_object. rewrite Hname, Hns. unfold_effects.
  destruct (next_obj_fault_none w1 Hnf1) as (w2 & -> & Hnf2 & Hl2 & Hs2 & Hw2).
  destruct (next_obj_fault_none w2 Hnf2) as (w3 & -> & Hnf3 & Hl3 & Hs3 & Hw3).
  eexists. split; [done|]. cbn [live seen obj_faults writes]. rewrite Hl3, Hl2, Hl1, Hs3, Hs2, Hs1.
  destruct (written_same_as obj (obj_key tm ns name) (live w) Hm Hty) as [Hsame Htyped].
  split_and!; [done| | |done| |].
  - intros k o. destruct (decide (k = obj_key tm ns name)) as [->|Hne]; [rewrite lookup_insert_eq|rewrite lookup_insert_ne by done; apply Hty].
    intros [= <-]. exact Htyped.
  - eexists. split; [apply lookup_insert_eq|exact Hsame].
  - intros k Hk. by rewrite lookup_insert_ne.
  - intros Hin. apply Hb in Hin. done.
Qed.

(** A round, when the watcher is up to date and nothing fails *)
Lemma apply_round objs keys w :
  Forall2 manifest objs keys -> NoDup keys -> typed (live w) -> no_obj_fault w ->
  (forall k, k ∈ keys -> seen w !! k = live w !! k) ->
  exists w', apply_resources objs w = (Ok tt, w') /\ no_obj_fault w' /\ typed (live w') /\
    Forall2 (in_place (live w')) objs keys /\ (forall k, k ∉ keys -> live w' !! k = live w !! k) /\
    (Forall2 (in_place (seen w)) objs keys -> live w' = live w /\ writes w' = writes w).
Proof using AL.
  intros Hm. revert w. induction Hm as [|obj key objs keys Hobj Hm IH]; intros w Hnd Hty Hnf Hseen.
  { exists w. by split_and!. }
  apply NoDup_cons in Hnd as [Hkey Hnd]. unfold apply_resources. cbn [try_for_each].
  destruct (apply_one obj key w Hobj Hty Hnf) as (w1 & E1 & Hnf1 & Hty1 & Hin1 & Hs1 & Ho1 & Hq1); [apply Hseen; by left|].
  unfold bind_try. rewrite E1. destruct (IH w1 Hnd Hty1 Hnf1) as (w2 & E2 & Hnf2 & Hty2 & Hin2 & Ho2 & Hq2).
  { intros k Hk. rewrite Hs1, Ho1; [|by intros ->]. apply Hseen. by right. }
  exists w2. split; [exact E2|]. split_and!; [done|done| | |].
  - constructor; [|done]. destruct Hin1 as (o & Hlk & Hsame). exists o. by rewrite Ho2.
  - intros k [Hk1 Hk2]%not_elem_of_cons. by rewrite Ho2, Ho1.
  - intros Hall. inversion Hall; subst. destruct Hq1 as [L1 W1]; [done|]. destruct Hq2 as [L2 W2]; [by rewrite Hs1|].
    by rewrite L2, W2.
Qed.

(** The watcher catches up. *)
Definition sync (w : K8sWorld) : K8sWorld :=
  {| live := live w; seen := live w; obj_faults := obj_faults w; writes := writes w |}.

Lemma rounds_converge objs keys w :
  Forall2 manifest objs keys -> NoDup keys -> typed (live w) -> no_obj_fault w ->
  exists w1 w2, apply_resources objs (sync w) = (Ok tt, w1) /\ apply_resources objs (sync w1) = (Ok tt, w2) /\
    Forall2 (in_place (live w1)) objs keys /\ (forall k, k ∉ keys -> live w1 !! k = live w !! k) /\
    live w2 = live w1 /\ writes w2 = writes w1.
Proof using AL.
  intros Hm Hnd Hty Hnf. destruct (apply_round objs keys (sync w) Hm Hnd Hty Hnf) as (w1 & E1 & Hnf1 & Hty1 & Hin1 & Ho1 & _); [done|].
  destruct (apply_round objs keys (sync w1) Hm Hnd Hty1 Hnf1) as (w2 & E2 & _ & _ & _ & _ & Hq2); [done|].
  exists w1, w2. destruct (Hq2 Hin1). by split_and!.
Qed.

End Rounds.

(** ** Properties *)

Lemma retain_wf v : json_wf v -> json_wf (retain_not_null_value v).
Proof.
  induction v as [| | | |l IH|f IH] using value_ind_nested; try done. cbn [json_wf retain_not_null_value]. intros [Hnd Hw].
  set (go := fix go l := match l with [] => [] | (k, Null) :: l => go l | (k, w) :: l => (k, retain_not_null_value w) :: go l end).
  assert (forall k, k ∈ (go f).*1 -> k ∈ f.*1) as Hsub.
  { clear. induction f as [|[k v] f IHf]; [done|]. intros k'. simpl. destruct v; simpl; set_solver. }
  induction IH as [|[k v] f Hv Hf IHf]; [done|]. inversion Hw as [|? ? Hwv Hwf]; subst. cbn [fmap list_fmap fst] in Hnd.
  apply NoDup_cons in Hnd as [Hk Hnd]. assert (forall k, k ∈ (go f).*1 -> k ∈ f.*1) as Hsub'.
  { clear. induction f as [|[k v] f IHf]; [done|]. intros k'. simpl. destruct v; simpl; set_solver. }
  destruct (IHf Hnd Hwf Hsub') as [H1 H2]. cbn [snd] in *.
  assert (v <> Null -> NoDup ((k, retain_not_null_value v) :: go f).*1 /\
    Forall (fun P : Prop => P) (map (fun kv => json_wf kv.2) ((k, retain_not_null_value v) :: go f))) as Hcons.
  { intros _. split; [|constructor; [by apply Hv|done]]. cbn [fmap list_fmap fst]. apply NoDup_cons. split; [|done]. intros ?%Hsub'. done. }
  by destruct v; [done|apply Hcons..].
Qed.

Section Properties.
Context `{SV : SemVer} `{HO : HashOrder} `{AS : ApiServer} `{AL : !ApiServerLaws}.

(** The place of an object of the deployment *)
Definition object_key (o : K8sObject) : ObjKey :=
  ((api_version o, object_kind o), (meta_namespace (object_metadata o), meta_name (object_metadata o))).

Lemma created_manifest identity o :
  json_wf (Object (fields o)) -> arrays_null_free (Object (fields o)) = true ->
  manifest (create_dynamic_object identity o) (object_key o).
Proof using.
  intros Hw Ha. split_and!; [by apply retain_null_free|by apply retain_wf|]. do 3 eexists. by split_and!.
Qed.

(** One round on an object the server cannot keep *)
Lemma null_entry_written identity o w :
  (forall o, entries_null_free (obj_data (stored_as o)) = true) ->
  let obj := create_dynamic_object identity o in
  is_type "v1" "Secret" obj = false -> is_type "v1" "ConfigMap" obj = false ->
  entries_null_free (index "spec" (retain_not_null (fields o))) = false ->
  (forall k o, live w !! k = Some o -> entries_null_free (obj_data o) = true) -> no_obj_fault w ->
  exists w', apply_resources [obj] (sync w) = (Ok tt, w') /\
    (forall k o, live w' !! k = Some o -> entries_null_free (obj_data o) = true) /\ no_obj_fault w' /\
    length (writes w') = S (length (writes w)).
Proof using.
  intros Hdrop obj Hs Hc Hnull Hlive Hnf. destruct (next_obj_fault_none (sync w) Hnf) as (w1 & E1 & Hnf1 & Hl1 & Hs1 & Hw1).
  unfold apply_resources, apply_dynamic_object_if_changed, get_type_meta, get_namespace, get_or_create. unfold_effects.
  cbn [try_for_each obj create_dynamic_object types metadata GarbageCollector.meta_namespace]. unfold_effects. rewrite E1. fold obj.
  unfold apply_if_changed. destruct (has_changed_spec {| GarbageCollector.api_version := api_version o; type_kind := object_kind o |}
    (meta_namespace (object_metadata o)) obj (meta_name (object_metadata o)) w1 eq_refl) as (b & -> & Hb).
  destruct b.
  2:{ assert (false = false) as (o' & Ho' & Hsame & _)%Hb by done. rewrite Hs1 in Ho'. apply Hlive in Ho'.
      unfold object_contents_are_equal in Hsame. rewrite Hs, Hc in Hsame. apply json_eq_entries in Hsame; [|by apply index_entries].
      cbn in Hsame. unfold retain_not_null in Hnull. cbn in Hnull. congruence. }
  unfold apply_object, entry, commit_object. unfold_effects.
  destruct (next_obj_fault_none w1 Hnf1) as (w2 & E2 & Hnf2 & Hl2 & Hs2 & Hw2).
  destruct (next_obj_fault_none w2 Hnf2) as (w3 & E3 & Hnf3 & Hl3 & Hs3 & Hw3).
  cbn [get_name get_namespace obj create_dynamic_object metadata GarbageCollector.meta_name GarbageCollector.meta_namespace].
  unfold_effects. rewrite E2, E3. eexists. split; [done|]. cbn [live writes obj_faults]. split_and!; [|done|].
  - intros k o'. rewrite Hl3, Hl2, Hl1. destruct (decide (k = object_key o)) as [->|Hne].
    + intros [= <-]%(fun H => eq_trans (eq_sym (lookup_insert_eq _ _ _)) H). apply Hdrop.
    + unfold obj_key, object_key in *. rewrite lookup_insert_ne by done. apply Hlive.
  - simpl. by rewrite Hw3, Hw2, Hw1.
Qed.


(** The manifest of an object of another type than Secret and ConfigMap that has a null entry
    inside a list of its [spec] is written again at every round, because [retain_not_null] leaves
    that entry and a server that removes the null entries of what it stores never has it. *)
Theorem null_in_list_written_every_round identity o w n :
  (forall o, entries_null_free (obj_data (stored_as o)) = true) ->
  let obj := create_dynamic_object identity o in
  is_type "v1" "Secret" obj = false -> is_type "v1" "ConfigMap" obj = false ->
  entries_null_free (index "spec" (retain_not_null (fields o))) = false ->
  (forall k o, live w !! k = Some o -> entries_null_free (obj_data o) = true) -> no_obj_fault w ->
  length (writes (objects_supervisor [obj] (replicate n sync) (sync w)).2) = S n + length (writes w).
Proof using.
  intros Hdrop obj Hs Hc Hnull. revert w. induction n as [|n IH]; intros w Hlive Hnf;
    destruct (null_entry_written identity o w Hdrop Hs Hc Hnull Hlive Hnf) as (w' & E & Hlive' & Hnf' & Hw);
    cbn [objects_supervisor replicate]; unfold bind at 1; fold obj in E; rewrite E.
  - simpl. by rewrite Hw.
  - rewrite IH by done. rewrite Hw. simpl. lia.
Qed.

(** C26: The objects of a supervisor that was built are of the types the garbage collector looks
    through, and it removes each of them exactly when the sub-agent is not active with the type
    the supervisor was built for, whatever labels the deployment adds. *)
Theorem built_objects_collected_exactly cr_type_meta ea identity config name obj active :
  build_supervisor_k8s cr_type_meta ea = Ok (identity, config) -> id identity = AgentId.SubAgent name ->
  wf_agent_id (AgentId.SubAgent name) -> obj ∈ build_dynamic_objects identity config ->
  (exists tm, types obj = Some tm /\ tm ∈ cr_type_meta) /\
  (should_delete_dynamic_object (metadata obj) (RetainConfig active) = Ok true <->
   to_string <$> active !! AgentId.SubAgent name <> Some (to_string (agent_type_id identity))).
Proof using.
  intros Hb Hid Hwf Hobj. apply list_elem_of_In, in_map_iff in Hobj as (o & <- & Hin). split.
  - unfold build_supervisor_k8s in Hb. destruct (get_k8s_config ea) as [c|]; [|done]. cbn [and_then map_err] in Hb.
    destruct (List.find _ _) as [?|] eqn:Ef; [done|]. injection Hb as _ ->.
    apply (List.find_none _ _ Ef) in Hin. apply negb_false_iff, existsb_exists in Hin as (t & Ht & [E1%String.eqb_eq E2%String.eqb_eq]%andb_true_iff).
    exists t. split; [|by apply list_elem_of_In]. destruct t; simpl in *. by subst.
  - apply retain_deletes_owned; [done|..];
      cbn [create_dynamic_object metadata meta_labels meta_annotations from_option Datatypes.id append_extra_labels].
    + apply lookup_union_Some_l, new_labels_managed.
    + apply lookup_union_Some_l. rewrite Hid. apply new_labels_id.
    + apply sub_agent_owned.
    + apply sub_agent_owned_type.
Qed.

End Properties.

(** ** Examples *)

(** A server that drops every null and stores the data of Secrets together *)
Fixpoint prune (v : value) : value :=
  match v with
  | Array l => Array (map prune l)
  | Object f =>
      Object ((fix go l := match l with
                           | [] => []
                           | (k, Null) :: l => go l
                           | (k, w) :: l => (k, prune w) :: go l
                           end) f)
  | v => v
  end.

Definition example_encode (s : string) : string := "b64:" +:+ s.

Definition example_server : ApiServer := {|
  stored_as o := {|
    types := types o;
    metadata := metadata o;
    obj_data :=
      if is_type "v1" "Secret" o
      then Object [("data", Object (manifest_secret_data (AS := {| stored_as := fun o => o; encode := example_encode |}) o))]
      else prune (obj_data o);
  |};
  encode := example_encode;
|}.

Definition null_dropping_server : ApiServer := {|
  stored_as o := {| types := types o; metadata := metadata o; obj_data := prune (obj_data o) |};
  encode := example_encode;
|}.

Lemma prune_null_free v : null_free v = true -> prune v = v.
Proof.
  induction v as [| | | |l IH|f IH] using value_ind_nested; cbn [null_free prune]; try done; intros Hn; f_equal.
  - induction IH as [|v l Hv Hl IHl]; [done|]. cbn [forallb] in Hn. apply andb_true_iff in Hn as [H1 H2]. simpl. by rewrite Hv, IHl.
  - induction IH as [|[k v] f Hv Hf IHf]; [done|]. cbn [forallb] in Hn. apply andb_true_iff in Hn as [H1 H2]. cbn [snd] in *.
    assert (prune v = v) as Hp by by apply Hv. destruct v; try done; cbn [List.filter map fst snd]; rewrite Hp; f_equal; by apply IHf.
Qed.

#[export] Instance example_server_laws : ApiServerLaws (AS := example_server).
Proof.
  split; [done|..].
  - intros o k Hn Hw Hs _. cbn. rewrite Hs, prune_null_free by done. by apply json_eq_refl, json_wf_index.
  - intros o Hn Hw Hs. cbn. rewrite Hs. cbn. unfold manifest_secret_data.
    destruct (json_wf_fields "data" _ Hw) as [Hd1 Hd2]. destruct (json_wf_fields "stringData" _ Hw) as [Hs1 _].
    destruct (as_object (index "stringData" (obj_data o))) as [l|]; [|done]. cbn in Hs1.
    destruct (extend_secret_spec (AS := {| stored_as := fun o => o; encode := example_encode |}) l _ Hs1 Hd1 Hd2) as (M1 & _ & M3). done.
Qed.

Definition example_identity : AgentIdentity (SV := plain_semver) :=
  {| id := AgentId.SubAgent "otel"; agent_type_id := {| name := "otel"; namespace := "newrelic"; version := "1.0" |} |}.

Definition example_object (kind name : string) (fs : list (string * value)) : K8sObject := {|
  api_version := "v1"; object_kind := kind;
  object_metadata := {| labels := [(AGENT_ID_LABEL_KEY, "other")]; meta_name := name; meta_namespace := "agents" |};
  fields := fs;
|}.

Definition example_objects : K8s := {|
  objects := {[ "secret" := example_object "Secret" "keys" [("stringData", Object [("key", Str "value"); ("unset", Null)])];
                "map" := example_object "ConfigMap" "config" [("data", Object [("a", Str "1")])] ]};
  k8s_health := None; k8s_version := (60%N, 30%N); guid_checker := (60%N, 30%N);
|}.

(** One of the objects was changed by somebody else, the other is missing. *)
Definition example_cluster : K8sWorld :=
  let key := (("v1", "ConfigMap"), ("agents", "config")) in
  let o := {| types := Some {| GarbageCollector.api_version := "v1"; type_kind := "ConfigMap" |};
              metadata := {| GarbageCollector.meta_name := Some "config"; GarbageCollector.meta_namespace := Some "agents";
                             meta_labels := None; meta_annotations := None |};
              obj_data := Object [("data", Object [("a", Str "2")])] |} in
  {| live := {[key := o]}; seen := ∅; obj_faults := []; writes := [] |}.

Lemma example_cluster_typed : typed (live example_cluster).
Proof. intros k o. cbn. intros [<- <-]%lookup_singleton_Some. by eexists. Qed.

Lemma example_objects_list :
  (entries (HashOrder := canonical_order) (objects example_objects)).*2 =
  [example_object "Secret" "keys" [("stringData", Object [("key", Str "value"); ("unset", Null)])];
   example_object "ConfigMap" "config" [("data", Object [("a", Str "1")])]].
Proof. vm_compute. reflexivity. Qed.


Lemma example_server_drops o : entries_null_free (obj_data (stored_as (ApiServer := null_dropping_server) o)) = true.
Proof.
  cbn. generalize (obj_data o). induction v as [| | | |l IH|f IH] using value_ind_nested; try done; cbn [prune entries_null_free].
  - by induction IH as [|v l Hv Hl IHl]; [|cbn [map forallb]; rewrite Hv, IHl].
  - induction IH as [|[k v] f Hv Hf IHf]; [done|]. cbn [snd] in Hv.
    destruct v; [exact IHf|..]; cbn [forallb snd prune] in *; rewrite Hv; exact IHf.
Qed.

(** A container with an environment variable left empty *)
Definition example_pod : K8sObject :=
  example_object "Pod" "p" [("spec", Object [("env", Array [Object [("name", Str "A"); ("value", Null)]])])].

Lemma null_in_list_written_witness :
  length (writes (objects_supervisor (AS := null_dropping_server)
    [create_dynamic_object (SV := plain_semver) example_identity example_pod] (replicate 9 sync) (sync example_cluster)).2) = 10.
Proof.
  apply (null_in_list_written_every_round (SV := plain_semver) (AS := null_dropping_server) example_identity example_pod example_cluster 9).
  - exact example_server_drops.
  - vm_compute. reflexivity.
  - vm_compute. reflexivity.
  - vm_compute. reflexivity.
  - intros k o. cbn. intros [<- <-]%lookup_singleton_Some. vm_compute. reflexivity.
  - constructor.
Defined.

Definition example_k8s_effective : Effective  :=
  {| effective_identity := example_identity; deployment := OnK8s example_objects |}.

Definition example_types : list TypeMeta :=
  [{| GarbageCollector.api_version := "v1"; type_kind := "Secret" |};
   {| GarbageCollector.api_version := "v1"; type_kind := "ConfigMap" |}].

Definition example_built : DynamicObject :=
  create_dynamic_object (SV := plain_semver) example_identity (example_object "ConfigMap" "config" [("data", Object [("a", Str "1")])]).

(** The label of the deployment that names another agent does not change who owns the object. *)
Lemma built_objects_collected_witness :
  should_delete_dynamic_object (SV := plain_semver) (metadata example_built) (RetainConfig ∅) = Ok true.
Proof.
  assert (build_supervisor_k8s (HO := canonical_order) example_types example_k8s_effective = Ok (example_identity, example_objects)) as Hb.
  { unfold build_supervisor_k8s. cbn [get_k8s_config deployment example_k8s_effective map_err and_then].
    rewrite example_objects_list. reflexivity. }
  assert (wf_agent_id (AgentId.SubAgent "otel")) as Hwf by (vm_compute; reflexivity).
  assert (example_built ∈ build_dynamic_objects (HO := canonical_order) example_identity example_objects) as Hin.
  { unfold build_dynamic_objects. rewrite example_objects_list. right. left. }
  destruct (built_objects_collected_exactly (SV := plain_semver) (HO := canonical_order) example_types example_k8s_effective
    example_identity example_objects "otel" example_built ∅ Hb eq_refl Hwf Hin) as [_ [_ H]].
  apply H. rewrite lookup_empty. discriminate.
Defined.
