(* ===== verification/K8sHealth.v ===== *)
(** * Health of sub-agents in Kubernetes

    Models [checkers/health/k8s/health_checker.rs] and the checkers of
    [health_checker/resources/]: how the status of the resources of a sub-agent is read as its
    health.

    What the client answers is a [ClusterView]; the checkers of one agent run one after the other,
    each with a view of its own.  The check of a label selector and the texts of [serde] are
    parameters.  A check is at a time [now], that of the value it returns. *)

From Stdlib Require Import Ascii String Lia.
From stdpp Require Import base option list strings gmap.
From S2P Require Import Prelude RustString AgentId AgentTypeId Json YamlConfig Variables RuntimeConfig.
From S2P Require Import OnHostProcess Health GarbageCollector K8sObjects.

(** ** Resources, the fields that are used; counters are [i32] *)

Record DeploymentStatus : Type := { unavailable_replicas : option Z; available_replicas : option Z }.

Record Deployment : Type := {
  deployment_metadata : ObjectMeta;
  deployment_replicas : option (option Z); (** [spec] and its [replicas] *)
  deployment_status : option DeploymentStatus;
}.

Record DaemonSetStatus : Type := {
  number_ready : Z;
  desired_number_scheduled : Z;
  number_unavailable : option Z;
  updated_number_scheduled : option Z;
}.

Record DaemonSet : Type := {
  daemon_set_metadata : ObjectMeta;
  update_strategy : option (option (option string)); (** [spec], [updateStrategy], [type] *)
  daemon_set_status : option DaemonSetStatus;
}.

Record StatefulSet : Type := {
  stateful_set_metadata : ObjectMeta;
  stateful_set_replicas : option (option Z); (** [spec] and its [replicas] *)
  ready_replicas : option (option Z); (** [status] and its [readyReplicas] *)
}.

(** What the client answers *)
Record ClusterView : Type := {
  get_dynamic_object : TypeMeta -> string -> string -> result (option DynamicObject) K8sError;
  list_deployment : string -> result (list Deployment) K8sError;
  list_daemon_set : string -> result (list DaemonSet) K8sError;
  list_stateful_set : string -> result (list StatefulSet) K8sError;
}.

Inductive HealthCheckerError : Type :=
| HealthGeneric (e : string)
| MissingK8sObjectField (kind name field : string)
| HealthK8sError (e : K8sError).

Definition show_health_error (e : HealthCheckerError) : string :=
  match e with
  | HealthGeneric e => e
  | MissingK8sObjectField kind name field => kind +:+ "/" +:+ name +:+ " misses field '" +:+ field +:+ "'"
  | HealthK8sError e => "k8s error: " +:+ show_k8s_error e
  end.

Definition health_is_healthy (h : Health) : bool := match h with IsHealthy _ => true | IsUnhealthy _ => false end.

(** [kube]'s [Selector] for a label that must have a value, and the text of a failed
    [serde_json::from_value] *)
Class KubeText : Type := {
  label_equal : string -> string -> gmap string string -> bool;
  from_value_error : value -> string;
}.

Class KubeTextLaws `{KT : KubeText} : Prop :=
  label_equal_spec k v l : label_equal k v l = true <-> l !! k = Some v.

Definition LABEL_RELEASE_FLUX : string := "helm.toolkit.fluxcd.io/name".
Definition ROLLING_UPDATE_UPDATE_STRATEGY : string := "RollingUpdate".
Definition CONDITION_READY : string := "Ready".

Inductive ResourceFilter : Type :=
| ByName (name : string)
| ByFluxLabel (release : string).

Section Resources.
Context `{KT : KubeText}.
Variable now : SystemTime.

Definition healthy_now : Health := IsHealthy (new_healthy now).
Definition unhealthy_now (e : string) : Health := IsUnhealthy (new_unhealthy now e).

(** [get_metadata_name] *)
Definition get_metadata_name (kind : string) (m : ObjectMeta) : result string HealthCheckerError :=
  ok_or (meta_name m) (HealthK8sError (MissingName kind)).

(** [check_health_for_items] *)
Fixpoint check_health_for_items {K} (items : list K) (health_check_fn : K -> result Health HealthCheckerError) :
  result Health HealthCheckerError :=
  match items with
  | [] => Ok healthy_now
  | obj :: items =>
      let? obj_health := health_check_fn obj in
      if negb (health_is_healthy obj_health) then Ok obj_health else check_health_for_items items health_check_fn
  end.

(** [flux_release_filter], [name_filter] and the choice between them *)
Definition flux_release_filter (release_name : string) (m : ObjectMeta) : bool :=
  match meta_labels m with Some labels => label_equal LABEL_RELEASE_FLUX release_name labels | None => false end.

Definition name_filter (name : string) (m : ObjectMeta) : bool :=
  match meta_name m with Some n => String.eqb n name | None => false end.

Definition resource_filter (f : ResourceFilter) : ObjectMeta -> bool :=
  match f with ByName name => name_filter name | ByFluxLabel release => flux_release_filter release end.

(** [check_deployment_health] *)
Definition check_deployment_health (d : Deployment) : result Health HealthCheckerError :=
  let? name := get_metadata_name "Deployment" (deployment_metadata d) in
  let missing := MissingK8sObjectField "Deployment" name in
  let? status := ok_or (deployment_status d) (missing ".status") in
  let unavailable := default 0%Z (unavailable_replicas status) in
  if (0 <? unavailable)%Z
  then Ok (unhealthy_now ("Deployment `" +:+ name +:+ "`: has " +:+ show_Z unavailable +:+ " unavailable replicas"))
  else
    let? spec := ok_or (deployment_replicas d) (missing ".spec") in
    let? desired := ok_or spec (missing "spec.replicas") in
    let available := default 0%Z (available_replicas status) in
    if (available <? desired)%Z
    then Ok (unhealthy_now ("Deployment `" +:+ name +:+ "`: available replicas `" +:+ show_Z available
                            +:+ "` is less than desired `" +:+ show_Z desired +:+ "`"))
    else Ok healthy_now.

(** [is_daemon_set_update_strategy_rolling_update] *)
Definition is_daemon_set_update_strategy_rolling_update (name : string) (ds : DaemonSet) : result bool HealthCheckerError :=
  let missing := MissingK8sObjectField "DaemonSet" name in
  let? spec := ok_or (update_strategy ds) (missing ".spec") in
  let? strategy := ok_or spec (missing ".spec.updateStrategy") in
  let? update_type := ok_or strategy (missing ".spec.updateStrategy.type_") in
  Ok (String.eqb update_type ROLLING_UPDATE_UPDATE_STRATEGY).

(** [check_health_single_daemon_set] *)
Definition check_health_single_daemon_set (ds : DaemonSet) : result Health HealthCheckerError :=
  let? name := get_metadata_name "DaemonSet" (daemon_set_metadata ds) in
  let? status := ok_or (daemon_set_status ds) (MissingK8sObjectField "DaemonSet" name ".status") in
  let desired := desired_number_scheduled status in
  let unavailable := default 0%Z (number_unavailable status) in
  if (number_ready status <? desired)%Z
  then Ok (unhealthy_now ("DaemonSet `" +:+ name +:+ "`: the number of pods ready `" +:+ show_Z (number_ready status)
                          +:+ "` is less that the desired `" +:+ show_Z desired +:+ "`"))
  else if (0 <? unavailable)%Z
  then Ok (unhealthy_now ("DaemonSet `" +:+ name +:+ "`: the are " +:+ show_Z unavailable +:+ " unavailable pods"))
  else
    let? rolling := is_daemon_set_update_strategy_rolling_update name ds in
    let updated := default 0%Z (updated_number_scheduled status) in
    if rolling && (updated <? desired)%Z
    then Ok (unhealthy_now ("DaemonSet `" +:+ name +:+ "`: the number of nodes having an updated and ready replica `"
                            +:+ show_Z updated +:+ "` is less that the desired `" +:+ show_Z desired +:+ "`"))
    else Ok healthy_now.

(** [stateful_set_health] *)
Definition stateful_set_health (sts : StatefulSet) : result Health HealthCheckerError :=
  let? name := get_metadata_name "StatefulSet" (stateful_set_metadata sts) in
  let missing := MissingK8sObjectField "StatefulSet" name in
  let? spec := ok_or (stateful_set_replicas sts) (missing ".spec") in
  let? status := ok_or (ready_replicas sts) (missing ".status") in
  let replicas := default 1%Z spec in
  let? ready := ok_or status (missing ".status.readyReplicas") in
  if negb (replicas =? ready)%Z
  then Ok (unhealthy_now ("StatefulSet `" +:+ name +:+ "` not ready: replicas `" +:+ show_Z replicas
                          +:+ "` different from ready_replicas `" +:+ show_Z ready +:+ "`"))
  else Ok healthy_now.

(** ** HelmRelease *)

Inductive ConditionStatus : Type := ConditionTrue | ConditionFalse | ConditionUnknown.

Definition condition_status (s : string) : ConditionStatus :=
  if String.eqb s "True" then ConditionTrue
  else if String.eqb s "False" then ConditionFalse
  else ConditionUnknown.

Definition as_array (v : value) : option (list value) := match v with Array l => Some l | _ => None end.

(** [cond.get(key).and_then(Value::as_str)] *)
Definition get_str (key : string) (v : value) : option string := Json.get key v ≫= as_str_value.

(** [get_status], [get_status_conditions] *)
Definition get_status (name : string) (helm_release_data : list (string * value)) :
  result (list (string * value)) HealthCheckerError :=
  ok_or (assoc "status" helm_release_data ≫= as_object)
    (HealthGeneric ("Failed to parse status of HelmRelease '" +:+ name +:+ "'")).

Definition get_status_conditions (name : string) (status : list (string * value)) : result (list value) HealthCheckerError :=
  ok_or (assoc "conditions" status ≫= as_array)
    (HealthGeneric ("No conditions found in status of HelmRelease '" +:+ name +:+ "'")).

(** [find_ready_condition] *)
Fixpoint find_ready_condition (conditions : list value) : option value :=
  match conditions with
  | [] => None
  | cond :: conditions =>
      match get_str "type" cond with
      | Some cond_type => if String.eqb cond_type CONDITION_READY then Some cond else find_ready_condition conditions
      | None => find_ready_condition conditions
      end
  end.

(** [is_healthy_and_message] *)
Definition is_healthy_and_message (conditions : list value) : bool * string :=
  match find_ready_condition conditions with
  | Some condition =>
      let message := default "No specific message found" (get_str "message" condition) in
      match condition_status <$> get_str "status" condition with
      | Some ConditionTrue => (true, "HelmRelease is healthy")
      | Some ConditionFalse => (false, "HelmRelease not ready: " +:+ message)
      | Some ConditionUnknown => (false, "HelmRelease status unknown: " +:+ message)
      | None => (false, "HelmRelease status missing")
      end
  | None => (false, "No 'Ready' condition was found")
  end.

Variable view : ClusterView.

Definition helm_release_health (tm : TypeMeta) (name ns : string) : result Health HealthCheckerError :=
  let? found := map_err (fun e => HealthGeneric ("Error fetching HelmRelease '" +:+ name +:+ "': " +:+ show_k8s_error e))
    (get_dynamic_object view tm name ns) in
  let? helm_release := ok_or found (HealthGeneric ("HelmRelease '" +:+ name +:+ "' not found")) in
  let? helm_release_data := ok_or (as_object (obj_data helm_release)) (HealthGeneric "HelmRelease data is not an object") in
  let? status := get_status name helm_release_data in
  let? conditions := get_status_conditions name status in
  let '(is_healthy, message) := is_healthy_and_message conditions in
  Ok (if (is_healthy : bool) then healthy_now else unhealthy_now message).

(** ** Instrumentation *)

Record UnhealthyPodError : Type := { pod : string; pod_last_error : string }.

(** Counters are [u64]. *)
Record InstrumentationStatus : Type := {
  pods_matching : N;
  pods_healthy : N;
  pods_injected : N;
  pods_not_ready : N;
  pods_outdated : N;
  pods_unhealthy : N;
  unhealthy_pods_errors : list UnhealthyPodError;
  status_entity_guids : list string;
}.

(** The derived [Deserialize]: structs are read from objects by name, or from arrays by position.
    [Some None] is a field that is missing. *)
Definition struct_field (i : nat) (key : string) (v : value) : option (option value) :=
  match v with
  | Object f => Some (assoc key f)
  | Array l => Some (l !! i)
  | _ => None
  end.

Definition struct_len (n : nat) (v : value) : bool :=
  match v with Array l => length l <=? n | _ => true end.

Definition de_u64 (v : value) : option N := match v with Number n => parse_unsigned u64_bound n | _ => None end.
Definition de_list {A} (de : value -> option A) (v : value) : option (list A) := as_array v ≫= mapM de.

(** A field with [#[serde(default)]], and one without *)
Definition de_default {A} (d : A) (de : value -> option A) (i : nat) (key : string) (v : value) : option A :=
  struct_field i key v ≫= fun o => match o with Some w => de w | None => Some d end.

Definition de_required {A} (de : value -> option A) (i : nat) (key : string) (v : value) : option A :=
  struct_field i key v ≫= fun o => o ≫= de.

Definition de_unhealthy_pod_error (v : value) : option UnhealthyPodError :=
  if negb (struct_len 2 v) then None else
  p ← de_required as_str_value 0 "pod" v; e ← de_required as_str_value 1 "lastError" v;
  Some {| pod := p; pod_last_error := e |}.

Definition de_instrumentation_status (v : value) : option InstrumentationStatus :=
  if negb (struct_len 8 v) then None else
  matching ← de_default 0%N de_u64 0 "podsMatching" v;
  healthy ← de_default 0%N de_u64 1 "podsHealthy" v;
  injected ← de_default 0%N de_u64 2 "podsInjected" v;
  not_ready ← de_default 0%N de_u64 3 "podsNotReady" v;
  outdated ← de_default 0%N de_u64 4 "podsOutdated" v;
  unhealthy ← de_default 0%N de_u64 5 "podsUnhealthy" v;
  errors ← de_default [] (de_list de_unhealthy_pod_error) 6 "unhealthyPodsErrors" v;
  guids ← de_default [] (de_list as_str_value) 7 "entityGuids" v;
  Some {| pods_matching := matching; pods_healthy := healthy; pods_injected := injected; pods_not_ready := not_ready;
          pods_outdated := outdated; pods_unhealthy := unhealthy; unhealthy_pods_errors := errors;
          status_entity_guids := guids |}.

(** [Display], [is_healthy], [last_error], [get_health] *)
Definition show_instrumentation_status (s : InstrumentationStatus) : string :=
  "podsMatching:" +:+ show_N (pods_matching s) +:+ ", podsHealthy:" +:+ show_N (pods_healthy s)
  +:+ ", podsInjected:" +:+ show_N (pods_injected s) +:+ ", podsNotReady:" +:+ show_N (pods_not_ready s)
  +:+ ", podsOutdated:" +:+ show_N (pods_outdated s) +:+ ", podsUnhealthy:" +:+ show_N (pods_unhealthy s).

Definition instrumentation_is_healthy (s : InstrumentationStatus) : bool :=
  ((pods_not_ready s =? 0) && (pods_unhealthy s =? 0) && (0 <? pods_healthy s) && (0 <? pods_matching s)
   && (pods_injected s =? pods_matching s))%N.

Definition instrumentation_last_error (s : InstrumentationStatus) : string :=
  join ", " (map (fun e => "pod " +:+ pod e +:+ ":" +:+ pod_last_error e) (unhealthy_pods_errors s)).

Definition get_health (s : InstrumentationStatus) : Health :=
  if instrumentation_is_healthy s
  then IsHealthy {| healthy_status_time := now; healthy_status := show_instrumentation_status s |}
  else IsUnhealthy {| unhealthy_status_time := now; unhealthy_status := show_instrumentation_status s;
                      unhealthy_last_error := instrumentation_last_error s |}.

Definition instrumentation_health (tm : TypeMeta) (name ns : string) : result Health HealthCheckerError :=
  let? found := map_err (fun e => HealthGeneric ("instrumentation CR could not be fetched'" +:+ name +:+ "': " +:+ show_k8s_error e))
    (get_dynamic_object view tm name ns) in
  let? instrumentation := ok_or found (HealthGeneric ("Instrumentation '" +:+ name +:+ "' not found")) in
  let? data := ok_or (as_object (obj_data instrumentation)) (HealthGeneric "instrumentation CR data is not an object") in
  let? status := ok_or (assoc "status" data) (HealthGeneric "instrumentation status could not be retrieved") in
  let? status := ok_or (de_instrumentation_status status)
    (HealthGeneric ("could not deserialize a valid instrumentation status: " +:+ from_value_error status)) in
  Ok (get_health status).

End Resources.

(** ** The checkers of an agent *)

Inductive K8sResourceHealthChecker : Type :=
| HelmReleaseHealth (tm : TypeMeta) (name ns : string)
| NewRelicHealth (tm : TypeMeta) (name ns : string)
| StatefulSetHealth (filter : ResourceFilter) (ns : string)
| DaemonSetHealth (filter : ResourceFilter) (ns : string)
| DeploymentHealth (filter : ResourceFilter) (ns : string).

(** [checkers_for_check_definition] *)
Definition checkers_for_check_definition (check : K8sHealthCheckDefinition) : list K8sResourceHealthChecker :=
  let name := check_name check in
  let ns := check_namespace check in
  match check_kind check with
  | DeploymentKind => [DeploymentHealth (ByName name) ns]
  | DaemonSetKind => [DaemonSetHealth (ByName name) ns]
  | StatefulSetKind => [StatefulSetHealth (ByName name) ns]
  | InstrumentationKind => [NewRelicHealth instrumentation_v1beta3_type_meta name ns]
  | HelmReleaseWorkloadKind =>
      let target_ns := default ns (target_namespace check) in
      [HelmReleaseHealth helmrelease_v2_type_meta name ns;
       StatefulSetHealth (ByFluxLabel name) target_ns;
       DaemonSetHealth (ByFluxLabel name) target_ns;
       DeploymentHealth (ByFluxLabel name) target_ns]
  end.

(** [health_checkers_for_type_meta] *)
Definition health_checkers_for_type_meta (tm : TypeMeta) (name ns : string) (target_namespace : option string) :
  list K8sResourceHealthChecker :=
  let same t := String.eqb (api_version tm) (api_version t) && String.eqb (type_kind tm) (type_kind t) in
  if same helmrelease_v2_type_meta then
    let target_ns := default ns target_namespace in
    [HelmReleaseHealth tm name ns; StatefulSetHealth (ByFluxLabel name) target_ns;
     DaemonSetHealth (ByFluxLabel name) target_ns; DeploymentHealth (ByFluxLabel name) target_ns]
  else if same instrumentation_v1beta3_type_meta then [NewRelicHealth tm name ns]
  else [].

(** [agent_control_health_checker_builder]: the releases of Agent Control and of Flux, unless
    continuous delivery is disabled ([None], which is always healthy). *)
Definition agent_control_health_checker (cd_enabled : bool) (ac_release_name cd_release_name : option string) (ns : string) :
  option (list K8sResourceHealthChecker) :=
  if negb cd_enabled then None
  else Some (flat_map (fun release_name => health_checkers_for_type_meta helmrelease_v2_type_meta release_name ns (Some ns))
               (option_list ac_release_name ++ option_list cd_release_name)).

(** [K8sHealthChecker::from_checks_definition] *)
Definition from_checks_definition (checks : list K8sHealthCheckDefinition) : option (list K8sResourceHealthChecker) :=
  match flat_map checkers_for_check_definition checks with
  | [] => None
  | health_checkers => Some health_checkers
  end.

Section Checkers.
Context `{KT : KubeText}.
Variable now start_time : SystemTime.

Definition with_start_time (h : Health) : HealthWithStartTime := {| Health.start_time := start_time; health := h |}.

(** [check_health] of a resource *)
Definition resource_health (view : ClusterView) (c : K8sResourceHealthChecker) : result Health HealthCheckerError :=
  match c with
  | HelmReleaseHealth tm name ns => helm_release_health now view tm name ns
  | NewRelicHealth tm name ns => instrumentation_health now view tm name ns
  | StatefulSetHealth f ns =>
      let? l := map_err HealthK8sError (list_stateful_set view ns) in
      check_health_for_items now (List.filter (fun o => resource_filter f (stateful_set_metadata o)) l) (stateful_set_health now)
  | DaemonSetHealth f ns =>
      let? l := map_err HealthK8sError (list_daemon_set view ns) in
      check_health_for_items now (List.filter (fun o => resource_filter f (daemon_set_metadata o)) l) (check_health_single_daemon_set now)
  | DeploymentHealth f ns =>
      let? l := map_err HealthK8sError (list_deployment view ns) in
      check_health_for_items now (List.filter (fun o => resource_filter f (deployment_metadata o)) l) (check_deployment_health now)
  end.

(** [K8sHealthChecker::check_health]; the [i]-th check has the view [views i]. *)
Fixpoint check_health_from (views : nat -> ClusterView) (health_checkers : list K8sResourceHealthChecker) (i : nat) :
  result HealthWithStartTime HealthCheckerError :=
  match health_checkers with
  | [] => Ok (with_start_time (healthy_now now))
  | rhc :: health_checkers =>
      let? health := resource_health (views i) rhc in
      if negb (health_is_healthy health) then Ok (with_start_time health)
      else check_health_from views health_checkers (S i)
  end.

Definition k8s_check_health (views : nat -> ClusterView) (health_checkers : list K8sResourceHealthChecker) :
  result HealthWithStartTime HealthCheckerError :=
  check_health_from views health_checkers 0.

End Checkers.

(** ** What healthy means *)

Section Spec.
Context `{KT : KubeText}.
Variable view : ClusterView.

(** The deployment has a name, no unavailable replica and all the replicas it wants. *)
Definition deployment_ready (d : Deployment) : Prop :=
  is_Some (meta_name (deployment_metadata d)) /\
  exists st desired, deployment_status d = Some st /\ deployment_replicas d = Some (Some desired) /\
    (default 0 (unavailable_replicas st) <= 0)%Z /\ (desired <= default 0 (available_replicas st))%Z.

(** All the nodes that should have a pod have one that is ready, of the last version when the pods
    are replaced by a rolling update. *)
Definition daemon_set_ready (ds : DaemonSet) : Prop :=
  is_Some (meta_name (daemon_set_metadata ds)) /\
  exists st strategy, daemon_set_status ds = Some st /\ update_strategy ds = Some (Some (Some strategy)) /\
    (desired_number_scheduled st <= number_ready st)%Z /\ (default 0 (number_unavailable st) <= 0)%Z /\
    (strategy = ROLLING_UPDATE_UPDATE_STRATEGY -> (desired_number_scheduled st <= default 0 (updated_number_scheduled st))%Z).

(** As many replicas are ready as are wanted, 1 when the number is not given. *)
Definition stateful_set_ready (sts : StatefulSet) : Prop :=
  is_Some (meta_name (stateful_set_metadata sts)) /\
  exists replicas ready, stateful_set_replicas sts = Some replicas /\ ready_replicas sts = Some (Some ready) /\
    default 1%Z replicas = ready.

(** The first [Ready] condition of the release is true. *)
Definition release_ready (tm : TypeMeta) (name ns : string) : Prop :=
  exists o data status conditions pre cond post,
    get_dynamic_object view tm name ns = Ok (Some o) /\ as_object (obj_data o) = Some data /\
    assoc "status" data = Some (Object status) /\ assoc "conditions" status = Some (Array conditions) /\
    conditions = pre ++ cond :: post /\ Forall (fun c => get_str "type" c <> Some CONDITION_READY) pre /\
    get_str "type" cond = Some CONDITION_READY /\ get_str "status" cond = Some "True".

(** There are pods to instrument, all were, and none of them is unhealthy or not ready. *)
Definition instrumentation_ready (tm : TypeMeta) (name ns : string) : Prop :=
  exists o data v s,
    get_dynamic_object view tm name ns = Ok (Some o) /\ as_object (obj_data o) = Some data /\
    assoc "status" data = Some v /\ de_instrumentation_status v = Some s /\
    (pods_not_ready s = 0 /\ pods_unhealthy s = 0 /\ 0 < pods_healthy s /\ 0 < pods_matching s /\
     pods_injected s = pods_matching s)%N.

(** The workload is selected by a filter. *)
Definition selected (f : ResourceFilter) (m : ObjectMeta) : Prop :=
  match f with
  | ByName name => meta_name m = Some name
  | ByFluxLabel release => exists labels, meta_labels m = Some labels /\ labels !! LABEL_RELEASE_FLUX = Some release
  end.

Definition all_selected {K} (listed : result (list K) K8sError) (meta : K -> ObjectMeta) (f : ResourceFilter) (ready : K -> Prop) : Prop :=
  exists l, listed = Ok l /\ forall o, o ∈ l -> selected f (meta o) -> ready o.

Definition checker_satisfied (c : K8sResourceHealthChecker) : Prop :=
  match c with
  | HelmReleaseHealth tm name ns => release_ready tm name ns
  | NewRelicHealth tm name ns => instrumentation_ready tm name ns
  | StatefulSetHealth f ns => all_selected (list_stateful_set view ns) stateful_set_metadata f stateful_set_ready
  | DaemonSetHealth f ns => all_selected (list_daemon_set view ns) daemon_set_metadata f daemon_set_ready
  | DeploymentHealth f ns => all_selected (list_deployment view ns) deployment_metadata f deployment_ready
  end.

End Spec.

(** ** Lemmas *)

Section Lemmas.
Context `{KT : KubeText} `{KL : !KubeTextLaws}.
Variable now : SystemTime.

Definition is_ok_healthy (r : result Health HealthCheckerError) : Prop := exists h, r = Ok h /\ health_is_healthy h = true.

Lemma ok_or_bind {A B} (o : option A) e (f : A -> result B HealthCheckerError) b :
  and_then (ok_or o e) f = Ok b <-> exists a, o = Some a /\ f a = Ok b.
Proof using. destruct o as [a|]; simpl; [split; [by exists a|by intros (? & [= <-] & ?)]|split; [done|by intros (? & ? & _)]]. Qed.

Lemma check_items_healthy {K} (l : list K) f :
  is_ok_healthy (check_health_for_items now l f) <-> Forall (fun o => is_ok_healthy (f o)) l.
Proof using.
  induction l as [|o l IH]; simpl; [split; [constructor|by eexists]|]. rewrite Forall_cons, <-IH. unfold is_ok_healthy at 2.
  destruct (f o) as [h|e]; simpl; [|split; [by intros (? & ? & _)|by intros [(? & ? & _) _]]].
  destruct (health_is_healthy h) eqn:Eh; simpl.
  - split; [intros H; split; [by exists h|done]|by intros [_ H]].
  - split; [intros (? & [= <-] & ?)|intros [(? & [= <-] & ?) _]]; congruence.
Qed.

Lemma resource_filter_spec f m : resource_filter f m = true <-> selected f m.
Proof using KL.
  destruct f as [name|release]; simpl; unfold name_filter, flux_release_filter.
  - destruct (meta_name m) as [n|]; [rewrite String.eqb_eq; split; congruence|done].
  - destruct (meta_labels m) as [labels|]; [|split; [done|by intros (? & ? & _)]]. rewrite label_equal_spec.
    split; [by exists labels|by intros (? & [= <-] & ?)].
Qed.

Lemma listed_healthy {K} (listed : result (list K) K8sError) meta f ready check :
  (forall o, is_ok_healthy (check o) <-> ready o) ->
  is_ok_healthy (let? l := map_err HealthK8sError listed in
                 check_health_for_items now (List.filter (fun o => resource_filter f (meta o)) l) check) <->
  all_selected listed meta f ready.
Proof using KL.
  intros Hr. unfold all_selected. destruct listed as [l|e]; simpl; [|split; [by intros (? & ? & _)|by intros (? & ? & _)]].
  rewrite check_items_healthy, Forall_forall. split.
  - intros H. exists l. split; [done|]. intros o Ho Hs. apply Hr, H, list_elem_of_In, filter_In.
    by split; [apply list_elem_of_In|apply resource_filter_spec].
  - intros (? & [= <-] & H) o [Ho Hs]%list_elem_of_In%filter_In. apply Hr, H; [by apply list_elem_of_In|by apply resource_filter_spec].
Qed.

Lemma deployment_healthy d : is_ok_healthy (check_deployment_health now d) <-> deployment_ready d.
Proof using.
  unfold check_deployment_health, deployment_ready, get_metadata_name, is_ok_healthy.
  destruct (meta_name _) as [n|]; simpl; [|split; [by intros (? & ? & _)|by intros [[? ?] _]]].
  destruct (deployment_status d) as [st|]; simpl; [|split; [by intros (? & ? & _)|by intros (_ & ? & ? & ? & _)]].
  destruct (Z.ltb_spec 0 (default 0%Z (unavailable_replicas st))) as [Hu|Hu].
  { split; [intros (? & [= <-] & ?); done|intros (_ & ? & ? & [= <-] & _ & ? & _); lia]. }
  destruct (deployment_replicas d) as [[desired|]|]; simpl;
    try (split; [by intros (? & ? & _)|by intros (_ & ? & ? & _ & ? & _)]).
  destruct (Z.ltb_spec (default 0%Z (available_replicas st)) desired) as [Ha|Ha].
  { split; [intros (? & [= <-] & ?); done|intros (_ & ? & ? & [= <-] & [= <-] & _ & ?); lia]. }
  split; [|by eexists]. intros _. split; [by eexists|]. by exists st, desired.
Qed.

Lemma daemon_set_healthy ds : is_ok_healthy (check_health_single_daemon_set now ds) <-> daemon_set_ready ds.
Proof using.
  unfold check_health_single_daemon_set, daemon_set_ready, get_metadata_name, is_daemon_set_update_strategy_rolling_update, is_ok_healthy.
  destruct (meta_name _) as [n|]; simpl; [|split; [by intros (? & ? & _)|by intros [[? ?] _]]].
  destruct (daemon_set_status ds) as [st|]; simpl; [|split; [by intros (? & ? & _)|by intros (_ & ? & ? & ? & _)]].
  destruct (Z.ltb_spec (number_ready st) (desired_number_scheduled st)) as [Hr|Hr].
  { split; [intros (? & [= <-] & ?); done|intros (_ & ? & ? & [= <-] & _ & ? & _); lia]. }
  destruct (Z.ltb_spec 0 (default 0%Z (number_unavailable st))) as [Hu|Hu].
  { split; [intros (? & [= <-] & ?); done|intros (_ & ? & ? & [= <-] & _ & _ & ? & _); lia]. }
  destruct (update_strategy ds) as [[[t|]|]|]; simpl; try (split; [by intros (? & ? & _)|by intros (_ & ? & ? & _ & ? & _)]).
  destruct (String.eqb_spec t ROLLING_UPDATE_UPDATE_STRATEGY) as [->|Hne]; simpl.
  - destruct (Z.ltb_spec (default 0%Z (updated_number_scheduled st)) (desired_number_scheduled st)) as [Hs|Hs].
    { split; [intros (? & [= <-] & ?); done|intros (_ & ? & ? & [= <-] & [= <-] & _ & _ & H)]. specialize (H eq_refl). lia. }
    split; [|by eexists]. intros _. split; [by eexists|]. by eexists _, _.
  - split; [|by eexists]. intros _. split; [by eexists|]. by eexists _, _.
Qed.

Lemma stateful_set_healthy sts : is_ok_healthy (stateful_set_health now sts) <-> stateful_set_ready sts.
Proof using.
  unfold stateful_set_health, stateful_set_ready, get_metadata_name, is_ok_healthy.
  destruct (meta_name _) as [n|]; simpl; [|split; [by intros (? & ? & _)|by intros [[? ?] _]]].
  destruct (stateful_set_replicas sts) as [replicas|]; simpl; [|split; [by intros (? & ? & _)|by intros (_ & ? & ? & ? & _)]].
  destruct (ready_replicas sts) as [[ready|]|]; simpl; try (split; [by intros (? & ? & _)|by intros (_ & ? & ? & _ & ? & _)]).
  destruct (Z.eqb_spec (default 1%Z replicas) ready) as [<-|Hne]; simpl.
  - split; [|by eexists]. intros _. split; [by eexists|]. by eexists _, _.
  - split; [intros (? & [= <-] & ?); done|by intros (_ & ? & ? & [= <-] & [= <-] & ?)].
Qed.

Lemma find_ready_condition_spec conditions cond :
  find_ready_condition conditions = Some cond <->
  exists pre post, conditions = pre ++ cond :: post /\ Forall (fun c => get_str "type" c <> Some CONDITION_READY) pre /\
    get_str "type" cond = Some CONDITION_READY.
Proof using.
  induction conditions as [|c l IH]; simpl; [split; [done|by intros ([|] & ? & ? & _)]|].
  assert (get_str "type" c <> Some CONDITION_READY ->
    (exists pre post, l = pre ++ cond :: post /\ Forall (fun c => get_str "type" c <> Some CONDITION_READY) pre /\
      get_str "type" cond = Some CONDITION_READY) <->
    (exists pre post, c :: l = pre ++ cond :: post /\ Forall (fun c => get_str "type" c <> Some CONDITION_READY) pre /\
      get_str "type" cond = Some CONDITION_READY)) as Hskip.
  { intros Hne. split.
    - intros (pre & post & -> & Hp & Hc). exists (c :: pre), post. split_and!; [done|by constructor|done].
    - intros ([|c' pre] & post & [= -> ->] & Hp & Hc); [done|]. inversion Hp; subst. by exists pre, post. }
  destruct (get_str "type" c) as [t|] eqn:Et; [|rewrite IH; by apply Hskip].
  destruct (String.eqb_spec t CONDITION_READY) as [->|Hne]; [|rewrite IH; apply Hskip; by intros [= ->]].
  split.
  - intros [= <-]. exists [], l. by split_and!.
  - intros ([|c' pre] & post & [= -> ->] & Hp & _); [done|]. by inversion Hp.
Qed.

Lemma release_healthy view tm name ns : is_ok_healthy (helm_release_health now view tm name ns) <-> release_ready view tm name ns.
Proof using.
  unfold helm_release_health, release_ready, is_ok_healthy, get_status, get_status_conditions.
  destruct (get_dynamic_object view tm name ns) as [[o|]|e] eqn:Eg; cbn [map_err and_then ok_or];
    try (split; [by intros (? & ? & _)|by intros (? & ? & ? & ? & ? & ? & ? & ? & _)]).
  split.
  - intros (h & H & Hh). apply ok_or_bind in H as (data & Hd & H). apply ok_or_bind in H as (status & Hs & H).
    apply ok_or_bind in H as (conditions & Hc & H). apply bind_Some in Hs as ([| | | | |f] & Hs & [= <-]).
    apply bind_Some in Hc as ([| | | |l|] & Hc & [= <-]). unfold is_healthy_and_message in H.
    destruct (find_ready_condition l) as [cond|] eqn:Ef; [|injection H as <-; done].
    apply find_ready_condition_spec in Ef as (pre & post & -> & Hp & Ht).
    destruct (get_str "status" cond) as [st|] eqn:Est; [|injection H as <-; done]. cbn in H. unfold condition_status in H.
    destruct (String.eqb_spec st "True") as [->|]; [|destruct (String.eqb st "False"); injection H as <-; done].
    by exists o, data, f, (pre ++ cond :: post), pre, cond, post.
  - intros (o' & data & status & conditions & pre & cond & post & [= <-] & Hd & Hs & Hc & -> & Hp & Ht & Hst).
    exists (healthy_now now). split; [|done]. rewrite Hd. cbn [and_then ok_or]. rewrite Hs. cbn [mbind option_bind as_object and_then ok_or].
    rewrite Hc. cbn [mbind option_bind as_array and_then ok_or]. unfold is_healthy_and_message.
    rewrite (proj2 (find_ready_condition_spec _ cond)) by by exists pre, post. by rewrite Hst.
Qed.

Lemma instrumentation_healthy view tm name ns :
  is_ok_healthy (instrumentation_health now view tm name ns) <-> instrumentation_ready view tm name ns.
Proof using.
  unfold instrumentation_health, instrumentation_ready, is_ok_healthy.
  destruct (get_dynamic_object view tm name ns) as [[o|]|e] eqn:Eg; cbn [map_err and_then ok_or];
    try (split; [by intros (? & ? & _)|by intros (? & ? & ? & ? & ? & _)]).
  assert (forall s, health_is_healthy (get_health now s) = true <->
    (pods_not_ready s = 0 /\ pods_unhealthy s = 0 /\ 0 < pods_healthy s /\ 0 < pods_matching s /\
     pods_injected s = pods_matching s)%N) as Hget.
  { intros s. unfold get_health, instrumentation_is_healthy.
    transitivity (((pods_not_ready s =? 0) && (pods_unhealthy s =? 0) && (0 <? pods_healthy s) && (0 <? pods_matching s)
      && (pods_injected s =? pods_matching s))%N = true); [by case_match|].
    rewrite !andb_true_iff, !N.eqb_eq, !N.ltb_lt. tauto. }
  split.
  - intros (h & H & Hh). apply ok_or_bind in H as (data & Hd & H). apply ok_or_bind in H as (v & Hv & H).
    apply ok_or_bind in H as (s & Hs & [= <-]). exists o, data, v, s. by rewrite <-Hget.
  - intros (o' & data & v & s & [= <-] & Hd & Hv & Hs & H). exists (get_health now s). split; [|by apply Hget].
    rewrite Hd. cbn [and_then ok_or]. rewrite Hv. cbn [and_then ok_or]. by rewrite Hs.
Qed.

Lemma resource_healthy view c : is_ok_healthy (resource_health now view c) <-> checker_satisfied view c.
Proof using KL.
  destruct c; simpl; [apply release_healthy|apply instrumentation_healthy|..]; apply listed_healthy;
    [apply stateful_set_healthy|apply daemon_set_healthy|apply deployment_healthy].
Qed.

Lemma check_health_from_spec start_time views hcs i :
  (exists h, check_health_from now start_time views hcs i = Ok h /\ is_healthy h = true) <->
  forall j c, hcs !! j = Some c -> is_ok_healthy (resource_health now (views (i + j)) c).
Proof using.
  revert i. induction hcs as [|c hcs IH]; intros i; cbn [check_health_from]; [split; [done|by eexists]|].
  split.
  - intros (h & H & Hh) [|j] c' Hc; simpl in Hc.
    + injection Hc as <-. rewrite Nat.add_0_r. destruct (resource_health now (views i) c) as [h'|]; [|done]. cbn [and_then] in H.
      exists h'. split; [done|]. destruct (health_is_healthy h') eqn:E; [done|]. injection H as <-. by destruct h'.
    + rewrite Nat.add_succ_r. apply (proj1 (IH (S i))); [|done]. destruct (resource_health now (views i) c) as [h'|]; [|done].
      cbn [and_then] in H. destruct (health_is_healthy h') eqn:E; [by exists h|]. injection H as <-. by destruct h'.
  - intros H. destruct (H 0 c eq_refl) as (h & Eh & Hh). rewrite Nat.add_0_r in Eh. rewrite Eh. cbn [and_then]. rewrite Hh.
    apply (proj2 (IH (S i))). intros j c' Hc. replace (S i + j) with (i + S j) by lia. by apply (H (S j)).
Qed.

End Lemmas.

(** ** Properties *)

Section Properties.
Context `{KT : KubeText} `{KL : !KubeTextLaws}.

(** C11: A sub-agent with health checks is healthy exactly when every resource its checks select is
    ready: the named workloads have the replicas they want, a release is [Ready] and so are the
    workloads labelled with it, an instrumentation has all its pods injected and none unhealthy;
    a resource that cannot be read, or whose status is incomplete, is not ready. *)
Theorem k8s_health_exact checks hcs views now start_time :
  from_checks_definition checks = Some hcs ->
  (exists h, k8s_check_health now start_time views hcs = Ok h /\ is_healthy h = true) <->
  (forall i c, flat_map checkers_for_check_definition checks !! i = Some c -> checker_satisfied (views i) c).
Proof using KL.
  unfold from_checks_definition, k8s_check_health. intros H. rewrite check_health_from_spec.
  destruct (flat_map checkers_for_check_definition checks) as [|c l]; [done|]. injection H as <-.
  by setoid_rewrite resource_healthy.
Qed.

(** A check of a named workload that is not in the cluster reports healthy, where a check of a
    release or of an instrumentation that is not there is an error. *)
Theorem missing_resource_health check view now start_time :
  let name := check_name check in let ns := check_namespace check in
  match check_kind check with
  | DeploymentKind => exists l, list_deployment view ns = Ok l /\ Forall (fun d => meta_name (deployment_metadata d) <> Some name) l
  | DaemonSetKind => exists l, list_daemon_set view ns = Ok l /\ Forall (fun d => meta_name (daemon_set_metadata d) <> Some name) l
  | StatefulSetKind => exists l, list_stateful_set view ns = Ok l /\ Forall (fun d => meta_name (stateful_set_metadata d) <> Some name) l
  | InstrumentationKind => get_dynamic_object view instrumentation_v1beta3_type_meta name ns = Ok None
  | HelmReleaseWorkloadKind => get_dynamic_object view helmrelease_v2_type_meta name ns = Ok None
  end ->
  let r := k8s_check_health now start_time (fun _ => view) (checkers_for_check_definition check) in
  match check_kind check with
  | InstrumentationKind => r = Err (HealthGeneric ("Instrumentation '" +:+ name +:+ "' not found"))
  | HelmReleaseWorkloadKind => r = Err (HealthGeneric ("HelmRelease '" +:+ name +:+ "' not found"))
  | _ => exists h, r = Ok h /\ is_healthy h = true
  end.
Proof using KL.
  unfold checkers_for_check_definition, k8s_check_health. destruct (check_kind check); cbn zeta; intros H.
  4,5: cbn; unfold instrumentation_health, helm_release_health; by rewrite H.
  all: apply check_health_from_spec; intros [|j] c Hc; [|done]; injection Hc as <-; apply resource_healthy;
    destruct H as (l & Hl & Hn); exists l; split; [done|]; intros o Ho Hs; rewrite Forall_forall in Hn; by apply Hn in Ho.
Qed.

End Properties.

(** ** Examples *)

#[export] Instance plain_kube_text : KubeText | 100 := {|
  label_equal k v l := bool_decide (l !! k = Some v);
  from_value_error _ := "invalid type";
|}.

#[export] Instance plain_kube_text_laws : KubeTextLaws (KT := plain_kube_text).
Proof. intros k v l. apply bool_decide_eq_true. Qed.

Definition example_meta (name : string) (labels : gmap string string) : ObjectMeta :=
  {| meta_name := Some name; meta_namespace := Some "agents"; meta_labels := Some labels; meta_annotations := None |}.

Definition example_release (status : string) : DynamicObject := {|
  types := Some helmrelease_v2_type_meta;
  metadata := example_meta "otel" ∅;
  obj_data := Object [("status", Object [("conditions",
    Array [Object [("type", Str "Released"); ("status", Str "False")]; Object [("type", Str CONDITION_READY); ("status", Str status)]])])];
|}.

(** A release with a deployment of two replicas, and an unrelated one that is not ready *)
Definition example_view (status : string) : ClusterView := {|
  get_dynamic_object tm name ns := Ok (if String.eqb (type_kind tm) "HelmRelease" then Some (example_release status) else None);
  list_deployment _ := Ok
    [{| deployment_metadata := example_meta "collector" {[LABEL_RELEASE_FLUX := "otel"]}; deployment_replicas := Some (Some 2%Z);
        deployment_status := Some {| unavailable_replicas := None; available_replicas := Some 2%Z |} |};
     {| deployment_metadata := example_meta "other" ∅; deployment_replicas := Some (Some 1%Z); deployment_status := None |}];
  list_daemon_set _ := Ok [];
  list_stateful_set _ := Ok [];
|}.

Definition example_check (kind : K8sHealthResourceKind) (name : string) : K8sHealthCheckDefinition :=
  {| check_name := name; check_namespace := "agents"; check_kind := kind; target_namespace := None |}.

(** With a release that is ready, and with one that is not *)
Lemma k8s_health_exact_witness :
  checker_satisfied (example_view "True") (HelmReleaseHealth helmrelease_v2_type_meta "otel" "agents") /\
  ~ (forall i c, flat_map checkers_for_check_definition [example_check HelmReleaseWorkloadKind "otel"] !! i = Some c ->
       checker_satisfied (example_view "False") c).
Proof.
  split.
  - apply (proj1 (k8s_health_exact [example_check HelmReleaseWorkloadKind "otel"] _ (fun _ => example_view "True") 0%Z 0%Z eq_refl))
      with (i := 0); [|reflexivity].
    eexists. split; vm_compute; reflexivity.
  - intros H. apply (proj2 (k8s_health_exact [example_check HelmReleaseWorkloadKind "otel"] _ (fun _ => example_view "False") 0%Z 0%Z eq_refl)) in H
      as (h & E & Hh). vm_compute in E. injection E as <-. discriminate Hh.
Defined.

Lemma missing_resource_health_witness :
  exists h, k8s_check_health 0%Z 0%Z (fun _ => example_view "True") (checkers_for_check_definition (example_check DeploymentKind "gone")) = Ok h
    /\ is_healthy h = true.
Proof.
  apply (missing_resource_health (example_check DeploymentKind "gone") (example_view "True") 0%Z 0%Z).
  eexists. split; [reflexivity|]. repeat constructor; discriminate.
Defined.
