(* ===== verification/K8sCheckers.v ===== *)
(** * Version and entity of sub-agents in Kubernetes

    Models [checkers/version/k8s/] and [checkers/guid/k8s/]: how the version of a sub-agent is read
    from its Helm release or its instrumentation and its entity from the status of the
    instrumentation, and the threads that report them.

    Dates are read by the [chrono] library, a parameter.  The error of a check is its text.  What
    the threads do is followed through a log; the flag that avoids repeated log lines is left out. *)

From Stdlib Require Import Ascii String Lia.
From stdpp Require Import base option list strings gmap.
From S2P Require Import Prelude RustString AgentId Json GarbageCollector Health K8sObjects K8sHealth.

Definition OPAMP_AGENT_VERSION_ATTRIBUTE_KEY : string := "agent.version".
Definition LATEST_REVISION : ascii := "*".

Record AgentVersion : Type := { version : string; version_opamp_field : string }.
Record EntityGuid : Type := { guid : string; guid_opamp_field : string }.

(** [NaiveDateTime::parse_from_str] with the format of the code; dates are compared by their value. *)
Class DateParser : Type := parse_date : string -> option Z.

(** ** Versions *)

Section Versions.
Context `{DP : DateParser} `{KT : KubeText}.

(** [from_version]: the version of the chart, unless it is a pattern *)
Definition from_version (helm_data : list (string * value)) : option string :=
  spec ← assoc "spec" helm_data; chart ← Json.get "chart" spec; spec ← Json.get "spec" chart;
  version ← Json.get "version" spec; version ← as_str_value version;
  if str_all (fun c => negb (Ascii.eqb c LATEST_REVISION)) version then Some version else None.

(** [from_last_deployed] *)
Definition from_last_deployed (helm_data : list (string * value)) : option string :=
  status ← assoc "status" helm_data; revision ← Json.get "lastAttemptedRevision" status;
  version ← as_str_value revision;
  if str_is_empty version then None else Some version.

(** [from_history]: among the deployed entries, the last of the latest *)
Definition history_entry (item : value) : option (Z * string) :=
  status ← get_str "status" item;
  if negb (String.eqb status "deployed") then None else
  chart_version ← get_str "chartVersion" item; deployment_date ← get_str "firstDeployed" item;
  parsed_date ← parse_date deployment_date; Some (parsed_date, chart_version).

Definition max_by_key (l : list (Z * string)) : option (Z * string) :=
  fold_left (fun acc e => match acc with
                          | Some m => if (e.1 <? m.1)%Z then Some m else Some e
                          | None => Some e
                          end) l None.

Definition from_history (helm_data : list (string * value)) : option string :=
  status ← assoc "status" helm_data; history ← Json.get "history" status; helm_history ← as_array history;
  entry ← max_by_key (omap history_entry helm_history); Some entry.2.

(** [extract_version] *)
Definition non_empty (o : option string) : option string :=
  s ← o; if str_is_empty s then None else Some s.

Fixpoint find_map {A B} (f : A -> option B) (l : list A) : option B :=
  match l with
  | [] => None
  | a :: l => match f a with Some b => Some b | None => find_map f l end
  end.

Definition extract_version (opamp_field : string) (data : list (string * value)) : result AgentVersion string :=
  match find_map (fun extractor => non_empty (extractor data)) [from_version; from_last_deployed; from_history] with
  | Some v => Ok {| version := v; version_opamp_field := opamp_field |}
  | None => Err "No valid version found in HelmRelease"
  end.

(** [version_from_newrelic_instrumentation_image] *)
Definition version_from_newrelic_instrumentation_image (data : list (string * value)) : option string :=
  spec ← assoc "spec" data; agent ← Json.get "agent" spec; image ← get_str "image" agent; split ":" image !! 1.

Inductive K8sAgentVersionChecker : Type :=
| HelmReleaseVersion (tm : TypeMeta) (ns name opamp_field : string)
| InstrumentationVersion (tm : TypeMeta) (ns : string) (agent_id : AgentID).

(** [SupportedResourceType::try_from] and [checked_new]: the first object of a known type *)
Definition same_type (a b : TypeMeta) : bool :=
  String.eqb (api_version a) (api_version b) && String.eqb (type_kind a) (type_kind b).

Fixpoint checked_new (agent_id : AgentID) (k8s_objects : list DynamicObject) (opamp_field : string) : option K8sAgentVersionChecker :=
  match k8s_objects with
  | [] => None
  | object :: k8s_objects =>
      match get_namespace object, get_type_meta object with
      | Ok namespace, Ok type_meta =>
          if same_type type_meta helmrelease_v2_type_meta
          then Some (HelmReleaseVersion type_meta namespace (as_str agent_id) opamp_field)
          else if same_type type_meta instrumentation_v1beta3_type_meta
          then Some (InstrumentationVersion type_meta namespace agent_id)
          else checked_new agent_id k8s_objects opamp_field
      | _, _ => checked_new agent_id k8s_objects opamp_field
      end
  end.

(** [check_agent_version] *)
Definition check_agent_version (view : ClusterView) (c : K8sAgentVersionChecker) : result AgentVersion string :=
  match c with
  | HelmReleaseVersion tm ns name opamp_field =>
      let? found := map_err (fun e => "Error fetching HelmRelease '" +:+ name +:+ "': " +:+ show_k8s_error e)
        (get_dynamic_object view tm name ns) in
      let? helm_release := ok_or found ("HelmRelease '" +:+ name +:+ "' not found") in
      let? data := ok_or (as_object (obj_data helm_release)) "HelmRelease data is not an object" in
      extract_version opamp_field data
  | InstrumentationVersion tm ns agent_id =>
      let id := as_str agent_id in
      let? found := map_err (fun e => "Error fetching Instrumentation for agent_id '" +:+ id +:+ "': " +:+ show_k8s_error e)
        (get_dynamic_object view tm id ns) in
      let? instrumentation := ok_or found ("Instrumentation for agent_id '" +:+ id +:+ "' not found") in
      let? data := ok_or (as_object (obj_data instrumentation)) ("Invalid Instrumentation for agent_id '" +:+ id +:+ "'") in
      let? v := ok_or (version_from_newrelic_instrumentation_image data)
        ("Could not extract version from 'spec.agent.image' in the Instrumentation object for '" +:+ id +:+ "'") in
      Ok {| version := v; version_opamp_field := OPAMP_AGENT_VERSION_ATTRIBUTE_KEY |}
  end.

(** ** Entities *)

(** [K8sGuidChecker::new]: the first instrumentation.  The texts of the errors are dropped by the caller. *)
Fixpoint guid_checker_new (resources : list DynamicObject) (opamp_field : string) :
  result (option (TypeMeta * string * string * string)) K8sError :=
  match resources with
  | [] => Ok None
  | resource :: resources =>
      let? type_meta := get_type_meta resource in
      if same_type type_meta instrumentation_v1beta3_type_meta then
        let? name := get_name resource in
        let? namespace := get_namespace resource in
        Ok (Some (type_meta, name, namespace, opamp_field))
      else guid_checker_new resources opamp_field
  end.

(** The list that [{:?}] prints is given. *)
Definition validate_guids (show_list : list string -> string) (guids : list string) : result string string :=
  match guids with
  | [] => Err "Instrumentation guid has empty 'entityGUIDs'"
  | first_guid :: _ =>
      if forallb (fun g => String.eqb g first_guid) guids then Ok first_guid
      else Err ("Mismatching entity GUIDs found in status: " +:+ show_list guids)
  end.

(** [InstrumentationGuid] *)
Definition de_instrumentation_guid (v : value) : option (list string) :=
  if negb (struct_len 1 v) then None else de_default [] (de_list as_str_value) 0 "entityGUIDs" v.

Definition check_guid (show_list : list string -> string) (view : ClusterView) (c : TypeMeta * string * string * string) :
  result EntityGuid string :=
  let '(tm, name, ns, opamp_field) := c in
  let? found := map_err (fun e => "K8s error: " +:+ show_k8s_error e) (get_dynamic_object view tm name ns) in
  let? obj := ok_or found ("Instrumentation " +:+ ns +:+ "/" +:+ name +:+ " not found") in
  let? status := ok_or (Json.get "status" (obj_data obj)) "Instrumentation resource has no 'status' field" in
  let? guids := ok_or (de_instrumentation_guid status) ("Invalid status structure: " +:+ from_value_error status) in
  let? valid_guid := validate_guids show_list guids in
  Ok {| guid := valid_guid; guid_opamp_field := opamp_field |}.

End Versions.

(** ** The threads

    Each check has a view of the cluster of its own; [waits] gives these views and whether the
    thread was cancelled while waiting for the interval after it. *)

Inductive CheckerEffect : Type :=
| Slept (d : N)
| Checked
| AttributesUpdated (field v : string).

Definition log_effect (e : CheckerEffect) : M (list CheckerEffect) unit := fun l => (tt, l ++ [e]).

Section Threads.
Context {C : Type}.

(** The loop of [spawn_version_checker] *)
Fixpoint version_checker_loop (check : C -> result AgentVersion string) (initial_delay : N) (waits : list (C * bool)) :
  M (list CheckerEffect) unit :=
  match waits with
  | [] => ret tt
  | (view, cancelled) :: waits =>
      let* _ := log_effect (Slept initial_delay) in
      let* _ := log_effect Checked in
      let* _ := match check view with
                | Ok agent_data => log_effect (AttributesUpdated (version_opamp_field agent_data) (version agent_data))
                | Err _ => ret tt
                end in
      if (cancelled : bool) then ret tt else version_checker_loop check initial_delay waits
  end.

(** The loop of [spawn_guid_checker] *)
Fixpoint guid_checker_loop (check : C -> result EntityGuid string) (initial_delay : N) (last_guid : option EntityGuid)
    (waits : list (C * bool)) : M (list CheckerEffect) unit :=
  match waits with
  | [] => ret tt
  | (view, cancelled) :: waits =>
      let* _ := log_effect (Slept initial_delay) in
      let* _ := log_effect Checked in
      let* last_guid :=
        match check view with
        | Ok current_guid =>
            let has_changed := match last_guid with
                               | Some prev => negb (String.eqb (guid prev) (guid current_guid))
                               | None => true
                               end in
            if has_changed then
              let* _ := log_effect (AttributesUpdated (guid_opamp_field current_guid) (guid current_guid)) in
              ret (Some current_guid)
            else ret last_guid
        | Err _ => ret last_guid
        end in
      if (cancelled : bool) then ret tt else guid_checker_loop check initial_delay last_guid waits
  end.

End Threads.

(** ** Reading the log of a thread *)

Definition updates (log : list CheckerEffect) : list string :=
  omap (fun e => match e with AttributesUpdated _ v => Some v | _ => None end) log.

Definition sleeps (log : list CheckerEffect) : list N :=
  omap (fun e => match e with Slept d => Some d | _ => None end) log.

Definition checks_done (log : list CheckerEffect) : nat :=
  length (omap (fun e => match e with Checked => Some tt | _ => None end) log).

(** The rounds until the thread is cancelled *)
Fixpoint rounds {C} (waits : list (C * bool)) : list C :=
  match waits with
  | [] => []
  | (view, cancelled) :: waits => view :: (if (cancelled : bool) then [] else rounds waits)
  end.

(** The values the checks of some rounds give *)
Definition answers {C A} (check : C -> result A string) (value : A -> string) (views : list C) : list string :=
  omap (fun view => match check view with Ok a => Some (value a) | Err _ => None end) views.

(** ** Lemmas *)

Lemma max_by_key_spec l :
  match max_by_key l with
  | Some e => exists pre post, l = pre ++ e :: post /\ Forall (fun e' => (e'.1 <= e.1)%Z) pre /\ Forall (fun e' => (e'.1 < e.1)%Z) post
  | None => l = []
  end.
Proof.
  unfold max_by_key. induction l as [|x l IH] using rev_ind; [done|]. rewrite fold_left_app. cbn [fold_left].
  destruct (fold_left _ l None) as [m|]; [|subst l; by exists [], []]. destruct IH as (pre & post & -> & Hpre & Hpost).
  destruct (Z.ltb_spec x.1 m.1) as [Hlt|Hge].
  - exists pre, (post ++ [x]). rewrite <-app_assoc. split_and!; [done|done|]. apply Forall_app. by split; [|constructor].
  - exists (pre ++ m :: post), []. split_and!; [done| |constructor]. apply Forall_app. split; [|constructor; [done|]].
    all: eapply Forall_impl; [eassumption|]. all: intros e; simpl; lia.
Qed.

Section LogLemmas.
Context {C : Type}.

(** What a round logs, given what it publishes *)
Definition round_log (d : N) (published : option (string * string)) : list CheckerEffect :=
  Slept d :: Checked :: from_option (fun kv => [AttributesUpdated kv.1 kv.2]) [] published.

Fixpoint step_updates {St} (step : St -> C -> option (string * string) * St) (st : St) (views : list C) : list string :=
  match views with
  | [] => []
  | view :: views => option_list (snd <$> (step st view).1) ++ step_updates step (step st view).2 views
  end.

(** A thread whose rounds log so *)
Lemma rounds_log {St} (loop : St -> list (C * bool) -> M (list CheckerEffect) unit) (step : St -> C -> option (string * string) * St) d :
  (forall st log, loop st [] log = (tt, log)) ->
  (forall st view c waits log, loop st ((view, c) :: waits) log =
     let r := step st view in
     (if (c : bool) then ret tt else loop r.2 waits) (log ++ round_log d r.1)) ->
  forall waits st log, exists new, loop st waits log = (tt, log ++ new) /\
    sleeps new = replicate (length (rounds waits)) d /\ checks_done new = length (rounds waits) /\
    updates new = step_updates step st (rounds waits).
Proof using.
  intros H0 HS. induction waits as [|[view c] waits IH]; intros st log; [exists []; by rewrite H0, app_nil_r|].
  rewrite HS. cbn zeta. set (r := step st view).
  assert (exists new, (if c then ret tt else loop r.2 waits) (log ++ round_log d r.1) = (tt, log ++ round_log d r.1 ++ new) /\
    sleeps new = replicate (length (if c then [] else rounds waits)) d /\ checks_done new = length (if c then [] else rounds waits) /\
    updates new = step_updates step r.2 (if c then [] else rounds waits)) as (new & E & H1 & H2 & H3).
  { destruct c; [exists []; by rewrite app_nil_r|]. destruct (IH r.2 (log ++ round_log d r.1)) as (new & E & H). exists new.
    by rewrite app_assoc. }
  exists (round_log d r.1 ++ new). split; [done|]. unfold sleeps, checks_done, updates in *. rewrite !omap_app, length_app.
  cbn [rounds length replicate step_updates]. rewrite H1, H2, H3. fold r.
  destruct r as [[[k v]|] st']; split_and!; reflexivity.
Qed.

Definition version_step (check : C -> result AgentVersion string) (st : unit) (view : C) : option (string * string) * unit :=
  (match check view with Ok a => Some (version_opamp_field a, version a) | Err _ => None end, tt).

Lemma version_loop_log (check : C -> result AgentVersion string) d waits log :
  exists new, version_checker_loop check d waits log = (tt, log ++ new) /\
    sleeps new = replicate (length (rounds waits)) d /\ checks_done new = length (rounds waits) /\
    updates new = answers check version (rounds waits).
Proof using.
  destruct (rounds_log (fun _ : unit => version_checker_loop check d) (version_step check) d) with (waits := waits) (st := tt) (log := log)
    as (new & E & H1 & H2 & H3); [done| |].
  - intros [] view c w l. cbn [version_checker_loop]. unfold log_effect, version_step. unfold_effects. cbn zeta.
    destruct (check view); cbn [fst snd round_log from_option]; rewrite <-!app_assoc; by destruct c.
  - exists new. split_and!; [done..|]. rewrite H3. clear. induction (rounds waits) as [|view l IH]; [done|].
    unfold answers in *. cbn [step_updates version_step fst snd]. rewrite IH. simpl. by destruct (check view).
Qed.

Definition guid_step (check : C -> result EntityGuid string) (last_guid : option EntityGuid) (view : C) :
  option (string * string) * option EntityGuid :=
  match check view with
  | Ok g => if bool_decide (guid <$> last_guid = Some (guid g)) then (None, last_guid)
            else (Some (guid_opamp_field g, guid g), Some g)
  | Err _ => (None, last_guid)
  end.

(** The values of a list that differ from the one before *)
Fixpoint changes (last : option string) (l : list string) : list string :=
  match l with
  | [] => []
  | v :: l => if bool_decide (last = Some v) then changes last l else v :: changes (Some v) l
  end.

Lemma guid_loop_log (check : C -> result EntityGuid string) d last_guid waits log :
  exists new, guid_checker_loop check d last_guid waits log = (tt, log ++ new) /\
    sleeps new = replicate (length (rounds waits)) d /\ checks_done new = length (rounds waits) /\
    updates new = changes (guid <$> last_guid) (answers check guid (rounds waits)).
Proof using.
  destruct (rounds_log (guid_checker_loop check d) (guid_step check) d) with (waits := waits) (st := last_guid) (log := log)
    as (new & E & H1 & H2 & H3); [done| |].
  - intros last view c w l. cbn [guid_checker_loop]. unfold log_effect, guid_step. unfold_effects. cbn zeta.
    destruct (check view) as [g|e]; [|cbn [fst snd round_log from_option]; rewrite <-!app_assoc; by destruct c].
    assert (match last with Some prev => negb (String.eqb (guid prev) (guid g)) | None => true end =
            negb (bool_decide (guid <$> last = Some (guid g)))) as ->.
    { destruct last as [prev|]; simpl; [|done]. f_equal. destruct (String.eqb_spec (guid prev) (guid g)) as [->|Hne].
      - by rewrite bool_decide_eq_true_2.
      - rewrite bool_decide_eq_false_2; [done|]. by intros [= ?]. }
    case_bool_decide; cbn [negb fst snd round_log from_option]; unfold_effects; rewrite <-!app_assoc; by destruct c.
  - exists new. split_and!; [done..|]. rewrite H3. clear. revert last_guid.
    induction (rounds waits) as [|view l IH]; intros last; [done|]. cbn [step_updates].
    rewrite IH. unfold answers, guid_step. simpl. destruct (check view) as [g|e]; [|done]. cbn [changes]. by case_bool_decide.
Qed.

End LogLemmas.

(** They are among the values, no two in a row are equal, and the last is the last value. *)
Lemma changes_spec prev l :
  changes prev l `sublist_of` l /\ last (option_list prev ++ changes prev l) = last (option_list prev ++ l) /\
  forall i a b, (option_list prev ++ changes prev l) !! i = Some a -> (option_list prev ++ changes prev l) !! (S i) = Some b -> a <> b.
Proof.
  revert prev. induction l as [|v l IH]; intros prev; cbn [changes].
  { split_and!; [done|done|]. by destruct prev; intros [|[|i]] a b. }
  case_bool_decide as E.
  - destruct (IH prev) as (H1 & H2 & H3). split_and!; [by apply sublist_cons| |done]. rewrite H2. subst prev. simpl.
    by destruct l.
  - destruct (IH (Some v)) as (H1 & H2 & H3). split_and!; [by apply sublist_skip| |].
    + rewrite !last_app. simpl in H2. by rewrite H2.
    + destruct prev as [p|]; simpl; [|exact H3]. intros [|i] a b; simpl; [|by apply H3]. intros [= <-] [= <-]. congruence.
Qed.

(** ** What the version of a release is *)

Fixpoint at_path (path : list string) (v : value) : option value :=
  match path with [] => Some v | k :: path => Json.get k v ≫= at_path path end.

Definition str_at (path : list string) (data : list (string * value)) : option string :=
  at_path path (Object data) ≫= as_str_value.

Section ReleaseVersion.
Context `{DP : DateParser}.
Variable data : list (string * value).

(** The chart has a fixed version. *)
Definition exact_version (v : string) : Prop :=
  str_at ["spec"; "chart"; "spec"; "version"] data = Some v /\ v <> "" /\
  str_all (fun c => negb (Ascii.eqb c LATEST_REVISION)) v = true.

Definition attempted_version (v : string) : Prop :=
  str_at ["status"; "lastAttemptedRevision"] data = Some v /\ v <> "".

(** The last of the latest deployments in the history *)
Definition deployed_version (v : string) : Prop :=
  v <> "" /\ exists history pre date post, at_path ["status"; "history"] (Object data) = Some (Array history) /\
    omap history_entry history = pre ++ (date, v) :: post /\
    Forall (fun e => (e.1 <= date)%Z) pre /\ Forall (fun e => (e.1 < date)%Z) post.

Lemma non_empty_Some o v : non_empty o = Some v <-> o = Some v /\ v <> "".
Proof using.
  unfold non_empty. destruct o as [[|c s]|]; simpl; (split; [intros H; simplify_eq; try done|intros [? ?]; simplify_eq; done]).
Qed.

Lemma from_version_spec v : non_empty (from_version data) = Some v <-> exact_version v.
Proof using.
  rewrite non_empty_Some. unfold from_version, exact_version, str_at, at_path. simpl.
  destruct (assoc "spec" data) as [w|]; simpl; [|naive_solver]. destruct (Json.get "chart" w) as [w1|]; simpl; [|naive_solver].
  destruct (Json.get "spec" w1) as [w2|]; simpl; [|naive_solver]. destruct (Json.get "version" w2) as [w3|]; simpl; [|naive_solver].
  destruct (as_str_value w3) as [s|]; simpl; [|naive_solver]. destruct (str_all _ s) eqn:E; naive_solver congruence.
Qed.

Lemma from_last_deployed_spec v : non_empty (from_last_deployed data) = Some v <-> attempted_version v.
Proof using.
  rewrite non_empty_Some. unfold from_last_deployed, attempted_version, str_at, at_path. simpl.
  destruct (assoc "status" data) as [w|]; simpl; [|naive_solver]. destruct (Json.get "lastAttemptedRevision" w) as [w1|]; simpl; [|naive_solver].
  destruct (as_str_value w1) as [[|c s]|]; simpl; naive_solver.
Qed.

Lemma from_history_spec v : non_empty (from_history data) = Some v <-> deployed_version v.
Proof using.
  rewrite non_empty_Some. unfold from_history, deployed_version, at_path. simpl.
  destruct (assoc "status" data) as [w|]; simpl; [|naive_solver]. destruct (Json.get "history" w) as [w1|]; simpl; [|naive_solver].
  destruct w1 as [| | | |l|]; simpl; try naive_solver. pose proof (max_by_key_spec (omap history_entry l)) as H.
  destruct (max_by_key _) as [[d v']|]; simpl; [|split; [naive_solver|intros (_ & ? & [|] & ? & ? & [= <-] & E & _); rewrite H in E; done]].
  destruct H as (pre & post & E & Hpre & Hpost). split.
  - intros [[= ->] Hne]. split; [done|]. by exists l, pre, d, post.
  - intros (Hne & history & pre' & d' & post' & [= <-] & E' & Hpre' & Hpost'). split; [|done]. f_equal. rewrite E in E'.
    apply app_eq_inv in E' as [(k & H1 & H2)|(k & H1 & H2)].
    + destruct k as [|x k]; simpl in H2; [by injection H2|]. injection H2 as <- ->. subst pre.
      apply Forall_app in Hpost' as [_ Hx]. inversion Hx; subst. apply Forall_app in Hpre as [_ Hy]. inversion Hy; subst. simpl in *. lia.
    + destruct k as [|x k]; simpl in H2; [by injection H2|]. injection H2 as <- ->. subst pre'.
      apply Forall_app in Hpost as [_ Hx]. inversion Hx; subst. apply Forall_app in Hpre' as [_ Hy]. inversion Hy; subst. simpl in *. lia.
Qed.

End ReleaseVersion.

(** ** Properties *)

Section Properties.
Context `{DP : DateParser} `{KT : KubeText}.

(** The version reported for a Helm release is the version of its chart when that is fixed,
    otherwise the revision that was last attempted, otherwise the chart version of the latest
    entry of its history that was deployed; there is an error exactly when none of them is there. *)
Theorem release_version_extracted opamp_field data :
  match extract_version opamp_field data with
  | Ok a =>
      version_opamp_field a = opamp_field /\
      (exact_version data (version a) \/
       (forall v, ~ exact_version data v) /\
       (attempted_version data (version a) \/
        (forall v, ~ attempted_version data v) /\ deployed_version data (version a)))
  | Err _ => forall v, ~ exact_version data v /\ ~ attempted_version data v /\ ~ deployed_version data v
  end.
Proof using.
  assert (forall o (P : string -> Prop), (forall v, non_empty o = Some v <-> P v) -> non_empty o = None -> forall v, ~ P v) as Hnone.
  { intros o P HP E v Hv. apply HP in Hv. congruence. }
  unfold extract_version. cbn [find_map].
  destruct (non_empty (from_version data)) as [v|] eqn:E1; [split; [done|]; left; by apply from_version_spec|].
  pose proof (Hnone _ _ (from_version_spec data) E1) as HE1.
  destruct (non_empty (from_last_deployed data)) as [v|] eqn:E2; [split; [done|]; right; split; [exact HE1|]; left; by apply from_last_deployed_spec|].
  pose proof (Hnone _ _ (from_last_deployed_spec data) E2) as HE2.
  destruct (non_empty (from_history data)) as [v|] eqn:E3; [split; [done|]; right; split; [exact HE1|]; right; split; [exact HE2|]; by apply from_history_spec|].
  pose proof (Hnone _ _ (from_history_spec data) E3) as HE3. intros v. exact (conj (HE1 v) (conj (HE2 v) (HE3 v))).
Qed.

(** The status of the instrumentation has this entity and no other. *)
Definition only_guid (view : ClusterView) (c : TypeMeta * string * string * string) (g : string) : Prop :=
  let '(tm, name, ns, _) := c in
  exists obj status guids, get_dynamic_object view tm name ns = Ok (Some obj) /\ Json.get "status" (obj_data obj) = Some status /\
    de_instrumentation_guid status = Some guids /\ guids <> [] /\ Forall (fun x => x = g) guids.

Lemma check_guid_only show_list view c g : check_guid show_list view c = Ok g -> only_guid view c (guid g).
Proof using.
  destruct c as [[[tm name] ns] f]. unfold check_guid, only_guid.
  destruct (get_dynamic_object view tm name ns) as [[obj|]|e]; cbn [map_err and_then ok_or]; try done.
  destruct (Json.get "status" (obj_data obj)) as [status|] eqn:Es; cbn [and_then ok_or]; [|done].
  destruct (de_instrumentation_guid status) as [guids|] eqn:Eg; cbn [and_then ok_or]; [|done].
  unfold validate_guids. destruct guids as [|g0 l]; [done|]. destruct (forallb _ _) eqn:Ef; [|done]. cbn [and_then]. intros [= <-].
  exists obj, status, (g0 :: l). split_and!; [done..|]. apply Forall_forall. intros x Hx.
  rewrite forallb_forall in Ef. by apply String.eqb_eq, Ef, list_elem_of_In.
Qed.

(** The thread that watches the entity of a sub-agent reports only entities that were the
    single one of the instrumentation at a check, reports one only when it differs from the one
    reported before, and after the last check it has reported the last entity that was found. *)
Theorem guid_reported_on_change show_list c initial_delay waits :
  let check view := check_guid show_list view c in
  let log := (guid_checker_loop check initial_delay None waits []).2 in
  checks_done log = length (rounds waits) /\
  Forall (fun g => exists view, view ∈ rounds waits /\ only_guid view c g) (updates log) /\
  (forall i a b, updates log !! i = Some a -> updates log !! (S i) = Some b -> a <> b) /\
  last (updates log) = last (answers check guid (rounds waits)).
Proof using.
  intros check log. destruct (guid_loop_log check initial_delay None waits []) as (new & E & _ & Hc & Hu).
  unfold log. rewrite E. cbn [snd app]. rewrite Hu, Hc. destruct (changes_spec None (answers check guid (rounds waits))) as (H1 & H2 & H3).
  split_and!; [done| |exact H3|exact H2]. apply Forall_forall. intros g Hg. apply (sublist_subseteq _ _ H1) in Hg.
  apply list_elem_of_omap in Hg as (view & Hv & Hg). exists view. split; [done|]. destruct (check view) as [a|] eqn:Ea; [|done].
  injection Hg as <-. by apply check_guid_only in Ea.
Qed.

(** The threads that report the version and the entity sleep for the initial delay before every
    check, not only before the first. *)
Theorem checkers_delay_every_check {C} (check_version : C -> result AgentVersion string) (check_entity : C -> result EntityGuid string) initial_delay waits :
  let versions := (version_checker_loop check_version initial_delay waits []).2 in
  let entities := (guid_checker_loop check_entity initial_delay None waits []).2 in
  sleeps versions = replicate (checks_done versions) initial_delay /\ sleeps entities = replicate (checks_done entities) initial_delay /\
  updates versions = answers check_version version (rounds waits).
Proof using.
  intros versions entities. destruct (version_loop_log check_version initial_delay waits []) as (new & E & H1 & H2 & H3).
  destruct (guid_loop_log check_entity initial_delay None waits []) as (new' & E' & H1' & H2' & _).
  unfold versions, entities. rewrite E, E'. cbn [snd app]. by rewrite H1, H2, H1', H2'.
Qed.

(** The version checker of a sub-agent reads the object that is named after the agent, whatever
    the name of the object it was made for: when the cluster has no object of that name, there is
    no version. *)
Theorem version_checker_needs_agent_name agent_id k8s_objects opamp_field c view :
  checked_new agent_id k8s_objects opamp_field = Some c ->
  (forall tm ns, get_dynamic_object view tm (as_str agent_id) ns = Ok None) ->
  exists e, check_agent_version view c = Err e.
Proof using.
  intros H Hview. induction k8s_objects as [|o l IH]; [done|]. cbn [checked_new] in H.
  destruct (get_namespace o) as [ns|]; [|by apply IH]. destruct (get_type_meta o) as [tm|]; [|by apply IH].
  destruct (same_type tm helmrelease_v2_type_meta); [|destruct (same_type tm instrumentation_v1beta3_type_meta); [|by apply IH]];
    injection H as <-; cbn [check_agent_version]; rewrite Hview; by eexists.
Qed.

(** The version of an instrumentation is the tag of its image when the image has no other
    colon; with the port of a registry before it, the version is the port with the path of the
    image and not the tag. *)
Theorem image_version data spec agent name port tag :
  assoc "spec" data = Some spec -> Json.get "agent" spec = Some agent ->
  Forall (fun s => str_all (fun c => negb (Ascii.eqb c ":")) s = true) [name; port; tag] ->
  (get_str "image" agent = Some (name +:+ ":" +:+ tag) -> version_from_newrelic_instrumentation_image data = Some tag) /\
  (get_str "image" agent = Some (name +:+ ":" +:+ port +:+ ":" +:+ tag) ->
   version_from_newrelic_instrumentation_image data = Some port).
Proof using.
  intros Hs Ha Hc. apply Forall_cons in Hc as [Hn [Hp [Ht _]%Forall_cons]%Forall_cons].
  unfold version_from_newrelic_instrumentation_image. rewrite Hs. cbn [mbind option_bind]. rewrite Ha. cbn [mbind option_bind].
  split; intros ->; cbn [mbind option_bind].
  - change (":" +:+ tag) with (String ":" tag). rewrite split_app, split_no_sep by done. done.
  - change (":" +:+ port +:+ ":" +:+ tag) with (String ":" (port +:+ String ":" tag)). rewrite split_app by done. cbn. by rewrite split_app.
Qed.

End Properties.

(** ** Examples *)

(** The release of the agent has another name, and it is there. *)
Definition example_release_view : ClusterView := {|
  get_dynamic_object tm name ns := Ok (if String.eqb name "otel-release" then Some (example_release "True") else None);
  list_deployment _ := Ok []; list_daemon_set _ := Ok []; list_stateful_set _ := Ok [];
|}.

Definition example_release_object : DynamicObject :=
  {| types := Some helmrelease_v2_type_meta; metadata := example_meta "otel-release" ∅; obj_data := Null |}.

Lemma version_checker_needs_agent_name_witness :
  exists e, check_agent_version (DP := fun _ => None) example_release_view
    (HelmReleaseVersion helmrelease_v2_type_meta "agents" "otel" "chart.version") = Err e.
Proof.
  apply (version_checker_needs_agent_name (DP := fun _ => None) (AgentId.SubAgent "otel") [example_release_object] "chart.version").
  - vm_compute. reflexivity.
  - intros tm ns. vm_compute. reflexivity.
Defined.

Definition example_agent : value := Object [("image", Str "registry.local:5000/apm:1.2.3")].

Lemma image_version_witness :
  version_from_newrelic_instrumentation_image [("spec", Object [("agent", example_agent)])] = Some "5000/apm".
Proof.
  apply (image_version [("spec", Object [("agent", example_agent)])] (Object [("agent", example_agent)]) example_agent
    "registry.local" "5000/apm" "1.2.3"); [reflexivity|reflexivity| |reflexivity].
  repeat constructor.
Defined.
