(* ===== verification/K8sSupervisor.v ===== *)
(** * Supervisor of sub-agents in Kubernetes

    Models the supervisor of [sub_agent/k8s/supervisor.rs]: the threads it starts for the objects,
    the health, the version and the entity of a sub-agent, and how it applies a new configuration.

    As for processes, what it does is a log, the newest effect first; a thread is the place in the
    log where it was started.  What joining a thread gives is asked of the environment. *)

From Stdlib Require Import Ascii String Lia.
From stdpp Require Import base option list strings gmap.
From S2P Require Import Prelude RustString AgentId AgentTypeId Json SubAgent YamlConfig Variables OnHostSupervisor RuntimeConfig Assembler.
From S2P Require Import GarbageCollector K8sObjects K8sHealth K8sCheckers.

Definition OPAMP_SUBAGENT_CHART_VERSION_ATTRIBUTE_KEY : string := "chart.version".
Definition APM_APPLICATION_ID : string := "apm.application.id".

(** ** Equality of configurations, as derived in [runtime_config/k8s.rs] *)

#[export] Instance health_kind_eq_dec : EqDecision K8sHealthResourceKind.
Proof. solve_decision. Defined.

#[export] Instance health_check_eq_dec : EqDecision K8sHealthCheckDefinition.
Proof. solve_decision. Defined.

#[export] Instance health_config_eq_dec : EqDecision K8sHealthConfig.
Proof. solve_decision. Defined.

(** Labels and fields are maps. *)
Definition k8s_object_eq (a b : K8sObject) : bool :=
  String.eqb (RuntimeConfig.api_version a) (RuntimeConfig.api_version b) && String.eqb (object_kind a) (object_kind b) &&
  String.eqb (RuntimeConfig.meta_name (object_metadata a)) (RuntimeConfig.meta_name (object_metadata b)) &&
  String.eqb (RuntimeConfig.meta_namespace (object_metadata a)) (RuntimeConfig.meta_namespace (object_metadata b)) &&
  bool_decide ((list_to_map (labels (object_metadata a)) : gmap string string) = list_to_map (labels (object_metadata b))) &&
  json_eq (Object (fields a)) (Object (fields b)).

Definition k8s_eq (a b : K8s) : bool :=
  Nat.eqb (size (objects a)) (size (objects b)) &&
  forallb (fun kv => match objects b !! kv.1 with Some o => k8s_object_eq kv.2 o | None => false end) (map_to_list (objects a)) &&
  bool_decide (k8s_health a = k8s_health b) && bool_decide (k8s_version a = k8s_version b) &&
  bool_decide (guid_checker a = guid_checker b).

(** ** The supervisor *)

Section Supervisor.
Context `{SV : SemVer} `{HO : HashOrder}.

Inductive K8sThread : Type :=
| ObjectsThread (resources : list DynamicObject)
| HealthThread (checkers : list K8sResourceHealthChecker) (interval initial_delay : N)
| VersionThread (checker : K8sAgentVersionChecker) (interval initial_delay : N)
| GuidThread (checker : TypeMeta * string * string * string) (interval initial_delay : N).

Inductive K8sEffect : Type :=
| StartK8sThread (t : K8sThread)
| StopK8sThread (n : nat)
| DropK8sThread (n : nat).

Record StartedSupervisorK8s : Type := {
  k8s_threads : list nat;
  k8s_identity : AgentIdentity;
  k8s_config : K8s;
}.

(** What [stop_blocking] of a thread returns *)
Variable join_thread : list K8sEffect -> nat -> result unit string.

(** [start_health_check], [start_version_checker], [start_guid_checker]: the threads there are *)
Definition start_health_check (config : K8s) : option K8sThread :=
  health_config ← k8s_health config;
  checkers ← from_checks_definition (k8s_checks health_config);
  Some (HealthThread checkers (k8s_interval health_config) (k8s_initial_delay health_config)).

Definition start_version_checker (identity : AgentIdentity) (config : K8s) (resources : list DynamicObject) : option K8sThread :=
  checker ← checked_new (id identity) resources OPAMP_SUBAGENT_CHART_VERSION_ATTRIBUTE_KEY;
  Some (VersionThread checker (k8s_version config).1 (k8s_version config).2).

Definition start_guid_checker (config : K8s) (resources : list DynamicObject) : option K8sThread :=
  match guid_checker_new resources APM_APPLICATION_ID with
  | Ok (Some checker) => Some (GuidThread checker (guid_checker config).1 (guid_checker config).2)
  | _ => None
  end.

Definition k8s_thread_list (identity : AgentIdentity) (config : K8s) : list K8sThread :=
  let resources := build_dynamic_objects identity config in
  ObjectsThread resources :: option_list (start_health_check config)
  ++ option_list (start_version_checker identity config resources) ++ option_list (start_guid_checker config resources).

Fixpoint start_threads (ts : list K8sThread) : M (list K8sEffect) (list nat) :=
  match ts with
  | [] => ret []
  | t :: ts => fun l => let '(ns, l') := start_threads ts (StartK8sThread t :: l) in (length l :: ns, l')
  end.

(** [SupervisorStarter::start]; building the objects does not fail. *)
Definition start_k8s (identity : AgentIdentity) (config : K8s) : M (list K8sEffect) (result StartedSupervisorK8s K8sSupervisorError) :=
  let* threads := start_threads (k8s_thread_list identity config) in
  ret (Ok {| k8s_threads := threads; k8s_identity := identity; k8s_config := config |}).

(** [ThreadCollectionStopperExt::stop]: every thread is stopped, the first error is returned. *)
Fixpoint stop_threads (threads : list nat) : M (list K8sEffect) (result unit string) :=
  match threads with
  | [] => ret (Ok tt)
  | n :: threads =>
      let* r := fun l => (join_thread l n, StopK8sThread n :: l) in
      let* rest := stop_threads threads in
      ret match r with Ok _ => rest | Err e => Err e end
  end.

(** [Supervisor::apply]; on an error in the configuration the handles are dropped with [self]. *)
Definition apply_k8s (self : StartedSupervisorK8s) (effective_agent : Effective) :
  M (list K8sEffect) (result StartedSupervisorK8s K8sSupervisorError) :=
  match get_k8s_config effective_agent with
  | Err e =>
      let* _ := for_each (k8s_threads self) (fun n l => (tt, DropK8sThread n :: l)) in
      ret (Err (IncomingConfig e))
  | Ok new_k8s_config =>
      if k8s_eq new_k8s_config (k8s_config self) then ret (Ok self)
      else
        let*? _ := map_err_m StoppingPreviousSupervisor (stop_threads (k8s_threads self)) in
        start_k8s (k8s_identity self) new_k8s_config
  end.

(** [Supervisor::stop] *)
Definition stop_k8s (self : StartedSupervisorK8s) : M (list K8sEffect) (result unit string) := stop_threads (k8s_threads self).

(** ** Specification *)

(** The threads that run and what they do *)
Fixpoint running (l : list K8sEffect) : gmap nat K8sThread :=
  match l with
  | [] => ∅
  | StartK8sThread t :: l => <[length l := t]> (running l)
  | (StopK8sThread n | DropK8sThread n) :: l => base.delete n (running l)
  end.

(** A supervisor owns the threads that run, and these are those of its configuration. *)
Definition supervises (s : StartedSupervisorK8s) (l : list K8sEffect) : Prop :=
  let ts := k8s_thread_list (k8s_identity s) (k8s_config s) in
  NoDup (k8s_threads s) /\ length (k8s_threads s) = length ts /\ running l = list_to_map (zip (k8s_threads s) ts).

Definition is_start (e : K8sEffect) : bool := match e with StartK8sThread _ => true | _ => false end.

(** Only starts, or no start, since some point *)
Definition only_starts (l0 l : list K8sEffect) : Prop := exists new, l = new ++ l0 /\ Forall (fun e => is_start e = true) new.
Definition no_starts (l0 l : list K8sEffect) : Prop := exists new, l = new ++ l0 /\ Forall (fun e => is_start e = false) new.

(** ** Lemmas *)

Lemma running_bound l n t : running l !! n = Some t -> n < length l.
Proof using.
  induction l as [|e l IH]; [done|]. destruct e as [t'|m|m]; cbn [running length].
  - destruct (decide (n = length l)) as [->|Hne]; [lia|]. rewrite lookup_insert_ne by done. intros ?%IH. lia.
  - intros [_ ?]%lookup_delete_Some. assert (n < length l) by by apply IH. lia.
  - intros [_ ?]%lookup_delete_Some. assert (n < length l) by by apply IH. lia.
Qed.

Lemma start_threads_spec ts l :
  let '(ns, l') := start_threads ts l in
  only_starts l l' /\ length ns = length ts /\ NoDup ns /\ Forall (fun n => length l <= n) ns /\
  running l' = list_to_map (zip ns ts) ∪ running l.
Proof using.
  revert l. induction ts as [|t ts IH]; intros l; cbn [start_threads].
  { split_and!; [by exists []|done|apply NoDup_nil_2|constructor|]. cbn [zip zip_with list_to_map foldr]. by rewrite map_empty_union. }
  specialize (IH (StartK8sThread t :: l)). destruct (start_threads ts _) as [ns l'].
  destruct IH as ((new & -> & Hnew) & Hlen & Hnd & Hge & Hrun). cbn [length running] in *.
  assert (length l ∉ ns) as Hnot. { intros Hin. rewrite Forall_forall in Hge. apply Hge in Hin. lia. }
  split_and!.
  - exists (new ++ [StartK8sThread t]). rewrite <-app_assoc. split; [done|]. apply Forall_app. split; [done|by repeat constructor].
  - by rewrite Hlen.
  - by apply NoDup_cons.
  - constructor; [lia|]. eapply Forall_impl; [exact Hge|]. intros n. simpl. lia.
  - rewrite Hrun. simpl. rewrite <-insert_union_l, insert_union_r; [done|].
    apply not_elem_of_list_to_map_1. rewrite fst_zip by lia. done.
Qed.

Lemma lookup_removed (r : gmap nat K8sThread) m n ns :
  (if decide (m ∈ ns) then None else base.delete n r !! m) = if decide (m ∈ n :: ns) then None else r !! m.
Proof using.
  destruct (decide (m ∈ n :: ns)) as [Hm|[Hne Hns]%not_elem_of_cons].
  - case_decide; [done|]. apply elem_of_cons in Hm as [->|]; [apply lookup_delete_eq|done].
  - rewrite decide_False by done. by apply lookup_delete_ne.
Qed.

Lemma stop_threads_spec ns l :
  let '(r, l') := stop_threads ns l in
  no_starts l l' /\ (forall n, running l' !! n = if decide (n ∈ ns) then None else running l !! n) /\
  ((forall l n, join_thread l n = Ok tt) -> r = Ok tt).
Proof using.
  revert l. induction ns as [|n ns IH]; intros l; cbn [stop_threads].
  { split_and!; [by exists []|done|done]. }
  unfold_effects. specialize (IH (StopK8sThread n :: l)). destruct (stop_threads ns _) as [r l'].
  destruct IH as ((new & -> & Hnew) & Hrun & Hok). split_and!.
  - exists (new ++ [StopK8sThread n]). rewrite <-app_assoc. split; [done|]. apply Forall_app. split; [done|by repeat constructor].
  - intros m. rewrite Hrun. apply lookup_removed.
  - intros Hj. rewrite Hj. by apply Hok.
Qed.

Lemma drop_threads_spec ns l :
  let l' := (for_each ns (fun n l => (tt, DropK8sThread n :: l)) l).2 in
  no_starts l l' /\ forall n, running l' !! n = if decide (n ∈ ns) then None else running l !! n.
Proof using.
  revert l. induction ns as [|n ns IH]; intros l; cbn [for_each]; [by split; [exists []|]|].
  unfold_effects. destruct (IH (DropK8sThread n :: l)) as [(new & E & Hnew) Hrun]. split.
  - exists (new ++ [DropK8sThread n]). rewrite <-app_assoc. split; [exact E|]. apply Forall_app. split; [done|by repeat constructor].
  - intros m. rewrite Hrun. apply lookup_removed.
Qed.

(** Ending the threads of a supervisor leaves none. *)
Lemma none_running s l l' :
  supervises s l -> (forall n, running l' !! n = if decide (n ∈ k8s_threads s) then None else running l !! n) -> running l' = ∅.
Proof using.
  intros (Hnd & Hlen & Hrun) H. apply map_eq. intros n. rewrite H, lookup_empty. destruct (decide _) as [|Hn]; [done|]. rewrite Hrun.
  apply not_elem_of_list_to_map_1. rewrite fst_zip by lia. done.
Qed.

Lemma start_k8s_spec identity config l :
  running l = ∅ ->
  exists s l', start_k8s identity config l = (Ok s, l') /\ only_starts l l' /\ supervises s l' /\
    k8s_identity s = identity /\ k8s_config s = config.
Proof using.
  intros Hl. unfold start_k8s. unfold_effects. pose proof (start_threads_spec (k8s_thread_list identity config) l) as H.
  destruct (start_threads _ l) as [ns l']. destruct H as (Hs & Hlen & Hnd & _ & Hrun). rewrite Hl, map_union_empty in Hrun.
  by eexists _, _.
Qed.

(** ** Properties *)

(** C28: Applying a configuration to a supervisor that runs the threads of its own starts no thread
    before every old one was told to stop.  If it returns a supervisor, exactly the threads of
    the new configuration run and it owns them, or the configuration had not changed and nothing
    was done; if it fails, none runs. *)
Theorem apply_k8s_replaces_threads self effective_agent l :
  supervises self l ->
  let '(r, l') := apply_k8s self effective_agent l in
  match r with
  | Ok s =>
      supervises s l' /\ k8s_identity s = k8s_identity self /\
      exists config, get_k8s_config effective_agent = Ok config /\
        if k8s_eq config (k8s_config self) then s = self /\ l' = l else k8s_config s = config
  | Err _ => running l' = ∅
  end /\
  exists l1, no_starts l l1 /\ only_starts l1 l'.
Proof using.
  intros Hl. unfold apply_k8s. destruct (get_k8s_config effective_agent) as [config|e].
  2:{ destruct (drop_threads_spec (k8s_threads self) l) as [Hn Hrun]. unfold_effects.
      destruct (for_each _ _ l) as [[] l']. cbn [snd] in *. split; [by apply (none_running self l)|]. exists l'. split; [done|by exists []]. }
  destruct (k8s_eq config (k8s_config self)) eqn:Eeq.
  { unfold ret. split; [|exists l; split; by exists []]. split_and!; [done..|]. exists config. by rewrite Eeq. }
  unfold bind_try, map_err_m. unfold_effects. pose proof (stop_threads_spec (k8s_threads self) l) as H.
  destruct (stop_threads _ l) as [[[]|e] l1]; destruct H as (Hn & Hrun & _); apply (none_running self l) in Hrun; [|done| |done]; cbn [map_err].
  - destruct (start_k8s_spec (k8s_identity self) config l1 Hrun) as (s & l2 & -> & Hs & Hsup & Hid & Hc).
    split; [|by exists l1]. split_and!; [done..|]. exists config. by rewrite Eeq.
  - split; [done|]. exists l1. split; [done|by exists []].
Qed.

(** Starting a supervisor runs exactly its threads, the one that keeps the objects of the
    configuration first, and stopping it ends them all, also when joining one fails. *)
Theorem start_stop_k8s identity config l :
  running l = ∅ ->
  exists s l', start_k8s identity config l = (Ok s, l') /\ supervises s l' /\
    (exists n, head (k8s_threads s) = Some n /\ running l' !! n = Some (ObjectsThread (build_dynamic_objects identity config))) /\
    running (stop_k8s s l').2 = ∅.
Proof using.
  intros Hl. destruct (start_k8s_spec identity config l Hl) as (s & l' & E & _ & Hsup & Hid & Hc). exists s, l'. split_and!; [done..| |].
  - pose proof Hsup as (Hnd & Hlen & Hrun). rewrite Hid, Hc in *. unfold k8s_thread_list in Hrun, Hlen. cbn zeta in *.
    destruct (k8s_threads s) as [|n ns]; [done|]. exists n. split; [done|]. rewrite Hrun. cbn [zip zip_with list_to_map foldr fst snd].
    apply lookup_insert_eq.
  - pose proof (stop_threads_spec (k8s_threads s) l') as H. unfold stop_k8s. destruct (stop_threads _ l') as [r l2].
    destruct H as (_ & Hrun & _). by apply (none_running s l').
Qed.

(** C31: A new configuration is applied without the check of [build_supervisor]: with an object of a
    type that is not in the list of supported types, where building a supervisor is refused, a
    thread is started that creates that object, of a type the garbage collector does not look
    through. *)
Theorem applied_types_not_checked cr_type_meta self effective_agent config o l :
  supervises self l -> (forall l n, join_thread l n = Ok tt) ->
  get_k8s_config effective_agent = Ok config -> k8s_eq config (k8s_config self) = false ->
  o ∈ (entries (objects config)).*2 ->
  let tm := {| GarbageCollector.api_version := RuntimeConfig.api_version o; type_kind := object_kind o |} in
  tm ∉ cr_type_meta ->
  (exists v k, build_supervisor_k8s cr_type_meta effective_agent = Err (UnsupportedK8sObject v k)) /\
  exists s l' n resources obj, apply_k8s self effective_agent l = (Ok s, l') /\ n ∈ k8s_threads s /\
    running l' !! n = Some (ObjectsThread resources) /\ obj ∈ resources /\ types obj = Some tm.
Proof using.
  intros Hl Hj Hc Heq Ho tm Htm. split.
  - unfold build_supervisor_k8s. rewrite Hc. cbn [map_err and_then].
    destruct (List.find _ _) as [o'|] eqn:Ef; [by eexists _, _|]. exfalso. apply list_elem_of_In in Ho. apply (List.find_none _ _ Ef) in Ho.
    apply negb_false_iff, existsb_exists in Ho as (t & Ht & [E1%String.eqb_eq E2%String.eqb_eq]%andb_true_iff).
    destruct Htm. apply list_elem_of_In. destruct t. simpl in *. subst. done.
  - unfold apply_k8s. rewrite Hc, Heq. unfold bind_try, map_err_m. unfold_effects. pose proof (stop_threads_spec (k8s_threads self) l) as H.
    destruct (stop_threads _ l) as [r l1]. destruct H as (_ & Hrun & Hok). rewrite (Hok Hj). cbn [map_err].
    apply (none_running self l) in Hrun; [|done].
    destruct (start_k8s_spec (k8s_identity self) config l1 Hrun) as (s & l' & E & _ & Hsup & Hid & Hcfg).
    pose proof Hsup as (Hnd & Hlen & Hr). rewrite Hid, Hcfg in *. unfold k8s_thread_list in Hr, Hlen. cbn zeta in *.
    destruct (k8s_threads s) as [|n ns] eqn:Ens; [done|].
    eexists s, l', n, _, (create_dynamic_object (k8s_identity self) o). rewrite Ens. split_and!; [exact E|left| | |done].
    + rewrite Hr. cbn [zip zip_with list_to_map foldr fst snd]. apply lookup_insert_eq.
    + apply list_elem_of_In, in_map. by apply list_elem_of_In.
Qed.

End Supervisor.

(** ** Examples *)

Definition joined (l : list K8sEffect) (n : nat) : result unit string := Ok tt.

(** A configuration with a Pod instead of the objects of the first one *)
Definition example_pod_effective : Effective :=
  {| effective_identity := example_identity;
     deployment := OnK8s {| objects := {["pod" := example_pod]}; k8s_health := None; k8s_version := (60%N, 30%N); guid_checker := (60%N, 30%N) |} |}.

Lemma start_stop_k8s_witness :
  exists s l', start_k8s (HO := canonical_order) example_identity example_objects [] = (Ok s, l') /\
    running (stop_k8s (SV := plain_semver) joined s l').2 = ∅.
Proof.
  destruct (start_stop_k8s (SV := plain_semver) (HO := canonical_order) joined example_identity example_objects [] eq_refl) as (s & l & E & _ & _ & H).
  exists s, l. exact (conj E H).
Defined.

Lemma apply_k8s_replaces_threads_witness :
  exists s l l', supervises (SV := plain_semver) (HO := canonical_order) s l /\ (apply_k8s (HO := canonical_order) joined s example_pod_effective l).2 = l' /\
    exists l1, no_starts l l1 /\ only_starts l1 l'.
Proof.
  destruct (start_k8s_spec (SV := plain_semver) (HO := canonical_order) example_identity example_objects [] eq_refl) as (s & l & E & _ & Hs & _).
  pose proof (apply_k8s_replaces_threads (SV := plain_semver) (HO := canonical_order) joined s example_pod_effective l Hs) as H.
  exists s, l, (apply_k8s (HO := canonical_order) joined s example_pod_effective l).2.
  destruct (apply_k8s joined s example_pod_effective l) as [r l']. exact (conj Hs (conj eq_refl (proj2 H))).
Defined.

Lemma applied_types_not_checked_witness :
  exists s l s' l', supervises (SV := plain_semver) (HO := canonical_order) s l /\
    apply_k8s (HO := canonical_order) joined s example_pod_effective l = (Ok s', l') /\
    exists v k, build_supervisor_k8s (SV := plain_semver) (HO := canonical_order) example_types example_pod_effective = Err (UnsupportedK8sObject v k).
Proof.
  destruct (start_k8s_spec (SV := plain_semver) (HO := canonical_order) example_identity example_objects [] eq_refl) as (s & l & E & _ & Hs & _ & Hc).
  destruct (applied_types_not_checked (SV := plain_semver) (HO := canonical_order) joined example_types s example_pod_effective
    {| objects := {["pod" := example_pod]}; k8s_health := None; k8s_version := (60%N, 30%N); guid_checker := (60%N, 30%N) |} example_pod l)
    as [Hb (s' & l' & n & resources & obj & Ha & _)].
  - exact Hs.
  - reflexivity.
  - reflexivity.
  - rewrite Hc. vm_compute. reflexivity.
  - vm_compute. left.
  - intros [E1|[E1|[]%elem_of_nil]%elem_of_cons]%elem_of_cons; discriminate E1.
  - exists s, l, s', l'. exact (conj Hs (conj Ha Hb)).
Defined.
