(* ===== verification/K8sUpdater.v ===== *)
(** * Updating Agent Control itself in Kubernetes

    Models [agent_control/version_updater/k8s.rs]: when the dynamic configuration asks for another
    version of the charts of Agent Control or of Flux, their Helm releases are patched.

    The cluster is that of [K8sObjects]: the updater reads what the watcher has seen and patches what
    the API server stores.  What the server makes of a merge patch is a parameter with the laws of
    the patches the updater sends. *)

From Stdlib Require Import Ascii String Lia.
From stdpp Require Import base option list strings gmap.
From S2P Require Import Prelude RustString AgentTypeId Json DynamicConfig GarbageCollector K8sObjects K8sHealth K8sCheckers.

Definition AGENT_CONTROL_VERSION_SET_FROM : string := "newrelic.io/agent-control-version-set-from".
Definition REMOTE_VAL : string := "remote".

Inductive Component : Type := AgentControlChart | FluxCDChart.

Definition show_component (c : Component) : string :=
  match c with AgentControlChart => "Agent Control" | FluxCDChart => "Flux" end.

Record K8sACUpdater : Type := {
  ac_remote_update_enabled : bool;
  cd_remote_update_enabled : bool;
  updater_namespace : string;
  current_chart_version : string;
  ac_release_name : option string;
  cd_release_name : option string;
}.

(** The error is the text of [UpdaterError::UpdateFailed]. *)
Inductive K8sUpdaterError : Type := K8sUpdateFailed (e : string).

(** What the server makes of an object and a merge patch, and its answer when there is no object *)
Class PatchServer : Type := {
  merge_patch : DynamicObject -> value -> DynamicObject;
  patch_not_found : string -> string;
}.

(** The entries of the patch replace those of the object. *)
Definition create_helm_release_patch (version : string) (labels : gmap string string) : value :=
  let labels := <[AGENT_CONTROL_VERSION_SET_FROM := REMOTE_VAL]> labels in
  Object [("metadata", Object [("labels", Object (map (fun kv => (kv.1, Str kv.2)) (map_to_list labels)))]);
          ("spec", Object [("chart", Object [("spec", Object [("version", Str version)])])])].

Definition chart_version_of (o : DynamicObject) : option string :=
  at_path ["spec"; "chart"; "spec"; "version"] (obj_data o) ≫= as_str_value.

Class PatchServerLaws `{PS : PatchServer} : Prop := {
  patched_version o version labels : chart_version_of (merge_patch o (create_helm_release_patch version labels)) = Some version;
  patched_labels o version labels :
    meta_labels (metadata (merge_patch o (create_helm_release_patch version labels))) =
    Some (<[AGENT_CONTROL_VERSION_SET_FROM := REMOTE_VAL]> labels ∪ default ∅ (meta_labels (metadata o)));
}.

Section Updater.
Context `{AS : ApiServer} `{PS : PatchServer} `{SV : SemVer}.

Abbreviation UM A := (M K8sWorld (result A K8sUpdaterError)).

(** [AsyncK8sClient::get_dynamic_object], [patch_dynamic_object] *)
Definition client_get (tm : TypeMeta) (ns name : string) : M K8sWorld (result (option DynamicObject) K8sError) :=
  let*? _ := get_or_create in
  fun w => (Ok (manager_get tm ns name w), w).

Definition client_patch (tm : TypeMeta) (ns name : string) (patch : value) : M K8sWorld (result DynamicObject K8sError) :=
  let*? _ := get_or_create in
  let* f := next_obj_fault in
  fun w =>
    let key := obj_key tm ns name in
    match live w !! key with
    | None => (Err (PatchError name (patch_not_found name)), w)
    | Some o =>
        let o' := merge_patch o patch in
        let done := {| live := <[key := o']> (live w); seen := seen w; obj_faults := obj_faults w; writes := o' :: writes w |} in
        match f with
        | Some f => (Err (PatchError name (obj_error f)), if obj_done f then done else w)
        | None => (Ok o', done)
        end
    end.

Variable self : K8sACUpdater.

Definition get_helm_release_labels (release_name : string) : UM (gmap string string) :=
  let*? o := map_err_m (fun e => K8sUpdateFailed ("error fetching " +:+ release_name +:+ " helmRelease: " +:+ show_k8s_error e))
    (client_get helmrelease_v2_type_meta (updater_namespace self) release_name) in
  ret (Ok (default ∅ (o ≫= fun obj => meta_labels (metadata obj)))).

Definition get_cd_helm_release_version (release_name : string) : UM string :=
  let*? o := map_err_m (fun e => K8sUpdateFailed ("Failed to fetch HelmRelease '" +:+ release_name +:+ "': " +:+ show_k8s_error e))
    (client_get helmrelease_v2_type_meta (updater_namespace self) release_name) in
  let*? helm_release := ret (ok_or o (K8sUpdateFailed ("HelmRelease '" +:+ release_name +:+ "' not found"))) in
  ret (ok_or (chart_version_of helm_release)
    (K8sUpdateFailed ("Could not find version at 'spec.chart.spec.version' in HelmRelease '" +:+ release_name +:+ "'"))).

(** [update_helm_release_version] *)
Definition update_helm_release_version (component_name : Component) (new_version : option string) (release_name : string)
    (current_version_getter : UM string) : UM unit :=
  match new_version with
  | None => ret (Ok tt)
  | Some version =>
      let*? current_version := current_version_getter in
      if String.eqb version current_version then ret (Ok tt)
      else
        let*? labels := get_helm_release_labels release_name in
        let*? _ := map_err_m (fun e => K8sUpdateFailed ("error applying patch to HelmRelease '" +:+ release_name +:+ "' for '"
                                +:+ show_component component_name +:+ "': " +:+ show_k8s_error e))
          (client_patch helmrelease_v2_type_meta (updater_namespace self) release_name (create_helm_release_patch version labels)) in
        ret (Ok tt)
  end.

(** [VersionUpdater::update] *)
Definition update_k8s (config : AgentControlDynamicConfig) : UM unit :=
  let*? _ :=
    if ac_remote_update_enabled self then
      match ac_release_name self with
      | Some release_name =>
          update_helm_release_version AgentControlChart (chart_version config) release_name (ret (Ok (current_chart_version self)))
      | None => ret (Ok tt)
      end
    else ret (Ok tt) in
  if cd_remote_update_enabled self then
    match cd_release_name self with
    | Some release_name =>
        update_helm_release_version FluxCDChart (cd_chart_version config) release_name (get_cd_helm_release_version release_name)
    | None => ret (Ok tt)
    end
  else ret (Ok tt).

(** ** Lemmas *)

Definition release_key (name : string) : ObjKey := obj_key helmrelease_v2_type_meta (updater_namespace self) name.

Lemma client_get_ok tm ns name w :
  no_obj_fault w -> exists w', client_get tm ns name w = (Ok (seen w !! obj_key tm ns name), w') /\ no_obj_fault w' /\
    live w' = live w /\ seen w' = seen w /\ writes w' = writes w.
Proof using.
  intros Hnf. unfold client_get, get_or_create. unfold_effects. destruct (next_obj_fault_none w Hnf) as (w1 & -> & Hnf1 & Hl & Hs & Hw).
  exists w1. unfold manager_get. by rewrite Hs.
Qed.

(** The release after an update to a version, whose labels are those that were seen *)
Definition patched (o : DynamicObject) (version : string) : DynamicObject :=
  merge_patch o (create_helm_release_patch version (default ∅ (meta_labels (metadata o)))).

(** A call that works leaves the world with these objects. *)
Definition gives (m : UM unit) (w : K8sWorld) (l : gmap ObjKey DynamicObject) : Prop :=
  exists w', m w = (Ok tt, w') /\ no_obj_fault w' /\ live w' = l /\ seen w' = seen w.

Lemma gives_patch c version name w o getter current :
  no_obj_fault w -> live w !! release_key name = Some o -> seen w !! release_key name = Some o ->
  (exists w', getter w = (Ok current, w') /\ no_obj_fault w' /\ live w' = live w /\ seen w' = seen w) ->
  gives (update_helm_release_version c (Some version) name getter) w
    (if String.eqb version current then live w else <[release_key name := patched o version]> (live w)).
Proof using.
  intros Hnf Hlive Hseen (w1 & E1 & Hnf1 & Hl1 & Hs1). unfold gives, update_helm_release_version. unfold_effects. rewrite E1.
  destruct (String.eqb version current); [exists w1; by rewrite Hl1|]. unfold get_helm_release_labels. unfold_effects.
  destruct (client_get_ok helmrelease_v2_type_meta (updater_namespace self) name w1 Hnf1) as (w2 & -> & Hnf2 & Hl2 & Hs2 & _).
  rewrite Hs1. change (obj_key helmrelease_v2_type_meta (updater_namespace self) name) with (release_key name). rewrite Hseen. cbn [map_err mbind option_bind].
  unfold client_patch, get_or_create. unfold_effects.
  destruct (next_obj_fault_none w2 Hnf2) as (w3 & -> & Hnf3 & Hl3 & Hs3 & _).
  destruct (next_obj_fault_none w3 Hnf3) as (w4 & -> & Hnf4 & Hl4 & Hs4 & _).
  change (obj_key helmrelease_v2_type_meta (updater_namespace self) name) with (release_key name).
  rewrite Hl4, Hl3, Hl2, Hl1, Hlive. cbn [map_err]. eexists. split; [done|]. split_and!; [done|done|]. cbn [seen]. by rewrite Hs4, Hs3, Hs2, Hs1.
Qed.

(** The releases that may be updated *)
Definition ac_release : option string := if ac_remote_update_enabled self then ac_release_name self else None.
Definition cd_release : option string := if cd_remote_update_enabled self then cd_release_name self else None.

(** The objects after the release [name], at version [current], was asked to be at [desired] *)
Definition release_set (name desired : option string) (current : DynamicObject -> option string) (l : gmap ObjKey DynamicObject) :
  gmap ObjKey DynamicObject :=
  match name, desired with
  | Some n, Some v =>
      match l !! release_key n with
      | Some o => if bool_decide (current o = Some v) then l else <[release_key n := patched o v]> l
      | None => l
      end
  | _, _ => l
  end.

Lemma update_ac_gives config w :
  no_obj_fault w -> (forall n, ac_release = Some n -> is_Some (live w !! release_key n) /\ seen w !! release_key n = live w !! release_key n) ->
  gives (if ac_remote_update_enabled self then
           match ac_release_name self with
           | Some release_name =>
               update_helm_release_version AgentControlChart (chart_version config) release_name (ret (Ok (current_chart_version self)))
           | None => ret (Ok tt)
           end
         else ret (Ok tt)) w
    (release_set ac_release (chart_version config) (fun _ => Some (current_chart_version self)) (live w)).
Proof using.
  intros Hnf H. unfold ac_release in *. destruct (ac_remote_update_enabled self); [|by exists w].
  destruct (ac_release_name self) as [n|]; [|by exists w]. destruct (H n eq_refl) as [[o Ho] Hs]. rewrite Ho in Hs.
  destruct (chart_version config) as [v|]; [|by exists w]. cbn [release_set]. rewrite Ho.
  pose proof (gives_patch AgentControlChart v n w o (ret (Ok (current_chart_version self))) (current_chart_version self) Hnf Ho Hs) as Hg.
  destruct (String.eqb_spec v (current_chart_version self)) as [Heq|Hne].
  - rewrite bool_decide_eq_true_2 by congruence. apply Hg. by exists w.
  - rewrite bool_decide_eq_false_2 by congruence. apply Hg. by exists w.
Qed.

Lemma update_cd_gives config w :
  no_obj_fault w ->
  (forall n, cd_release = Some n -> exists o, live w !! release_key n = Some o /\ seen w !! release_key n = Some o /\ is_Some (chart_version_of o)) ->
  gives (if cd_remote_update_enabled self then
           match cd_release_name self with
           | Some release_name =>
               update_helm_release_version FluxCDChart (cd_chart_version config) release_name (get_cd_helm_release_version release_name)
           | None => ret (Ok tt)
           end
         else ret (Ok tt)) w
    (release_set cd_release (cd_chart_version config) chart_version_of (live w)).
Proof using.
  intros Hnf H. unfold cd_release in *. destruct (cd_remote_update_enabled self); [|by exists w].
  destruct (cd_release_name self) as [n|]; [|by exists w]. destruct (H n eq_refl) as (o & Ho & Hs & [cur Hcur]).
  destruct (cd_chart_version config) as [v|]; [|by exists w]. cbn [release_set]. rewrite Ho, Hcur.
  assert (gives (update_helm_release_version FluxCDChart (Some v) n (get_cd_helm_release_version n)) w
    (if String.eqb v cur then live w else <[release_key n := patched o v]> (live w))) as Hg.
  { apply gives_patch; [done..|]. unfold get_cd_helm_release_version. unfold_effects.
    destruct (client_get_ok helmrelease_v2_type_meta (updater_namespace self) n w Hnf) as (w1 & -> & Hnf1 & Hl1 & Hs1 & _).
    change (obj_key helmrelease_v2_type_meta (updater_namespace self) n) with (release_key n). rewrite Hs. cbn [map_err ok_or].
    rewrite Hcur. by exists w1. }
  destruct (String.eqb_spec v cur) as [Heq|Hne];
    [rewrite bool_decide_eq_true_2 by congruence|rewrite bool_decide_eq_false_2 by congruence]; exact Hg.
Qed.

Lemma release_set_ne name desired current l k :
  (forall n, name = Some n -> k <> release_key n) -> release_set name desired current l !! k = l !! k.
Proof using.
  intros Hk. unfold release_set. destruct name as [n|]; [|done]. destruct desired as [v|]; [|done].
  destruct (l !! release_key n); [|done]. case_bool_decide; [done|]. rewrite lookup_insert_ne; [done|]. intros E. by apply (Hk n).
Qed.

(** An update when the watcher is up to date and nothing fails *)
Lemma update_k8s_gives config w :
  no_obj_fault w -> seen w = live w ->
  (forall n, ac_release = Some n -> is_Some (live w !! release_key n)) ->
  (forall n, cd_release = Some n -> exists o, live w !! release_key n = Some o /\ is_Some (chart_version_of o)) ->
  (forall n, ac_release = Some n -> cd_release <> Some n) ->
  gives (update_k8s config) w
    (release_set cd_release (cd_chart_version config) chart_version_of
       (release_set ac_release (chart_version config) (fun _ => Some (current_chart_version self)) (live w))).
Proof using.
  intros Hnf Hsync Hac Hcd Hne. destruct (update_ac_gives config w Hnf) as (w1 & E1 & Hnf1 & Hl1 & Hs1).
  { intros n Hn. split; [by apply Hac|by rewrite Hsync]. }
  destruct (update_cd_gives config w1 Hnf1) as (w2 & E2 & Hnf2 & Hl2 & Hs2).
  { intros n Hn. destruct (Hcd n Hn) as (o & Ho & Hv). exists o. rewrite Hl1, Hs1, Hsync. split_and!; [|done|done].
    rewrite release_set_ne; [done|]. intros m Hm [= E']. apply (Hne m); congruence. }
  exists w2. unfold update_k8s, bind_try. rewrite E1. split_and!; [exact E2|done| |congruence]. by rewrite Hl2, Hl1.
Qed.

End Updater.

(** ** Properties *)

Section Properties.
Context `{AS : ApiServer} `{PS : PatchServer} `{PL : !PatchServerLaws} `{SV : SemVer}.

Lemma patched_spec o v :
  chart_version_of (patched o v) = Some v /\
  meta_labels (metadata (patched o v)) = Some (<[AGENT_CONTROL_VERSION_SET_FROM := REMOTE_VAL]> (default ∅ (meta_labels (metadata o)))).
Proof using PL.
  unfold patched. split; [apply patched_version|]. rewrite patched_labels. f_equal. apply map_eq. intros k.
  destruct (decide (k = AGENT_CONTROL_VERSION_SET_FROM)) as [->|Hne].
  - by rewrite (lookup_union_Some_l _ _ _ REMOTE_VAL), lookup_insert_eq by apply lookup_insert_eq.
  - rewrite lookup_union, !lookup_insert_ne by done. destruct (default ∅ (meta_labels (metadata o)) !! k); done.
Qed.

(** When nothing fails, an update leaves the releases it manages at the versions the
    configuration asks for, that of Agent Control unless it asks for the running version, marked
    as set remotely and with the labels they had, and touches nothing else. *)
Theorem k8s_update_sets_versions self config w :
  no_obj_fault w -> seen w = live w ->
  (forall n, ac_release self = Some n -> is_Some (live w !! release_key self n)) ->
  (forall n, cd_release self = Some n -> exists o, live w !! release_key self n = Some o /\ is_Some (chart_version_of o)) ->
  (forall n, ac_release self = Some n -> cd_release self <> Some n) ->
  exists w', update_k8s self config w = (Ok tt, w') /\
    (forall n v, ac_release self = Some n -> chart_version config = Some v -> v <> current_chart_version self ->
       exists o o', live w !! release_key self n = Some o /\ live w' !! release_key self n = Some o' /\ chart_version_of o' = Some v /\
         meta_labels (metadata o') = Some (<[AGENT_CONTROL_VERSION_SET_FROM := REMOTE_VAL]> (default ∅ (meta_labels (metadata o))))) /\
    (forall n v, cd_release self = Some n -> cd_chart_version config = Some v ->
       exists o', live w' !! release_key self n = Some o' /\ chart_version_of o' = Some v) /\
    (forall k, (forall n, ac_release self = Some n -> k <> release_key self n) -> (forall n, cd_release self = Some n -> k <> release_key self n) ->
       live w' !! k = live w !! k).
Proof using PL.
  intros Hnf Hsync Hac Hcd Hne. destruct (update_k8s_gives self config w Hnf Hsync Hac Hcd Hne) as (w' & E & _ & Hl & _).
  exists w'. rewrite Hl. split_and!; [done|..].
  - intros n v Hn Hv Hcur. destruct (Hac n Hn) as [o Ho]. exists o, (patched o v). rewrite release_set_ne.
    + rewrite Hn, Hv. cbn [release_set]. rewrite Ho, bool_decide_eq_false_2 by congruence. rewrite lookup_insert_eq.
      destruct (patched_spec o v) as [H1 H2]. by split_and!.
    + intros m Hm [= E']. apply (Hne m); congruence.
  - intros n v Hn Hv. destruct (Hcd n Hn) as (o & Ho & _). rewrite Hn, Hv. cbn [release_set].
    rewrite release_set_ne by (intros m Hm [= E']; apply (Hne m); congruence). rewrite Ho. case_bool_decide as Hc.
    + exists o. by rewrite release_set_ne by (intros m Hm [= E']; apply (Hne m); congruence).
    + exists (patched o v). rewrite lookup_insert_eq. split; [done|apply patched_spec].
  - intros k Hk1 Hk2. by rewrite !release_set_ne.
Qed.

(** C25: An update to another chart version that is taken back before Agent Control restarts is not
    taken back in the cluster: asked for the version that is running, the updater finds nothing
    to do and the release stays at the other version. *)
Theorem rollback_before_restart_ignored self config config' n v w :
  no_obj_fault w -> seen w = live w -> ac_release self = Some n -> cd_release self = None ->
  is_Some (live w !! release_key self n) ->
  chart_version config = Some v -> v <> current_chart_version self -> chart_version config' = Some (current_chart_version self) ->
  exists w1 w2 o, update_k8s self config w = (Ok tt, w1) /\ update_k8s self config' (sync w1) = (Ok tt, w2) /\
    live w2 !! release_key self n = Some o /\ chart_version_of o = Some v.
Proof using PL.
  intros Hnf Hsync Hac Hcd [o Ho] Hv Hne Hv'.
  destruct (update_k8s_gives self config w Hnf Hsync) as (w1 & E1 & Hnf1 & Hl1 & _); [|by rewrite Hcd|by rewrite Hcd|].
  { intros m. rewrite Hac. intros [= <-]. by exists o. }
  rewrite Hac, Hcd, Hv in Hl1. cbn [release_set] in Hl1. rewrite Ho, bool_decide_eq_false_2 in Hl1 by congruence.
  destruct (update_k8s_gives self config' (sync w1) Hnf1 eq_refl) as (w2 & E2 & _ & Hl2 & _); [|by rewrite Hcd|by rewrite Hcd|].
  { intros m. rewrite Hac. intros [= <-]. cbn [sync live]. rewrite Hl1, lookup_insert_eq. by eexists. }
  exists w1, w2, (patched o v). split_and!; [done|done| |apply patched_spec]. rewrite Hl2, Hac, Hcd, Hv'. cbn [release_set sync live].
  rewrite Hl1, lookup_insert_eq, bool_decide_eq_true_2 by done. rewrite lookup_insert_eq. done.
Qed.

End Properties.

(** ** Examples *)

(** JSON merge patches *)
Fixpoint json_merge (target patch : value) {struct patch} : value :=
  match patch with
  | Object p =>
      Object ((fix go p acc := match p with
                               | [] => acc
                               | (k, Null) :: p => go p (List.filter (fun kv => negb (String.eqb kv.1 k)) acc)
                               | (k, v) :: p => go p (map_insert k (json_merge (index k (Object acc)) v) acc)
                               end) p (default [] (as_object target)))
  | v => v
  end.

Definition string_entries (v : value) : gmap string string :=
  list_to_map (omap (fun kv => (fun s => (kv.1, s)) <$> as_str_value kv.2) (default [] (as_object v))).

Definition example_patch_server : PatchServer := {|
  merge_patch o p := {|
    types := types o;
    metadata := {|
      meta_name := meta_name (metadata o);
      meta_namespace := meta_namespace (metadata o);
      meta_labels := Some (string_entries (index "labels" (index "metadata" p)) ∪ default ∅ (meta_labels (metadata o)));
      meta_annotations := meta_annotations (metadata o);
    |};
    obj_data := json_merge (obj_data o) (Object [("spec", index "spec" p)]);
  |};
  patch_not_found name := "not found";
|}.

Lemma json_merge_entry k v target : v <> Null ->
  Json.get k (json_merge target (Object [(k, v)])) = Some (json_merge (index k (Object (default [] (as_object target)))) v).
Proof.
  intros Hv. cbn [json_merge]. destruct v; try done; cbn [Json.get]; rewrite map_insert_lookup, String.eqb_refl; done.
Qed.

Lemma omap_string_entries (l : list (string * string)) :
  omap (fun kv => (fun s => (kv.1, s)) <$> as_str_value kv.2) (map (fun kv => (kv.1, Str kv.2)) l) = l.
Proof. induction l as [|[k v] l IH]; [done|]. cbn. by rewrite IH. Qed.

#[export] Instance example_patch_server_laws : PatchServerLaws (PS := example_patch_server).
Proof.
  split.
  - intros o version labels. unfold chart_version_of. cbn [at_path merge_patch example_patch_server obj_data].
    change (index "spec" (create_helm_release_patch version labels)) with (Object [("chart", Object [("spec", Object [("version", Str version)])])]).
    rewrite json_merge_entry by done. cbn [mbind option_bind]. rewrite json_merge_entry by done. cbn [mbind option_bind].
    rewrite json_merge_entry by done. cbn [mbind option_bind]. by rewrite json_merge_entry.
  - intros o version labels. cbn [merge_patch example_patch_server metadata meta_labels]. do 2 f_equal.
    unfold create_helm_release_patch, string_entries, index. cbn [Json.get assoc String.eqb from_option as_object default Datatypes.id].
    set (m := <[AGENT_CONTROL_VERSION_SET_FROM:=REMOTE_VAL]> labels).
    transitivity (list_to_map (map_to_list m) : gmap string string); [|apply list_to_map_to_list]. f_equal.
    apply omap_string_entries.
Qed.

Definition example_updater : K8sACUpdater := {|
  ac_remote_update_enabled := true; cd_remote_update_enabled := false; updater_namespace := "newrelic";
  current_chart_version := "1.0.0"; ac_release_name := Some "agent-control"; cd_release_name := None;
|}.

Definition example_chart (version : string) : DynamicObject := {|
  types := Some helmrelease_v2_type_meta;
  metadata := {| meta_name := Some "agent-control"; meta_namespace := Some "newrelic"; meta_labels := Some {["team" := "a"]}; meta_annotations := None |};
  obj_data := Object [("spec", Object [("chart", Object [("spec", Object [("version", Str version)])])])];
|}.

Definition example_releases : K8sWorld :=
  let l := {[ obj_key helmrelease_v2_type_meta "newrelic" "agent-control" := example_chart "1.0.0" ]} in
  {| live := l; seen := l; obj_faults := []; writes := [] |}.

Definition asks_for (v : string) : AgentControlDynamicConfig (SV := plain_semver) :=
  {| agents := ∅; ac_version := None; chart_version := Some v; cd_chart_version := None |}.

Lemma k8s_update_sets_versions_witness :
  exists w' o', update_k8s (PS := example_patch_server) example_updater (asks_for "2.0.0") example_releases = (Ok tt, w') /\
    live w' !! release_key example_updater "agent-control" = Some o' /\ chart_version_of o' = Some "2.0.0".
Proof.
  destruct (k8s_update_sets_versions (PS := example_patch_server) (SV := plain_semver) example_updater (asks_for "2.0.0") example_releases) as (w' & E & H & _).
  - constructor.
  - reflexivity.
  - intros n [= <-]. by eexists.
  - discriminate.
  - discriminate.
  - destruct (H "agent-control" "2.0.0") as (o & o' & _ & Hl & Hv & _); [reflexivity|reflexivity|discriminate|]. exists w', o'. exact (conj E (conj Hl Hv)).
Defined.

Lemma rollback_before_restart_ignored_witness :
  exists w1 w2 o, update_k8s (PS := example_patch_server) example_updater (asks_for "2.0.0") example_releases = (Ok tt, w1) /\
    update_k8s (PS := example_patch_server) example_updater (asks_for "1.0.0") (sync w1) = (Ok tt, w2) /\
    live w2 !! release_key example_updater "agent-control" = Some o /\ chart_version_of o = Some "2.0.0".
Proof.
  apply (rollback_before_restart_ignored (PS := example_patch_server) (SV := plain_semver) example_updater (asks_for "2.0.0") (asks_for "1.0.0")
    "agent-control" "2.0.0" example_releases).
  - constructor.
  - reflexivity.
  - reflexivity.
  - reflexivity.
  - by eexists.
  - reflexivity.
  - discriminate.
  - reflexivity.
Defined.
