(* ===== verification/OnHostHealth.v ===== *)
(** * Health of sub-agents on a host

    Models [checkers/health/on_host/]: the health of a sub-agent on a host is that of its
    executables, whose threads report it, and of an HTTP endpoint or of a file when the agent type
    declares one.

    HTTP requests, URLs, the reading of the file and its YAML are parameters, as is the text of bytes
    that may not be UTF-8.  The threads of the executables send their health through a channel;
    what is waiting there at a check is an argument of it. *)

From Stdlib Require Import Ascii String Lia.
From stdpp Require Import base option list strings gmap.
From S2P Require Import Prelude RustString Json YamlConfig Variables RuntimeConfig OnHostProcess Health.

Definition DEFAULT_PROTOCOL : string := "http://".

Inductive HttpClientError : Type :=
| UnsuccessfulResponse (status_code : N) (body : string)
| HttpOther (e : string).

(** [FileHealthContent] *)
Record FileHealthContent : Type := {
  content_healthy : bool;
  content_status : string;
  content_last_error : string;
  content_start_time_unix_nano : N;
  content_status_time_unix_nano : N;
}.

Class HealthSources : Type := {
  parse_url : string -> result string string;
  set_port_path : string -> N -> string -> string;
  http_get : string -> gmap string string -> result string HttpClientError;
  show_status_code : N -> string;
  from_utf8_lossy : string -> string;
  read_file : string -> result string string;
  parse_health_file : string -> result FileHealthContent string;
}.

Section Checkers.
Context `{HO : HashOrder} `{HS : HealthSources}.

(** ** Executables *)

Abbreviation ExecsHealth := (gmap string HealthWithStartTime).

(** The messages that are waiting, oldest first *)
Definition receive (messages : list (string * HealthWithStartTime)) (execs_health : ExecsHealth) : ExecsHealth :=
  fold_left (fun m msg => <[msg.1 := msg.2]> m) messages execs_health.

(** One step of the iterator over the executables: the oldest start so far and the errors *)
Definition exec_step (acc : SystemTime * list string) (kv : string * HealthWithStartTime) : SystemTime * list string :=
  let '(start, errors) := acc in
  (if (start_time kv.2 <? start)%Z then start_time kv.2 else start,
   errors ++ match last_error kv.2 with Some e => ["executable " +:+ kv.1 +:+ " failed: " +:+ e] | None => [] end).

(** [ExecHealthChecker::check_health] at the time [now]; the value it returns is of the time [later]. *)
Definition exec_check_health (now later : SystemTime) (messages : list (string * HealthWithStartTime)) (execs_health : ExecsHealth) :
  HealthWithStartTime * ExecsHealth :=
  let execs_health := receive messages execs_health in
  let '(start, errors) := fold_left exec_step (entries execs_health) (now, []) in
  ({| start_time := start;
      health := match errors with
                | [] => IsHealthy (new_healthy later)
                | _ => IsUnhealthy (new_unhealthy later (join ", " errors))
                end |}, execs_health).

(** ** A file *)

(** [From<FileHealthContent> for HealthWithStartTime] *)
Definition from_file_content (c : FileHealthContent) : HealthWithStartTime := {|
  start_time := sys_time_from_unix_timestamp (content_start_time_unix_nano c);
  health :=
    let status_time := sys_time_from_unix_timestamp (content_status_time_unix_nano c) in
    if content_healthy c then IsHealthy {| healthy_status_time := status_time; healthy_status := content_status c |}
    else IsUnhealthy {| unhealthy_status_time := status_time; unhealthy_status := content_status c;
                        unhealthy_last_error := content_last_error c |};
|}.

(** [FileHealthChecker::check_health] *)
Definition file_check_health (path : string) : result HealthWithStartTime string :=
  let? file_content := map_err (fun e => "reading health file '" +:+ path +:+ "': " +:+ e) (read_file path) in
  let? health := map_err (fun e => "parsing health file '" +:+ path +:+ "': " +:+ e) (parse_health_file file_content) in
  Ok (from_file_content health).

(** ** An HTTP endpoint *)

Record HttpHealthChecker : Type := { url : string; url_headers : gmap string string; healthy_codes : list N }.

(** [HttpHealthChecker::new] *)
Definition new_http_checker (http_config : HttpHealth) : result HttpHealthChecker string :=
  let? url := parse_url (DEFAULT_PROTOCOL +:+ http_host http_config) in
  Ok {| url := set_port_path url (http_port http_config) (http_path http_config);
        url_headers := headers http_config; healthy_codes := healthy_status_codes http_config |}.

Definition show_http_error (e : HttpClientError) : string :=
  match e with
  | UnsuccessfulResponse status_code _ => "unsuccessful response: " +:+ show_status_code status_code
  | HttpOther e => "internal HTTP client error: " +:+ e
  end.

(** [HttpHealthChecker::check_health] *)
Definition http_check_health (now start : SystemTime) (c : HttpHealthChecker) : result HealthWithStartTime string :=
  let healthy status := Ok {| start_time := start; health := IsHealthy {| healthy_status_time := now; healthy_status := status |} |} in
  match http_get (url c) (url_headers c) with
  | Ok body => healthy (from_utf8_lossy body)
  | Err (UnsuccessfulResponse status_code body) =>
      let status := from_utf8_lossy body in
      if existsb (N.eqb status_code) (healthy_codes c) then healthy status
      else Ok {| start_time := start;
                 health := IsUnhealthy {| unhealthy_status_time := now; unhealthy_status := status;
                                          unhealthy_last_error := "Health check failed with HTTP response status code "
                                            +:+ show_status_code status_code +:+ " : " +:+ status |} |}
  | Err error => Err (show_http_error error)
  end.

(** ** All of them *)

Inductive DeclaredChecker : Type :=
| HttpChecker (c : HttpHealthChecker)
| FileChecker (path : string).

(** [OnHostHealthCheckers::try_new]: the executables, and what the agent type declares *)
Definition on_host_checkers (health_check_type : option OnHostHealthCheck) : result (option DeclaredChecker) string :=
  match health_check_type with
  | Some (HttpHealthCheck http_config) => let? c := new_http_checker http_config in Ok (Some (HttpChecker c))
  | Some (FileHealthCheck path) => Ok (Some (FileChecker path))
  | None => Ok None
  end.

Definition declared_health (now start : SystemTime) (c : DeclaredChecker) : result HealthWithStartTime string :=
  match c with
  | HttpChecker c => http_check_health now start c
  | FileChecker path => file_check_health path
  end.

(** The status of a health unless it is empty *)
Definition override_status (status : string) (h : HealthWithStartTime) : string :=
  if str_is_empty (health_status h) then status else health_status h.

(** [OnHostHealthCheckers::check_health] *)
Definition on_host_check_health (now later start : SystemTime) (declared : option DeclaredChecker)
    (messages : list (string * HealthWithStartTime)) (execs_health : ExecsHealth) : result HealthWithStartTime string * ExecsHealth :=
  let '(exec_health, execs_health) := exec_check_health now later messages execs_health in
  let healthy status := Ok {| start_time := start; health := IsHealthy {| healthy_status_time := later; healthy_status := status |} |} in
  let status := override_status "" exec_health in
  (if negb (is_healthy exec_health) then Ok exec_health
   else match declared with
        | None => healthy status
        | Some c =>
            let? health := declared_health later start c in
            if negb (is_healthy health) then Ok health else healthy (override_status status health)
        end, execs_health).

(** ** Lemmas *)

Lemma receive_lookup messages m name :
  receive messages m !! name =
  match last (List.filter (fun msg => String.eqb msg.1 name) messages) with Some msg => Some msg.2 | None => m !! name end.
Proof using.
  unfold receive. induction messages as [|[n h] l IH] using rev_ind; [done|]. rewrite fold_left_app, List.filter_app. cbn [fold_left List.filter fst snd].
  destruct (String.eqb_spec n name) as [->|Hne].
  - by rewrite lookup_insert_eq, last_snoc.
  - by rewrite lookup_insert_ne, app_nil_r.
Qed.

Lemma exec_fold l start errors :
  let r := fold_left exec_step l (start, errors) in
  (r.1 <= start)%Z /\ Forall (fun kv => (r.1 <= start_time kv.2)%Z) l /\ (r.1 = start \/ exists kv, kv ∈ l /\ r.1 = start_time kv.2) /\
  (r.2 = [] <-> errors = [] /\ Forall (fun kv => is_healthy kv.2 = true) l).
Proof using.
  revert start errors. induction l as [|[n h] l IH]; intros start errors; cbn [fold_left].
  { split_and!; [done|constructor|by left|]. split; [by split|by intros [? _]]. }
  cbn zeta. set (start' := if (start_time h <? start)%Z then start_time h else start).
  assert (start' <= start /\ start' <= start_time h /\ (start' = start \/ start' = start_time h))%Z as (H1 & H2 & H3).
  { unfold start'. destruct (Z.ltb_spec (start_time h) start); (split_and!; [lia|lia|by auto]). }
  set (errors' := errors ++ match last_error h with Some e => ["executable " +:+ n +:+ " failed: " +:+ e] | None => [] end).
  change (exec_step (start, errors) (n, h)) with (start', errors'). specialize (IH start' errors').
  cbn zeta in IH. destruct IH as (I1 & I2 & I3 & I4). split_and!.
  - lia.
  - constructor; [simpl; lia|done].
  - destruct I3 as [->|(kv & Hkv & ->)]; [|right; exists kv; split; [by right|done]]. destruct H3 as [->| ->]; [by left|]. right. exists (n, h). by split; [left|].
  - rewrite I4, Forall_cons. unfold errors', last_error, is_healthy at 2. simpl. destruct (health h); split; intros H.
    + destruct H as [[-> _]%app_eq_nil ?]. done.
    + destruct H as (-> & _ & ?). done.
    + destruct H as [[_ ?]%app_eq_nil _]. done.
    + by destruct H as (_ & ? & _).
Qed.

End Checkers.

(** ** Properties *)

Section Properties.
Context `{HO : HashOrder} `{HS : HealthSources}.

(** The last health an executable reported *)
Definition latest (messages : list (string * HealthWithStartTime)) (execs_health : gmap string HealthWithStartTime) (name : string) :
  option HealthWithStartTime :=
  match last (List.filter (fun msg => String.eqb msg.1 name) messages) with Some msg => Some msg.2 | None => execs_health !! name end.

(** What the agent type declares is healthy. *)
Definition declared_ok (later start : SystemTime) (c : DeclaredChecker) : Prop :=
  match c with
  | HttpChecker c =>
      (exists body, http_get (url c) (url_headers c) = Ok body) \/
      exists code body, http_get (url c) (url_headers c) = Err (UnsuccessfulResponse code body) /\ code ∈ healthy_codes c
  | FileChecker path =>
      exists bytes content, read_file path = Ok bytes /\ parse_health_file bytes = Ok content /\ content_healthy content = true
  end.

Lemma declared_healthy later start c :
  (exists h, declared_health later start c = Ok h /\ is_healthy h = true) <-> declared_ok later start c.
Proof using.
  destruct c as [c|path]; simpl.
  - unfold http_check_health. destruct (http_get (url c) (url_headers c)) as [body|[code body|e]].
    + split; [intros _; left; by eexists|intros _; by eexists].
    + destruct (existsb (N.eqb code) (healthy_codes c)) eqn:E.
      * apply existsb_exists in E as (x & Hx & ->%N.eqb_eq). split; [|intros _; by eexists]. intros _. right. exists x, body.
        split; [done|]. by apply list_elem_of_In.
      * split; [by intros (? & [= <-] & ?)|]. intros [[? ?]|(? & ? & [= <- <-] & Hin)]; [done|].
        assert (existsb (N.eqb code) (healthy_codes c) = true); [|congruence]. apply existsb_exists. exists code.
        split; [by apply list_elem_of_In|apply N.eqb_refl].
    + split; [by intros (? & ? & _)|by intros [[? ?]|(? & ? & ? & _)]].
  - unfold file_check_health. destruct (read_file path) as [bytes|e]; simpl; [|split; [by intros (? & ? & _)|by intros (? & ? & ? & _)]].
    destruct (parse_health_file bytes) as [content|e] eqn:Ep; simpl; [|split; [by intros (? & ? & _)|intros (? & ? & [= <-] & ? & _); congruence]].
    unfold from_file_content, is_healthy. split.
    + intros (? & [= <-] & Hh). exists bytes, content. split_and!; [done..|]. simpl in Hh. by destruct (content_healthy content).
    + intros (? & c' & [= <-] & Ec & Hc). rewrite Ep in Ec. injection Ec as <-. eexists. split; [done|]. simpl. by rewrite Hc.
Qed.

(** C18: A sub-agent on a host is reported healthy exactly when the last health every executable
    reported is healthy and what the agent type declares is: the endpoint answers with success
    or one of the codes that count as healthy, or the file can be read and says so.  What was
    reported is kept for the next check. *)
Theorem on_host_health_exact now later start declared messages execs_health :
  let '(r, execs) := on_host_check_health now later start declared messages execs_health in
  (forall name, execs !! name = latest messages execs_health name) /\
  ((exists h, r = Ok h /\ is_healthy h = true) <->
   (forall name h, latest messages execs_health name = Some h -> is_healthy h = true) /\
   (forall c, declared = Some c -> declared_ok later start c)).
Proof using.
  unfold on_host_check_health, exec_check_health. pose proof (exec_fold (entries (receive messages execs_health)) now []) as Hfold.
  destruct (fold_left exec_step _ (now, [])) as [s errors]. cbn zeta in Hfold. destruct Hfold as (_ & _ & _ & He). cbn [snd] in He.
  split; [intros name; apply receive_lookup|].
  assert (errors = [] <-> forall name h, latest messages execs_health name = Some h -> is_healthy h = true) as Hex.
  { rewrite He, Forall_forall. unfold latest. setoid_rewrite <-receive_lookup. split.
    - intros [_ H] name h Hl. by apply (H (name, h)), elem_of_entries.
    - intros H. split; [done|]. intros [name h] Hin%elem_of_entries. by apply (H name). }
  rewrite <-Hex. unfold is_healthy at 1. cbn [health]. destruct errors as [|e errors].
  2:{ cbn [negb]. split; [by intros (? & [= <-] & ?)|by intros [? _]]. }
  cbn [negb]. destruct declared as [c|]; [|split; [intros _; by split|intros _; by eexists]].
  transitivity (exists h, declared_health later start c = Ok h /\ is_healthy h = true).
  - destruct (declared_health later start c) as [h|e]; simpl; [|split; by intros (? & ? & _)].
    destruct (is_healthy h) eqn:Eh; simpl; [split; intros _; by eexists|]. split; intros (? & [= <-] & ?); congruence.
  - rewrite declared_healthy. split; [intros H; split; [done|by intros ? [= <-]]|intros [_ H]; by apply H].
Qed.

(** The start time reported for the executables is the oldest of the times they reported, and
    not later than the check. *)
Theorem exec_start_time_oldest now later messages execs_health :
  let '(h, execs) := exec_check_health now later messages execs_health in
  (start_time h <= now)%Z /\ (forall name h', execs !! name = Some h' -> (start_time h <= start_time h')%Z) /\
  (start_time h = now \/ exists name h', execs !! name = Some h' /\ start_time h = start_time h').
Proof using.
  unfold exec_check_health. pose proof (exec_fold (entries (receive messages execs_health)) now []) as Hfold.
  destruct (fold_left exec_step _ (now, [])) as [s errors]. cbn zeta in Hfold. destruct Hfold as (H1 & H2 & H3 & _). cbn [fst start_time] in *.
  split_and!; [done|..].
  - intros name h' Hl. rewrite Forall_forall in H2. by apply (H2 (name, h')), elem_of_entries.
  - destruct H3 as [?|([name h'] & Hin & ?)]; [by left|]. right. exists name, h'. by apply elem_of_entries in Hin.
Qed.

End Properties.
