(* ===== verification/EffectiveConfig.v ===== *)
(** * What an agent reports of itself

    Models [opamp/effective_config/]: the configuration an agent reports as the one in force, and
    [opamp/attributes.rs]: the update of the attributes that describe it.

    The configuration comes from any repository that keeps the laws of [ConfigRepo].  Reading the
    dynamic part of the configuration of Agent Control from text, and writing it, are parameters
    with the law that reading what was written of a configuration gives its three entries. *)

From Stdlib Require Import Ascii String Lia.
From stdpp Require Import base option list strings gmap.
From S2P Require Import Prelude RustString AgentId AgentTypeId Json RemoteConfig YamlConfig Variables ConfigRepo.

(** ** The configuration in force *)

(** [AgentControlEffectiveConfig] *)
Record AgentControlEffectiveConfig : Type := {
  effective_agents : option value;
  effective_chart_version : option string;
  effective_cd_chart_version : option string;
}.

Class EffectiveSerde : Type := {
  effective_from_str : string -> result AgentControlEffectiveConfig string;
  effective_to_string : AgentControlEffectiveConfig -> result string string;
}.

Section Loaders.
Context `{SV : SemVer} {R : Type} `{CR : !ConfigRepository R} `{Y : Yaml} `{ES : EffectiveSerde}.
Variable show_repo_error : ConfigRepositoryError -> string.

(** The configuration of an agent, empty when there is none *)
Definition load_values (agent_id : AgentID) : M R (result YAMLConfig string) :=
  let*? maybe_config := map_err_m (fun e => "could not load " +:+ as_str agent_id +:+ " config values: " +:+ show_repo_error e)
    (load_remote_fallback_local agent_id default_capabilities) in
  ret (Ok (from_option get_yaml_config ∅ maybe_config)).

(** [SubAgentEffectiveConfigLoader::load] *)
Definition load_sub_agent (agent_id : AgentID) : M R (result (gmap string string) string) :=
  let*? values := load_values agent_id in
  ret (let? values_string := map_err (fun e => "could not load " +:+ as_str agent_id +:+ " config values: " +:+ e) (string_try_from values) in
       Ok {["" := values_string]}).

(** [TryFrom<YAMLConfig> for AgentControlEffectiveConfig] *)
Definition agent_control_effective_config (values : YAMLConfig) : result AgentControlEffectiveConfig string :=
  let? config_string := map_err (fun e => "processing agent-control effective config: converting effective config from stored values: " +:+ e)
    (string_try_from values) in
  map_err (fun e => "processing agent-control effective config: converting effective config: " +:+ e) (effective_from_str config_string).

(** [AgentControlEffectiveConfigLoader::load] *)
Definition load_agent_control : M R (result (gmap string string) string) :=
  let*? values := load_values AgentControl in
  ret (let? dynamic_config := map_err (fun e => "building " +:+ as_str AgentControl +:+ " effective config: " +:+ e)
         (agent_control_effective_config values) in
       let? text := map_err (fun e => "serializing " +:+ as_str AgentControl +:+ " effective config: " +:+ e)
         (effective_to_string dynamic_config) in
       Ok {["" := text]}).

(** [EffectiveConfigLoaderBuilder::build], [EffectiveConfigLoader::load] *)
Definition load_effective_config (agent_id : AgentID) : M R (result (gmap string string) string) :=
  match agent_id with
  | AgentControl => load_agent_control
  | SubAgent _ => load_sub_agent agent_id
  end.

End Loaders.

(** Reading the text of a configuration that is not empty gives these entries of it; others are
    ignored, and a null is no value. *)
Definition read_text (o : option value) : option (option string) :=
  match o with None | Some Null => Some None | Some (Str s) => Some (Some s) | Some _ => None end.

Definition read_effective (c : YAMLConfig) : option AgentControlEffectiveConfig :=
  chart ← read_text (c !! "chart_version"); cd_chart ← read_text (c !! "cd_chart_version");
  Some {| effective_agents := match c !! "agents" with Some Null => None | o => o end;
          effective_chart_version := chart; effective_cd_chart_version := cd_chart |}.

Class EffectiveSerdeLaws `{Y : Yaml} `{ES : EffectiveSerde} : Prop :=
  effective_read c s : c <> ∅ -> yaml_to_string c = Ok s ->
    ok (effective_from_str s) = read_effective c.

(** ** Attributes *)

Abbreviation KeyValue := (string * value)%type.

Fixpoint update_attribute (attributes : list KeyValue) (new_kv : KeyValue) : list KeyValue :=
  match attributes with
  | [] => [new_kv]
  | kv :: attributes => if String.eqb kv.1 new_kv.1 then (kv.1, new_kv.2) :: attributes else kv :: update_attribute attributes new_kv
  end.

(** [merge_attributes] *)
Definition merge_attributes (old_attributes new_attributes : list KeyValue) : list KeyValue :=
  fold_left update_attribute new_attributes old_attributes.

Record ProtoAgentDescription : Type := { identifying : list KeyValue; non_identifying : list KeyValue }.

(** [merge_agent_description] *)
Definition merge_agent_description (old new : ProtoAgentDescription) : ProtoAgentDescription := {|
  identifying := merge_attributes (identifying old) (identifying new);
  non_identifying := merge_attributes (non_identifying old) (non_identifying new);
|}.

(** [update_opamp_attributes], on a client whose calls may fail *)
Definition update_opamp_attributes {S} (get_agent_description : M S (result ProtoAgentDescription string))
    (set_agent_description : ProtoAgentDescription -> M S (result unit string)) (agent_description : ProtoAgentDescription) :
  M S (result unit string) :=
  let*? current := get_agent_description in
  set_agent_description (merge_agent_description current agent_description).

(** ** Properties *)

Section Properties.
Context `{SV : SemVer} {R : Type} `{CR : !ConfigRepository R} `{CL : !ConfigRepositoryLaws R} `{Y : Yaml} `{ES : EffectiveSerde}.
Variable show_repo_error : ConfigRepositoryError -> string.

(** The values in force for an agent *)
Definition values_in_force (r : R) (id : AgentID) : YAMLConfig :=
  from_option get_yaml_config ∅ (effective_of r id default_capabilities).

Lemma load_values_spec r id res r' :
  load_values show_repo_error id r = (res, r') ->
  remote_of r' = remote_of r /\ local_of r' = local_of r /\ (forall v, res = Ok v -> v = values_in_force r id) /\
  (reliable r -> res = Ok (values_in_force r id)).
Proof using CL.
  unfold load_values. unfold_effects. destruct (load_remote_fallback_local id default_capabilities r) as [res0 r0] eqn:E.
  apply load_fallback_spec in E as (Hr & Hl & _ & Ho & Hrel). unfold values_in_force.
  destruct res0 as [o|e]; cbn [map_err]; intros [= <- <-]; (split_and!; [done|done|..]).
  - intros v [= <-]. by rewrite (Ho o eq_refl).
  - intros _. by rewrite (Ho o eq_refl).
  - done.
  - intros []%Hrel. done.
Qed.

(** What a sub-agent reports as its effective configuration is the text of the values in force,
    the remote ones when they are stored, otherwise the local ones, and nothing when there are
    none, with no value replaced; loading it changes nothing. *)
Theorem effective_config_in_force name r :
  let id := SubAgent name in
  let '(res, r') := load_effective_config show_repo_error id r in
  remote_of r' = remote_of r /\ local_of r' = local_of r /\
  (forall m, res = Ok m -> exists s, string_try_from (values_in_force r id) = Ok s /\ m = {["" := s]}) /\
  (reliable r -> forall s, string_try_from (values_in_force r id) = Ok s -> res = Ok {["" := s]}).
Proof using CL.
  intros id. change (load_effective_config show_repo_error id) with (load_sub_agent show_repo_error id). unfold load_sub_agent. unfold_effects.
  destruct (load_values show_repo_error id r) as [[v|e] r'] eqn:E; apply load_values_spec in E as (Hr & Hl & Ho & Hrel);
    (split_and!; [done|done|..]).
  - intros m Hm. rewrite <-(Ho v eq_refl). destruct (string_try_from v) as [s|]; [|done]. injection Hm as <-. by exists s.
  - intros _ s Hs. rewrite <-(Ho v eq_refl) in Hs. by rewrite Hs.
  - done.
  - intros H%Hrel. done.
Qed.

(** The version of Agent Control a configuration asks for is not part of the effective
    configuration it reports: two configurations in force that differ in other entries than the
    sub-agents and the versions of the charts are reported alike. *)
Theorem effective_config_omits_version `{EL : !EffectiveSerdeLaws} r1 r2 s1 s2 m1 m2 r1' r2' :
  let c1 := values_in_force r1 AgentControl in let c2 := values_in_force r2 AgentControl in
  c1 <> ∅ -> c2 <> ∅ -> yaml_to_string c1 = Ok s1 -> yaml_to_string c2 = Ok s2 ->
  Forall (fun k => c1 !! k = c2 !! k) ["agents"; "chart_version"; "cd_chart_version"] ->
  load_effective_config show_repo_error AgentControl r1 = (Ok m1, r1') ->
  load_effective_config show_repo_error AgentControl r2 = (Ok m2, r2') -> m1 = m2.
Proof using CL.
  intros c1 c2 H1 H2 E1 E2 Hk.
  assert (forall r s m r', values_in_force r AgentControl <> ∅ -> yaml_to_string (values_in_force r AgentControl) = Ok s ->
    load_effective_config show_repo_error AgentControl r = (Ok m, r') ->
    exists d t, read_effective (values_in_force r AgentControl) = Some d /\ effective_to_string d = Ok t /\ m = {["" := t]}) as Hload.
  { intros r s m r' Hne Hs. cbn [load_effective_config]. unfold load_agent_control. unfold_effects.
    destruct (load_values show_repo_error AgentControl r) as [[v|e] rx] eqn:E; [|done]. apply load_values_spec in E as (_ & _ & Ho & _).
    rewrite (Ho v eq_refl). unfold agent_control_effective_config, string_try_from, is_empty. rewrite bool_decide_eq_false_2 by done.
    rewrite Hs. cbn [map_err and_then]. pose proof (effective_read _ s Hne Hs) as Hr.
    destruct (effective_from_str s) as [d|]; [|done]. cbn [map_err and_then]. destruct (effective_to_string d) as [t|] eqn:Et; [|done].
    intros [= <- _]. by exists d, t. }
  intros L1 L2. apply (Hload r1 s1) in L1 as (d1 & t1 & D1 & T1 & ->); [|done..]. apply (Hload r2 s2) in L2 as (d2 & t2 & D2 & T2 & ->); [|done..].
  apply Forall_cons in Hk as [Ka [Kc [Kd _]%Forall_cons]%Forall_cons].
  assert (d1 = d2) as ->; [|congruence]. unfold read_effective in D1, D2. fold c1 in D1. fold c2 in D2. rewrite Ka, Kc, Kd in D1. congruence.
Qed.

End Properties.

Lemma update_attribute_assoc l kv k :
  assoc k (update_attribute l kv) = if String.eqb k kv.1 then Some kv.2 else assoc k l.
Proof.
  induction l as [|[k0 v0] l IH]; destruct kv as [k1 v1]; simpl in *; [done|].
  destruct (String.eqb_spec k0 k1) as [->|Hne]; simpl.
  - by destruct (String.eqb k k1).
  - rewrite IH. destruct (String.eqb_spec k k0) as [->|]; [|done]. by destruct (String.eqb_spec k0 k1).
Qed.

Lemma update_attribute_keys l kv :
  (update_attribute l kv).*1 = if bool_decide (kv.1 ∈ l.*1) then l.*1 else l.*1 ++ [kv.1].
Proof.
  induction l as [|[k0 v0] l IH]; destruct kv as [k1 v1]; [done|]. cbn [update_attribute fst snd] in *. cbn [fmap list_fmap fst].
  destruct (String.eqb_spec k0 k1) as [->|Hne]; [rewrite bool_decide_eq_true_2; [done|left]|].
  cbn [fmap list_fmap fst]. rewrite IH. case_bool_decide as H1; case_bool_decide as H2; try done.
  - destruct H2. by right.
  - apply elem_of_cons in H2 as [->|]; done.
Qed.

(** An update of the attributes of an agent gives every attribute its new value, or keeps the
    old one when the update does not have it, and the attributes that were there keep their
    places: none is removed. *)
Theorem merge_attributes_spec old new :
  NoDup new.*1 ->
  (forall k, assoc k (merge_attributes old new) = match assoc k new with Some v => Some v | None => assoc k old end) /\
  exists added, (merge_attributes old new).*1 = old.*1 ++ added /\ added `sublist_of` new.*1.
Proof.
  unfold merge_attributes. revert old. induction new as [|[k0 v0] l IH]; intros old Hnd; cbn [fold_left].
  { split; [done|]. exists []. by rewrite app_nil_r. }
  cbn [fmap list_fmap fst] in Hnd. apply NoDup_cons in Hnd as [H0 Hnd]. destruct (IH (update_attribute old (k0, v0)) Hnd) as [H1 (added & H2 & H3)].
  split.
  - intros k. rewrite H1, update_attribute_assoc. cbn [fst snd assoc]. destruct (String.eqb_spec k k0) as [->|]; [|done].
    destruct (assoc k0 l) as [v|] eqn:E; [|done]. destruct H0. apply assoc_Some in E; [|done]. apply list_elem_of_fmap. by exists (k0, v).
  - rewrite H2, update_attribute_keys. cbn [fst fmap list_fmap]. case_bool_decide.
    + exists added. split; [done|by apply sublist_cons].
    + exists (k0 :: added). rewrite <-app_assoc. split; [done|by apply sublist_skip].
Qed.

Lemma merge_attributes_spec_witness :
  assoc "version" (merge_attributes [("version", Str "1"); ("host", Str "a")] [("version", Str "2"); ("guid", Str "g")]) = Some (Str "2").
Proof.
  refine (proj1 (merge_attributes_spec [("version", Str "1"); ("host", Str "a")] [("version", Str "2"); ("guid", Str "g")] _) "version").
  apply (bool_decide_unpack _). vm_compute. exact I.
Defined.

(** ** Examples *)

(** Two configurations that differ in the version of Agent Control, and a text for each *)
Definition asks (version : string) : YAMLConfig := {["agents" := Object []; "version" := Str version]}.

Definition two_texts : Yaml := {|
  parse_yaml_config s := if String.eqb s "one" then Ok (asks "1.0.0") else if String.eqb s "two" then Ok (asks "2.0.0") else Err "not a mapping";
  yaml_to_string c := if bool_decide (c = asks "1.0.0") then Ok "one" else if bool_decide (c = asks "2.0.0") then Ok "two" else Err "not supported";
|}.

Definition two_serde : EffectiveSerde := {|
  effective_from_str s :=
    match (if String.eqb s "one" then read_effective (asks "1.0.0") else if String.eqb s "two" then read_effective (asks "2.0.0") else None) with
    | Some d => Ok d
    | None => Err "invalid type"
    end;
  effective_to_string d := Ok (match effective_agents d with Some _ => "agents: {}" | None => "{}" end);
|}.

#[export] Instance two_serde_laws : EffectiveSerdeLaws (Y := two_texts) (ES := two_serde).
Proof.
  intros c s _. cbn [yaml_to_string two_texts]. case_bool_decide as H1; [intros [= <-]|case_bool_decide as H2; [intros [= <-]|done]];
    subst c; vm_compute; reflexivity.
Qed.

Definition local_repo (c : YAMLConfig) : ConfigRepo MemStore :=
  {| opamp_data_store := {| mem_remote := ∅; mem_local := {[AgentControl := c]}; faults := [] |}; remote_enabled := true |}.

Definition reported (c : YAMLConfig) : result (gmap string string) string * ConfigRepo MemStore :=
  load_effective_config (SV := plain_semver) (Y := two_texts) (ES := two_serde) (fun _ => "error") AgentControl (local_repo c).

Lemma effective_config_omits_version_witness : (reported (asks "1.0.0")).1 = Ok {["" := "agents: {}"]} /\
  forall m, (reported (asks "2.0.0")).1 = Ok m -> {["" := "agents: {}"]} = m.
Proof.
  assert ((reported (asks "1.0.0")).1 = Ok {["" := "agents: {}"]}) as H1 by (vm_compute; reflexivity).
  split; [exact H1|]. intros m H2.
  apply (effective_config_omits_version (SV := plain_semver) (Y := two_texts) (ES := two_serde) (fun _ => "error")
    (local_repo (asks "1.0.0")) (local_repo (asks "2.0.0")) "one" "two" {["" := "agents: {}"]} m
    (reported (asks "1.0.0")).2 (reported (asks "2.0.0")).2).
  - vm_compute. discriminate.
  - vm_compute. discriminate.
  - vm_compute. reflexivity.
  - vm_compute. reflexivity.
  - repeat constructor.
  - unfold reported in *. by destruct (load_effective_config _ _ (local_repo (asks "1.0.0"))) as [r1 x1]; simpl in *; subst.
  - unfold reported in *. by destruct (load_effective_config _ _ (local_repo (asks "2.0.0"))) as [r2 x2]; simpl in *; subst.
Defined.
