(* ===== verification/AgentControl.v ===== *)
(** * Agent Control

    Models [agent_control.rs], [agent_control/error.rs] and [sub_agent/collection.rs]: the
    main loop that starts, replaces and stops sub-agents as the remote configuration
    changes.

    The configuration store is [AgentControlStore] over any [ConfigRepository].  The other
    collaborators (sub-agent builder, validators, cleaner, version updater, OpAMP client)
    answer through an [AcEnv], which may depend on everything done before.  A running
    sub-agent is a handle with a number of its own, so that a sub-agent whose handle was
    lost can be told from one that was stopped. *)

From Stdlib Require Import String Lia.
From stdpp Require Import base option list strings gmap.
From S2P Require Import Prelude RustString Json AgentId AgentTypeId RemoteConfig Callbacks.
From S2P Require Import YamlConfig RemoteConfigParser ConfigRepo DynamicConfig AgentControlStore.
From S2P Require Import Health SubAgent.

(** ** Errors ([error.rs]); the payload of an external error is its text *)

Inductive AgentControlError : Type :=
| ConfigResolve (e : string)
| OpAMPClient (e : string)
| SubAgentBuilder (e : string)
| SubAgentNotFound (id : AgentID)
| RemoteConfigError (e : OpampRemoteConfigError)
| YAMLConfigFailure (e : string)
| RemoteConfigValidator (e : string)
| ResourceCleaner (e : string)
| Updater (e : string)
| BuildingSubagents (errors : list (AgentID * AgentControlError)).

(** [Display for BuildingSubagentErrors], given how an error is printed *)
Definition show_errors (show : AgentControlError -> string)
    (errors : list (AgentID * AgentControlError)) : string :=
  let texts := map (fun e => "agent_id: " +:+ as_str e.1 +:+ ", error: " +:+ show e.2) errors in
  "[" +:+ match texts with
          | [] => ""
          | s :: texts => fold_left (fun acc s => acc +:+ ", " +:+ s) texts s
          end +:+ "]".

(** [Display for AgentControlError] *)
Fixpoint show_ac_error (e : AgentControlError) : string :=
  match e with
  | ConfigResolve e => "could not resolve config: " +:+ e
  | OpAMPClient e | SubAgentBuilder e => e
  | SubAgentNotFound id => "sub agent " +:+ as_str id +:+ " not found in the collection"
  | RemoteConfigError e => "remote config error: " +:+ show_remote_config_error e
  | YAMLConfigFailure e => "parsing remote config into YAMLConfig: " +:+ e
  | RemoteConfigValidator e => "agent control remote config validation error: " +:+ e
  | ResourceCleaner e => "resource cleaner error: " +:+ e
  | Updater e => "updater error: " +:+ e
  | BuildingSubagents errors => "failed to build agents: " +:+ show_errors show_ac_error errors
  end.

Section AgentControl.
Context `{SV : SemVer} {Attributes : Type}.

(** ** Data *)

(** [event.rs] *)
Inductive AgentControlEvent : Type :=
| AcHealthUpdated (h : HealthWithStartTime)
| SubAgentRemoved (id : AgentID)
| AgentControlStopped
| AcDescriptionUpdated (a : Attributes)
| OpAMPConnected
| OpAMPConnectFailed (code : option N) (reason : string).

Inductive AgentControlInternalEvent : Type :=
| InternalHealthUpdated (h : HealthWithStartTime)
| AgentControlAttributesUpdated (a : Attributes)
| SelfUpdateRestartRequested.

(** A [StartedSubAgent] of the collection. *)
Record Handle : Type := {
  handle_id : nat;
  handle_identity : AgentIdentity;
}.

Inductive AcEffect : Type :=
| AcSetStatus (s : RemoteConfigStatus)
| AcUpdateEffectiveConfig
| AcSetHealth (h : HealthWithStartTime)
| AcUpdateAttributes (a : Attributes)
| AcStopClient
| AcBroadcast (e : AgentControlEvent)
| AgentRunning (n : nat) (i : AgentIdentity)
| AgentStopped (n : nat)
| Cleaned (id : AgentID) (t : AgentTypeID)
| VersionUpdate (d : AgentControlDynamicConfig)
| VersionRetry.

Record AcEnv : Type := {
  ac_build : list AcEffect -> AgentIdentity -> result unit string;
  ac_clean : list AcEffect -> AgentID -> AgentTypeID -> result unit string;
  ac_update : list AcEffect -> AgentControlDynamicConfig -> result unit string;
  ac_retry : list AcEffect -> result unit string;
  ac_client : list AcEffect -> AcEffect -> result unit string;
  ac_validate_remote : list AcEffect -> OpampRemoteConfig -> result unit string;
  ac_validate_dynamic : list AcEffect -> AgentControlDynamicConfig -> result unit string;
}.

Context {R : Type} `{CR : !ConfigRepository R} `{HO : HashOrder} `{Y : Yaml} `{DS : !DynamicSerde}
  {Static : Type}.

Record AcWorld : Type := {
  ac_repo : R;
  running_sub_agents : gmap AgentID Handle;
  ac_log : list AcEffect;
}.

(** The fields of [AgentControl] that are not in the world. *)
Record AgentControl : Type := {
  has_client : bool;
  initial_config : AgentControlConfig Static;
}.

Inductive GracefulShutdownReason : Type := ExternalRequested | SelfUpdate.

(** ** Effects *)

Definition ac_perform (e : AcEffect) : M AcWorld unit :=
  fun w => (tt, {| ac_repo := ac_repo w; running_sub_agents := running_sub_agents w;
                   ac_log := e :: ac_log w |}).

Definition ac_on_repo {A} (m : M R A) : M AcWorld A :=
  fun w => let '(a, r) := m (ac_repo w) in
           (a, {| ac_repo := r; running_sub_agents := running_sub_agents w; ac_log := ac_log w |}).

Definition ac_ask {A} (f : list AcEffect -> A) : M AcWorld A := fun w => (f (ac_log w), w).

Variable env : AcEnv.
Variable build_config : string -> result (AgentControlConfig Static) AgentControlConfigError.

(** A call whose answer is asked first and which is then recorded. *)
Definition ac_call (answer : list AcEffect -> result unit string) (e : AcEffect) :
  M AcWorld (result unit string) :=
  let* r := ac_ask answer in
  let* _ := ac_perform e in
  ret r.

Definition client_call (e : AcEffect) : M AcWorld (result unit AgentControlError) :=
  map_err_m OpAMPClient (ac_call (fun l => ac_client env l e) e).

Definition store_call {A} (m : M R (result A AgentControlConfigError)) :
  M AcWorld (result A AgentControlError) :=
  map_err_m ConfigResolve (ac_on_repo m).

(** ** The collection ([collection.rs]) *)

Definition stop_sub_agent (h : Handle) : M AcWorld unit := ac_perform (AgentStopped (handle_id h)).

Definition stop_and_remove (agent_id : AgentID) : M AcWorld (result unit AgentControlError) :=
  fun w =>
    match running_sub_agents w !! agent_id with
    | None => (Err (SubAgentNotFound agent_id), w)
    | Some sub_agent =>
        let '(_, w') := stop_sub_agent sub_agent
          {| ac_repo := ac_repo w; running_sub_agents := delete agent_id (running_sub_agents w);
             ac_log := ac_log w |} in
        (Ok tt, w')
    end.

(** [insert]; a handle that was there is dropped by the callers. *)
Definition insert_sub_agent (agent_id : AgentID) (h : Handle) : M AcWorld unit :=
  fun w => (tt, {| ac_repo := ac_repo w;
                   running_sub_agents := <[agent_id := h]> (running_sub_agents w);
                   ac_log := ac_log w |}).

(** [StartedSubAgents::stop], in the order the map is iterated *)
Definition stop_all : M AcWorld unit :=
  fun w => for_each (entries (running_sub_agents w)) (fun kv => stop_sub_agent kv.2)
             {| ac_repo := ac_repo w; running_sub_agents := ∅; ac_log := ac_log w |}.

(** ** Starting and replacing sub-agents *)

(** [NotStartedSubAgent::run]: the new thread gets a number that was not used before. *)
Definition run_sub_agent (i : AgentIdentity) : M AcWorld Handle :=
  fun w =>
    let n := length (ac_log w) in
    let '(_, w') := ac_perform (AgentRunning n i) w in
    ({| handle_id := n; handle_identity := i |}, w').

Definition identity_of (agent_id : AgentID) (c : SubAgentConfig) : AgentIdentity :=
  {| id := agent_id; agent_type_id := agent_type c |}.

Definition build_and_run_sub_agent (i : AgentIdentity) : M AcWorld (result unit AgentControlError) :=
  let*? _ := map_err_m SubAgentBuilder (ac_ask (fun l => ac_build env l i)) in
  let* h := run_sub_agent i in
  let* _ := insert_sub_agent (id i) h in
  ret (Ok tt).

Definition recreate_sub_agent (i : AgentIdentity) : M AcWorld (result unit AgentControlError) :=
  let*? _ := stop_and_remove (id i) in
  build_and_run_sub_agent i.

(** A loop that records the errors of its body and goes on. *)
Fixpoint collect_errors {A} (l : list A)
    (body : A -> M AcWorld (list (AgentID * AgentControlError))) :
  M AcWorld (list (AgentID * AgentControlError)) :=
  match l with
  | [] => ret []
  | a :: l =>
      let* errors := body a in
      let* rest := collect_errors l body in
      ret (errors ++ rest)
  end.

(** The recorded error of a step, if it failed. *)
Definition error_of (agent_id : AgentID) (r : result unit AgentControlError) :
  list (AgentID * AgentControlError) :=
  match r with Ok _ => [] | Err err => [(agent_id, err)] end.

Definition errors_result (errors : list (AgentID * AgentControlError)) :
  result unit AgentControlError :=
  match errors with [] => Ok tt | _ => Err (BuildingSubagents errors) end.

Definition build_and_run_sub_agents (sub_agents : gmap AgentID SubAgentConfig) :
  M AcWorld (result unit AgentControlError) :=
  let* errors := collect_errors (entries sub_agents) (fun '(agent_id, agent_config) =>
    let* r := build_and_run_sub_agent (identity_of agent_id agent_config) in
    ret (error_of agent_id r)) in
  ret (errors_result errors).

(** The first loop of [apply_remote_config_agents]. *)
Definition apply_agent (current : gmap AgentID SubAgentConfig) (entry : AgentID * SubAgentConfig) :
  M AcWorld (list (AgentID * AgentControlError)) :=
  let '(agent_id, agent_config) := entry in
  let agent_identity := identity_of agent_id agent_config in
  let* apply_result :=
    match current !! agent_id with
    | Some old_sub_agent_config =>
        if bool_decide (old_sub_agent_config = agent_config) then ret (Ok tt)
        else recreate_sub_agent agent_identity
    | None => build_and_run_sub_agent agent_identity
    end in
  ret (error_of agent_id apply_result).

(** The second loop. *)
Definition remove_agent (entry : AgentID * SubAgentConfig) :
  M AcWorld (list (AgentID * AgentControlError)) :=
  let '(agent_id, agent_config) := entry in
  let* stopped := stop_and_remove agent_id in
  let* cleaned := map_err_m ResourceCleaner
    (ac_call (fun l => ac_clean env l agent_id (agent_type agent_config))
       (Cleaned agent_id (agent_type agent_config))) in
  let* _ := ac_perform (AcBroadcast (SubAgentRemoved agent_id)) in
  ret (error_of agent_id stopped ++ error_of agent_id cleaned).

Definition apply_remote_config_agents (current new : gmap AgentID SubAgentConfig) :
  M AcWorld (result unit AgentControlError) :=
  let* errors1 := collect_errors (entries new) (apply_agent current) in
  let* errors2 := collect_errors (sub_agents_difference current new) remove_agent in
  ret (errors_result (errors1 ++ errors2)).

(** ** Remote configurations *)

(** The dynamic configuration a remote one asks for. *)
Definition new_dynamic_config (c : OpampRemoteConfig) :
  M AcWorld (result AgentControlDynamicConfig AgentControlError) :=
  if is_agent_configs_empty c then
    let*? _ := store_call store_delete in
    store_call (store_load build_config)
  else ret (map_err ConfigResolve (dynamic_try_from c)).

(** Storing the configuration before it is applied. *)
Definition store_new_config (c : OpampRemoteConfig) (d : AgentControlDynamicConfig) :
  M AcWorld (result unit AgentControlError) :=
  if is_agent_configs_empty c then ret (Ok tt)
  else
    let*? yaml := ret (map_err YAMLConfigFailure (dynamic_to_yaml d)) in
    store_call (store_store {| config := yaml; hash := RemoteConfig.hash c;
                               state := RemoteConfig.state c |}).

Definition validate_apply_store_remote_config (c : OpampRemoteConfig)
    (current : AgentControlDynamicConfig) :
  M AcWorld (result AgentControlDynamicConfig AgentControlError) :=
  match error_message (RemoteConfig.state c) with
  | Some err => ret (Err (RemoteConfigError (InvalidConfig (RemoteConfig.hash c) err)))
  | None =>
      let*? _ := map_err_m RemoteConfigValidator (ac_ask (fun l => ac_validate_remote env l c)) in
      let*? d := new_dynamic_config c in
      let*? _ := map_err_m RemoteConfigValidator (ac_ask (fun l => ac_validate_dynamic env l d)) in
      let*? _ := map_err_m Updater (ac_call (fun l => ac_update env l d) (VersionUpdate d)) in
      let*? _ := store_new_config c d in
      let*? _ := apply_remote_config_agents (agents current) (agents d) in
      ret (Ok d)
  end.

Definition report (st : ConfigState) (h : Hash) : M AcWorld (result unit AgentControlError) :=
  client_call (AcSetStatus (report_status st h)).

(** What follows the outcome of [validate_apply_store_remote_config] *)
Definition finish_remote_config (h : Hash) (outcome : result AgentControlDynamicConfig AgentControlError) :
  M AcWorld (result AgentControlDynamicConfig AgentControlError) :=
  match outcome with
  | Err (BuildingSubagents err) =>
      let st := Failed ("Error applying Agent Control remote config for some agents: "
                          +:+ show_errors show_ac_error err) in
      let*? _ := store_call (store_update_state st) in
      let*? _ := report st h in
      let*? _ := client_call AcUpdateEffectiveConfig in
      ret (Err (BuildingSubagents err))
  | Err err =>
      let st := Failed ("Error applying Agent Control remote config: " +:+ show_ac_error err) in
      let*? _ := report st h in
      ret (Err err)
  | Ok d =>
      let*? _ := store_call (store_update_state Applied) in
      let*? _ := report Applied h in
      let*? _ := client_call AcUpdateEffectiveConfig in
      ret (Ok d)
  end.

(** [handle_remote_config]; it is reached only with a client *)
Definition ac_handle_remote_config (c : OpampRemoteConfig) (current : AgentControlDynamicConfig) :
  M AcWorld (result AgentControlDynamicConfig AgentControlError) :=
  let*? _ := report Applying (RemoteConfig.hash c) in
  let* outcome := validate_apply_store_remote_config c current in
  finish_remote_config (RemoteConfig.hash c) outcome.

(** ** The main loop *)

(** What the [select!] of [process_events] receives; [None] when the channel is closed. *)
Inductive AcEvent : Type :=
| AcFromOpAMP (e : option OpAMPEvent)
| AcFromInternal (e : option AgentControlInternalEvent)
| AcFromApplication
| AcUptimeTick
| AcSelfUpdateTick.

(** How an iteration ends.  [AcPanic] is the [unreachable!] of a remote configuration that
    arrives without an OpAMP client. *)
Inductive AcFlow : Type :=
| AcContinue (current : AgentControlDynamicConfig)
| AcShutdown (reason : GracefulShutdownReason)
| AcPanic.

Variable self : AgentControl.

(** A call on the client, if there is one, whose error is only logged. *)
Definition ac_if_client (e : AcEffect) : M AcWorld unit :=
  if has_client self then let* _ := client_call e in ret tt else ret tt.

Definition report_health (h : HealthWithStartTime) : M AcWorld unit :=
  let* _ := ac_if_client (AcSetHealth h) in
  ac_perform (AcBroadcast (AcHealthUpdated h)).

(** The end of the loop on a stop: every running sub-agent is stopped. *)
Definition shutdown (reason : GracefulShutdownReason) : M AcWorld AcFlow :=
  let* _ := ac_perform (AcBroadcast AgentControlStopped) in
  let* _ := stop_all in
  ret (AcShutdown reason).

(** One iteration of the loop. *)
Definition process_event (ev : AcEvent) (current : AgentControlDynamicConfig) : M AcWorld AcFlow :=
  match ev with
  | AcFromOpAMP None | AcFromInternal None | AcUptimeTick => ret (AcContinue current)
  | AcFromOpAMP (Some (RemoteConfigReceived c)) =>
      if has_client self then
        let* r := ac_handle_remote_config c current in
        ret (AcContinue match r with Ok new_dynamic_config => new_dynamic_config | Err _ => current end)
      else ret AcPanic
  | AcFromOpAMP (Some Connected) =>
      let* _ := ac_perform (AcBroadcast OpAMPConnected) in ret (AcContinue current)
  | AcFromOpAMP (Some (ConnectFailed code reason)) =>
      let* _ := ac_perform (AcBroadcast (OpAMPConnectFailed code reason)) in
      ret (AcContinue current)
  | AcFromInternal (Some (InternalHealthUpdated h)) =>
      let* _ := report_health h in ret (AcContinue current)
  | AcFromInternal (Some (AgentControlAttributesUpdated a)) =>
      let* _ := ac_if_client (AcUpdateAttributes a) in
      let* _ := ac_perform (AcBroadcast (AcDescriptionUpdated a)) in
      ret (AcContinue current)
  | AcFromInternal (Some SelfUpdateRestartRequested) => shutdown SelfUpdate
  | AcFromApplication => shutdown ExternalRequested
  | AcSelfUpdateTick =>
      let* _ := ac_call (ac_retry env) VersionRetry in ret (AcContinue current)
  end.

(** The loop over the received events; the result is [AcContinue] while it is waiting. *)
Fixpoint process_events (evs : list AcEvent) (current : AgentControlDynamicConfig) :
  M AcWorld AcFlow :=
  match evs with
  | [] => ret (AcContinue current)
  | ev :: evs =>
      let* f := process_event ev current in
      match f with
      | AcContinue current => process_events evs current
      | f => ret f
      end
  end.

(** The state of the stored configuration after the start ([run]). *)
Definition reconcile_state (build_and_start_result : result unit AgentControlError) :
  M AcWorld (result unit AgentControlError) :=
  let st :=
    match build_and_start_result with
    | Err err => Failed ("Failed to build and start agents: " +:+ show_ac_error err)
    | Ok _ => Applied
    end in
  if has_client self then
    let* stored := ac_on_repo store_get_remote_config in
    let*? _ :=
      match stored with
      | Ok (Some rc) =>
          if bool_decide (state rc = st) then ret (Ok tt)
          else
            let*? _ := report st (hash rc) in
            store_call (store_update_state st)
      | _ => ret (Ok tt)
      end in
    client_call AcUpdateEffectiveConfig
  else ret (Ok tt).

(** [run]: [None] while the loop is waiting. *)
Definition run (evs : list AcEvent) :
  M AcWorld (option (result GracefulShutdownReason AgentControlError)) :=
  let d := dynamic (initial_config self) in
  let* built := build_and_run_sub_agents (agents d) in
  let* reconciled := reconcile_state built in
  match reconciled with
  | Err e => ret (Some (Err e))
  | Ok _ =>
      let* _ := ac_call (fun l => ac_update env l d) (VersionUpdate d) in
      let* f := process_events evs d in
      match f with
      | AcShutdown reason =>
          if has_client self then
            let* r := client_call AcStopClient in
            ret (Some (map_ok (fun _ => reason) r))
          else ret (Some (Ok reason))
      | _ => ret None
      end
  end.

(** ** Specifications *)

(** The sub-agent threads that were started and not stopped, with the agent of each. *)
Fixpoint live (l : list AcEffect) : gmap nat AgentID :=
  match l with
  | [] => ∅
  | AgentRunning n i :: l => <[n := id i]> (live l)
  | AgentStopped n :: l => delete n (live l)
  | _ :: l => live l
  end.

(** Every thread that is alive has its handle in the collection, under its own agent, and
    the other way round; a fresh number is not in use. *)
Definition tracks (w : AcWorld) : Prop :=
  (forall agent_id h, running_sub_agents w !! agent_id = Some h ->
     live (ac_log w) !! handle_id h = Some agent_id) /\
  (forall n agent_id, live (ac_log w) !! n = Some agent_id ->
     exists h, running_sub_agents w !! agent_id = Some h /\ handle_id h = n) /\
  (forall n, length (ac_log w) <= n -> live (ac_log w) !! n = None).

(** The identity an agent runs with. *)
Definition runs (w : AcWorld) (agent_id : AgentID) : option AgentIdentity :=
  handle_identity <$> running_sub_agents w !! agent_id.

(** The collection runs exactly the agents of a configuration, with their types. *)
Definition matches (agents : gmap AgentID SubAgentConfig) (w : AcWorld) : Prop :=
  forall agent_id, runs w agent_id = identity_of agent_id <$> agents !! agent_id.

(** The status reports in a log, newest first. *)
Definition ac_statuses (l : list AcEffect) : list RemoteConfigStatus :=
  omap (fun e => match e with AcSetStatus s => Some s | _ => None end) l.

(** ** Facts: the collection *)

Definition upd (f : AgentID -> option AgentIdentity) (a : AgentID) (o : option AgentIdentity) :
  AgentID -> option AgentIdentity := fun b => if decide (b = a) then o else f b.

(** No thread is lost and the agents run as [f] says. *)
Definition state_is (f : AgentID -> option AgentIdentity) (w : AcWorld) : Prop :=
  tracks w /\ forall a, runs w a = f a.

(** Builders and cleaners that never fail. *)
Definition agents_ok : Prop :=
  (forall l i, ac_build env l i = Ok tt) /\ (forall l a t, ac_clean env l a t = Ok tt).

Definition thread_effect (e : AcEffect) : bool :=
  match e with AgentRunning _ _ | AgentStopped _ => true | _ => false end.

Lemma state_is_perform e f :
  thread_effect e = false -> hoare (state_is f) (ac_perform e) (fun _ => state_is f).
Proof.
  intros He w [(H1 & H2 & H3) Hf]. split; [|done].
  assert (live (e :: ac_log w) = live (ac_log w)) as Hl by by destruct e.
  split_and!; simpl ac_log; rewrite Hl; [done..|]. intros n Hn. apply H3. simpl in Hn. lia.
Qed.

Lemma state_is_on_repo {A} (m : M R A) f :
  hoare (state_is f) (ac_on_repo m) (fun _ => state_is f).
Proof. intros w Hw. unfold ac_on_repo. by destruct (m (ac_repo w)). Qed.

Lemma state_is_ask {A} (q : list AcEffect -> A) f :
  hoare (state_is f) (ac_ask q) (fun _ => state_is f).
Proof. by intros w Hw. Qed.

Lemma state_is_call q e f :
  thread_effect e = false -> hoare (state_is f) (ac_call q e) (fun _ => state_is f).
Proof.
  intros He. unfold ac_call. eapply hoare_bind; [apply state_is_ask|]. intros r.
  eapply hoare_bind; [by apply state_is_perform|]. intros ?. by apply hoare_ret.
Qed.

Lemma state_is_ext f g w : (forall a, f a = g a) -> state_is f w -> state_is g w.
Proof. intros Hfg [Ht Hf]. split; [done|]. intros a. by rewrite Hf. Qed.

Lemma state_is_stop_and_remove a f :
  hoare (state_is f) (stop_and_remove a)
    (fun r w => state_is (upd f a None) w /\ (is_ok r = true <-> is_Some (f a))).
Proof.
  intros w [(H1 & H2 & H3) Hf]. unfold stop_and_remove, stop_sub_agent, ac_perform; simpl.
  pose proof (Hf a) as Hfa. unfold runs in Hfa.
  destruct (running_sub_agents w !! a) as [h|] eqn:Ha; simpl in *; rewrite <-Hfa.
  2:{ split; [|by split; [|intros []]]. apply (state_is_ext f); [|by split].
      intros b. unfold upd. by destruct (decide (b = a)) as [->|]. }
  split; [|by split; [eauto|]]. pose proof (H1 a h Ha) as Hlive. split.
  - split_and!; simpl.
    + intros b h' [Hb Hh']%lookup_delete_Some. pose proof (H1 b h' Hh') as Hlive'.
      rewrite lookup_delete_ne; [done|]. congruence.
    + intros n b [Hn Hb]%lookup_delete_Some. destruct (H2 n b Hb) as (h' & Hh' & <-).
      exists h'. split; [|done]. rewrite lookup_delete_ne; [done|]. intros ->. congruence.
    + intros n Hn. apply lookup_delete_None. right. apply H3. lia.
  - intros b. unfold runs, upd; simpl. destruct (decide (b = a)) as [->|].
    + by rewrite lookup_delete_eq.
    + by rewrite lookup_delete_ne, <-Hf by done.
Qed.

Lemma state_is_build_and_run i f :
  f (id i) = None ->
  hoare (state_is f) (build_and_run_sub_agent i)
    (fun r w => state_is (if is_ok r then upd f (id i) (Some i) else f) w /\
       (agents_ok -> r = Ok tt)).
Proof.
  intros Hi w [(H1 & H2 & H3) Hf].
  unfold build_and_run_sub_agent, bind_try, map_err_m, ac_ask, bind, run_sub_agent,
    insert_sub_agent, ac_perform, ret.
  destruct (ac_build env (ac_log w) i) as [[]|e] eqn:Hbuild; simpl.
  2:{ split; [by split|]. intros [Hok _]. by rewrite Hok in Hbuild. }
  split; [|done].
  assert (running_sub_agents w !! id i = None) as Hnone.
  { pose proof (Hf (id i)) as Hfi. rewrite Hi in Hfi. by apply fmap_None in Hfi. }
  set (n := length (ac_log w)).
  assert (live (ac_log w) !! n = None) as Hfresh by by apply H3.
  split.
  - split_and!; simpl.
    + intros b h [[<- <-]|[Hb Hh]]%lookup_insert_Some; [by rewrite lookup_insert_eq|].
      rewrite lookup_insert_ne; [by apply H1|]. intros Heq.
      pose proof (H1 b h Hh). congruence.
    + intros m b [[<- <-]|[Hm Hb]]%lookup_insert_Some.
      * eexists. by rewrite lookup_insert_eq.
      * destruct (H2 m b Hb) as (h & Hh & <-). exists h. split; [|done].
        rewrite lookup_insert_ne; [done|]. congruence.
    + intros m Hm. rewrite lookup_insert_ne by lia. apply H3. lia.
  - intros b. unfold runs, upd; simpl. destruct (decide (b = id i)) as [->|].
    + by rewrite lookup_insert_eq.
    + by rewrite lookup_insert_ne, <-Hf by done.
Qed.

Lemma state_is_recreate i f :
  is_Some (f (id i)) ->
  hoare (state_is f) (recreate_sub_agent i)
    (fun r w => state_is (upd f (id i) (if is_ok r then Some i else None)) w /\
       (agents_ok -> r = Ok tt)).
Proof.
  intros Hi. unfold recreate_sub_agent.
  eapply hoare_bind_try; [apply state_is_stop_and_remove| |].
  - intros ?. eapply hoare_weaken; [apply (state_is_build_and_run i (upd f (id i) None))| |].
    + unfold upd. by destruct (decide (id i = id i)).
    + by intros w [Hw _].
    + intros [] w [Hw Hok]; (split; [|done]); [|done]. eapply state_is_ext; [|exact Hw].
      intros b. unfold upd; simpl. by destruct (decide (b = id i)).
  - intros e w [_ [_ Hok]]. by specialize (Hok Hi).
Qed.

(** The agent of an entry runs with its identity, or it does not run and its error is
    recorded. *)
Definition applied_or_failed (a : AgentID) (cfg : SubAgentConfig)
    (errs : list (AgentID * AgentControlError)) (o : option AgentIdentity) : Prop :=
  o = Some (identity_of a cfg) \/ (o = None /\ a ∈ errs.*1).

Lemma state_is_apply_agent current a cfg f :
  f a = identity_of a <$> current !! a ->
  hoare (state_is f) (apply_agent current (a, cfg))
    (fun errs w => exists o, state_is (upd f a o) w /\ applied_or_failed a cfg errs o /\
       (agents_ok -> errs = [])).
Proof.
  intros Hfa. unfold apply_agent.
  apply (hoare_bind _ _ _ (fun r w =>
    state_is (upd f a (if is_ok r then Some (identity_of a cfg) else None)) w /\
    (agents_ok -> r = Ok tt))).
  - destruct (current !! a) as [old|]; simpl in Hfa.
    + case_bool_decide as Hold.
      * subst old. apply hoare_ret. intros w Hw. split; [|done]. eapply state_is_ext; [|exact Hw].
        intros b. unfold upd; simpl. by destruct (decide (b = a)) as [->|].
      * apply (state_is_recreate (identity_of a cfg)). by eexists.
    + eapply hoare_weaken; [by apply (state_is_build_and_run (identity_of a cfg))|done|].
      intros [] w [Hw Hok]; (split; [|done]); [done|]. eapply state_is_ext; [|exact Hw].
      intros b. unfold upd; simpl. by destruct (decide (b = a)) as [->|].
  - intros r. apply hoare_ret. intros w [Hw Hok]. eexists. split; [exact Hw|].
    split; [|by intros ->%Hok]. destruct r; [by left|right]. split; [done|]. simpl. by left.
Qed.

Lemma state_is_apply_agents current l f :
  NoDup l.*1 ->
  (forall a cfg, (a, cfg) ∈ l -> f a = identity_of a <$> current !! a) ->
  hoare (state_is f) (collect_errors l (apply_agent current))
    (fun errs w => exists g, state_is g w /\ (forall a, a ∉ l.*1 -> g a = f a) /\
       (forall a cfg, (a, cfg) ∈ l -> applied_or_failed a cfg errs (g a)) /\
       (agents_ok -> errs = [])).
Proof.
  revert f. induction l as [|[a cfg] l IH]; intros f Hnd Hf; cbn [collect_errors].
  { apply hoare_ret. intros w Hw. exists f. split_and!; [done..| |done]. by intros ? ? ?%elem_of_nil. }
  apply NoDup_cons in Hnd as [Ha Hnd]; simpl in Ha.
  eapply hoare_bind; [apply state_is_apply_agent, (Hf a cfg); by left|].
  intros errs. apply hoare_exist. intros o. apply hoare_pure. intros [Ho Hok].
  eapply hoare_bind; [apply (IH (upd f a o) Hnd)|].
  { intros b cfg' Hb. unfold upd. rewrite decide_False by (intros ->; by eapply Ha,
      (list_elem_of_fmap_2 fst _ (a, cfg'))). apply (Hf b cfg'). by right. }
  intros rest. apply hoare_ret. intros w (g & Hw & Hg & Hl & Hr). exists g.
  split_and!; [done| | |by intros H; rewrite (Hok H), (Hr H)].
  - intros b [Hb Hbl]%not_elem_of_cons. rewrite Hg by done. unfold upd. by rewrite decide_False.
  - intros b cfg' [[= -> ->]|Hb]%elem_of_cons.
    + rewrite (Hg a Ha). unfold upd. rewrite decide_True by done.
      destruct Ho as [->|[-> Ho]]; [by left|right]. split; [done|].
      rewrite fmap_app. apply elem_of_app. by left.
    + destruct (Hl b cfg' Hb) as [?|[? Hin]]; [by left|right]. split; [done|].
      rewrite fmap_app. apply elem_of_app. by right.
Qed.

Lemma state_is_remove_agent a cfg f :
  hoare (state_is f) (remove_agent (a, cfg))
    (fun errs w => state_is (upd f a None) w /\ (agents_ok -> is_Some (f a) -> errs = [])).
Proof.
  unfold remove_agent. eapply hoare_bind; [apply state_is_stop_and_remove|].
  intros stopped w [Hw Hstop]. unfold map_err_m, bind at 1.
  pose proof (state_is_call (fun l => ac_clean env l a (agent_type cfg))
    (Cleaned a (agent_type cfg)) (upd f a None) eq_refl w Hw) as Hw1.
  unfold ac_call, ac_ask, bind, ac_perform, ret in *; simpl in *.
  split; [exact (state_is_perform (AcBroadcast (SubAgentRemoved a)) _ eq_refl _ Hw1)|].
  intros [_ Hc] Hfa. rewrite Hc. apply Hstop in Hfa. by destruct stopped.
Qed.

Lemma state_is_remove_agents l f (Hnd : NoDup l.*1) :
  hoare (state_is f) (collect_errors l remove_agent)
    (fun errs w => state_is (fun a => if decide (a ∈ l.*1) then None else f a) w /\
       (agents_ok -> (forall a, a ∈ l.*1 -> is_Some (f a)) -> errs = [])).
Proof.
  revert f Hnd. induction l as [|[a cfg] l IH]; intros f Hnd; cbn [collect_errors].
  { apply hoare_ret. intros w Hw. split; [|done]. eapply state_is_ext; [|exact Hw]. intros a; cbn beta.
    destruct (decide _) as [Hin|]; [by apply elem_of_nil in Hin|done]. }
  apply NoDup_cons in Hnd as [Ha Hnd]; simpl in Ha.
  eapply hoare_bind; [apply state_is_remove_agent|]. intros errs. apply hoare_pure. intros He.
  eapply hoare_bind; [by apply IH|]. intros rest. apply hoare_ret. intros w [Hw Hr]. split.
  - eapply state_is_ext; [|exact Hw]. intros b; cbn beta. unfold upd. rewrite fmap_cons.
    destruct (decide (b ∈ l.*1)), (decide (b = a)), (decide (_ ∈ _ :: _)) as [Hc|Hc];
      rewrite ?elem_of_cons in Hc; naive_solver.
  - intros Hok Hf. rewrite (He Hok), (Hr Hok); [done| |].
    + intros b Hb. unfold upd. rewrite decide_False by (by intros ->). apply Hf. by right.
    + apply Hf. by left.
Qed.

Lemma elem_of_sub_agents_difference (old new : gmap AgentID SubAgentConfig) a :
  a ∈ (sub_agents_difference old new).*1 <-> is_Some (old !! a) /\ new !! a = None.
Proof.
  unfold sub_agents_difference. rewrite list_elem_of_fmap. split.
  - intros ([b cfg] & -> & Hin). apply list_elem_of_In, filter_In in Hin as [Hin Hn].
    apply list_elem_of_In, elem_of_entries in Hin. simpl in *. split; [by eexists|].
    apply negb_true_iff, bool_decide_eq_false in Hn. by apply eq_None_not_Some.
  - intros [[cfg Hcfg] Hnone]. exists (a, cfg). split; [done|].
    apply list_elem_of_In, filter_In. split; [by apply list_elem_of_In, elem_of_entries|].
    simpl. by rewrite Hnone.
Qed.

Lemma NoDup_sub_agents_difference (old new : gmap AgentID SubAgentConfig) :
  NoDup (sub_agents_difference old new).*1.
Proof.
  unfold sub_agents_difference. pose proof (NoDup_fst_entries old) as Hnd.
  induction (entries old) as [|kv l IH]; simpl in *; [done|].
  apply NoDup_cons in Hnd as [Hk Hnd]. destruct (negb _); simpl; [|by apply IH].
  apply NoDup_cons. split; [|by apply IH]. intros Hin. apply Hk.
  apply list_elem_of_fmap in Hin as (x & -> & Hx). apply list_elem_of_fmap. exists x. split; [done|].
  by apply list_elem_of_In, filter_In in Hx as [Hx%list_elem_of_In _].
Qed.

(** What applying a configuration leaves running, from a collection that matches the current
    one. *)
Definition applied_agents (new : gmap AgentID SubAgentConfig)
    (errs : list (AgentID * AgentControlError)) (w : AcWorld) : Prop :=
  forall a, match new !! a with
            | Some cfg => applied_or_failed a cfg errs (runs w a)
            | None => runs w a = None
            end.

Lemma applied_agents_nil new w : applied_agents new [] w -> matches new w.
Proof.
  intros Ha a. specialize (Ha a). destruct (new !! a); [|done].
  by destruct Ha as [?|[_ ?%elem_of_nil]].
Qed.

Lemma apply_agents_spec current new :
  hoare (fun w => tracks w /\ matches current w) (apply_remote_config_agents current new)
    (fun r w => tracks w /\ (exists errs, r = errors_result errs /\ applied_agents new errs w) /\
       (agents_ok -> r = Ok tt)).
Proof.
  set (f := fun a => identity_of a <$> current !! a). unfold apply_remote_config_agents.
  change (fun w => tracks w /\ matches current w) with (state_is f).
  eapply hoare_bind; [apply (state_is_apply_agents current (entries new) f);
    [apply NoDup_fst_entries|done]|].
  intros errs1. apply hoare_exist. intros g. apply hoare_pure. intros (Hg & Hl & Hok1).
  eapply hoare_bind; [apply state_is_remove_agents, NoDup_sub_agents_difference|].
  intros errs2. apply hoare_ret. intros w [[Ht Hr] Hok2].
  assert (forall a, a ∈ (sub_agents_difference current new).*1 -> g a = f a) as Hgf.
  { intros a [_ Hn]%elem_of_sub_agents_difference. apply Hg.
    rewrite elem_of_entries_fst, Hn. by intros []. }
  split_and!; [done| |].
  - eexists. split; [done|]. intros a. rewrite Hr.
    destruct (new !! a) as [cfg|] eqn:Hnew.
    + rewrite decide_False by (rewrite elem_of_sub_agents_difference; naive_solver).
      destruct (Hl a cfg) as [?|[? Hin]]; [by apply elem_of_entries|by left|right].
      split; [done|]. rewrite fmap_app. apply elem_of_app. by left.
    + destruct (decide _) as [Hd|Hd]; [done|]. rewrite elem_of_sub_agents_difference in Hd.
      rewrite Hg by (rewrite elem_of_entries_fst, Hnew; by intros []). unfold f.
      destruct (current !! a) eqn:Hcur; [|done]. destruct Hd. split; [by eexists|done].
  - intros Hok. rewrite (Hok1 Hok), (Hok2 Hok); [done|]. intros a Ha. rewrite (Hgf a Ha).
    apply elem_of_sub_agents_difference in Ha as [[cfg Hcfg] _]. unfold f. rewrite Hcfg. by eexists.
Qed.

(** An operation on one agent leaves the handles of the others. *)
Definition handle_is (a : AgentID) (o : option Handle) (w : AcWorld) : Prop :=
  running_sub_agents w !! a = o.

Lemma handle_is_stop_and_remove a b o :
  b <> a -> hoare (handle_is a o) (stop_and_remove b) (fun _ => handle_is a o).
Proof.
  intros Hne w Hw. unfold stop_and_remove, stop_sub_agent, ac_perform, handle_is in *; simpl.
  destruct (running_sub_agents w !! b); [|done]; simpl. by rewrite lookup_delete_ne.
Qed.

Lemma handle_is_build_and_run a i o :
  id i <> a -> hoare (handle_is a o) (build_and_run_sub_agent i) (fun _ => handle_is a o).
Proof.
  intros Hne w Hw. unfold build_and_run_sub_agent, bind_try, map_err_m, ac_ask, bind,
    run_sub_agent, insert_sub_agent, ac_perform, ret, handle_is in *.
  destruct (ac_build env (ac_log w) i); simpl; [|done]. by rewrite lookup_insert_ne.
Qed.

Lemma hoare_collect {A} (P : AcWorld -> Prop) (l : list A) body :
  (forall x, x ∈ l -> hoare P (body x) (fun _ => P)) ->
  hoare P (collect_errors l body) (fun _ => P).
Proof.
  induction l as [|x l IH]; intros Hb; cbn [collect_errors]; [by apply hoare_ret|].
  eapply hoare_bind; [apply Hb; by left|]. intros ?.
  eapply hoare_bind; [apply IH; intros; apply Hb; by right|]. intros ?. by apply hoare_ret.
Qed.

Lemma handle_is_apply_agents current new a cfg o :
  current !! a = Some cfg -> new !! a = Some cfg ->
  hoare (handle_is a o) (apply_remote_config_agents current new) (fun _ => handle_is a o).
Proof.
  intros Hc Hn. unfold apply_remote_config_agents. eapply hoare_bind; [apply hoare_collect|].
  - intros [b cfg'] Hin%elem_of_entries. unfold apply_agent.
    eapply (hoare_bind _ _ _ (fun _ => handle_is a o)); [|intros ?; by apply hoare_ret].
    destruct (decide (b = a)) as [->|Hne].
    { assert (cfg' = cfg) as -> by congruence. rewrite Hc, bool_decide_true by done.
      by apply hoare_ret. }
    destruct (current !! b); [|by apply handle_is_build_and_run].
    case_bool_decide; [by apply hoare_ret|]. unfold recreate_sub_agent.
    eapply hoare_bind_try; [by apply handle_is_stop_and_remove| |done].
    intros ?. by apply handle_is_build_and_run.
  - intros errs. eapply hoare_bind; [apply hoare_collect|intros ?; by apply hoare_ret].
    intros [b cfg'] Hin. assert (b <> a) as Hne.
    { intros ->. apply (list_elem_of_fmap_2 fst) in Hin.
      apply elem_of_sub_agents_difference in Hin as [_ ?]. simpl in *. congruence. }
    unfold remove_agent. eapply hoare_bind; [by apply handle_is_stop_and_remove|]. intros ?.
    by intros w Hw.
Qed.

(** ** Facts: reports and the stored configuration *)

Definition seen (w : AcWorld) : R * list RemoteConfigStatus := (ac_repo w, ac_statuses (ac_log w)).

Definition seen_is v (w : AcWorld) : Prop := seen w = v.

Lemma seen_is_stop_and_remove v a :
  hoare (seen_is v) (stop_and_remove a) (fun _ => seen_is v).
Proof.
  intros w Hw. unfold stop_and_remove, stop_sub_agent, ac_perform; simpl.
  by destruct (running_sub_agents w !! a).
Qed.

Lemma seen_is_build_and_run v i :
  hoare (seen_is v) (build_and_run_sub_agent i) (fun _ => seen_is v).
Proof.
  intros w Hw. unfold build_and_run_sub_agent, bind_try, map_err_m, ac_ask, bind,
    run_sub_agent, insert_sub_agent, ac_perform, ret.
  by destruct (ac_build env (ac_log w) i).
Qed.

Lemma seen_is_apply_agents v current new :
  hoare (seen_is v) (apply_remote_config_agents current new)
    (fun r w => seen_is v w /\ exists errs, r = errors_result errs).
Proof.
  unfold apply_remote_config_agents.
  eapply (hoare_bind _ _ _ (fun _ => seen_is v)); [apply hoare_collect|].
  - intros [b cfg] _. unfold apply_agent.
    eapply (hoare_bind _ _ _ (fun _ => seen_is v)); [|intros ?; by apply hoare_ret].
    destruct (current !! b); [|apply seen_is_build_and_run].
    case_bool_decide; [by apply hoare_ret|]. unfold recreate_sub_agent.
    eapply hoare_bind_try; [apply seen_is_stop_and_remove| |done].
    intros ?. apply seen_is_build_and_run.
  - intros errs. eapply (hoare_bind _ _ _ (fun _ => seen_is v)); [apply hoare_collect|].
    + intros [b cfg] _. unfold remove_agent.
      eapply hoare_bind; [apply seen_is_stop_and_remove|]. intros ?. by intros w Hw.
    + intros ?. apply hoare_ret. intros w Hw. split; [done|]. by eexists.
Qed.

Context `{CL : !ConfigRepositoryLaws R}.

(** The configuration kept for a remote one that was read as [d]. *)
Definition stored_as (c : OpampRemoteConfig) (d : AgentControlDynamicConfig) (st : ConfigState)
    (r : R) : Prop :=
  exists yaml, dynamic_to_yaml d = Ok yaml /\
    remote_of r AgentId.AgentControl = Some {| config := yaml; hash := RemoteConfig.hash c; state := st |}.

(** How [validate_apply_store_remote_config] ends for a configuration with content: rejected
    with nothing changed, or stored and applied, maybe in part. *)
Lemma validate_apply_store_spec c current w0 :
  is_agent_configs_empty c = false -> reliable (ac_repo w0) ->
  hoare (fun w => seen w = seen w0 /\ running_sub_agents w = running_sub_agents w0)
    (validate_apply_store_remote_config c current)
    (fun r w => ac_statuses (ac_log w) = ac_statuses (ac_log w0) /\ reliable (ac_repo w) /\
       match r with
       | Ok d => dynamic_try_from c = Ok d /\
           stored_as c d (RemoteConfig.state c) (ac_repo w)
       | Err (BuildingSubagents _) => exists d, dynamic_try_from c = Ok d /\
           stored_as c d (RemoteConfig.state c) (ac_repo w)
       | Err _ => ac_repo w = ac_repo w0 /\ running_sub_agents w = running_sub_agents w0
       end).
Proof.
  intros Hne Hrel w [[= Hrepo Hst] Hrun]. rewrite <-Hrepo in Hrel |- *. unfold validate_apply_store_remote_config.
  destruct (error_message (RemoteConfig.state c)); [done|].
  unfold new_dynamic_config, store_new_config. rewrite Hne.
  unfold bind_try, map_err_m, ac_ask, ret.
  destruct (ac_validate_remote env (ac_log w) c); simpl; [|done].
  destruct (dynamic_try_from c) as [d|] eqn:Hd; simpl; [|done].
  destruct (ac_validate_dynamic env (ac_log w) d); simpl; [|done].
  unfold ac_call, bind, ac_ask, ac_perform, ret; simpl.
  destruct (ac_update env (ac_log w) d); simpl; [|done].
  destruct (dynamic_to_yaml d) as [yaml|] eqn:Hy; simpl; [|done].
  unfold store_call, store_store, map_err_m, ac_on_repo; simpl.
  match goal with |- context [store_remote ?i ?o ?rc ?r] =>
    destruct (store_remote i o rc r) as [res r1] eqn:Hs end; simpl.
  apply store_remote_spec in Hs as (_ & _ & _ & Hs & Hr1).
  destruct (Hr1 I Hrel) as [Hr1' ->]; simpl. specialize (Hs eq_refl).
  match goal with |- context [apply_remote_config_agents ?x ?y ?w1] =>
    pose proof (seen_is_apply_agents (seen w1) x y w1 eq_refl) as Ha;
    destruct (apply_remote_config_agents x y w1) as [res2 w2]; simpl in Ha
  end.
  destruct Ha as [[= Hr2 Hst2] [errs ->]]. simpl in Hr2, Hst2.
  destruct errs; simpl; rewrite Hr2, Hst2; (split_and!; [done..|]).
  - by exists yaml.
  - exists d. split; [done|]. by exists yaml.
Qed.

(** The client accepts every call. *)
Definition client_ok : Prop := forall l e, ac_client env l e = Ok tt.

Lemma report_ok st h w :
  client_ok ->
  report st h w = (Ok tt, {| ac_repo := ac_repo w; running_sub_agents := running_sub_agents w;
                             ac_log := AcSetStatus (report_status st h) :: ac_log w |}).
Proof. intros Hc. unfold report, client_call, map_err_m, ac_call, bind, ac_ask. by rewrite Hc. Qed.

Lemma client_call_ok e w :
  client_ok ->
  client_call e w = (Ok tt, {| ac_repo := ac_repo w; running_sub_agents := running_sub_agents w;
                               ac_log := e :: ac_log w |}).
Proof. intros Hc. unfold client_call, map_err_m, ac_call, bind, ac_ask. by rewrite Hc. Qed.

Lemma store_update_state_stored c d st0 st w :
  reliable (ac_repo w) -> stored_as c d st0 (ac_repo w) ->
  exists r', store_call (store_update_state st) w =
    (Ok tt, {| ac_repo := r'; running_sub_agents := running_sub_agents w; ac_log := ac_log w |}) /\
    reliable r' /\ stored_as c d st r'.
Proof.
  intros Hrel (yaml & Hy & Hrc). unfold store_call, map_err_m, ac_on_repo, store_update_state.
  unfold map_err_m. destruct (update_state _ _ st (ac_repo w)) as [res r'] eqn:Hu; simpl.
  apply update_state_spec in Hu as (_ & _ & _ & Hs & _ & Hr).
  destruct (Hr I Hrel) as [Hrel' [->|[Hn _]]]; [|congruence].
  exists r'. split_and!; [done..|]. exists yaml. split; [done|].
  destruct (Hs eq_refl) as (rc & Hrc' & ->). rewrite Hrc in Hrc'. by injection Hrc' as <-.
Qed.


(** After [store_delete] nothing is kept, and loading the local configuration keeps it so. *)
Lemma new_dynamic_config_reset c l :
  is_agent_configs_empty c = true ->
  hoare (fun w => ac_log w = l) (new_dynamic_config c)
    (fun r w => ac_log w = l /\
       match r with
       | Ok _ => remote_of (ac_repo w) AgentId.AgentControl = None
       | Err e => exists s, e = ConfigResolve s
       end).
Proof.
  intros He w Hw. unfold new_dynamic_config. rewrite He.
  unfold bind_try, store_call, map_err_m, ac_on_repo, store_delete, map_err_m; simpl.
  destruct (delete_remote AgentId.AgentControl (ac_repo w)) as [[[]|] r1] eqn:Hd; simpl; [|by eauto].
  apply delete_remote_spec in Hd as (_ & _ & _ & Hd & _). specialize (Hd eq_refl).
  unfold store_load, _load_config, bind_try, map_err_m, ret; simpl.
  destruct (load_local AgentId.AgentControl r1) as [[o|] r2] eqn:Hl; simpl; [|by eauto].
  apply load_local_spec in Hl as (Hr2 & _). destruct (local_config build_config o); simpl; [|by eauto].
  destruct (load_remote _ _ r2) as [[o'|] r3] eqn:Hl; simpl; [|by eauto].
  apply load_remote_spec in Hl as (Hr3 & _).
  destruct o' as [rc|]; simpl; [destruct (dynamic_from_yaml _); simpl|];
    (split; [done|]); first [congruence|by eexists].
Qed.

Lemma validate_apply_store_reset c current s :
  is_agent_configs_empty c = true ->
  hoare (fun w => ac_statuses (ac_log w) = s) (validate_apply_store_remote_config c current)
    (fun r w => ac_statuses (ac_log w) = s /\
       match r with
       | Ok _ | Err (BuildingSubagents _) => remote_of (ac_repo w) AgentId.AgentControl = None
       | Err _ => True
       end).
Proof.
  intros He w Hw. unfold validate_apply_store_remote_config.
  destruct (error_message (RemoteConfig.state c)); [done|].
  unfold store_new_config. rewrite He. unfold bind_try, map_err_m, ac_ask, ret.
  destruct (ac_validate_remote env (ac_log w) c); simpl; [|done].
  pose proof (new_dynamic_config_reset c (ac_log w) He w eq_refl) as Hn.
  unfold store_call, new_dynamic_config in *. rewrite He in *.
  destruct ((let*? _ := _ in _) w) as [[d|e] w1] eqn:Hd; simpl in *.
  2:{ by destruct Hn as [-> [? ->]]. }
  destruct Hn as [Hlog Hn].
  destruct (ac_validate_dynamic env (ac_log w1) d); simpl; [|by rewrite Hlog].
  unfold ac_call, bind, ac_ask, ac_perform, ret; simpl.
  destruct (ac_update env (ac_log w1) d); simpl; [|by rewrite Hlog].
  match goal with |- context [apply_remote_config_agents ?x ?y ?w1] =>
    pose proof (seen_is_apply_agents (seen w1) x y w1 eq_refl) as Ha;
    destruct (apply_remote_config_agents x y w1) as [res2 w2]; simpl in Ha
  end.
  destruct Ha as [[= Hr2 Hst2] [errs ->]]. simpl in Hr2, Hst2.
  destruct errs; simpl; by rewrite Hr2, Hst2, Hlog.
Qed.

Lemma update_state_nothing st w :
  remote_of (ac_repo w) AgentId.AgentControl = None ->
  exists e w', store_call (store_update_state st) w = (Err e, w') /\ ac_log w' = ac_log w.
Proof.
  intros Hn. unfold store_call, map_err_m, ac_on_repo, store_update_state, map_err_m.
  destruct (update_state _ _ st (ac_repo w)) as [[[]|] r'] eqn:Hu; simpl; [|by eauto].
  apply update_state_spec in Hu as (_ & _ & _ & Hs & _).
  destruct (Hs eq_refl) as (rc & ? & _). congruence.
Qed.

Lemma report_log st h w :
  exists r, report st h w = (r, {| ac_repo := ac_repo w; running_sub_agents := running_sub_agents w;
                                   ac_log := AcSetStatus (report_status st h) :: ac_log w |}).
Proof. by eexists. Qed.

(** C17: an empty remote configuration (a return to the local one) is never acknowledged.
    After the kept configuration is deleted there is none whose state could be updated, so
    the handler always ends with an error and never reports [Applied], also when every
    sub-agent of the local configuration is running. *)
Theorem reset_to_local_never_applied c current w :
  is_agent_configs_empty c = true ->
  let '(r, w') := ac_handle_remote_config c current w in
  is_ok r = false /\
  exists new, ac_statuses (ac_log w') = new ++ ac_statuses (ac_log w) /\
    report_status Applied (RemoteConfig.hash c) ∉ new.
Proof using CL.
  intros He. set (h := RemoteConfig.hash c).
  unfold ac_handle_remote_config, bind_try, bind. fold h.
  destruct (report_log Applying h w) as [[[]|e0] ->].
  2:{ split; [done|]. exists [report_status Applying h]. split; [done|]. set_solver. }
  match goal with |- context [validate_apply_store_remote_config c current ?w1] =>
    pose proof (validate_apply_store_reset c current _ He w1 eq_refl) as Hv;
    destruct (validate_apply_store_remote_config c current w1) as [res w2]; simpl in Hv
  end.
  destruct Hv as (Hst & Hres).
  destruct res as [d|e]; [|destruct e]; cbn [finish_remote_config]; unfold bind_try;
    try (match goal with |- context [report ?st h w2] => destruct (report_log st h w2) as [[[]|?] ->] end;
         simpl; (split; [done|]); rewrite Hst; eexists [_; _]; (split; [done|]); set_solver);
    match goal with |- context [store_update_state ?st] =>
      destruct (update_state_nothing st w2 Hres) as (e' & w3 & -> & ->) end;
    (split; [done|]); rewrite Hst; exists [report_status Applying h]; (split; [done|]); set_solver.
Qed.

(** ** Facts: the main loop *)

Lemma state_is_store_call {A} (m : M R (result A AgentControlConfigError)) f :
  hoare (state_is f) (store_call m) (fun _ => state_is f).
Proof. apply hoare_map_err, state_is_on_repo. Qed.

Lemma state_is_client_call e f :
  thread_effect e = false -> hoare (state_is f) (client_call e) (fun _ => state_is f).
Proof. intros He. by apply hoare_map_err, state_is_call. Qed.

Definition agents_state (d : AgentControlDynamicConfig) : AcWorld -> Prop :=
  state_is (fun a => identity_of a <$> agents d !! a).

(** A step that changes no sub-agent and does not fail with [BuildingSubagents]. *)
Definition plain {A} (d : AgentControlDynamicConfig) (r : result A AgentControlError)
    (w : AcWorld) : Prop :=
  agents_state d w /\ match r with Err (BuildingSubagents _) => False | _ => True end.

(** What a handled configuration leaves running. *)
Definition handled (current : AgentControlDynamicConfig)
    (r : result AgentControlDynamicConfig AgentControlError) (w : AcWorld) : Prop :=
  match r with
  | Ok d => agents_state d w
  | Err (BuildingSubagents _) => tracks w /\ ~ agents_ok
  | Err _ => agents_state current w
  end.

Lemma handled_step {A} (m : M AcWorld (result A AgentControlError)) k d :
  hoare (agents_state d) m (plain d) ->
  (forall a, hoare (agents_state d) (k a) (handled d)) ->
  hoare (agents_state d) (bind_try m k) (handled d).
Proof.
  intros Hm Hk. eapply hoare_bind_try; [exact Hm| |].
  - intros a. eapply hoare_weaken; [apply Hk|by intros w [Hw _]|done].
  - intros e w [Hw He]. by destruct e.
Qed.

Lemma plain_map_err {A E} (m : M AcWorld (result A E)) g d :
  (forall s, match g s with BuildingSubagents _ => False | _ => True end) ->
  hoare (agents_state d) m (fun _ => agents_state d) ->
  hoare (agents_state d) (map_err_m g m) (plain d).
Proof.
  intros Hg Hm w Hw. specialize (Hm w Hw). unfold map_err_m. destruct (m w) as [[a|e] w'].
  - done.
  - split; [done|]. apply Hg.
Qed.

Lemma plain_bind_try {A B} (m : M AcWorld (result A AgentControlError))
    (k : A -> M AcWorld (result B AgentControlError)) d :
  hoare (agents_state d) m (plain d) -> (forall a, hoare (agents_state d) (k a) (plain d)) ->
  hoare (agents_state d) (bind_try m k) (plain d).
Proof.
  intros Hm Hk. eapply hoare_bind_try; [exact Hm| |].
  - intros a. eapply hoare_weaken; [apply Hk|by intros w [Hw _]|done].
  - intros e w [Hw He]. by destruct e.
Qed.

Lemma plain_store_call {A} (m : M R (result A AgentControlConfigError)) d :
  hoare (agents_state d) (store_call m) (plain d).
Proof. by apply plain_map_err, state_is_on_repo. Qed.

Lemma plain_ret {A E} (r : result A E) g d :
  (forall s, match g s with BuildingSubagents _ => False | _ => True end) ->
  hoare (agents_state d) (ret (map_err g r)) (plain d).
Proof. intros Hg. apply hoare_ret. intros w Hw. split; [done|]. destruct r; [done|apply Hg]. Qed.

Lemma validate_apply_store_agents c current :
  hoare (agents_state current) (validate_apply_store_remote_config c current) (handled current).
Proof.
  unfold validate_apply_store_remote_config.
  destruct (error_message _); [by apply hoare_ret|].
  apply handled_step; [by apply plain_map_err, state_is_ask|intros ?].
  apply handled_step; [|intros d].
  { unfold new_dynamic_config. destruct (is_agent_configs_empty c); [|by apply plain_ret].
    apply plain_bind_try; [|intros ?]; apply plain_store_call. }
  apply handled_step; [by apply plain_map_err, state_is_ask|intros ?].
  apply handled_step; [by apply plain_map_err, state_is_call|intros ?].
  apply handled_step; [|intros ?].
  { unfold store_new_config. destruct (is_agent_configs_empty c); [by apply hoare_ret|].
    apply plain_bind_try; [by apply plain_ret|intros ?]. apply plain_store_call. }
  eapply hoare_bind_try; [apply apply_agents_spec| |].
  - intros []. apply hoare_ret. intros w (Ht & (errs & He & Ha) & _). split; [done|].
    destruct errs; [|done]. by apply applied_agents_nil.
  - intros e w (Ht & (errs & He & Ha) & Hok). destruct errs; [done|].
    injection He as ->. split; [done|]. by intros ?%Hok.
Qed.

Lemma state_is_same f w r log :
  live log = live (ac_log w) -> length (ac_log w) <= length log -> state_is f w ->
  state_is f {| ac_repo := r; running_sub_agents := running_sub_agents w; ac_log := log |}.
Proof.
  intros Hl Hlen [(H1 & H2 & H3) Hf]. split; [|done].
  split_and!; simpl; rewrite Hl; [done..|]. intros n Hn. apply H3. lia.
Qed.

(** The repository works and the collection runs the agents of the configuration. *)
Definition loop_inv (d : AgentControlDynamicConfig) (w : AcWorld) : Prop :=
  reliable (ac_repo w) /\ agents_state d w.

Lemma loop_inv_handle c d :
  is_agent_configs_empty c = false -> client_ok -> agents_ok ->
  hoare (loop_inv d) (ac_handle_remote_config c d)
    (fun r w => loop_inv (match r with Ok d' => d' | Err _ => d end) w).
Proof.
  intros Hne Hc Hok w [Hrel Hd]. unfold ac_handle_remote_config, bind_try, bind.
  rewrite report_ok by done.
  match goal with |- context [validate_apply_store_remote_config c d ?w1] =>
    pose proof (validate_apply_store_spec c d w1 Hne Hrel w1 (conj eq_refl eq_refl)) as Hv;
    assert (agents_state d w1) as Hd1 by (apply state_is_same; [done|simpl; lia|done]);
    pose proof (validate_apply_store_agents c d w1 Hd1) as Ha;
    destruct (validate_apply_store_remote_config c d w1) as [res w2]; simpl in Hv, Ha
  end.
  destruct Hv as (Hst & Hrel2 & Hres).
  destruct res as [d'|e]; [|destruct e]; cbn [finish_remote_config]; unfold bind_try;
    try (rewrite report_ok by done; simpl; split; [done|]; apply state_is_same; [done|simpl; lia|done]).
  - destruct Hres as [_ Hs].
    destruct (store_update_state_stored c d' _ Applied w2 Hrel2 Hs) as (r' & -> & Hr' & _).
    rewrite report_ok, client_call_ok by done. split; [done|]. simpl.
    apply state_is_same; [done|simpl; lia|done].
  - by destruct Ha as [_ []].
Qed.

(** An event that carries no empty configuration. *)
Definition has_content (ev : AcEvent) : bool :=
  match ev with
  | AcFromOpAMP (Some (RemoteConfigReceived c)) => negb (is_agent_configs_empty c)
  | _ => true
  end.

Lemma stop_each l (w : AcWorld) :
  let w' := (for_each l (fun kv => stop_sub_agent kv.2) w).2 in
  running_sub_agents w' = running_sub_agents w /\
  forall n a, live (ac_log w') !! n = Some a ->
    live (ac_log w) !! n = Some a /\ forall kv : AgentID * Handle, kv ∈ l -> handle_id kv.2 <> n.
Proof.
  revert w. induction l as [|kv l IH]; intros w; simpl.
  - split; [done|]. intros n a Hn. split; [done|]. by intros ? ?%elem_of_nil.
  - specialize (IH (stop_sub_agent kv.2 w).2) as [Hr Hl]. split; [done|].
    intros n a [Hn Hrest]%Hl. simpl in Hn. apply lookup_delete_Some in Hn as [Hne Hn]. split; [done|].
    by intros kv' [->|Hin]%elem_of_cons; [|apply Hrest].
Qed.

Lemma stop_all_spec :
  hoare tracks stop_all (fun _ w => live (ac_log w) = ∅ /\ running_sub_agents w = ∅).
Proof.
  intros w (H1 & H2 & _). unfold stop_all.
  match goal with |- context [for_each ?l _ ?w1] => destruct (stop_each l w1) as [Hr Hl] end.
  split; [|done]. apply map_eq. intros n. rewrite lookup_empty.
  destruct (live _ !! n) as [a|] eqn:Hn in |- *; [|done].
  apply Hl in Hn as [Hn Hnot]. destruct (H2 n a Hn) as (h & Hh & <-).
  destruct (Hnot (a, h)); [by apply elem_of_entries|done].
Qed.

(** How an iteration, or the loop, leaves the collection. *)
Definition loop_post (f : AcFlow) (w : AcWorld) : Prop :=
  match f with
  | AcContinue d => loop_inv d w
  | AcShutdown _ => reliable (ac_repo w) /\ live (ac_log w) = ∅ /\ running_sub_agents w = ∅
  | AcPanic => False
  end.

Lemma loop_inv_call q e d :
  thread_effect e = false -> hoare (loop_inv d) (ac_call q e) (fun _ => loop_inv d).
Proof. intros He w [Hr Hd]. split; [done|]. by apply state_is_call. Qed.

Lemma loop_inv_perform e d :
  thread_effect e = false -> hoare (loop_inv d) (ac_perform e) (fun _ => loop_inv d).
Proof. intros He w [Hr Hd]. split; [done|]. by apply state_is_perform. Qed.

Lemma loop_inv_if_client e d :
  thread_effect e = false -> hoare (loop_inv d) (ac_if_client e) (fun _ => loop_inv d).
Proof.
  intros He. unfold ac_if_client. destruct (has_client self); [|by apply hoare_ret].
  eapply (hoare_bind _ _ _ (fun _ => loop_inv d)); [by apply hoare_map_err, loop_inv_call|].
  intros ?. by apply hoare_ret.
Qed.

Lemma stop_each_repo l (w : AcWorld) :
  ac_repo (for_each l (fun kv : AgentID * Handle => stop_sub_agent kv.2) w).2 = ac_repo w.
Proof. revert w. induction l as [|kv l IH]; intros w; [done|]. exact (IH (stop_sub_agent kv.2 w).2). Qed.

Lemma loop_post_shutdown reason d : hoare (loop_inv d) (shutdown reason) loop_post.
Proof.
  unfold shutdown. eapply hoare_bind; [by apply loop_inv_perform|]. intros ?.
  eapply (hoare_bind _ _ _ (fun _ => loop_post (AcShutdown reason))); [|intros ?; by apply hoare_ret].
  intros w [Hr [Ht _]]. split; [|by apply stop_all_spec]. unfold stop_all. by rewrite stop_each_repo.
Qed.

Lemma loop_post_process_event ev d :
  has_content ev = true -> has_client self = true -> client_ok -> agents_ok ->
  hoare (loop_inv d) (process_event ev d) loop_post.
Proof.
  intros Hev Hcl Hc Hok.
  destruct ev as [[[c| |code reason]|]|[[h|a|]|]| | |]; cbn [process_event]; simpl in Hev;
    try (by apply hoare_ret); try apply loop_post_shutdown.
  - rewrite Hcl. eapply hoare_bind; [apply loop_inv_handle; [by destruct (is_agent_configs_empty c)|done..]|].
    intros r. by apply hoare_ret.
  - eapply hoare_bind; [by apply loop_inv_perform|]. intros ?. by apply hoare_ret.
  - eapply hoare_bind; [by apply loop_inv_perform|]. intros ?. by apply hoare_ret.
  - eapply (hoare_bind _ _ _ (fun _ => loop_inv d)); [|intros ?; by apply hoare_ret].
    unfold report_health. eapply hoare_bind; [by apply loop_inv_if_client|].
    intros ?. by apply loop_inv_perform.
  - eapply hoare_bind; [by apply loop_inv_if_client|]. intros ?.
    eapply hoare_bind; [by apply loop_inv_perform|]. intros ?. by apply hoare_ret.
  - eapply hoare_bind; [by apply loop_inv_call|]. intros ?. by apply hoare_ret.
Qed.

Lemma loop_post_process_events evs d :
  Forall (fun ev => has_content ev = true) evs ->
  has_client self = true -> client_ok -> agents_ok ->
  hoare (loop_inv d) (process_events evs d) loop_post.
Proof.
  intros Hevs Hcl Hc Hok. revert d. induction Hevs as [|ev evs Hev Hevs IH]; intros d;
    cbn [process_events]; [by apply hoare_ret|].
  eapply hoare_bind; [by apply loop_post_process_event|].
  intros [d'| |]; [apply IH|by apply hoare_ret..].
Qed.

(** Starting the agents is applying their configuration to an empty collection. *)
Lemma build_and_run_as_apply sub_agents (w : AcWorld) :
  build_and_run_sub_agents sub_agents w = apply_remote_config_agents ∅ sub_agents w.
Proof.
  unfold build_and_run_sub_agents, apply_remote_config_agents, sub_agents_difference.
  rewrite entries_empty. unfold bind; simpl. unfold ret.
  assert (forall l, collect_errors l (fun '(agent_id, agent_config) =>
      fun w => (let '(r, w') := build_and_run_sub_agent (identity_of agent_id agent_config) w in
                 (error_of agent_id r, w'))) w =
    collect_errors l (apply_agent ∅) w) as Heq.
  { intros l. revert w. induction l as [|[a cfg] l IH]; intros w; [done|]. simpl. unfold bind, ret.
    unfold apply_agent at 1, bind, ret. rewrite lookup_empty.
    destruct (build_and_run_sub_agent (identity_of a cfg) w) as [r w']. by rewrite IH. }
  rewrite Heq. destruct (collect_errors _ _ w). by rewrite app_nil_r.
Qed.

(** The state the stored configuration gets after the start. *)
Definition started_state (built : result unit AgentControlError) : ConfigState :=
  match built with
  | Err err => Failed ("Failed to build and start agents: " +:+ show_ac_error err)
  | Ok _ => Applied
  end.

Lemma reconcile_state_ok built w :
  has_client self = true -> client_ok -> reliable (ac_repo w) ->
  exists r' log,
    reconcile_state built w =
      (Ok tt, {| ac_repo := r'; running_sub_agents := running_sub_agents w; ac_log := log |}) /\
    reliable r' /\ live log = live (ac_log w) /\ length (ac_log w) <= length log /\
    remote_of r' AgentId.AgentControl =
      (fun rc => with_state rc (started_state built)) <$> remote_of (ac_repo w) AgentId.AgentControl /\
    ac_statuses log =
      match remote_of (ac_repo w) AgentId.AgentControl with
      | Some rc => if bool_decide (state rc = started_state built) then []
                   else [report_status (started_state built) (hash rc)]
      | None => []
      end ++ ac_statuses (ac_log w).
Proof.
  intros Hcl Hc Hrel. unfold reconcile_state. rewrite Hcl. fold (started_state built).
  unfold bind, bind_try, ac_on_repo, store_get_remote_config, map_err_m.
  destruct (get_remote_config AgentId.AgentControl (ac_repo w)) as [res r1] eqn:Hg; simpl.
  apply get_remote_config_spec in Hg as (Hr1 & _ & _ & Ho & Hrel1).
  destruct (Hrel1 Hrel) as [Hrel1' Hok]. destruct res as [o|]; [|done].
  rewrite <-(Ho _ eq_refl). simpl. destruct o as [rc|]; simpl.
  2:{ unfold ret. rewrite client_call_ok by done. simpl. do 2 eexists. split; [done|].
      split_and!; simpl; [done..|lia| |done]. rewrite Hr1. by rewrite <-(Ho _ eq_refl). }
  case_bool_decide as Hst; unfold ret.
  - rewrite client_call_ok by done. simpl. do 2 eexists. split; [done|].
    split_and!; simpl; [done..|lia| |done]. rewrite Hr1, <-(Ho _ eq_refl), <-Hst. by destruct rc.
  - rewrite Hc. unfold store_call, map_err_m, ac_on_repo, store_update_state, map_err_m. simpl.
    destruct (update_state _ _ _ r1) as [res r2] eqn:Hu; simpl.
    apply update_state_spec in Hu as (_ & _ & _ & Hs & _ & Hrel2).
    assert (remote_of r1 AgentId.AgentControl = Some rc) as Hrc by by rewrite Hr1, <-(Ho _ eq_refl).
    destruct (Hrel2 I Hrel1') as [Hrel2' [->|[Hn _]]]; [|congruence]. simpl.
    rewrite client_call_ok by done. simpl. do 2 eexists. split; [done|].
    split_and!; simpl; [done..|lia| |done]. destruct (Hs eq_refl) as (rc' & ? & ->). congruence.
Qed.

Lemma start_agents_state d r0 :
  agents_ok -> reliable r0 ->
  let '(built, w) := build_and_run_sub_agents (agents d)
    {| ac_repo := r0; running_sub_agents := ∅; ac_log := [] |} in
  built = Ok tt /\ loop_inv d w.
Proof.
  intros Hok Hr. rewrite build_and_run_as_apply. set (w0 := {| ac_repo := r0 |}).
  assert (tracks w0 /\ matches ∅ w0) as Hw0.
  { split; [|by intros a; rewrite lookup_empty]. split_and!; [done| |].
    - intros n a Hn. simpl in Hn. by rewrite lookup_empty in Hn.
    - intros n _. apply lookup_empty. }
  pose proof (apply_agents_spec ∅ (agents d) w0 Hw0) as (Ht & (errs & Hres & Ha) & Hok1).
  pose proof (seen_is_apply_agents (seen w0) ∅ (agents d) w0 eq_refl) as [[= Hrep _] _].
  destruct (apply_remote_config_agents ∅ (agents d) w0) as [res w1]; simpl in *.
  specialize (Hok1 Hok). subst res. split; [done|]. split; [by rewrite Hrep|]. split; [done|].
  destruct errs; [|done]. by apply applied_agents_nil.
Qed.

(** ** Properties *)

(** C3: applying a configuration to a collection that runs the current one.  No sub-agent
    thread is lost: afterwards the live threads are exactly those in the collection.  An
    agent whose entry does not change keeps the thread it had.  If the result is [Ok], exactly
    the agents of the new configuration run, each with its new type.  Otherwise the result
    lists the failures; an agent of the new configuration either runs with its new type or
    does not run and is in the list, and no other agent runs. *)
Theorem apply_remote_config_agents_spec current new w :
  tracks w -> matches current w ->
  let '(r, w') := apply_remote_config_agents current new w in
  tracks w' /\
  (forall a cfg, current !! a = Some cfg -> new !! a = Some cfg ->
     running_sub_agents w' !! a = running_sub_agents w !! a) /\
  match r with
  | Ok _ => matches new w'
  | Err (BuildingSubagents errors) => errors <> [] /\ applied_agents new errors w'
  | Err _ => False
  end.
Proof.
  intros Ht Hm.
  pose proof (apply_agents_spec current new w (conj Ht Hm)) as (Ht' & (errs & Hr & Ha) & _).
  pose proof (fun a cfg Hc Hn =>
    handle_is_apply_agents current new a cfg (running_sub_agents w !! a) Hc Hn w eq_refl) as Hk.
  unfold handle_is in Hk. destruct (apply_remote_config_agents current new w) as [r w'].
  simpl in *. split_and!; [done..|]. rewrite Hr. destruct errs as [|e errs]; simpl; [|done].
  by apply applied_agents_nil.
Qed.

(** After the start, the kept configuration has the state of the start ([Applied], or
    [Failed] with the agents that could not be built), and this state is reported exactly
    when it is not the one that was kept. *)
Theorem reconcile_state_spec built w :
  has_client self = true -> client_ok -> reliable (ac_repo w) ->
  let '(r, w') := reconcile_state built w in
  r = Ok tt /\ running_sub_agents w' = running_sub_agents w /\
  match remote_of (ac_repo w) AgentId.AgentControl with
  | None =>
      remote_of (ac_repo w') AgentId.AgentControl = None /\
      ac_statuses (ac_log w') = ac_statuses (ac_log w)
  | Some rc =>
      remote_of (ac_repo w') AgentId.AgentControl = Some (with_state rc (started_state built)) /\
      ac_statuses (ac_log w') =
        (if bool_decide (state rc = started_state built) then []
         else [report_status (started_state built) (hash rc)]) ++ ac_statuses (ac_log w)
  end.
Proof.
  intros Hcl Hc Hr. destruct (reconcile_state_ok built w Hcl Hc Hr)
    as (r' & log & -> & _ & _ & _ & Hrc & Hst). simpl. rewrite Hrc, Hst.
  by destruct (remote_of (ac_repo w) AgentId.AgentControl).
Qed.



End AgentControl.

(** ** Concrete runs *)

(** Everything works, but the resource cleaner as told. *)
Definition example_ac_env (cleans : bool) : AcEnv (Attributes := unit) := {|
  ac_build := fun _ _ => Ok tt;
  ac_clean := fun _ _ _ => if cleans then Ok tt else Err "cannot clean";
  ac_update := fun _ _ => Ok tt;
  ac_retry := fun _ => Ok tt;
  ac_client := fun _ _ => Ok tt;
  ac_validate_remote := fun _ _ => Ok tt;
  ac_validate_dynamic := fun _ _ => Ok tt;
|}.

Definition example_dynamic (names : list string) : AgentControlDynamicConfig := {|
  agents := list_to_map (map (fun n => (AgentId.SubAgent n, {| agent_type := example_id |})) names);
  ac_version := None; chart_version := None; cd_chart_version := None;
|}.

Definition example_ac (names : list string) : AgentControl := {|
  has_client := true;
  initial_config := {| static := tt; dynamic := example_dynamic names |};
|}.

(** A remote configuration with the names of the agents to run. *)
Definition example_ac_remote (h : Hash) (names : string) : OpampRemoteConfig := {|
  agent_id := AgentId.AgentControl; RemoteConfig.hash := h; RemoteConfig.state := Applying;
  signatures := None; config_map := {["agentConfig" := names]};
|}.

Definition example_ac_world : AcWorld (Attributes := unit) :=
  {| ac_repo := names_repo ∅ "a"; running_sub_agents := ∅; ac_log := [] |}.

(** The threads of an agent that are alive. *)
Definition live_threads (n : string) (w : AcWorld (Attributes := unit) (R := ConfigRepo MemStore)) :
  nat :=
  length (List.filter (fun kv => bool_decide (kv.2 = AgentId.SubAgent n)) (map_to_list (live (ac_log w)))).

Abbreviation example_handle c w := (ac_handle_remote_config (example_ac_env true) names_build_config
  c (example_dynamic ["a"]) w).

(** Agent [a] runs. *)
Definition example_started : AcWorld (Attributes := unit) (R := ConfigRepo MemStore) := {|
  ac_repo := names_repo ∅ "a";
  running_sub_agents :=
    {[AgentId.SubAgent "a" := {| handle_id := 0; handle_identity := example_identity |}]};
  ac_log := [AgentRunning 0 example_identity];
|}.

Lemma example_started_tracks : tracks example_started.
Proof.
  split_and!; simpl.
  - intros a h [<- <-]%lookup_singleton_Some. reflexivity.
  - intros n a Hn. apply lookup_insert_Some in Hn as [[<- <-]|[_ Hn]].
    + eexists. split; [apply lookup_singleton_eq|reflexivity].
    + by rewrite lookup_empty in Hn.
  - intros n Hn. rewrite lookup_insert_ne by lia. apply lookup_empty.
Qed.

Lemma example_started_matches : matches (agents (example_dynamic ["a"])) example_started.
Proof.
  intros a. unfold runs, example_dynamic; simpl. rewrite insert_empty.
  destruct (decide (a = AgentId.SubAgent "a")) as [->|Hne].
  - rewrite !lookup_singleton_eq. reflexivity.
  - rewrite !lookup_singleton_ne by congruence. reflexivity.
Qed.

Lemma apply_remote_config_agents_spec_witness :
  let '(r, w') := apply_remote_config_agents (example_ac_env true)
    (agents (example_dynamic ["a"])) (agents (example_dynamic ["b"])) example_started in
  tracks w' /\ r = Ok tt /\ matches (agents (example_dynamic ["b"])) w'.
Proof.
  pose proof (apply_remote_config_agents_spec (example_ac_env true)
    (agents (example_dynamic ["a"])) (agents (example_dynamic ["b"])) example_started
    example_started_tracks example_started_matches) as H.
  pose (r := (apply_remote_config_agents (example_ac_env true)
    (agents (example_dynamic ["a"])) (agents (example_dynamic ["b"])) example_started).1).
  assert (r = Ok tt) as Hr by (vm_compute; reflexivity). unfold r in Hr.
  destruct (apply_remote_config_agents _ _ _ _) as [r' w']; simpl in *. subst r'.
  destruct H as (Ht & _ & Hm). split; [exact Ht|]. split; [reflexivity|exact Hm].
Defined.


Lemma reset_to_local_never_applied_witness :
  let '(r, w') := example_handle (example_ac_remote "h" "") example_started in
  is_ok r = false /\
  exists new, ac_statuses (ac_log w') = new ++ ac_statuses (ac_log example_started) /\
    report_status Applied "h" ∉ new.
Proof.
  exact (reset_to_local_never_applied (example_ac_env true) names_build_config
    (example_ac_remote "h" "") (example_dynamic ["a"]) example_started eq_refl).
Defined.

Lemma reconcile_state_spec_witness :
  let '(r, w') := reconcile_state (example_ac_env true) (example_ac ["a"]) (Ok tt)
    example_started in
  r = Ok tt /\ running_sub_agents w' = running_sub_agents example_started /\
  remote_of (ac_repo w') AgentId.AgentControl = None /\
  ac_statuses (ac_log w') = ac_statuses (ac_log example_started).
Proof.
  exact (reconcile_state_spec (example_ac_env true) (example_ac ["a"]) (Ok tt)
    example_started eq_refl (fun _ _ => eq_refl) (Forall_nil_2 _)).
Defined.

(** Agent [a] is replaced by [b], then the program is stopped. *)
Definition example_events : list (AcEvent (Attributes := unit)) :=
  [AcFromOpAMP (Some (RemoteConfigReceived (example_ac_remote "h" "b"))); AcFromApplication].

Lemma example_events_content : Forall (fun ev => has_content ev = true) example_events.
Proof. by repeat constructor. Qed.



