(* ===== verification/Status.v ===== *)
(** * The status served over HTTP

    Models [agent_control/http_server/status.rs] and
    [agent_control/http_server/status_updater.rs]: the status of Agent Control, of the
    connection to the fleet and of every sub-agent, and the loop that keeps it up to date from
    the events of Agent Control and of the sub-agents.  A floating point value of an agent
    description is its text. *)

From Stdlib Require Import Ascii String Strings.Byte ZArith.
From stdpp Require Import base option list strings gmap.
From S2P Require Import Prelude RustString AgentId AgentTypeId Health SubAgent AgentControl.

(** ** Agent descriptions *)

(** [opamp_client]'s [DescriptionValueType] and [AgentDescription] *)
Inductive DescriptionValueType : Type :=
| DescString (s : string)
| DescInt (z : Z)
| DescBool (b : bool)
| DescFloat (text : string)
| DescBytes (l : list byte).

Record AgentDescription : Type := {
  identifying_attributes : gmap string DescriptionValueType;
  non_identifying_attributes : gmap string DescriptionValueType;
}.

Abbreviation AgentAttributes := (gmap string string).

Definition IDENTIFYING_ATTRIBUTES_PREFIX : string := "identifying".
Definition NON_IDENTIFYING_ATTRIBUTES_PREFIX : string := "non-identifying".

(** [i64::to_string] *)
Definition show_Z (z : Z) : string :=
  if (z <? 0)%Z then "-" +:+ show_N (Z.to_N (- z)) else show_N (Z.to_N z).

Definition hex_digit (n : N) : ascii := if (n <? 10)%N then digit n else ascii_of_N (87 + n).

(** [{b:02x}] *)
Definition show_hex (b : byte) : string :=
  let n := Byte.to_N b in
  String (hex_digit (n / 16)) (String (hex_digit (n mod 16)) EmptyString).

Definition encode_description_value (v : DescriptionValueType) : string :=
  match v with
  | DescString s => s
  | DescInt z => show_Z z
  | DescBool b => if b then "true" else "false"
  | DescFloat text => text
  | DescBytes l => fold_left (fun acc b => acc +:+ show_hex b) l ""
  end.

Definition prefixed (prefix k : string) : string := prefix +:+ "/" +:+ k.

Definition encode_attributes (attributes : gmap string DescriptionValueType) (prefix : string) :
  gmap string string :=
  kmap (prefixed prefix) (encode_description_value <$> attributes).

Definition build_agent_attributes (d : AgentDescription) : AgentAttributes :=
  encode_attributes (identifying_attributes d) IDENTIFYING_ATTRIBUTES_PREFIX
  ∪ encode_attributes (non_identifying_attributes d) NON_IDENTIFYING_ATTRIBUTES_PREFIX.

(** ** The status *)

Section Status.
Context `{SV : SemVer}.

Record AgentControlStatus : Type := {
  ac_healthy : bool;
  ac_last_error : option string;
  ac_status : string;
  ac_attributes : AgentAttributes;
}.

Record OpAMPStatus : Type := {
  enabled : bool;
  endpoint : option string;
  reachable : bool;
  error_code : option N;
  error_message : option string;
}.

Record HealthInfo : Type := {
  info_healthy : bool;
  info_last_error : option string;
  info_status : string;
  info_start_time_unix_nano : N;
  info_status_time_unix_nano : N;
}.

Record SubAgentStatus : Type := {
  status_agent_id : AgentID;
  status_agent_type : AgentTypeID;
  agent_start_time_unix_nano : N;
  health_info : option HealthInfo;
  attributes : AgentAttributes;
}.

Record Status : Type := {
  agent_control : AgentControlStatus;
  fleet : OpAMPStatus;
  agents : gmap AgentID SubAgentStatus;
}.

(** [as_nanos() as u64]; a time before the epoch counts as zero. *)
Definition time_to_unix_timestamp (time : SystemTime) : N := (Z.to_N time mod u64_bound)%N.

Definition set_health (s : AgentControlStatus) (h : HealthWithStartTime) : AgentControlStatus :=
  match health h with
  | IsHealthy h =>
      {| ac_healthy := true; ac_last_error := None; ac_status := healthy_status h;
         ac_attributes := ac_attributes s |}
  | IsUnhealthy u =>
      {| ac_healthy := false; ac_last_error := Some (unhealthy_last_error u);
         ac_status := unhealthy_status u; ac_attributes := ac_attributes s |}
  end.

Definition set_reachable (s : OpAMPStatus) : OpAMPStatus :=
  {| enabled := enabled s; endpoint := endpoint s; reachable := true;
     error_code := None; error_message := None |}.

Definition set_unreachable (s : OpAMPStatus) (code : option N) (message : string) : OpAMPStatus :=
  {| enabled := enabled s; endpoint := endpoint s; reachable := false;
     error_code := code; error_message := Some message |}.

Definition with_identity (i : AgentIdentity) : SubAgentStatus :=
  {| status_agent_id := id i; status_agent_type := agent_type_id i;
     agent_start_time_unix_nano := 0; health_info := None; attributes := ∅ |}.

Definition with_start_time (s : SubAgentStatus) (t : SystemTime) : SubAgentStatus :=
  {| status_agent_id := status_agent_id s; status_agent_type := status_agent_type s;
     agent_start_time_unix_nano := time_to_unix_timestamp t;
     health_info := health_info s; attributes := attributes s |}.

Definition health_info_of (h : HealthWithStartTime) : HealthInfo :=
  {| info_healthy := is_healthy h; info_last_error := last_error h;
     info_status := health_status h;
     info_start_time_unix_nano := time_to_unix_timestamp (start_time h);
     info_status_time_unix_nano := time_to_unix_timestamp (status_time h) |}.

Definition update_health (s : SubAgentStatus) (h : HealthWithStartTime) : SubAgentStatus :=
  {| status_agent_id := status_agent_id s; status_agent_type := status_agent_type s;
     agent_start_time_unix_nano := agent_start_time_unix_nano s;
     health_info := Some (health_info_of h); attributes := attributes s |}.

Definition extend_attributes (s : SubAgentStatus) (a : AgentAttributes) : SubAgentStatus :=
  {| status_agent_id := status_agent_id s; status_agent_type := status_agent_type s;
     agent_start_time_unix_nano := agent_start_time_unix_nano s;
     health_info := health_info s; attributes := a ∪ attributes s |}.

Definition with_opamp (s : Status) (url : string) : Status :=
  {| agent_control := agent_control s;
     fleet := {| enabled := true; endpoint := Some url; reachable := reachable (fleet s);
                 error_code := error_code (fleet s); error_message := error_message (fleet s) |};
     agents := agents s |}.

(** ** Updates ([status_updater.rs]) *)

Abbreviation ac_event := (AgentControlEvent (Attributes := AgentDescription)).
Abbreviation sub_event := (SubAgentEvent (Attributes := AgentDescription)).

Definition set_agent_control (s : Status) (c : AgentControlStatus) : Status :=
  {| agent_control := c; fleet := fleet s; agents := agents s |}.

Definition set_fleet (s : Status) (f : OpAMPStatus) : Status :=
  {| agent_control := agent_control s; fleet := f; agents := agents s |}.

Definition set_agents (s : Status) (m : gmap AgentID SubAgentStatus) : Status :=
  {| agent_control := agent_control s; fleet := fleet s; agents := m |}.

(** [None] is the panic of [unreachable!]. *)
Definition update_agent_control_status (ev : ac_event) (s : Status) : option Status :=
  match ev with
  | AcHealthUpdated h => Some (set_agent_control s (set_health (agent_control s) h))
  | SubAgentRemoved i => Some (set_agents s (delete i (agents s)))
  | AgentControlStopped => None
  | OpAMPConnected => Some (set_fleet s (set_reachable (fleet s)))
  | OpAMPConnectFailed code message =>
      Some (set_fleet s (set_unreachable (fleet s) code message))
  | AcDescriptionUpdated d =>
      let c := agent_control s in
      Some (set_agent_control s
        {| ac_healthy := ac_healthy c; ac_last_error := ac_last_error c; ac_status := ac_status c;
           ac_attributes := build_agent_attributes d ∪ ac_attributes c |})
  end.

Definition update_sub_agent_status (ev : sub_event) (s : Status) : Status :=
  match ev with
  | HealthUpdated i h =>
      let entry := default (with_start_time (with_identity i) (start_time h)) (agents s !! id i) in
      set_agents s (<[id i := update_health entry h]> (agents s))
  | SubAgentStarted i t =>
      let entry := default (with_start_time (with_identity i) t) (agents s !! id i) in
      set_agents s (<[id i := entry]> (agents s))
  | AgentDescriptionUpdated i d =>
      let entry := default (with_identity i) (agents s !! id i) in
      set_agents s (<[id i := extend_attributes entry (build_agent_attributes d)]> (agents s))
  end.

(** What the loop receives; [None] is a closed channel. *)
Inductive StatusEvent : Type :=
| FromAgentControl (ev : option ac_event)
| FromSubAgents (ev : option sub_event).

Inductive StatusFlow : Type :=
| Waiting (s : Status)
| Stopped (s : Status)
| Panicked.

(** [on_agent_control_event_update_status] *)
Fixpoint update_loop (evs : list StatusEvent) (s : Status) : StatusFlow :=
  match evs with
  | [] => Waiting s
  | FromAgentControl (Some AgentControlStopped) :: _ => Stopped s
  | FromAgentControl (Some ev) :: evs =>
      match update_agent_control_status ev s with
      | Some s => update_loop evs s
      | None => Panicked
      end
  | FromAgentControl None :: _ => Stopped s
  | FromSubAgents (Some ev) :: evs => update_loop evs (update_sub_agent_status ev s)
  | FromSubAgents None :: _ => Stopped s
  end.

(** ** Reference: the entry of a sub-agent from its history *)

Definition event_identity (ev : sub_event) : AgentIdentity :=
  match ev with
  | HealthUpdated i _ | SubAgentStarted i _ | AgentDescriptionUpdated i _ => i
  end.

(** The events the loop processes before it ends. *)
Fixpoint until_stop (evs : list StatusEvent) : list StatusEvent :=
  match evs with
  | [] => []
  | FromAgentControl (Some AgentControlStopped) :: _ => []
  | FromAgentControl None :: _ | FromSubAgents None :: _ => []
  | ev :: evs => ev :: until_stop evs
  end.

(** The events of a sub-agent since it was last removed. *)
Definition since_removal_step (a : AgentID) (acc : list sub_event) (ev : StatusEvent) :
  list sub_event :=
  match ev with
  | FromAgentControl (Some (SubAgentRemoved i)) => if decide (i = a) then [] else acc
  | FromSubAgents (Some ev) => if decide (id (event_identity ev) = a) then acc ++ [ev] else acc
  | _ => acc
  end.

Definition since_removal (a : AgentID) (evs : list StatusEvent) : list sub_event :=
  fold_left (since_removal_step a) evs [].

Definition first_seen (ev : sub_event) : N :=
  match ev with
  | HealthUpdated _ h => time_to_unix_timestamp (start_time h)
  | SubAgentStarted _ t => time_to_unix_timestamp t
  | AgentDescriptionUpdated _ _ => 0
  end.

Definition last_health (l : list sub_event) : option HealthInfo :=
  last (omap (fun ev => match ev with HealthUpdated _ h => Some (health_info_of h) | _ => None end) l).

Definition all_attributes (l : list sub_event) : AgentAttributes :=
  fold_left (fun acc ev =>
    match ev with
    | AgentDescriptionUpdated _ d => build_agent_attributes d ∪ acc
    | _ => acc
    end) l ∅.

(** Identity and start from the first event, health from the last report, attributes from
    all descriptions with the later ones on top. *)
Definition agent_entry (l : list sub_event) : option SubAgentStatus :=
  match l with
  | [] => None
  | ev :: _ =>
      Some {| status_agent_id := id (event_identity ev);
              status_agent_type := agent_type_id (event_identity ev);
              agent_start_time_unix_nano := first_seen ev;
              health_info := last_health l;
              attributes := all_attributes l |}
  end.

Definition flow_status (f : StatusFlow) : option Status :=
  match f with Waiting s | Stopped s => Some s | Panicked => None end.

Lemma agent_entry_snoc l ev :
  agent_entry (l ++ [ev]) =
  match ev with
  | HealthUpdated i h =>
      Some (update_health (default (with_start_time (with_identity i) (start_time h)) (agent_entry l)) h)
  | SubAgentStarted i t =>
      Some (default (with_start_time (with_identity i) t) (agent_entry l))
  | AgentDescriptionUpdated i d =>
      Some (extend_attributes (default (with_identity i) (agent_entry l)) (build_agent_attributes d))
  end.
Proof.
  destruct l as [|e l]; [by destruct ev|]. simpl.
  assert (last_health (e :: l ++ [ev]) =
    match ev with HealthUpdated _ h => Some (health_info_of h) | _ => last_health (e :: l) end) as ->.
  { change (e :: l ++ [ev]) with ((e :: l) ++ [ev]). unfold last_health. rewrite omap_app.
    destruct ev; simpl; rewrite ?app_nil_r, ?last_snoc; done. }
  assert (all_attributes (e :: l ++ [ev]) =
    match ev with
    | AgentDescriptionUpdated _ d => build_agent_attributes d ∪ all_attributes (e :: l)
    | _ => all_attributes (e :: l)
    end) as ->.
  { change (e :: l ++ [ev]) with ((e :: l) ++ [ev]). unfold all_attributes.
    rewrite fold_left_app. by destruct ev. }
  by destruct ev.
Qed.

Lemma update_sub_agent_entry ev s a l :
  agents s !! a = agent_entry l ->
  agents (update_sub_agent_status ev s) !! a =
  agent_entry (since_removal_step a l (FromSubAgents (Some ev))).
Proof.
  intros Hl. simpl. destruct (decide (id (event_identity ev) = a)) as [<-|Hne].
  - rewrite agent_entry_snoc. destruct ev; simpl in *; by rewrite lookup_insert_eq, Hl.
  - destruct ev; simpl in *; by rewrite lookup_insert_ne.
Qed.

Lemma update_loop_entry evs s a l :
  agents s !! a = agent_entry l ->
  exists s', flow_status (update_loop evs s) = Some s' /\
    agents s' !! a = agent_entry (fold_left (since_removal_step a) (until_stop evs) l).
Proof.
  revert s l. induction evs as [|ev evs IH]; intros s l Hl; [by exists s|].
  destruct ev as [[[h|i| |d| |c m]|]|[ev|]]; simpl; try (by exists s); try (by apply IH).
  - destruct (decide (i = a)) as [->|]; apply IH; simpl;
      by rewrite ?lookup_delete_eq, ?lookup_delete_ne.
  - apply IH, update_sub_agent_entry, Hl.
Qed.

End Status.
(** ** Properties *)

#[local] Instance prefixed_inj prefix : Inj (=) (=) (prefixed prefix).
Proof.
  intros a b E. unfold prefixed in E. induction prefix as [|c p IH]; simpl in E; [|by injection E].
  by injection E.
Qed.

Lemma prefixes_disjoint a b :
  prefixed IDENTIFYING_ATTRIBUTES_PREFIX a <> prefixed NON_IDENTIFYING_ATTRIBUTES_PREFIX b.
Proof. done. Qed.

Lemma encode_attributes_lookup m prefix k :
  encode_attributes m prefix !! prefixed prefix k = encode_description_value <$> m !! k.
Proof. unfold encode_attributes. by rewrite lookup_kmap, lookup_fmap by apply _. Qed.

Lemma encode_attributes_other m prefix k :
  (forall j, k <> prefixed prefix j) -> encode_attributes m prefix !! k = None.
Proof.
  intros Hk. apply lookup_kmap_None; [apply _|]. intros j ->. by destruct (Hk j).
Qed.

(** The attributes of a description never hide one another: whatever names the
    identifying and the other attributes share, both are served, each under its prefix. *)
Theorem agent_attributes_all_served (d : AgentDescription) k :
  build_agent_attributes d !! prefixed IDENTIFYING_ATTRIBUTES_PREFIX k =
    encode_description_value <$> identifying_attributes d !! k /\
  build_agent_attributes d !! prefixed NON_IDENTIFYING_ATTRIBUTES_PREFIX k =
    encode_description_value <$> non_identifying_attributes d !! k.
Proof.
  unfold build_agent_attributes. split.
  - rewrite lookup_union_l; [apply encode_attributes_lookup|].
    apply encode_attributes_other. apply prefixes_disjoint.
  - rewrite lookup_union_r; [apply encode_attributes_lookup|].
    apply encode_attributes_other. intros j E. by apply (prefixes_disjoint j k).
Qed.

Section StatusProperties.
Context `{SV : SemVer}.

(** C37: the loop never panics, and what it serves of a sub-agent is what its history says:
    nothing if it was not heard of since it was removed, otherwise the identity and start of
    its first event since then, its last reported health and all its attributes. *)
Theorem status_follows_history (s : Status) evs a :
  exists s', flow_status (update_loop evs (set_agents s ∅)) = Some s' /\
    agents s' !! a = agent_entry (since_removal a (until_stop evs)).
Proof. by apply update_loop_entry. Qed.

(** What the documentation of the status promises: the errors of the connection are present
    only while it is not reachable, Agent Control has an error exactly when it is not healthy,
    and sub-agents are served under their own identifier. *)
Definition status_wf (s : Status) : Prop :=
  (reachable (fleet s) = true -> error_code (fleet s) = None /\ error_message (fleet s) = None) /\
  (ac_healthy (agent_control s) = true -> ac_last_error (agent_control s) = None) /\
  map_Forall (fun a e => status_agent_id e = a) (agents s).

Lemma status_wf_sub_agent ev s : status_wf s -> status_wf (update_sub_agent_status ev s).
Proof.
  intros (Hf & Hc & Ha). destruct ev as [i h|i t|i d]; (split; [done|split; [done|]]); simpl;
    (apply map_Forall_insert_2; [|done]);
    (destruct (agents s !! id i) as [e|] eqn:E; simpl; [by apply (Ha _ _ E)|done]).
Qed.

Lemma status_wf_agent_control ev s s' :
  update_agent_control_status ev s = Some s' -> status_wf s -> status_wf s'.
Proof.
  intros E (Hf & Hc & Ha). destruct ev as [h| | | | |]; simpl in E; simplify_eq; try done.
  - unfold set_health. by destruct (health h).
  - split; [done|split; [done|]]. by apply map_Forall_delete.
Qed.

(** Every event keeps the status well formed. *)
Theorem status_loop_invariant evs s s' :
  status_wf s -> flow_status (update_loop evs s) = Some s' -> status_wf s'.
Proof.
  revert s. induction evs as [|ev evs IH]; intros s Hs; simpl; [by intros [= <-]|].
  destruct ev as [[ev|]|[ev|]]; try by intros [= <-].
  - destruct (update_agent_control_status ev s) as [s1|] eqn:E;
      [|by destruct ev; simpl in E; simplify_eq; intros [= <-]].
    pose proof (status_wf_agent_control _ _ _ E Hs) as H1.
    destruct ev; simplify_eq; try (by apply IH).
  - apply IH. by apply status_wf_sub_agent.
Qed.

(** When a sub-agent is started again with another type and no removal is published,
    the type and start time that were served first stay. *)
Theorem recreated_sub_agent_keeps_type (s : Status) i t t1 t2 :
  let i2 := {| id := id i; agent_type_id := t |} in
  exists s', update_loop [FromSubAgents (Some (SubAgentStarted i t1));
                          FromSubAgents (Some (SubAgentStarted i2 t2))] (set_agents s ∅) = Waiting s' /\
    agents s' !! id i = Some (with_start_time (with_identity i) t1).
Proof. simpl. eexists. split; [done|]. simpl. by rewrite !lookup_insert_eq. Qed.

End StatusProperties.

(** ** A concrete status *)

Definition default_status `{SemVer} : Status := {|
  agent_control := {| ac_healthy := false; ac_last_error := None; ac_status := "";
                      ac_attributes := ∅ |};
  fleet := {| enabled := false; endpoint := None; reachable := false;
              error_code := None; error_message := None |};
  agents := ∅;
|}.

Lemma default_status_wf `{SemVer} : status_wf default_status.
Proof. by split; [|split; [|apply map_Forall_empty]]. Qed.

Definition connected_status : Status :=
  set_fleet default_status (set_reachable (fleet default_status)).

Lemma status_loop_invariant_witness : status_wf connected_status.
Proof.
  exact (status_loop_invariant [FromAgentControl (Some OpAMPConnected); FromAgentControl None]
    default_status connected_status default_status_wf eq_refl).
Defined.
